(* ===== verification/_CoqProject ===== *)
-Q . S2P
Prelude.v
System.v
OrdTree.v
BAVL.v
BPending.v
Interfaces.v
IfaceProtocol.v
CArith.v
ChunkBuffer2.v
PacketBuffer.v
BufferWriter.v
PacketProto.v
FairQueue.v
ParseNumber.v
NetInt.v
IpAddr.v
IpProto.v
StreamSender.v
SocksClient.v
BAddr.v
TunUdp.v
TcpRelay.v
UdpRelay.v
Md5.v
Base64.v
CString.v
HttpAuth.v
RedParser.v
RedLexer.v
RedRun.v
RedInv.v
RedErrors.v
RedText.v
RedConfig.v
RedSettings.v
RedPressure.v
RedPump.v
RedClient.v
RedSocks.v
BTime.v
ReactorTimers.v
ReactorFds.v
ReactorLimits.v
Reactor.v
