(* ===== verification/Prelude.v ===== *)
(** * tun2socks, verified

    The Android application keeps a VPN open by running the C program
    [tun2socks] of [src/app/src/main/jni/badvpn]: it reads IP packets from a TUN
    device, terminates their TCP connections with lwIP and relays each of them
    through a SOCKS5 server, and relays UDP packets through the same server.
    [redsocks] of [src/app/src/main/jni/redsocks] is the other C program: it accepts
    redirected TCP connections and relays them through a proxy.
    This development models their own code, component by component, and proves
    each component correct in its environment.

    ** The program and the files

    Everything runs in one thread.  A reactor waits for descriptors and timers
    and runs pending jobs; components call each other through interfaces whose
    operations complete later, by jobs.  From the bottom up:

    - [CArith.v]: the integer helpers of [misc/] ([balign.h], [minmax.h],
      [bsize.h], [compare.h]); [NetInt.v]: integers in memory ([byteorder.h],
      [read_write_int.h]); [ParseNumber.v]: [parse_number.h].
    - [OrdTree.v] is the interface of the balanced trees, a class of operations
      with laws over the in-order list; [BAVL.v] is [structure/BAVL.h] and
      implements it.  [ChunkBuffer2.v] is [structure/ChunkBuffer2.h].
    - [BPending.v]: [base/BPending.c], the jobs.  [BTime.v]: [system/BTime.h] and
      [overflow.h].  [Reactor.v] is the event loop, [system/BReactor_badvpn.c],
      composed of its jobs, its timers ([ReactorTimers.v], over any tree of
      [OrdTree.v]), its descriptors ([ReactorFds.v], over any [Epoll]) and its
      limits ([ReactorLimits.v]).
    - [Interfaces.v]: the four interfaces of [flow/] with the phases the other
      files rely on; [IfaceProtocol.v] their protocol.
    - [PacketBuffer.v], [BufferWriter.v], [PacketProto.v], [StreamSender.v],
      [FairQueue.v]: the components of [flow/] of the same names.
    - [IpAddr.v], [IpProto.v], [BAddr.v]: addresses and headers ([ipaddr.h],
      [ipv4_proto.h], [ipv6_proto.h], [udp_proto.h], [BAddr.h]).
    - [SocksClient.v]: [socksclient/BSocksClient.c].
    - [TunUdp.v] and [TcpRelay.v]: [tun2socks/tun2socks.c], the packets of the
      device and the TCP connections; [UdpRelay.v]: [SocksUdpGwClient.c], the UDP
      relay.
    - [redsocks]: [Md5.v], [Base64.v] and [HttpAuth.v] are the files of those names,
      the authentication with an HTTP proxy.  [CString.v] has the C library's
      functions on strings.  [RedParser.v] is [parser.c]: the buffer that is filled
      line by line, the scanner, sections and values.  [RedLexer.v] is its reference,
      a lexer of the whole text; [RedRun.v] shows that [parser_run] refines it,
      [RedInv.v] and [RedErrors.v] what holds after a run and when it is refused.
      [RedConfig.v] is the section [base] of [base.c] and [redsocks] of [redsocks.c];
      [RedText.v] and [RedSettings.v] write all settings as a text that is read back.
    - [RedPressure.v] and [RedPump.v] are parts of [redsocks.c]: accepting, the limit
      of connections and the back-off of the listeners; and the relay between two
      sockets by [splice].

    ** How the code is modelled

    A structure is a record, its pointers are offsets or addresses into memory
    that is part of the state, and a C integer is a [Z] whose wrap-around is
    written out where it can happen.  A function that changes state is a program
    of the monad [M S E A] of this file: it passes the state [S] on, records
    outgoing calls as events [E], and has no result after a failed [ASSERT], an
    access out of bounds, or a use of something freed.  A handler is one
    definition with the guards and the order of the code, and calls other
    components by [zoom]ing into their part of the state.

    A component in its environment is a [System] ([System.v]): the actions the
    environment can take, when its contract allows them, and the handler each
    one runs.  [safe w] says that no allowed sequence of actions from [w] meets
    a failed assertion or undefined behaviour, [reach w tr w'] that one leads to
    [w'] with the events [tr]; theorems about a component state [safe] and what
    holds of the events and the states reached, so they cover every interleaving
    of jobs, partial transfers, failures and calls of the user.  Invariants are
    proved by rule induction ([reach_inv]), over the events themselves or over a
    monitor that computes a ghost state from them ([wph], [monitor_reach]).

    The theorems show, per component: that it is [safe]; that it does what its
    specification says (a stack of jobs, a sorted list, a queue of packets, the
    reference dialogue of SOCKS5, exact prefixes of byte streams, timers in order
    and never early); that it never stalls; that parsers accept exactly what they should and are inverse to the
    printers; and bounds (AVL height, times and sizes that do not overflow).

    A call that blocks ends an action: the event loop stops inside
    [wait_for_events] with the state of its loop, and the return of [epoll_wait]
    is an action of the environment, whose contract is what the manual says.

    ** Fuel

    Recursion is structural wherever the code's is bounded by a list or a tree.
    The loops of the reactor that empty a tree or a list have one round more than
    it has elements; the loop around [epoll_wait] is bounded in [reactor_wait].
    The loops of [Md5.v], [Base64.v] and [HttpAuth.v] have a bound on their rounds as an
    argument, computed from what is left to do, and the theorems show that it is
    enough, since running out would have no result.  The loops of [RedParser.v]
    over lines and tokens have bounds computed from the length of the file and of
    the line; [parser_reads_text] shows that they are enough, for files below 2^29 bytes
    without NUL, since the reference lexer has its result.  The loop of
    [SocksUdpGwClient_Free] is shown to end in [udp_relay_free].
    Three functions of [TcpRelay.v] call each other at most three deep and have
    that depth as an argument: running out would be a failed assertion, so
    safety includes that they do not.

    ** Not modelled

    System calls (sockets, the TUN device, signals, logging), lwIP, libevent and
    the Android application are the environment of the models; what the code
    relies on is stated by the allowed actions.  Debug counters and log output
    are left out, assertions of debug builds are kept.  Of [redsocks] the dialogues
    with the proxy and the relay by bufferevents ([socks4.c], [socks5.c], [http-connect.c],
    [http-relay.c]), and the system calls of [base.c], [log.c], [utils.c] and [main.c] are
    not modelled; [redudp.c], [dnstc.c], [reddns.c] and [debug.c] are not in the Android build.  The other programs of the
    BadVPN suite in the same tree are not part of the Android build. *)

From Stdlib Require Export ZArith Lia Sorted.
From stdpp Require Export numbers option gmap prelude list.

Open Scope Z_scope.

(** * Record update

    A record type [R] is made updatable by an instance of [Eta R], which gives
    the record rebuilt from its own projections; [Upd proj] then finds the
    update function of the field [proj] by abstracting that projection. *)

Class Eta (R : Type) := eta : R -> R.
Class Upd {R T : Type} (proj : R -> T) := upd : (T -> T) -> R -> R.
Arguments upd {R T} proj {_} f r : simpl never.

Ltac find_upd :=
  match goal with
  | |- @Upd ?R ?T ?proj =>
      let e := constr:(_ : Eta R) in
      let b := eval cbv delta [eta] in e in
      let rec head t := lazymatch t with ?f _ => head f | _ => t end in
      let c := head b in
      let h := eval unfold c in b in
      let h := eval cbv beta in h in
      let p := eval pattern proj in h in
      match p with
      | ?F _ => let u := eval cbv beta in
                  (fun (f : T -> T) (r : R) => F (fun r' : R => f (proj r')) r) in
                exact u
      end
  end.
#[export] Hint Extern 0 (Upd _) => find_upd : typeclass_instances.

Declare Scope upd_scope.
Delimit Scope upd_scope with upd.
Notation "s <| p := v |>" := (upd p (fun _ => v) s)
  (at level 1, left associativity, p at level 9, v at level 200,
   format "s  <| p  :=  v |>") : upd_scope.
Open Scope upd_scope.

(** * The handler monad

    A handler of the program reads and writes the state [S] of its component,
    performs outgoing calls (recorded in order as events of type [E]) and may
    stop at a violated [ASSERT] or at undefined behaviour, which is [None]. *)

Definition M (S E A : Type) : Type := S -> option (A * S * list E).

Section monad.
Context {S E : Type}.

#[global] Instance M_ret : MRet (M S E) := fun A a s => Some (a, s, []).
#[global] Instance M_bind : MBind (M S E) := fun A B f m s =>
  match m s with
  | Some (a, s1, t1) =>
      match f a s1 with
      | Some (b, s2, t2) => Some (b, s2, t1 ++ t2)
      | None => None
      end
  | None => None
  end.

Definition get : M S E S := fun s => Some (s, s, []).
Definition gets {A} (f : S -> A) : M S E A := fun s => Some (f s, s, []).
Definition put (s' : S) : M S E unit := fun _ => Some (tt, s', []).
Definition modify (f : S -> S) : M S E unit := fun s => Some (tt, f s, []).
Definition emit (e : E) : M S E unit := fun s => Some (tt, s, [e]).
(** [ASSERT(b)] *)
Definition assert (b : bool) : M S E unit := fun s =>
  if b then Some (tt, s, []) else None.
(** A dereference or lookup that must succeed. *)
Definition must {A} (o : option A) : M S E A := fun s =>
  match o with Some a => Some (a, s, []) | None => None end.
(** Undefined behaviour. *)
Definition ub {A} : M S E A := fun _ => None.
Definition when (b : bool) (m : M S E unit) : M S E unit :=
  if b then m else mret tt.
End monad.

(** Run a handler of a part [proj] of the state. *)
Definition zoom {R S E A} (proj : R -> S) `{U : !Upd proj} (m : M S E A) : M R E A :=
  fun r => match m (proj r) with
           | Some (a, s, t) => Some (a, upd proj (fun _ => s) r, t)
           | None => None
           end.

(** Rename the events of a handler. *)
Definition on_events {S E F A} (h : E -> F) (m : M S E A) : M S F A :=
  fun s => match m s with
           | Some (a, s', t) => Some (a, s', h <$> t)
           | None => None
           end.

(** * Weakest preconditions

    [wp m Q s]: from [s], [m] does not stop, and its result, final state and
    events satisfy [Q]. *)

Definition wp {S E A} (m : M S E A) (Q : A -> S -> list E -> Prop) (s : S) : Prop :=
  match m s with Some (a, s', t) => Q a s' t | None => False end.

Section wp.
Context {S E : Type}.
Implicit Types s : S.

Lemma wp_ret {A} (a : A) Q s : Q a s [] -> wp (E:=E) (mret a) Q s.
Proof. done. Qed.

Lemma wp_bind {A B} (m : M S E A) (f : A -> M S E B) Q s :
  wp m (fun a s1 t1 => wp (f a) (fun b s2 t2 => Q b s2 (t1 ++ t2)) s1) s ->
  wp (m ≫= f) Q s.
Proof.
  unfold wp, mbind, M_bind. destruct (m s) as [[[a s1] t1]|]; [|done].
  by destruct (f a s1) as [[[b s2] t2]|].
Qed.

Lemma wp_unbind {A B} (m : M S E A) (f : A -> M S E B) Q s :
  wp (m ≫= f) Q s -> wp m (fun a s1 t1 => wp (f a) (fun b s2 t2 => Q b s2 (t1 ++ t2)) s1) s.
Proof.
  unfold wp, mbind, M_bind. destruct (m s) as [[[a s1] t1]|]; [|done].
  by destruct (f a s1) as [[[b s2] t2]|].
Qed.

Lemma wp_mono {A} (m : M S E A) (Q Q' : A -> S -> list E -> Prop) s :
  wp m Q s -> (forall a s' t, Q a s' t -> Q' a s' t) -> wp m Q' s.
Proof. unfold wp. destruct (m s) as [[[a s1] t1]|]; [|done]. auto. Qed.

Lemma wp_get Q s : Q s s [] -> wp (E:=E) get Q s.
Proof. done. Qed.
Lemma wp_gets {A} (f : S -> A) Q s : Q (f s) s [] -> wp (E:=E) (gets f) Q s.
Proof. done. Qed.
Lemma wp_put s' Q s : Q tt s' [] -> wp (E:=E) (put s') Q s.
Proof. done. Qed.
Lemma wp_modify (f : S -> S) Q s : Q tt (f s) [] -> wp (E:=E) (modify f) Q s.
Proof. done. Qed.
Lemma wp_emit (e : E) Q s : Q tt s [e] -> wp (emit e) Q s.
Proof. done. Qed.
Lemma wp_assert (b : bool) Q s : b = true -> Q tt s [] -> wp (E:=E) (assert b) Q s.
Proof. by intros ->. Qed.
Lemma wp_must {A} (o : option A) a Q s : o = Some a -> Q a s [] -> wp (E:=E) (must o) Q s.
Proof. by intros ->. Qed.
Lemma wp_if {A} (b : bool) (m1 m2 : M S E A) Q s :
  (b = true -> wp m1 Q s) -> (b = false -> wp m2 Q s) ->
  wp (if b then m1 else m2) Q s.
Proof. destruct b; auto. Qed.
Lemma wp_when (b : bool) (m : M S E unit) Q s :
  (b = true -> wp m Q s) -> (b = false -> Q tt s []) -> wp (when b m) Q s.
Proof. destruct b; [auto|]. intros _ H. by apply H. Qed.
Lemma wp_zoom {R A} (proj : R -> S) `{U : !Upd proj} (m : M S E A) Q (r : R) :
  wp m (fun a s t => Q a (upd proj (fun _ => s) r) t) (proj r) ->
  wp (zoom proj m) Q r.
Proof. unfold wp, zoom. by destruct (m (proj r)) as [[[a s'] t]|]. Qed.

Lemma wp_elim {A} (m : M S E A) Q s :
  wp m Q s -> exists a s' t, m s = Some (a, s', t) /\ Q a s' t.
Proof. unfold wp. destruct (m s) as [[[a s'] t]|]; [eauto 6|done]. Qed.

Lemma wp_run {A} (m : M S E A) (Q : A -> S -> list E -> Prop) s a s' t :
  wp m Q s -> m s = Some (a, s', t) -> Q a s' t.
Proof. unfold wp. intros HQ Hm. by rewrite Hm in HQ. Qed.

(** Running the first part of a handler, when nothing is reported. *)
Lemma bind_moves {A B} (m : M S E A) (f : A -> M S E B) a s s' :
  m s = Some (a, s', []) -> (m ≫= f) s = f a s'.
Proof. intros Hm. unfold mbind, M_bind. rewrite Hm. by destruct (f a s') as [[[]]|]. Qed.
End wp.

Lemma wp_on_events {S E F A} (h : E -> F) (m : M S E A) Q s :
  wp m (fun a s' t => Q a s' (h <$> t)) s -> wp (on_events h m) Q s.
Proof. unfold wp, on_events. by destruct (m s) as [[[a s'] t]|]. Qed.

(** [mstep] runs one primitive of the monad; [msteps] runs a whole handler,
    leaving the asserts, the branches and the postcondition.  A component adds
    the rules of its own operations by redefining [wp_user]. *)
Ltac wp_user := fail.
Ltac mstep :=
  lazymatch goal with
  | |- wp (mret _) _ _ => apply wp_ret
  | |- wp (mbind _ _) _ _ => apply wp_bind
  | |- wp get _ _ => apply wp_get
  | |- wp (gets _) _ _ => apply wp_gets
  | |- wp (put _) _ _ => apply wp_put
  | |- wp (modify _) _ _ => apply wp_modify
  | |- wp (emit _) _ _ => apply wp_emit
  | |- wp (assert _) _ _ => apply wp_assert
  | |- wp (must _) _ _ => eapply wp_must
  | |- wp (zoom _ _) _ _ => apply wp_zoom
  | |- wp (on_events _ _) _ _ => apply wp_on_events
  | |- wp (when _ _) _ _ => apply wp_when; intros ?
  | |- wp (if _ then _ else _) _ _ => apply wp_if; intros ?
  | |- wp _ _ _ => wp_user
  end; cbn beta.
Ltac msteps := repeat mstep.

(** [mgo_with tac]: run up to the next branch, call of another component or
    side condition that [tac] does not solve. *)
Ltac mgo_with tac :=
  repeat (lazymatch goal with
  | |- wp (assert _) _ _ => apply wp_assert; [solve [tac]|]
  | |- wp (must _) _ _ => eapply wp_must; [solve [tac]|]
  | |- wp (when true _) _ _ => cbn [when]
  | |- wp (when false _) _ _ => cbn [when]
  | |- wp (when _ _) _ _ => fail
  | |- wp (if true then _ else _) _ _ => cbn iota
  | |- wp (if false then _ else _) _ _ => cbn iota
  | |- wp (if _ then _ else _) _ _ => fail
  | |- wp _ _ _ => mstep
  end; cbn beta).

(** [p ::= v] assigns a field. *)
Notation "p ::= v" := (modify (upd p (fun _ => v))) (at level 79, v at level 78) : upd_scope.

(** * Bytes and memory *)

Abbreviation bytes := (list Z).
Definition byte_ok (b : Z) : Prop := 0 <= b < 256.
Definition bytes_ok (l : bytes) : Prop := Forall byte_ok l.

(** The length of a C array or buffer. *)
Definition zlen {A} (l : list A) : Z := Z.of_nat (length l).

(** [slice off len l]: the [len] elements at offset [off]. *)
Definition slice {A} (off len : Z) (l : list A) : list A :=
  take (Z.to_nat len) (drop (Z.to_nat off) l).

(** [memcpy]: [new] overwrites [l] from offset [off] on. *)
Definition splice {A} (off : Z) (new l : list A) : list A :=
  take (Z.to_nat off) l ++ new ++ drop (Z.to_nat (off + zlen new)) l.

(** An access [off, off+len) inside an object of [size] elements. *)
Definition in_bounds (off len size : Z) : bool :=
  (0 <=? off) && (0 <=? len) && (off + len <=? size).

(** Bounds-checked reads and writes: [None] is an out-of-bounds access. *)
Definition mem_read {A} (off len : Z) (l : list A) : option (list A) :=
  if in_bounds off len (zlen l) then Some (slice off len l) else None.
Definition mem_write {A} (off : Z) (new l : list A) : option (list A) :=
  if in_bounds off (zlen new) (zlen l) then Some (splice off new l) else None.

Lemma zlen_nonneg {A} (l : list A) : 0 <= zlen l.
Proof. unfold zlen. lia. Qed.

(** [zlia]: [lia] with the lengths in sight known to be nonnegative. *)
Ltac zlen_facts :=
  repeat match goal with
  | |- context [zlen ?l] =>
      lazymatch goal with H : 0 <= zlen l |- _ => fail | _ => pose proof (zlen_nonneg l) end
  | _ : context [zlen ?l] |- _ =>
      lazymatch goal with H : 0 <= zlen l |- _ => fail | _ => pose proof (zlen_nonneg l) end
  end.
Ltac zlia := zlen_facts; lia.

Lemma zlen_nil {A} : zlen (@nil A) = 0.
Proof. done. Qed.
Lemma zlen_cons {A} (x : A) l : zlen (x :: l) = 1 + zlen l.
Proof. unfold zlen. cbn [length]. lia. Qed.
Lemma zlen_app {A} (l1 l2 : list A) : zlen (l1 ++ l2) = zlen l1 + zlen l2.
Proof. unfold zlen. rewrite length_app. lia. Qed.
Lemma zlen_zero {A} (l : list A) : zlen l = 0 -> l = [].
Proof. destruct l; [done|]. rewrite zlen_cons. pose proof (zlen_nonneg l). lia. Qed.
Lemma zlen_take {A} n (l : list A) : 0 <= n <= zlen l -> zlen (take (Z.to_nat n) l) = n.
Proof. unfold zlen. rewrite length_take. lia. Qed.
Lemma zlen_drop {A} n (l : list A) : 0 <= n <= zlen l -> zlen (drop (Z.to_nat n) l) = zlen l - n.
Proof. unfold zlen. rewrite length_drop. lia. Qed.
Lemma zlen_slice {A} off len (l : list A) :
  0 <= off -> 0 <= len -> off + len <= zlen l -> zlen (slice off len l) = len.
Proof. unfold slice, zlen. rewrite length_take, length_drop. lia. Qed.
Lemma zlen_splice {A} off (new l : list A) :
  0 <= off -> off + zlen new <= zlen l -> zlen (splice off new l) = zlen l.
Proof.
  unfold splice, zlen. rewrite !length_app, length_take, length_drop. lia.
Qed.

Create Rewrite HintDb zlen.
#[export] Hint Rewrite @zlen_nil @zlen_cons @zlen_app : zlen.

Lemma slice_all {A} (l : list A) : slice 0 (zlen l) l = l.
Proof. unfold slice, zlen. rewrite Nat2Z.id, drop_0. apply firstn_all. Qed.
Lemma slice_app_l {A} n (l1 l2 : list A) : n = zlen l1 -> slice 0 n (l1 ++ l2) = l1.
Proof. intros ->. unfold slice, zlen. rewrite Nat2Z.id, drop_0. by rewrite take_app_length. Qed.
Lemma slice_app_r {A} off n (l1 l2 : list A) :
  off = zlen l1 -> n = zlen l2 -> slice off n (l1 ++ l2) = l2.
Proof.
  intros -> ->. unfold slice, zlen. rewrite !Nat2Z.id, drop_app_length. apply firstn_all.
Qed.
Lemma slice_app_shift {A} off n (l1 l2 : list A) :
  zlen l1 <= off -> slice off n (l1 ++ l2) = slice (off - zlen l1) n l2.
Proof.
  unfold slice, zlen. intros. rewrite drop_app_ge by lia. do 2 f_equal. lia.
Qed.
Lemma slice_slice {A} o1 n1 o2 n2 (l : list A) :
  0 <= o1 -> 0 <= o2 -> 0 <= n2 -> o2 + n2 <= n1 ->
  slice o2 n2 (slice o1 n1 l) = slice (o1 + o2) n2 l.
Proof.
  unfold slice. intros. rewrite skipn_firstn_comm, drop_drop, take_take.
  f_equal; [lia|]. f_equal. lia.
Qed.
Lemma slice_split {A} off n1 n2 (l : list A) :
  0 <= off -> 0 <= n1 -> 0 <= n2 -> off + n1 + n2 <= zlen l ->
  slice off (n1 + n2) l = slice off n1 l ++ slice (off + n1) n2 l.
Proof.
  unfold slice, zlen. intros.
  rewrite <- (take_drop (Z.to_nat n1) (take (Z.to_nat (n1 + n2)) _)).
  rewrite take_take, skipn_firstn_comm, drop_drop. f_equal.
  - f_equal. lia.
  - f_equal; [lia|]. f_equal. lia.
Qed.
Lemma slice_split_at {A} k n (l : list A) :
  0 <= k <= n -> n <= zlen l -> slice 0 n l = slice 0 k l ++ slice k (n - k) l.
Proof.
  intros. replace n with (k + (n - k)) at 1 by lia. rewrite slice_split by lia. by rewrite Z.add_0_l.
Qed.
(** Reading what was just written, and reading around it. *)
Lemma slice_splice_same {A} off n (new l : list A) :
  n = zlen new -> 0 <= off -> off + zlen new <= zlen l ->
  slice off n (splice off new l) = new.
Proof.
  intros -> ??. unfold splice. rewrite slice_app_shift by (rewrite zlen_take; zlia).
  rewrite zlen_take by zlia. rewrite Z.sub_diag. by apply slice_app_l.
Qed.
Lemma slice_splice_before {A} o n off (new l : list A) :
  0 <= o -> o + n <= off -> off <= zlen l -> slice o n (splice off new l) = slice o n l.
Proof.
  intros. destruct (decide (n <= 0)).
  { unfold slice. by replace (Z.to_nat n) with 0%nat by lia. }
  unfold splice, slice, zlen in *.
  rewrite drop_app_le by (rewrite length_take; lia).
  rewrite take_app_le by (rewrite length_drop, length_take; lia).
  rewrite skipn_firstn_comm, take_take. f_equal. lia.
Qed.
Lemma slice_splice_end {A} a n (l m : list A) :
  0 <= a -> n = a + zlen l -> n <= zlen m -> slice 0 n (splice a l m) = slice 0 a m ++ l.
Proof.
  intros Ha -> Hl. pose proof (zlen_nonneg l). rewrite slice_split; rewrite ?zlen_splice; try lia.
  rewrite slice_splice_before by lia. by rewrite Z.add_0_l, slice_splice_same by lia.
Qed.

Lemma slice_splice_after {A} o n off (new l : list A) :
  0 <= off -> off + zlen new <= o -> off + zlen new <= zlen l ->
  slice o n (splice off new l) = slice o n l.
Proof.
  intros. unfold splice. rewrite app_assoc.
  assert (Hl : zlen (take (Z.to_nat off) l ++ new) = off + zlen new)
    by (rewrite zlen_app, zlen_take; zlia).
  rewrite slice_app_shift by lia. rewrite Hl.
  unfold slice. rewrite drop_drop. do 2 f_equal. zlia.
Qed.

(** ** Little- and big-endian integers *)

Fixpoint le_bytes (n : nat) (x : Z) : bytes :=
  match n with O => [] | S n => x mod 256 :: le_bytes n (x / 256) end.
Fixpoint le_val (l : bytes) : Z :=
  match l with [] => 0 | b :: l => b + 256 * le_val l end.
Definition be_bytes (n : nat) (x : Z) : bytes := rev (le_bytes n x).
Definition be_val (l : bytes) : Z := le_val (rev l).

Lemma length_le_bytes n x : length (le_bytes n x) = n.
Proof. revert x; induction n; intros; cbn; auto. Qed.
Lemma zlen_le_bytes n x : zlen (le_bytes n x) = Z.of_nat n.
Proof. unfold zlen. by rewrite length_le_bytes. Qed.
Lemma zlen_be_bytes n x : zlen (be_bytes n x) = Z.of_nat n.
Proof. unfold zlen, be_bytes. by rewrite length_rev, length_le_bytes. Qed.
#[export] Hint Rewrite zlen_le_bytes zlen_be_bytes : zlen.

Lemma le_bytes_ok n x : bytes_ok (le_bytes n x).
Proof.
  revert x; induction n; intros; cbn; constructor; [|apply IHn].
  apply Z.mod_pos_bound. lia.
Qed.
Lemma le_val_bytes n x : le_val (le_bytes n x) = x mod 256 ^ Z.of_nat n.
Proof.
  revert x; induction n as [|n IH]; intros x.
  - cbn. by rewrite Z.mod_1_r.
  - cbn [le_bytes le_val]. rewrite IH, Nat2Z.inj_succ, Z.pow_succ_r by lia.
    rewrite Z.rem_mul_r by lia. lia.
Qed.
Lemma le_bytes_val l : bytes_ok l -> le_bytes (length l) (le_val l) = l.
Proof.
  induction 1 as [|b l Hb Hl IH]; [done|]. unfold byte_ok in Hb. cbn [length le_bytes le_val].
  rewrite Z.mul_comm, Z.mod_add, Z.div_add by lia.
  rewrite Z.mod_small, Z.div_small by lia. rewrite Z.add_0_l. by rewrite IH.
Qed.
Lemma le_val_bound l : bytes_ok l -> 0 <= le_val l < 256 ^ zlen l.
Proof.
  induction 1 as [|b l Hb Hl IH]; [by vm_compute|]. unfold byte_ok in Hb.
  rewrite zlen_cons, Z.pow_add_r by zlia. change (256 ^ 1) with 256.
  cbn [le_val]. lia.
Qed.
Lemma be_val_bytes n x : be_val (be_bytes n x) = x mod 256 ^ Z.of_nat n.
Proof. unfold be_val, be_bytes. by rewrite rev_involutive, le_val_bytes. Qed.

(** * Filtering *)

Lemma filter_all {A} (P : A -> Prop) `{forall x, Decision (P x)} (l : list A) :
  (forall x, x ∈ l -> P x) -> filter P l = l.
Proof.
  induction l as [|x l IH]; intros Hl; [done|].
  rewrite filter_cons_True by (apply Hl; left). f_equal. apply IH. intros. apply Hl. by right.
Qed.
Lemma filter_ne_notin {A} `{EqDecision A} (o : A) (l : list A) :
  o ∉ l -> filter (fun j => j <> o) l = l.
Proof. intros Ho. apply filter_all. by intros x Hx ->. Qed.
Lemma filter_ne_middle {A} `{EqDecision A} (x : A) (l1 l2 : list A) :
  NoDup (l1 ++ x :: l2) -> filter (fun y => y <> x) (l1 ++ x :: l2) = l1 ++ l2.
Proof.
  intros Hn. apply NoDup_app in Hn as (_ & Hx & H2). apply NoDup_cons in H2 as [H2 _].
  rewrite filter_app, filter_cons_False by tauto.
  rewrite !filter_ne_notin; [done| |]; [done|]. intros Hin. apply (Hx x Hin). left.
Qed.

(** * Machine integers *)

Definition u8 (x : Z) : Z := x mod 2 ^ 8.
Definition u16 (x : Z) : Z := x mod 2 ^ 16.
Definition u32 (x : Z) : Z := x mod 2 ^ 32.
Definition u64 (x : Z) : Z := x mod 2 ^ 64.
Definition INT_MAX : Z := 2 ^ 31 - 1.
Definition UINT16_MAX : Z := 2 ^ 16 - 1.
Definition UINT64_MAX : Z := 2 ^ 64 - 1.

(** * Small tactics *)

(** Turn the boolean tests of the code into propositions. *)
Ltac b2p :=
  repeat match goal with
  | H : _ && _ = true |- _ => apply andb_true_iff in H; destruct H
  | H : _ || _ = false |- _ => apply orb_false_iff in H; destruct H
  | H : negb _ = true |- _ => apply negb_true_iff in H
  | H : negb _ = false |- _ => apply negb_false_iff in H
  | H : (_ <? _) = true |- _ => apply Z.ltb_lt in H
  | H : (_ <? _) = false |- _ => apply Z.ltb_ge in H
  | H : (_ <=? _) = true |- _ => apply Z.leb_le in H
  | H : (_ <=? _) = false |- _ => apply Z.leb_gt in H
  | H : (_ =? _) = true |- _ => apply Z.eqb_eq in H
  | H : (_ =? _) = false |- _ => apply Z.eqb_neq in H
  | H : bool_decide _ = true |- _ => apply bool_decide_eq_true in H
  | H : bool_decide _ = false |- _ => apply bool_decide_eq_false in H
  | |- _ && _ = true => apply andb_true_iff; split
  | |- negb _ = true => apply negb_true_iff
  | |- (_ <? _) = true => apply Z.ltb_lt
  | |- (_ <? _) = false => apply Z.ltb_ge
  | |- (_ <=? _) = true => apply Z.leb_le
  | |- (_ <=? _) = false => apply Z.leb_gt
  | |- (_ =? _) = true => apply Z.eqb_eq
  | |- (_ =? _) = false => apply Z.eqb_neq
  | |- bool_decide _ = true => apply bool_decide_eq_true
  | |- bool_decide _ = false => apply bool_decide_eq_false
  end.

(** Reduce record updates and projections: everywhere, or in the goal. *)
#[global] Arguments zlen : simpl never.
#[global] Arguments slice : simpl never.
#[global] Arguments splice : simpl never.
Ltac su := unfold upd in *; cbn beta iota in *.
Ltac sua := unfold upd in *; cbn in *.
Ltac sug := unfold upd; cbn.

Lemma mem_write_Some {A} off (new l : list A) :
  0 <= off -> off + zlen new <= zlen l -> mem_write off new l = Some (splice off new l).
Proof.
  intros. unfold mem_write, in_bounds. pose proof (zlen_nonneg new).
  destruct (_ && _) eqn:E; [done|]. exfalso.
  rewrite !andb_false_iff, !Z.leb_gt in E. lia.
Qed.
Lemma mem_read_Some {A} off len (l : list A) :
  0 <= off -> 0 <= len -> off + len <= zlen l -> mem_read off len l = Some (slice off len l).
Proof.
  intros. unfold mem_read, in_bounds.
  destruct (_ && _) eqn:E; [done|]. exfalso.
  rewrite !andb_false_iff, !Z.leb_gt in E. lia.
Qed.
#[global] Arguments le_bytes : simpl never.
#[global] Arguments be_bytes : simpl never.

Ltac mside := unfold upd; cbn;
  first [ done | eassumption | lia | solve [b2p; lia] | solve [b2p; congruence] ].
(** [mgo]: the same with the common side conditions. *)
Ltac mgo := mgo_with mside.
