(* ===== verification/System.v ===== *)
(** Components in their environment, as executable transition systems.

    A [System] gives the actions the environment of a component can take (a
    call of one of its functions, the dispatch of a pending job, the completion
    of an operation by the other side of an interface), when each is allowed
    ([enabled], the contract the environment keeps) and the handler that runs
    ([exec]).  An execution that hits a failed [ASSERT] or undefined behaviour
    has no result, so [safe] says that none does. *)

From S2P Require Import Prelude.

Class System (W A E : Type) := {
  enabled : W -> A -> bool;
  exec : A -> M W E unit
}.

Section system.
Context {W A E : Type} {sys : System W A E}.
Implicit Types w : W.

(** [reach w0 tr w]: some allowed sequence of actions leads from [w0] to
    [w], with the events [tr]. *)
Inductive reach (w0 : W) : list E -> W -> Prop :=
| reach_nil : reach w0 [] w0
| reach_step tr w a w' t :
    reach w0 tr w -> enabled w a = true -> exec a w = Some (tt, w', t) ->
    reach w0 (tr ++ t) w'.

Definition safe (w0 : W) : Prop :=
  forall tr w a, reach w0 tr w -> enabled w a = true ->
    exists w' t, exec a w = Some (tt, w', t).

(** The executable form: [None] when an action is not allowed or fails. *)
Fixpoint run (acts : list A) (w : W) : option (W * list E) :=
  match acts with
  | [] => Some (w, [])
  | a :: acts =>
      if enabled w a then
        match exec a w with
        | Some (_, w', t) =>
            match run acts w' with
            | Some (w'', t') => Some (w'', t ++ t')
            | None => None
            end
        | None => None
        end
      else None
  end.

Lemma reach_trans_run w0 tr w acts w' t :
  reach w0 tr w -> run acts w = Some (w', t) -> reach w0 (tr ++ t) w'.
Proof.
  revert tr w t. induction acts as [|a acts IH]; intros tr w t Hr; cbn.
  - intros [= <- <-]. by rewrite app_nil_r.
  - destruct (enabled w a) eqn:Ha; [|done].
    destruct (exec a w) as [[[[] w1] t1]|] eqn:Hx; [|done].
    destruct (run acts w1) as [[w2 t2]|] eqn:Hrun; [|done]. intros [= <- <-].
    rewrite app_assoc. eapply IH; [|done]. by eapply reach_step.
Qed.

Lemma run_reach w0 acts w t : run acts w0 = Some (w, t) -> reach w0 t w.
Proof. intros. change t with ([] ++ t). eapply reach_trans_run; [constructor|done]. Qed.

(** Rule induction for invariants over the history and the state. *)
Section invariant.
Context (Inv : list E -> W -> Prop).
Context (Hstep : forall tr w a, Inv tr w -> enabled w a = true ->
           wp (exec a) (fun _ w' t => Inv (tr ++ t) w') w).

Lemma reach_inv w0 tr w : Inv [] w0 -> reach w0 tr w -> Inv tr w.
Proof using Hstep.
  intros H0. induction 1 as [|tr w a w' t Hr IH Ha Hx]; [done|].
  apply (wp_run _ _ _ _ _ _ (Hstep tr w a IH Ha) Hx).
Qed.

Lemma inv_safe w0 : Inv [] w0 -> safe w0.
Proof using Hstep.
  intros H0 tr w a Hr Ha.
  destruct (wp_elim _ _ _ (Hstep tr w a (reach_inv _ _ _ H0 Hr) Ha)) as ([] & w' & t & Hx & _).
  by exists w', t.
Qed.
End invariant.
End system.

(** * Monitors

    A monitor computes the ghost state [H] of a specification from the events,
    one by one; [wph m Q h w] runs [m] from the history [h] and the state [w].
    An invariant over the history is then one over the ghost state. *)

Section monitor.
Context {S E H : Type} (note : H -> E -> H).
Implicit Types (h : H) (s : S).

Definition wph {A} (m : M S E A) (Q : A -> H -> S -> Prop) (h : H) (s : S) : Prop :=
  wp m (fun a s' t => Q a (foldl note h t) s') s.

Lemma wph_ret {A} (a : A) Q h s : Q a h s -> wph (mret a) Q h s.
Proof. done. Qed.
Lemma wph_bind {A B} (m : M S E A) (f : A -> M S E B) Q h s :
  wph m (fun a h' s' => wph (f a) Q h' s') h s -> wph (m ≫= f) Q h s.
Proof.
  intros Hm. apply wp_bind. eapply wp_mono; [exact Hm|]. cbn. intros a s' t Hf.
  eapply wp_mono; [exact Hf|]. cbn. intros b s'' t'. by rewrite foldl_app.
Qed.
Lemma wph_mono {A} (m : M S E A) (Q Q' : A -> H -> S -> Prop) h s :
  wph m Q h s -> (forall a h' s', Q a h' s' -> Q' a h' s') -> wph m Q' h s.
Proof. intros Hm HQ. eapply wp_mono; [exact Hm|]. cbn. auto. Qed.
Lemma wph_get Q h s : Q s h s -> wph get Q h s.
Proof. done. Qed.
Lemma wph_gets {A} (f : S -> A) Q h s : Q (f s) h s -> wph (gets f) Q h s.
Proof. done. Qed.
Lemma wph_modify f Q h s : Q tt h (f s) -> wph (modify f) Q h s.
Proof. done. Qed.
Lemma wph_emit e Q h s : Q tt (note h e) s -> wph (emit e) Q h s.
Proof. done. Qed.
Lemma wph_assert (b : bool) Q h s : b = true -> Q tt h s -> wph (assert b) Q h s.
Proof. by intros ->. Qed.
Lemma wph_must {A} (o : option A) a Q h s : o = Some a -> Q a h s -> wph (must o) Q h s.
Proof. by intros ->. Qed.
Lemma wph_if {A} (b : bool) (m1 m2 : M S E A) Q h s :
  (b = true -> wph m1 Q h s) -> (b = false -> wph m2 Q h s) -> wph (if b then m1 else m2) Q h s.
Proof. destruct b; auto. Qed.
Lemma wph_when (b : bool) (m : M S E unit) Q h s :
  (b = true -> wph m Q h s) -> (b = false -> Q tt h s) -> wph (when b m) Q h s.
Proof. destruct b; [auto|]. intros _ HQ. by apply HQ. Qed.
(** A part that emits nothing of its own is run by its own rules. *)
Lemma wph_zoom {R A} (proj : S -> R) `{U : !Upd proj} (m : M R E A) Q h s :
  wp m (fun a r t => Q a (foldl note h t) (upd proj (fun _ => r) s)) (proj s) ->
  wph (zoom proj m) Q h s.
Proof. exact (wp_zoom proj m (fun a s' t => Q a (foldl note h t) s') s). Qed.
End monitor.

Ltac wph_user := fail.
Ltac hstep :=
  lazymatch goal with
  | |- wph _ (mret _) _ _ _ => apply wph_ret
  | |- wph _ (mbind _ _) _ _ _ => apply wph_bind
  | |- wph _ get _ _ _ => apply wph_get
  | |- wph _ (gets _) _ _ _ => apply wph_gets
  | |- wph _ (modify _) _ _ _ => apply wph_modify
  | |- wph _ (emit _) _ _ _ => apply wph_emit
  | |- wph _ (assert _) _ _ _ => apply wph_assert
  | |- wph _ (must _) _ _ _ => eapply wph_must
  | |- wph _ (zoom _ _) _ _ _ => apply wph_zoom
  | |- wph _ (when _ _) _ _ _ => apply wph_when; intros ?
  | |- wph _ (if _ then _ else _) _ _ _ => apply wph_if; intros ?
  | |- wph _ _ _ _ _ => wph_user
  end; cbn beta.

(** An invariant of the history as the monitor sees it. *)
Section monitored.
Context {W A E H : Type} {sys : System W A E} (note : H -> E -> H) (h0 : H).
Context (Inv : H -> W -> Prop).
Context (Hstep : forall h w a, Inv h w -> enabled w a = true ->
           wph note (exec a) (fun _ => Inv) h w).

Lemma monitor_reach w0 tr w : Inv h0 w0 -> reach w0 tr w -> Inv (foldl note h0 tr) w.
Proof using Hstep.
  apply (reach_inv (fun tr w => Inv (foldl note h0 tr) w)).
  intros tr' w' a Hi Ha. eapply wp_mono; [exact (Hstep _ _ _ Hi Ha)|].
  cbn. intros _ s t. by rewrite foldl_app.
Qed.
Lemma monitor_safe w0 : Inv h0 w0 -> safe w0.
Proof using Hstep.
  apply (inv_safe (fun tr w => Inv (foldl note h0 tr) w)).
  intros tr' w' a Hi Ha. eapply wp_mono; [exact (Hstep _ _ _ Hi Ha)|].
  cbn. intros _ s t. by rewrite foldl_app.
Qed.
End monitored.

(** * What a handler keeps

    [stays J m]: if [m] ends, it ends with [J]; it may as well have no result.
    [sstep] goes through a handler; what is left are the parts that change
    what [J] speaks of. *)

Definition stays {S E A} (J : S -> Prop) (m : M S E A) : Prop :=
  forall s a s' t, J s -> m s = Some (a, s', t) -> J s'.

Section stays.
Context {S E : Type} (J : S -> Prop).

Lemma stays_bind {A B} (m : M S E A) (f : A -> M S E B) :
  stays J m -> (forall a, stays J (f a)) -> stays J (m ≫= f).
Proof.
  intros Hm Hf s b s' t Hs. unfold mbind, M_bind. destruct (m s) as [[[a s1] t1]|] eqn:E1; [|done].
  destruct (f a s1) as [[[b' s2] t2]|] eqn:E2; [|done]. intros [= <- <- <-]. eapply Hf; [|exact E2]. by eapply Hm.
Qed.
Lemma stays_same {A} (m : M S E A) :
  (forall s, match m s with Some (_, s', _) => J s -> J s' | None => True end) -> stays J m.
Proof. intros H s a s' t Hs Hm. specialize (H s). rewrite Hm in H. auto. Qed.
Lemma stays_modify f : (forall s, J s -> J (f s)) -> stays J (modify (E := E) f).
Proof. intros H. by apply stays_same. Qed.
Lemma stays_zoom {R A} (proj : R -> S) `{U : !Upd proj} (JR : R -> Prop) (m : M S E A) :
  (forall r s, JR r -> J s -> JR (upd proj (fun _ => s) r)) -> (forall r, JR r -> J (proj r)) ->
  stays J m -> stays JR (zoom proj m).
Proof.
  intros Hset Hget Hm r a r' t Hr. unfold zoom. destruct (m (proj r)) as [[[a' s] t']|] eqn:E1; [|done].
  intros [= <- <- <-]. apply Hset; [done|]. eapply Hm; [|exact E1]. auto.
Qed.
End stays.

Ltac sstep :=
  match goal with
  | |- stays _ (mbind _ _) => apply stays_bind; [|intros ?]
  | |- stays _ (must ?o) => apply stays_same; intros ?; unfold must; by destruct o
  | |- stays _ (assert ?b) => apply stays_same; intros ?; unfold assert; by destruct b
  | |- stays _ (when ?b _) => unfold when
  | |- stays _ (if ?b then _ else _) => destruct b
  | |- stays _ (match ?x with _ => _ end) => destruct x
  | |- stays _ (modify _) => apply stays_modify; intros ?; exact (fun H => H)
  | |- stays _ _ => apply stays_same; intros ?; first [exact (fun H => H) | exact I]
  end.
