(* ===== verification/OrdTree.v ===== *)
(** The interface of the balanced trees the program keeps its timers, queued
    flows and connections in: what [BAVL.h] promises to the components that use
    it.  The operations are stated through the in-order list of the tree
    ([ot_elems]); the clients prove their theorems against the class
    [OrdTreeLaws] only, and [BAVL.v] discharges it for the AVL tree. *)

From S2P Require Import Prelude.

(** A C comparator: [-1], [0] or [1], a total order. *)
Class Comparator {V : Type} (cmp : V -> V -> Z) : Prop := {
  cmp_range : forall a b, cmp a b = -1 \/ cmp a b = 0 \/ cmp a b = 1;
  cmp_anti : forall a b, cmp b a = - cmp a b;
  cmp_trans : forall a b c, cmp a b = -1 -> cmp b c = -1 -> cmp a c = -1;
  cmp_eq_l : forall a b c, cmp a b = 0 -> cmp a c = cmp b c
}.

Section order.
Context {V A : Type} (cmp : V -> V -> Z) `{!Comparator cmp} (val : A -> V).

Definition before (a b : A) : Prop := cmp (val a) (val b) = -1.
Definition sorted (l : list A) : Prop := StronglySorted before l.

(** Sorted insertion and search, the reference the trees are compared with. *)
Fixpoint insert_sorted (x : A) (l : list A) : list A :=
  match l with
  | [] => [x]
  | y :: l' => if cmp (val x) (val y) =? 1 then y :: insert_sorted x l' else x :: l
  end.
Fixpoint find_equal (v : V) (l : list A) : option A :=
  match l with
  | [] => None
  | y :: l' => if cmp v (val y) =? 0 then Some y else find_equal v l'
  end.

Lemma cmp_refl v : cmp v v = 0.
Proof. pose proof (cmp_anti v v). lia. Qed.

Lemma cmp_lt_l v a b : cmp v (val a) = -1 -> before a b -> cmp v (val b) = -1.
Proof. apply cmp_trans. Qed.
Lemma cmp_gt_r v a b : before a b -> cmp v (val b) = 1 -> cmp v (val a) = 1.
Proof.
  unfold before. intros Hab Hb. pose proof (cmp_anti (val b) v) as H1.
  pose proof (cmp_anti v (val a)) as H2. pose proof (cmp_anti v (val b)) as H3.
  pose proof (cmp_trans (val a) (val b) v Hab ltac:(lia)). lia.
Qed.

Lemma find_equal_lt v l : Forall (fun y => cmp v (val y) = -1) l -> find_equal v l = None.
Proof. induction 1 as [|y l Hy Hl IH]; cbn; [done|]. rewrite Hy. simpl. exact IH. Qed.
Lemma find_equal_gt v l : Forall (fun y => cmp v (val y) = 1) l -> find_equal v l = None.
Proof. induction 1 as [|y l Hy Hl IH]; cbn; [done|]. rewrite Hy. simpl. exact IH. Qed.
Lemma find_equal_app v l1 l2 :
  find_equal v (l1 ++ l2) = match find_equal v l1 with Some y => Some y | None => find_equal v l2 end.
Proof. induction l1 as [|y l1 IH]; cbn; [done|]. by destruct (_ =? 0). Qed.
Lemma find_equal_Some v l y : find_equal v l = Some y -> y ∈ l /\ cmp v (val y) = 0.
Proof.
  induction l as [|z l IH]; cbn; [done|]. destruct (_ =? 0) eqn:E.
  - intros [= ->]. split; [left|]. lia.
  - intros H. apply IH in H as [??]. split; [by right|done].
Qed.
Lemma find_equal_None v l : find_equal v l = None <-> Forall (fun y => cmp v (val y) <> 0) l.
Proof.
  induction l as [|z l IH]; cbn; [split; constructor|].
  rewrite Forall_cons. destruct (_ =? 0) eqn:E; b2p; [|tauto]. split; [done|tauto].
Qed.
Lemma find_equal_elem y l : sorted l -> y ∈ l -> find_equal (val y) l = Some y.
Proof.
  induction 1 as [|z l Hl IH Hz]; [by rewrite elem_of_nil|]. cbn.
  rewrite elem_of_cons. intros [->|Hin]; [by rewrite cmp_refl|].
  rewrite Forall_forall in Hz. specialize (Hz y Hin). unfold before in Hz.
  pose proof (cmp_anti (val z) (val y)). destruct (_ =? 0) eqn:E; [lia|auto].
Qed.

Lemma insert_sorted_elem x y l : y ∈ insert_sorted x l <-> y = x \/ y ∈ l.
Proof.
  induction l as [|z l IH]; cbn; [by rewrite list_elem_of_singleton, elem_of_nil; tauto|].
  case_match; rewrite !elem_of_cons; [|tauto]. rewrite IH. tauto.
Qed.
Lemma insert_sorted_perm x l : insert_sorted x l ≡ₚ x :: l.
Proof.
  induction l as [|z l IH]; cbn; [done|]. case_match; [|done].
  rewrite IH. constructor.
Qed.
Lemma insert_sorted_sorted x l :
  sorted l -> find_equal (val x) l = None -> sorted (insert_sorted x l).
Proof.
  unfold sorted. induction 1 as [|z l Hl IH Hz]; cbn; intros Hf; [by repeat constructor|].
  destruct (cmp (val x) (val z) =? 0) eqn:E0; [done|]. destruct (_ =? 1) eqn:E1; b2p.
  - constructor; [auto|]. apply Forall_forall. intros w Hw.
    apply insert_sorted_elem in Hw as [->|Hw].
    + unfold before. pose proof (cmp_anti (val x) (val z)). lia.
    + rewrite Forall_forall in Hz. auto.
  - assert (before x z) by (unfold before; pose proof (cmp_range (val x) (val z)); lia).
    constructor; [by constructor|]. constructor; [done|].
    eapply Forall_impl; [exact Hz|]. intros w. by apply cmp_trans.
Qed.

(** Insertion splits at any element strictly on one side. *)
Lemma insert_sorted_l x l1 y l2 :
  cmp (val x) (val y) = -1 ->
  insert_sorted x (l1 ++ y :: l2) = insert_sorted x l1 ++ y :: l2.
Proof.
  intros Hy. induction l1 as [|z l1 IH]; cbn; [by rewrite Hy|]. case_match; cbn; congruence.
Qed.
Lemma insert_sorted_r x l1 y l2 :
  Forall (fun z => cmp (val x) (val z) = 1) (l1 ++ [y]) ->
  insert_sorted x (l1 ++ y :: l2) = l1 ++ y :: insert_sorted x l2.
Proof.
  induction l1 as [|z l1 IH]; cbn; rewrite Forall_cons; intros [Hz Hl]; rewrite Hz; cbn; [done|].
  by rewrite IH.
Qed.
Lemma sorted_app l1 l2 :
  sorted (l1 ++ l2) <-> sorted l1 /\ sorted l2 /\ (forall x y, x ∈ l1 -> y ∈ l2 -> before x y).
Proof.
  unfold sorted. induction l1 as [|z l1 IH]; cbn.
  - split; [|tauto]. intros. split_and!; [constructor|done|]. by intros ?? ?%elem_of_nil.
  - split.
    + inversion 1 as [|?? Hs Hz]; subst. apply IH in Hs as (?&?&Hlt).
      apply Forall_app in Hz as [Hz1 Hz2]. split_and!; [by constructor|done|].
      intros x y [->|?]%elem_of_cons ?; [|auto]. rewrite Forall_forall in Hz2. auto.
    + intros (Hs&?&Hlt). inversion Hs; subst. constructor.
      * apply IH. split_and!; [done..|]. intros. apply Hlt; [by right|done].
      * apply Forall_app. split; [done|]. apply Forall_forall. intros. apply Hlt; [left|done].
Qed.
Lemma sorted_remove l1 x l2 : sorted (l1 ++ x :: l2) -> sorted (l1 ++ l2).
Proof.
  rewrite !sorted_app. intros (?&Hs&Hlt). inversion Hs; subst.
  split_and!; [done..|]. intros. apply Hlt; [done|by right].
Qed.
Lemma sorted_filter (P : A -> Prop) `{forall x, Decision (P x)} l : sorted l -> sorted (filter P l).
Proof.
  unfold sorted. induction 1 as [|z l Hl IH Hz]; [constructor|].
  rewrite filter_cons. case_decide; [|done]. constructor; [done|]. apply Forall_forall.
  intros y [_ Hy]%list_elem_of_filter. rewrite Forall_forall in Hz. auto.
Qed.
Lemma sorted_NoDup l : sorted l -> NoDup l.
Proof.
  induction 1 as [|z l Hl IH Hz]; constructor; [|done]. intros Hin.
  rewrite Forall_forall in Hz. specialize (Hz z Hin). unfold before in Hz.
  rewrite cmp_refl in Hz. lia.
Qed.
End order.

(** Two comparators that agree on the elements order a list alike. *)
Lemma sorted_ext {V V' A} (cmp : V -> V -> Z) (cmp' : V' -> V' -> Z) (val : A -> V) (val' : A -> V') l :
  (forall a b, a ∈ l -> b ∈ l -> before cmp val a b -> before cmp' val' a b) ->
  sorted cmp val l -> sorted cmp' val' l.
Proof.
  unfold sorted. intros Hext. induction 1 as [|z l Hl IH Hz]; constructor.
  - apply IH. intros. apply Hext; [by right..|done].
  - apply Forall_forall. intros y Hy. apply Hext; [left|by right|].
    rewrite Forall_forall in Hz. auto.
Qed.

(** * The interface *)

Class OrdTree (T : Type -> Type) := {
  ot_empty {A} : T A;
  (** insert a node whose value is [val x]; [false] if an equal one is present *)
  ot_insert {V A} (cmp : V -> V -> Z) (val : A -> V) (x : A) (t : T A) : option (bool * T A);
  (** remove a node; [None] if it is not in the tree *)
  ot_remove {A} `{EqDecision A} (x : A) (t : T A) : option (T A);
  ot_lookup {V A} (cmp : V -> V -> Z) (val : A -> V) (v : V) (t : T A) : option A;
  ot_first {A} (t : T A) : option A;
  ot_elems {A} (t : T A) : list A;
  (** the structural invariant *)
  ot_wf {A} (t : T A) : Prop
}.

Class OrdTreeLaws (T : Type -> Type) `{OrdTree T} : Prop := {
  ot_empty_wf {A} : ot_wf (ot_empty (A:=A));
  ot_empty_elems {A} : ot_elems (ot_empty (A:=A)) = [];
  ot_insert_new {V A} (cmp : V -> V -> Z) `{!Comparator cmp} (val : A -> V) x (t : T A) :
    ot_wf t -> sorted cmp val (ot_elems t) -> find_equal cmp val (val x) (ot_elems t) = None ->
    exists t', ot_insert cmp val x t = Some (true, t') /\ ot_wf t' /\
               ot_elems t' = insert_sorted cmp val x (ot_elems t);
  ot_insert_old {V A} (cmp : V -> V -> Z) `{!Comparator cmp} (val : A -> V) x (t : T A) y :
    ot_wf t -> sorted cmp val (ot_elems t) -> find_equal cmp val (val x) (ot_elems t) = Some y ->
    ot_insert cmp val x t = Some (false, t);
  ot_remove_in {A} `{EqDecision A} x (t : T A) l1 l2 :
    ot_wf t -> ot_elems t = l1 ++ x :: l2 -> x ∉ l1 ->
    exists t', ot_remove x t = Some t' /\ ot_wf t' /\ ot_elems t' = l1 ++ l2;
  ot_lookup_spec {V A} (cmp : V -> V -> Z) `{!Comparator cmp} (val : A -> V) v (t : T A) :
    sorted cmp val (ot_elems t) -> ot_lookup cmp val v t = find_equal cmp val v (ot_elems t);
  ot_first_spec {A} (t : T A) : ot_first t = head (ot_elems t)
}.
