(* ===== verification/BAVL.v ===== *)
(** The AVL tree of [structure/BAVL.h].

    A node's [parent] and [link] pointers are represented by the zipper: a
    subtree is a [tree], and the chain of [parent] pointers above it is a list
    of [frame]s, the innermost first.  [link[0]] is the left and [link[1]] the
    right child; a side is a [bool] ([true] for [1]).  Dereferencing a null
    link, and the [ASSERT]s on the way, are [None].  The tree is an instance
    of the interface [OrdTree]. *)

From S2P Require Import Prelude OrdTree.

Inductive tree (A : Type) :=
| Leaf
| Node (l : tree A) (x : A) (balance : Z) (r : tree A).
Arguments Leaf {A}.
Arguments Node {A} l x balance r.

Record frame (A : Type) :=
  Frame { f_side : bool; f_node : A; f_balance : Z; f_other : tree A }.
Arguments Frame {A}. Arguments f_side {A}. Arguments f_node {A}.
Arguments f_balance {A}. Arguments f_other {A}.

Section bavl.
Context {A : Type}.
Implicit Types t : tree A.

Definition link (side : bool) t : tree A :=
  match t with Leaf => Leaf | Node l _ _ r => if side then r else l end.
Definition set_link (side : bool) (c : tree A) t : tree A :=
  match t with
  | Leaf => Leaf
  | Node l x b r => if side then Node l x b c else Node c x b r
  end.
Definition set_balance (b : Z) t : tree A :=
  match t with Leaf => Leaf | Node l x _ r => Node l x b r end.

(** The node above: [fill f t] has [t] at the side the frame came from. *)
Definition fill (f : frame A) t : tree A :=
  if f_side f then Node (f_other f) (f_node f) (f_balance f) t
  else Node t (f_node f) (f_balance f) (f_other f).
Fixpoint plug (path : list (frame A)) t : tree A :=
  match path with [] => t | f :: path => plug path (fill f t) end.

Definition BAVL_OPTNEG (a : Z) (neg : bool) : Z := if neg then - a else a.

Definition _BAVL_rotate (r : tree A) (dir : bool) : option (tree A) :=
  match r, link (negb dir) r with
  | Node l x b r, Node nl y nb nr =>
      Some (if dir then Node nl y nb (Node nr x b r)
            else Node (Node l x b nl) y nb nr)
  | _, _ => None
  end.

(** The transformations of [_BAVL_rebalance] at one node, whose balance has
    been updated; also the height change [delta]. *)
Definition rebalance_node t (delta : Z) : option (tree A * Z) :=
  match t with
  | Leaf => None
  | Node _ _ b _ =>
      if (b =? 2) || (b =? -2) then
        let bside := b =? 2 in
        let bsidef := if b =? 2 then 1 else -1 in
        match link bside t with
        | Leaf => None
        | Node _ _ cb _ as child =>
            if cb * bsidef =? 1 then
              t' ← _BAVL_rotate t (negb bside);
              let node := set_balance 0 (link (negb bside) t') in
              Some (set_balance 0 (set_link (negb bside) node t'), delta - 1)
            else if cb * bsidef =? 0 then
              t' ← _BAVL_rotate t (negb bside);
              let node := set_balance (1 * bsidef) (link (negb bside) t') in
              Some (set_balance (-1 * bsidef) (set_link (negb bside) node t'), delta)
            else if cb * bsidef =? -1 then
              match link (negb bside) child with
              | Leaf => None
              | Node _ _ gb _ =>
                  child' ← _BAVL_rotate child bside;
                  t' ← _BAVL_rotate (set_link bside child' t) (negb bside);
                  let node := set_balance (- Z.max 0 (gb * bsidef) * bsidef) (link (negb bside) t') in
                  let child := set_balance (Z.max 0 (- gb * bsidef) * bsidef) (link bside t') in
                  Some (set_balance 0 (set_link bside child (set_link (negb bside) node t')), delta - 1)
              end
            else None
        end
      else Some (t, delta)
  end.

(** [node] is the focus, below [path]; its subtree on [side] changed its
    height by [deltac].  The result is the whole tree. *)
Fixpoint _BAVL_rebalance (path : list (frame A)) (node : tree A) (side : bool) (deltac : Z)
  : option (tree A) :=
  match node with
  | Leaf => None
  | Node l x b r =>
      if deltac =? 0 then Some (plug path node)
      else
        let delta := Z.max deltac (BAVL_OPTNEG b side) - Z.max 0 (BAVL_OPTNEG b side) in
        match rebalance_node (Node l x (b - BAVL_OPTNEG deltac side) r) delta with
        | None => None
        | Some (node', delta') =>
            match path with
            | [] => Some node'
            | f :: path => _BAVL_rebalance path (fill f node') (f_side f) delta'
            end
        end
  end.

(** The descent of [BAVL_Insert] and [BAVL_Lookup*]: [inl] is the node that
    compares equal, [inr] the path down to the missing link. *)
Fixpoint descend {V} (cmp : V -> V -> Z) (val : A -> V) (v : V) t (path : list (frame A))
  : A + list (frame A) :=
  match t with
  | Leaf => inr path
  | Node l y b r =>
      let comp := cmp v (val y) in
      if comp =? 0 then inl y
      else if comp =? 1 then descend cmp val v r (Frame true y b l :: path)
      else descend cmp val v l (Frame false y b r :: path)
  end.

Definition BAVL_Init : tree A := Leaf.

Definition BAVL_Insert {V} (cmp : V -> V -> Z) (val : A -> V) (node : A) t
  : option (bool * tree A) :=
  match descend cmp val (val node) t [] with
  | inl _ => Some (false, t)
  | inr [] => Some (true, Node Leaf node 0 Leaf)
  | inr (c :: path) =>
      t' ← _BAVL_rebalance path (fill c (Node Leaf node 0 Leaf)) (f_side c) 1;
      Some (true, t')
  end.

Fixpoint _BAVL_subtree_max t (path : list (frame A)) : option (tree A * list (frame A)) :=
  match t with
  | Leaf => None
  | Node l x b Leaf => Some (t, path)
  | Node l x b r => _BAVL_subtree_max r (Frame true x b l :: path)
  end.

(** The node of an element, with the [parent] chain above it. *)
Fixpoint locate `{EqDecision A} (x : A) t (path : list (frame A)) : option (tree A * list (frame A)) :=
  match t with
  | Leaf => None
  | Node l y b r =>
      match locate x l (Frame false y b r :: path) with
      | Some z => Some z
      | None =>
          if decide (x = y) then Some (t, path)
          else locate x r (Frame true y b l :: path)
      end
  end.

(** Unlink the node below [path] whose only subtree is [child]. *)
Definition unlink (path : list (frame A)) (child : tree A) : option (tree A) :=
  match path with
  | [] => Some child
  | f :: path => _BAVL_rebalance path (fill f child) (f_side f) (-1)
  end.

Definition BAVL_Remove `{EqDecision A} (x : A) t : option (tree A) :=
  match locate x t [] with
  | None | Some (Leaf, _) => None
  | Some (Node (Node _ _ _ _ as l) _ b (Node _ _ _ _ as r), path) =>
      (* swap the node with the largest node of the left subtree *)
      match _BAVL_subtree_max l [] with
      | Some (Node ml my _ _, mpath) => unlink (mpath ++ Frame false my b r :: path) ml
      | _ => None
      end
  | Some (Node l _ _ r, path) =>
      unlink path (match l with Leaf => r | _ => l end)
  end.

Definition BAVL_LookupExact {V} (cmp : V -> V -> Z) (val : A -> V) (v : V) t : option A :=
  match descend cmp val v t [] with inl y => Some y | inr _ => None end.

(** [BAVL_Lookup]: the equal node, else the last node compared with. *)
Definition BAVL_Lookup {V} (cmp : V -> V -> Z) (val : A -> V) (v : V) t : option A :=
  match descend cmp val v t [] with
  | inl y => Some y
  | inr [] => None
  | inr (f :: _) => Some (f_node f)
  end.

Fixpoint BAVL_GetFirst t : option A :=
  match t with
  | Leaf => None
  | Node Leaf x _ _ => Some x
  | Node l _ _ _ => BAVL_GetFirst l
  end.
Fixpoint BAVL_GetLast t : option A :=
  match t with
  | Leaf => None
  | Node _ x _ Leaf => Some x
  | Node _ _ _ r => BAVL_GetLast r
  end.

Definition BAVL_IsEmpty t : bool := match t with Leaf => true | _ => false end.

(** * The invariants *)

Fixpoint elems t : list A :=
  match t with Leaf => [] | Node l x _ r => elems l ++ x :: elems r end.
Fixpoint height t : Z :=
  match t with Leaf => 0 | Node l _ _ r => 1 + Z.max (height l) (height r) end.

(** What [BAVL_Verify] checks of the balance factors. *)
Fixpoint avl t : Prop :=
  match t with
  | Leaf => True
  | Node l _ b r => avl l /\ avl r /\ b = height r - height l /\ -1 <= b <= 1
  end.

(** The context above a hole of height [h] is balanced. *)
Fixpoint ctx_ok (path : list (frame A)) (h : Z) : Prop :=
  match path with
  | [] => True
  | Frame side _ b o :: path =>
      avl o /\ -1 <= b <= 1 /\ b = BAVL_OPTNEG (height o - h) side /\
      ctx_ok path (1 + Z.max h (height o))
  end.
Fixpoint ctx_elems (path : list (frame A)) (mid : list A) : list A :=
  match path with
  | [] => mid
  | Frame side x _ o :: path =>
      ctx_elems path (if side then elems o ++ x :: mid else mid ++ x :: elems o)
  end.
End bavl.

(** * Rebalancing *)

Section rebalance.
Context {A : Type}.
Implicit Types t l r : tree A.

Lemma height_nonneg t : 0 <= height t.
Proof. induction t; cbn; lia. Qed.

Lemma height_zero t : height t = 0 -> t = Leaf.
Proof. destruct t as [|l x b r]; cbn; [done|]. pose proof (height_nonneg l). lia. Qed.

Lemma fill_elems f t : elems (fill f t) = ctx_elems [f] (elems t).
Proof. by destruct f as [[] ? ? ?]. Qed.

Lemma plug_elems path t : elems (plug path t) = ctx_elems path (elems t).
Proof.
  revert t; induction path as [|f path IH]; intros t; cbn [plug ctx_elems]; [done|].
  rewrite IH, fill_elems. by destruct f as [[] ? ? ?].
Qed.

Lemma plug_avl path t : avl (plug path t) <-> avl t /\ ctx_ok path (height t).
Proof.
  revert t; induction path as [|[side x b o] path IH]; intros t; cbn [plug ctx_ok]; [tauto|].
  rewrite IH. unfold fill, BAVL_OPTNEG. destruct side; cbn; [|tauto].
  rewrite (Z.max_comm (height o)). split; intros; destruct_and!; split_and!; try done; lia.
Qed.

(** The height of a node grows by [delta' - delta] in the transformation. *)
Definition node_fixed (t : tree A) (delta : Z) (res : option (tree A * Z)) : Prop :=
  exists t' delta', res = Some (t', delta') /\ avl t' /\ elems t' = elems t /\
    height t' = height t + (delta' - delta) /\
    (delta' = delta \/ delta' = delta - 1).

Ltac crunch_tree :=
  repeat match goal with
  | H : height ?t = 0 |- _ => apply height_zero in H as ->
  | t : tree A |- _ =>
      lazymatch goal with H : 0 <= height t |- _ => fail
      | _ => pose proof (height_nonneg t) end
  end.

Lemma rebalance_right l x r delta :
  avl l -> avl r -> height r - height l = 2 ->
  node_fixed (Node l x 2 r) delta (rebalance_node (Node l x 2 r) delta).
Proof.
  intros Hl Hr Hh. destruct r as [|rl y rb rr]; cbn in Hh; [pose proof (height_nonneg l); lia|].
  destruct Hr as (Hrl & Hrr & Hrb & Hb). unfold rebalance_node. cbn.
  assert (rb = 1 \/ rb = 0 \/ rb = -1) as [-> | [-> | ->]] by lia; cbn.
  - unfold node_fixed. do 2 eexists. split; [reflexivity|]. cbn. crunch_tree.
    rewrite <- app_assoc. cbn. split_and!; try done; try lia.
  - unfold node_fixed. do 2 eexists. split; [reflexivity|]. cbn. crunch_tree.
    rewrite <- app_assoc. cbn. split_and!; try done; try lia.
  - destruct rl as [|gl z gb gr]; cbn in Hrb; [pose proof (height_nonneg rr); lia|].
    destruct Hrl as (Hgl & Hgr & Hgb & Hgb'). cbn [height] in Hh. unfold node_fixed. cbn. do 2 eexists.
    split; [reflexivity|]. cbn. crunch_tree. rewrite <- !app_assoc. cbn.
    rewrite <- ?app_assoc. cbn. split_and!; try done; lia.
Qed.

Lemma rebalance_left l x r delta :
  avl l -> avl r -> height r - height l = -2 ->
  node_fixed (Node l x (-2) r) delta (rebalance_node (Node l x (-2) r) delta).
Proof.
  intros Hl Hr Hh. destruct l as [|ll y lb lr]; cbn in Hh; [pose proof (height_nonneg r); lia|].
  destruct Hl as (Hll & Hlr & Hlb & Hb). unfold rebalance_node. cbn.
  assert (lb = 1 \/ lb = 0 \/ lb = -1) as [-> | [-> | ->]] by lia; cbn.
  - destruct lr as [|gl z gb gr]; cbn in Hlb; [pose proof (height_nonneg ll); lia|].
    destruct Hlr as (Hgl & Hgr & Hgb & Hgb'). cbn [height] in Hh. unfold node_fixed. cbn. do 2 eexists.
    split; [reflexivity|]. cbn. crunch_tree. rewrite <- !app_assoc. cbn.
    rewrite <- ?app_assoc. cbn. split_and!; try done; lia.
  - unfold node_fixed. do 2 eexists. split; [reflexivity|]. cbn. crunch_tree.
    rewrite <- app_assoc. cbn. split_and!; try done; try lia.
  - unfold node_fixed. do 2 eexists. split; [reflexivity|]. cbn. crunch_tree.
    rewrite <- app_assoc. cbn. split_and!; try done; try lia.
Qed.
End rebalance.

Section operations.
Context {A : Type}.
Implicit Types t l r : tree A.

(** The height of a node whose subtree on [side] was [deltac] lower. *)
Definition old_height l r (side : bool) (deltac : Z) : Z :=
  if side then 1 + Z.max (height l) (height r - deltac)
  else 1 + Z.max (height l - deltac) (height r).

Definition changed_ok (path : list (frame A)) (t : tree A) (side : bool) (deltac : Z) : Prop :=
  match t with
  | Leaf => False
  | Node l x b r =>
      avl l /\ avl r /\ -1 <= b <= 1 /\ -1 <= deltac <= 1 /\
      b - BAVL_OPTNEG deltac side = height r - height l /\
      ctx_ok path (old_height l r side deltac)
  end.

Lemma rebalance_node_ok l x b r delta :
  avl l -> avl r -> b = height r - height l -> -2 <= b <= 2 ->
  node_fixed (Node l x b r) delta (rebalance_node (Node l x b r) delta) /\
  (-1 <= b <= 1 -> rebalance_node (Node l x b r) delta = Some (Node l x b r, delta)).
Proof.
  intros Hl Hr Hb Hb2. destruct (decide (b = 2)) as [->|]; [split; [|lia]; by apply rebalance_right|].
  destruct (decide (b = -2)) as [->|]; [split; [|lia]; by apply rebalance_left|].
  assert (Hsame : rebalance_node (Node l x b r) delta = Some (Node l x b r, delta)).
  { cbn. destruct (b =? 2) eqn:E1, (b =? -2) eqn:E2; b2p; done || lia. }
  split; [|done]. rewrite Hsame. do 2 eexists. split; [done|]. cbn.
  split_and!; try done; lia.
Qed.

(** Going up: the parent of a fixed node has a changed subtree again. *)
Lemma changed_up f path t delta hold :
  avl t -> height t = hold + delta -> -1 <= delta <= 1 ->
  ctx_ok (f :: path) hold -> changed_ok path (fill f t) (f_side f) delta.
Proof.
  destruct f as [side y b o]. cbn [ctx_ok]. intros Ht Hh Hd (Ho & Hb & Heq & Hc).
  unfold fill, BAVL_OPTNEG, old_height in *. destruct side; cbn in *;
    (split_and!; [done|done|lia..|]); (eapply eq_ind; [exact Hc|]); f_equal; lia.
Qed.

Lemma rebalance_ok path : forall t side deltac,
  changed_ok path t side deltac ->
  exists t', _BAVL_rebalance path t side deltac = Some t' /\ avl t' /\
             elems t' = ctx_elems path (elems t).
Proof.
  induction path as [|f path IH]; intros [|l x b r] side deltac Hc; try done;
    destruct Hc as (Hl & Hr & Hb & Hd & Heq & Hctx); cbn [_BAVL_rebalance];
    destruct (deltac =? 0) eqn:E0; b2p.
  1, 3: subst deltac; eexists; split; [reflexivity|]; split; [|by rewrite plug_elems];
    apply plug_avl; unfold BAVL_OPTNEG, old_height in *; destruct side; cbn in *;
    (split; [split_and!; try done; lia|]); rewrite ?Z.sub_0_r in *; done.
  all: destruct (rebalance_node_ok l x (b - BAVL_OPTNEG deltac side) r
      (Z.max deltac (BAVL_OPTNEG b side) - Z.max 0 (BAVL_OPTNEG b side)))
      as [(t' & d' & -> & Ht' & Hel & Hh & Hd') Hsame];
    [done|done|done|unfold BAVL_OPTNEG; destruct side; lia|].
  { eexists. split; [done|]. split; [done|]. by rewrite Hel. }
  assert (-1 <= d' <= 1 /\ height t' = old_height l r side deltac + d') as [Hrange Hheight].
  { unfold old_height, BAVL_OPTNEG in *. cbn in Hh.
    assert (Hcase : -1 <= b - (if side then - deltac else deltac) <= 1 \/
            ~ -1 <= b - (if side then - deltac else deltac) <= 1) by lia.
    destruct Hcase as [Hsmall|Hbig]; [injection (Hsame Hsmall) as _ ?|]; destruct side; lia. }
  destruct (IH (fill f t') (f_side f) d') as (t'' & -> & Ht'' & Hel'').
  { by eapply changed_up. }
  eexists. split; [done|]. split; [done|]. rewrite Hel'', fill_elems, Hel.
  by destruct f as [[] ? ? ?].
Qed.

(** ** Descending *)

Lemma plug_app (p1 p2 : list (frame A)) t : plug (p1 ++ p2) t = plug p2 (plug p1 t).
Proof. revert t; induction p1 as [|f p1 IH]; intros t; cbn; auto. Qed.
Lemma ctx_elems_app (p1 p2 : list (frame A)) m :
  ctx_elems (p1 ++ p2) m = ctx_elems p2 (ctx_elems p1 m).
Proof. revert m; induction p1 as [|[[] ? ? ?] p1 IH]; intros m; cbn; auto. Qed.

Section compare.
Context {V : Type} (cmp : V -> V -> Z) `{!Comparator cmp} (val : A -> V).

Definition side_ok (v : V) (path : list (frame A)) : Prop :=
  Forall (fun f => cmp v (val (f_node f)) = if f_side f then 1 else -1) path.

Lemma cmp_cases v x : cmp v (val x) = 0 \/ cmp v (val x) = 1 \/ cmp v (val x) = -1.
Proof. pose proof (cmp_range v (val x)). tauto. Qed.

Lemma sorted_gt_all v x (l : list A) :
  cmp v (val x) = 1 -> (forall y, y ∈ l -> before cmp val y x) ->
  Forall (fun y => cmp v (val y) = 1) l.
Proof. intros Hx Hl. apply Forall_forall. intros y Hy. eapply cmp_gt_r; eauto. Qed.
Lemma sorted_lt_all v x (l : list A) :
  cmp v (val x) = -1 -> (forall y, y ∈ l -> before cmp val x y) ->
  Forall (fun y => cmp v (val y) = -1) l.
Proof. intros Hx Hl. apply Forall_forall. intros y Hy. eapply cmp_lt_l; eauto. Qed.

(** The descent finds the equal element, or the place of the missing one. *)
Lemma descend_spec v t path :
  sorted cmp val (elems t) ->
  match descend cmp val v t path with
  | inl y => find_equal cmp val v (elems t) = Some y
  | inr path' =>
      find_equal cmp val v (elems t) = None /\
      exists down, path' = down ++ path /\ plug down Leaf = t /\
        (forall x, val x = v -> ctx_elems down [x] = insert_sorted cmp val x (elems t))
  end.
Proof.
  revert path; induction t as [|l IHl x b r IHr]; intros path Hs; cbn.
  - split; [done|]. exists []. split_and!; done.
  - cbn in Hs. pose proof Hs as Hsorted. apply sorted_app in Hs as (Hl & Hxr & Hlt).
    pose proof (sorted_app cmp val [x] (elems r)) as Hr. cbn in Hr.
    apply Hr in Hxr as (_ & Hsr & Hgt). clear Hr.
    assert (Hlx : forall y, y ∈ elems l -> before cmp val y x) by (intros; apply Hlt; [done|left]).
    assert (Hxr : forall y, y ∈ elems r -> before cmp val x y)
      by (intros; apply Hgt; [by left|done]).
    rewrite find_equal_app. cbn.
    destruct (cmp_cases v x) as [E | [E | E]]; rewrite E; cbn.
    + rewrite (find_equal_gt _ _ _ (elems l)); [done|].
      apply Forall_forall. intros y Hy. specialize (Hlx y Hy). unfold before in Hlx.
      pose proof (cmp_anti (val y) v). pose proof (cmp_anti v (val x)).
      pose proof (cmp_eq_l v (val x) (val y) E). pose proof (cmp_anti (val y) (val x)). lia.
    + assert (Hgtl := sorted_gt_all v x (elems l) E Hlx).
      rewrite (find_equal_gt _ _ _ (elems l)) by done.
      specialize (IHr (Frame true x b l :: path) Hsr).
      destruct (descend cmp val v r _) as [y|path']; [done|].
      destruct IHr as (Hnone & down & -> & Hplug & Hins). split; [done|].
      exists (down ++ [Frame true x b l]). split_and!; [by rewrite <- app_assoc| |].
      * by rewrite plug_app, Hplug.
      * intros z <-. rewrite insert_sorted_r.
        2: { apply Forall_app. split; [done|]. by constructor. }
        by rewrite <- Hins, ctx_elems_app.
    + rewrite (find_equal_lt _ _ _ (elems r)) by by eapply sorted_lt_all.
      specialize (IHl (Frame false x b r :: path) Hl).
      destruct (descend cmp val v l _) as [y|path']; [by rewrite IHl|].
      destruct IHl as (Hnone & down & -> & Hplug & Hins). split; [by rewrite Hnone|].
      exists (down ++ [Frame false x b r]). split_and!; [by rewrite <- app_assoc| |].
      * by rewrite plug_app, Hplug.
      * intros z <-. rewrite insert_sorted_l by done.
        by rewrite <- Hins, ctx_elems_app.
Qed.
End compare.

(** ** Insertion *)

Lemma BAVL_Insert_new {V} (cmp : V -> V -> Z) `{!Comparator cmp} (val : A -> V) x t :
  avl t -> sorted cmp val (elems t) -> find_equal cmp val (val x) (elems t) = None ->
  exists t', BAVL_Insert cmp val x t = Some (true, t') /\ avl t' /\
             elems t' = insert_sorted cmp val x (elems t).
Proof.
  intros Ht Hs Hf. unfold BAVL_Insert.
  pose proof (descend_spec cmp val (val x) t [] Hs) as Hd.
  destruct (descend cmp val (val x) t []) as [y|path']; [congruence|].
  destruct Hd as (_ & down & -> & <- & Hins). rewrite app_nil_r.
  destruct down as [|c path]; [by eexists|].
  apply (plug_avl (c :: path) Leaf) in Ht as [_ Hctx].
  destruct (rebalance_ok path (fill c (Node Leaf x 0 Leaf)) (f_side c) 1) as (t' & -> & ? & Hel).
  { apply (changed_up _ _ _ _ 0); [cbn; lia..|done]. }
  exists t'. split; [done|]. split; [done|]. rewrite <- Hins, Hel, fill_elems by done.
  by destruct c as [[] ? ? ?].
Qed.

Lemma BAVL_Insert_old {V} (cmp : V -> V -> Z) `{!Comparator cmp} (val : A -> V) x t y :
  sorted cmp val (elems t) -> find_equal cmp val (val x) (elems t) = Some y ->
  BAVL_Insert cmp val x t = Some (false, t).
Proof.
  intros Hs Hf. unfold BAVL_Insert. pose proof (descend_spec cmp val (val x) t [] Hs) as Hd.
  destruct (descend cmp val (val x) t []); [done|]. destruct Hd as [Hd _]. congruence.
Qed.

(** ** Removal *)

Lemma locate_None `{EqDecision A} x t path : x ∉ elems t -> locate x t path = None.
Proof.
  revert path; induction t as [|l IHl y b r IHr]; intros path; cbn; [done|].
  rewrite elem_of_app, elem_of_cons. intros Hn.
  rewrite IHl by tauto. rewrite decide_False by tauto. apply IHr. tauto.
Qed.

(** [t] has the node [n] below [down], and [pre]/[post] around it. *)
Definition at_node (t : tree A) (down : list (frame A)) (n : tree A) (pre post : list A) : Prop :=
  plug down n = t /\ forall m, ctx_elems down m = pre ++ m ++ post.

Lemma at_node_right t down n pre post l y b :
  at_node t down n pre post ->
  at_node (Node l y b t) (down ++ [Frame true y b l]) n (elems l ++ y :: pre) post.
Proof.
  intros [<- Hm]. split; [by rewrite plug_app|].
  intros m. rewrite ctx_elems_app, Hm. cbn. by rewrite <- app_assoc.
Qed.
Lemma at_node_left t down n pre post r y b :
  at_node t down n pre post ->
  at_node (Node t y b r) (down ++ [Frame false y b r]) n pre (post ++ y :: elems r).
Proof.
  intros [<- Hm]. split; [by rewrite plug_app|].
  intros m. rewrite ctx_elems_app, Hm. cbn. by rewrite <- !app_assoc.
Qed.

Lemma locate_Some `{EqDecision A} x t path (l1 l2 : list A) :
  elems t = l1 ++ x :: l2 -> x ∉ l1 ->
  exists l b r down pre post,
    locate x t path = Some (Node l x b r, down ++ path) /\
    at_node t down (Node l x b r) pre post /\ l1 = pre ++ elems l /\ l2 = elems r ++ post.
Proof.
  revert path l1 l2; induction t as [|tl IHl y b tr IHr]; intros path l1 l2 He Hn; cbn in *.
  { by destruct l1. }
  destruct (decide (x ∈ elems tl)) as [Hin|Hnin].
  - apply list_elem_of_split_l in Hin as (k1 & k2 & Hk & Hk1).
    destruct (IHl (Frame false y b tr :: path) k1 k2 Hk Hk1)
      as (l & b' & r & down & pre & post & Hloc & Hat & -> & ->).
    exists l, b', r, (down ++ [Frame false y b tr]), pre, (post ++ y :: elems tr).
    rewrite Hloc, <- app_assoc. split; [done|]. split; [by apply at_node_left|].
    rewrite Hk, <- app_assoc in He. cbn in He.
    apply not_elem_of_app_cons_inv_l in He as (<- & _ & <-); [|done..].
    split; [done|]. by rewrite <- !app_assoc.
  - rewrite locate_None by done. destruct (decide (x = y)) as [<-|Hne].
    + apply not_elem_of_app_cons_inv_l in He as (<- & _ & <-); [|done..].
      exists tl, b, tr, [], [], []. rewrite app_nil_r. split_and!; try done.
      split; [done|]. intros; cbn. by rewrite app_nil_r.
    + assert (exists k1, l1 = elems tl ++ y :: k1 /\ elems tr = k1 ++ x :: l2) as (k1 & -> & Hk).
      { apply app_eq_inv in He as [(k & Hk1 & Hk2)|(k & Hk1 & Hk2)].
        - destruct k as [|z k]; cbn in Hk2; [congruence|].
          exfalso. apply Hnin. rewrite Hk1. injection Hk2 as <- _.
          apply elem_of_app. right. left.
        - destruct k as [|z k]; cbn in Hk2; [congruence|]. injection Hk2 as <- ->.
          exists k. by rewrite Hk1. }
      rewrite elem_of_app, elem_of_cons in Hn.
      destruct (IHr (Frame true y b tl :: path) k1 l2 Hk ltac:(tauto))
        as (l & b' & r & down & pre & post & Hloc & Hat & -> & ->).
      exists l, b', r, (down ++ [Frame true y b tl]), (elems tl ++ y :: pre), post.
      rewrite Hloc, <- app_assoc. split; [done|]. split; [by apply at_node_right|].
      by rewrite <- app_assoc.
Qed.

Lemma subtree_max_Some t path :
  t <> Leaf ->
  exists ml my mb mpath pre,
    _BAVL_subtree_max t path = Some (Node ml my mb Leaf, mpath ++ path) /\
    at_node t mpath (Node ml my mb Leaf) pre [].
Proof.
  revert path; induction t as [|l _ x b r IH]; intros path Ht; [done|]. cbn.
  destruct r as [|rl y rb rr].
  - exists l, x, b, [], []. split; [done|]. split; [done|]. intros; cbn. by rewrite app_nil_r.
  - destruct (IH (Frame true x b l :: path)) as (ml & my & mb & mpath & pre & -> & Hat); [done|].
    exists ml, my, mb, (mpath ++ [Frame true x b l]), (elems l ++ x :: pre).
    rewrite <- app_assoc. split; [done|]. by apply at_node_right.
Qed.

Lemma unlink_ok path child :
  avl child -> ctx_ok path (height child + 1) ->
  exists t', unlink path child = Some t' /\ avl t' /\ elems t' = ctx_elems path (elems child).
Proof.
  intros Hc Hctx. destruct path as [|f path]; [by eexists|]. cbn [unlink].
  destruct (rebalance_ok path (fill f child) (f_side f) (-1)) as (t' & -> & ? & Hel).
  { apply (changed_up _ _ _ _ (height child + 1)); [done|lia|lia|done]. }
  exists t'. split; [done|]. split; [done|]. rewrite Hel, fill_elems.
  by destruct f as [[] ? ? ?].
Qed.

(** Replacing the element of the frame at the top of a path. *)
Lemma ctx_ok_elem (p1 : list (frame A)) side x y b o p2 h :
  ctx_ok (p1 ++ Frame side x b o :: p2) h <-> ctx_ok (p1 ++ Frame side y b o :: p2) h.
Proof.
  revert h; induction p1 as [|[s ? ? ?] p1 IH]; intros h; cbn; [tauto|]. by rewrite IH.
Qed.

Lemma BAVL_Remove_in `{EqDecision A} x t (l1 l2 : list A) :
  avl t -> elems t = l1 ++ x :: l2 -> x ∉ l1 ->
  exists t', BAVL_Remove x t = Some t' /\ avl t' /\ elems t' = l1 ++ l2.
Proof.
  intros Ht He Hn. unfold BAVL_Remove.
  destruct (locate_Some x t [] l1 l2 He Hn) as (l & b & r & down & pre & post & -> & Hat & -> & ->).
  rewrite app_nil_r. destruct Hat as [<- Hm].
  pose proof Ht as Htop. apply plug_avl in Ht as [Hnode Hctx].
  cbn [avl] in Hnode. destruct Hnode as (Hl & Hr & Hb & Hb').
  destruct l as [|ll lx lb lr]; [|destruct r as [|rl rx rb rr]].
  - destruct (unlink_ok down r Hr) as (t' & Hu & Hav & Hel).
    { cbn [height] in Hctx. by replace (height r + 1) with (1 + Z.max 0 (height r))
        by (pose proof (height_nonneg r); lia). }
    exists t'. destruct r; (split; [done|]); split; try done; rewrite Hel, Hm; cbn;
      by rewrite ?app_nil_r.
  - destruct (unlink_ok down (Node ll lx lb lr) Hl) as (t' & Hu & Hav & Hel).
    { cbn [height] in *. eapply eq_ind; [exact Hctx|]. pose proof (height_nonneg ll).
      pose proof (height_nonneg lr). lia. }
    exists t'. split; [done|]. split; [done|]. rewrite Hel, Hm. by rewrite <- app_assoc.
  - remember (Node rl rx rb rr) as r eqn:Er. remember (Node ll lx lb lr) as l eqn:El.
    destruct (subtree_max_Some l []) as (ml & my & mb & mpath & mpre & Hmax & Hplug & Hmm);
      [by subst|].
    rewrite app_nil_r in Hmax.
    assert (avl ml /\ ctx_ok (mpath ++ Frame false my b r :: down) (height ml + 1)) as [Hml Hmc].
    { assert (Hbig : avl (plug (mpath ++ Frame false x b r :: down) (Node ml my mb Leaf))).
      { rewrite plug_app. cbn [plug]. unfold fill. cbn. by rewrite Hplug. }
      apply plug_avl in Hbig as [(? & _ & _ & _) Hc]. split; [done|].
      apply (ctx_ok_elem _ _ x my). cbn [height] in Hc.
      by replace (height ml + 1) with (1 + Z.max (height ml) 0)
        by (pose proof (height_nonneg ml); lia). }
    destruct (unlink_ok _ _ Hml Hmc) as (t' & Hu & Hav & Hel).
    exists t'. rewrite El, Er in *. rewrite Hmax. split; [done|]. split; [done|].
    rewrite Hel, ctx_elems_app. cbn [ctx_elems]. rewrite Hm, Hmm.
    rewrite <- Hplug, plug_elems, Hmm. cbn [elems]. rewrite <- !app_assoc. cbn.
    by rewrite <- ?app_assoc.
Qed.

(** ** Search *)

Lemma BAVL_LookupExact_spec {V} (cmp : V -> V -> Z) `{!Comparator cmp} (val : A -> V) v t :
  sorted cmp val (elems t) -> BAVL_LookupExact cmp val v t = find_equal cmp val v (elems t).
Proof.
  intros Hs. unfold BAVL_LookupExact. pose proof (descend_spec cmp val v t [] Hs) as Hd.
  destruct (descend cmp val v t []); [done|]. by destruct Hd as [-> _].
Qed.

Lemma BAVL_GetFirst_spec t : BAVL_GetFirst t = head (elems t).
Proof.
  induction t as [|l IH x b r _]; [done|]. destruct l as [|ll y lb lr]; [done|].
  cbn [BAVL_GetFirst]. cbn [BAVL_GetFirst] in IH. rewrite IH. cbn [elems].
  by destruct (elems ll).
Qed.

Lemma BAVL_GetLast_spec t : BAVL_GetLast t = last (elems t).
Proof.
  induction t as [|l _ x b r IH]; [done|]. destruct r as [|rl y rb rr].
  - cbn. by rewrite last_snoc.
  - cbn [BAVL_GetLast]. cbn [BAVL_GetLast] in IH. rewrite IH. cbn [elems].
    rewrite (last_app (elems l)), last_cons.
    destruct (last (elems rl ++ y :: elems rr)) eqn:E; [done|].
    apply last_None in E. by destruct (elems rl).
Qed.
End operations.

(** * The AVL tree implements the interface *)

#[export] Instance BAVL_OrdTree : OrdTree tree := {
  ot_empty A := BAVL_Init;
  ot_insert A V cmp val x t := BAVL_Insert cmp val x t;
  ot_remove A _ x t := BAVL_Remove x t;
  ot_lookup A V cmp val v t := BAVL_LookupExact cmp val v t;
  ot_first A t := BAVL_GetFirst t;
  ot_elems A t := elems t;
  ot_wf A t := avl t
}.

#[export] Instance BAVL_laws : OrdTreeLaws tree.
Proof.
  constructor; intros; cbn in *.
  - done.
  - done.
  - by apply BAVL_Insert_new.
  - by eapply BAVL_Insert_old.
  - by apply BAVL_Remove_in.
  - by apply BAVL_LookupExact_spec.
  - apply BAVL_GetFirst_spec.
Qed.

(** A tree of height [h] has at least as many nodes as the Fibonacci tree of
    that height, so lookups take logarithmic time. *)
Fixpoint min_nodes (h : nat) : Z :=
  match h with
  | O => 0
  | S h' => match h' with O => 1 | S h'' => 1 + min_nodes h' + min_nodes h'' end
  end.

Lemma min_nodes_SS h : min_nodes (S (S h)) = 1 + min_nodes (S h) + min_nodes h.
Proof. done. Qed.
Lemma min_nodes_step h : min_nodes h <= min_nodes (S h).
Proof.
  enough (min_nodes h <= min_nodes (S h) /\ 0 <= min_nodes h) by tauto.
  induction h as [|[|h] IH]; [cbn; lia..|]. rewrite !min_nodes_SS in *. lia.
Qed.

Lemma avl_min_nodes {A} (t : tree A) : avl t -> min_nodes (Z.to_nat (height t)) <= zlen (elems t).
Proof.
  induction t as [|l IHl x b r IHr]; cbn [avl height elems]; [done|].
  intros (Hl & Hr & Hb & Hb'). specialize (IHl Hl). specialize (IHr Hr).
  rewrite zlen_app, zlen_cons. pose proof (height_nonneg l). pose proof (height_nonneg r).
  rewrite Z2Nat.inj_add by lia. change (Z.to_nat 1) with 1%nat. cbn [Nat.add].
  assert (height r = height l \/ height r = height l + 1 \/ height l = height r + 1)
    as [E | [E | E]] by lia.
  - replace (Z.max _ _) with (height l) by lia. rewrite E in IHr.
    destruct (Z.to_nat (height l)) as [|h]; [cbn; zlia|].
    pose proof (min_nodes_step h). rewrite min_nodes_SS. lia.
  - replace (Z.max _ _) with (height r) by lia. rewrite E in *.
    rewrite Z2Nat.inj_add in * by lia. change (Z.to_nat 1) with 1%nat in *.
    rewrite Nat.add_comm in *. cbn [Nat.add] in *. rewrite min_nodes_SS. lia.
  - replace (Z.max _ _) with (height l) by lia. rewrite E in *.
    rewrite Z2Nat.inj_add in * by lia. change (Z.to_nat 1) with 1%nat in *.
    rewrite Nat.add_comm in *. cbn [Nat.add] in *. rewrite min_nodes_SS. lia.
Qed.

(** * Histories of insertions and removals

    The tree against the sorted list it stands for: an insertion is refused
    when an equal element is present, a removal takes an element of the tree. *)

Inductive tree_op (A : Type) := Insert (x : A) | Remove (x : A).
Arguments Insert {A}. Arguments Remove {A}.

Section history.
Context {V A : Type} `{EqDecision A} (cmp : V -> V -> Z) (val : A -> V).

Definition op_tree (o : tree_op A) (t : tree A) : option (bool * tree A) :=
  match o with
  | Insert x => BAVL_Insert cmp val x t
  | Remove x => (fun t' => (true, t')) <$> BAVL_Remove x t
  end.
Definition op_list (o : tree_op A) (l : list A) : option (bool * list A) :=
  match o with
  | Insert x =>
      match find_equal cmp val (val x) l with
      | Some _ => Some (false, l)
      | None => Some (true, insert_sorted cmp val x l)
      end
  | Remove x => if bool_decide (x ∈ l) then Some (true, filter (fun y => y <> x) l) else None
  end.
Fixpoint ops {S} (f : tree_op A -> S -> option (bool * S)) (os : list (tree_op A)) (s : S)
  : option (list bool * S) :=
  match os with
  | [] => Some ([], s)
  | o :: os =>
      '(b, s) ← f o s; '(bs, s) ← ops f os s; Some (b :: bs, s)
  end.
End history.

Section correctness.
Context {V A : Type} `{EqDecision A} (cmp : V -> V -> Z) `{!Comparator cmp} (val : A -> V).
Implicit Types t : tree A.

(** A tree and its list; the relation the operations preserve. *)
Definition stands_for t (l : list A) : Prop := avl t /\ elems t = l /\ sorted cmp val l.

Lemma op_refines o t l b l' :
  stands_for t l -> op_list cmp val o l = Some (b, l') ->
  exists t', op_tree cmp val o t = Some (b, t') /\ stands_for t' l'.
Proof using Comparator0.
  intros (Ht & He & Hs). destruct o as [x|x]; cbn.
  - destruct (find_equal cmp val (val x) l) as [y|] eqn:Hf; intros [= <- <-]; subst l.
    + exists t. split; [|done]. by eapply BAVL_Insert_old.
    + destruct (BAVL_Insert_new cmp val x t Ht Hs Hf) as (t' & -> & Ht' & He').
      exists t'. split; [done|]. split; [done|]. split; [done|].
      by apply insert_sorted_sorted.
  - destruct (bool_decide_reflect (x ∈ l)) as [Hin|]; [|done]. intros [= <- <-].
    pose proof (sorted_NoDup cmp val l Hs) as Hn.
    apply list_elem_of_split in Hin as (l1 & l2 & ->).
    destruct (BAVL_Remove_in x t l1 l2 Ht He) as (t' & -> & Ht' & He').
    { apply NoDup_app in Hn as (_ & Hx & _). intros Hx1. by apply (Hx x Hx1); left. }
    exists t'. split; [done|]. rewrite filter_ne_middle by done.
    split; [done|]. split; [done|]. by eapply sorted_remove.
Qed.

Lemma ops_refine os : forall t l bs l',
  stands_for t l -> ops (op_list cmp val) os l = Some (bs, l') ->
  exists t', ops (op_tree cmp val) os t = Some (bs, t') /\ stands_for t' l'.
Proof using Comparator0.
  induction os as [|o os IH]; intros t l bs l' Hst; cbn [ops].
  - intros [= <- <-]. by exists t.
  - destruct (op_list cmp val o l) as [[b l1]|] eqn:Ho; [|done]. cbn.
    destruct (ops (op_list cmp val) os l1) as [[bs1 l2]|] eqn:Hos; [|done].
    intros [= <- <-].
    destruct (op_refines o t l b l1 Hst Ho) as (t1 & -> & Hst1). cbn.
    destruct (IH t1 l1 bs1 l2 Hst1 Hos) as (t2 & -> & Hst2). by exists t2.
Qed.

(** C1: the AVL tree is a sorted set.  Any sequence of insertions and of
    removals of present elements, from the empty tree, runs without a null
    link, answers as the sorted list does, leaves the tree balanced with the
    same elements in order; lookup, first and last then agree with the list. *)
Theorem bavl_is_sorted_list (os : list (tree_op A)) (bs : list bool) (l : list A)
  (Hops : ops (op_list cmp val) os [] = Some (bs, l)) :
  exists t, ops (op_tree cmp val) os BAVL_Init = Some (bs, t) /\ avl t /\ elems t = l /\
    sorted cmp val l /\
    (forall v, BAVL_LookupExact cmp val v t = find_equal cmp val v l) /\
    BAVL_GetFirst t = head l /\ BAVL_GetLast t = last l /\
    BAVL_IsEmpty t = bool_decide (l = []).
Proof using Comparator0.
  destruct (ops_refine os BAVL_Init [] bs l) as (t & Hrun & Ht & <- & Hs);
    [by repeat constructor|done|].
  exists t. split_and!; try done.
  - intros v. by apply BAVL_LookupExact_spec.
  - apply BAVL_GetFirst_spec.
  - apply BAVL_GetLast_spec.
  - destruct t as [|l x b r]; cbn; [done|].
    rewrite bool_decide_false; [done|]. by destruct (elems l).
Qed.
End correctness.

Lemma min_nodes_double h : 2 * min_nodes h + 1 <= min_nodes (S (S h)).
Proof. rewrite min_nodes_SS. pose proof (min_nodes_step h). lia. Qed.

Lemma min_nodes_pow k : 2 ^ Z.of_nat k <= min_nodes (2 * k) + 1.
Proof.
  induction k as [|k IH]; [by vm_compute|].
  replace (2 * S k)%nat with (S (S (2 * k))) by lia.
  rewrite Nat2Z.inj_succ, Z.pow_succ_r by lia. pose proof (min_nodes_double (2 * k)). lia.
Qed.

Lemma min_nodes_mono a b : (a <= b)%nat -> min_nodes a <= min_nodes b.
Proof. induction 1 as [|b _ IH]; [lia|]. pose proof (min_nodes_step b). lia. Qed.

(** The number of nodes a descent compares the value with. *)
Fixpoint comparisons {V A} (cmp : V -> V -> Z) (val : A -> V) (v : V) (t : tree A) : Z :=
  match t with
  | Leaf => 0
  | Node l y _ r =>
      1 + (let comp := cmp v (val y) in
           if comp =? 0 then 0
           else if comp =? 1 then comparisons cmp val v r else comparisons cmp val v l)
  end.
Lemma comparisons_height {V A} (cmp : V -> V -> Z) (val : A -> V) v (t : tree A) :
  comparisons cmp val v t <= height t.
Proof.
  induction t as [|l IHl x b r IHr]; cbn; [done|].
  pose proof (height_nonneg l). pose proof (height_nonneg r). repeat case_match; lia.
Qed.

(** C2: a lookup, an insertion or a timer search in a tree of [n] nodes
    compares with at most [2 * log2 (n + 1) + 1] of them: two to half the
    number of comparisons is at most [n + 1]. *)
Theorem bavl_logarithmic {V A} (cmp : V -> V -> Z) (val : A -> V) v (t : tree A) (Ht : avl t) :
  2 ^ (comparisons cmp val v t / 2) <= zlen (elems t) + 1 /\
  (forall y, descend cmp val v t [] = inl y -> comparisons cmp val v t > 0) /\
  (forall path, descend cmp val v t [] = inr path -> zlen path = comparisons cmp val v t).
Proof.
  assert (Hpath : forall p0, match descend cmp val v t p0 with
      | inl _ => comparisons cmp val v t > 0
      | inr path => zlen path = zlen p0 + comparisons cmp val v t end).
  { induction t as [|l IHl x b r IHr]; intros p0; cbn; [lia|].
    destruct Ht as (Hl & Hr & _). destruct (_ =? 0); [lia|]. destruct (_ =? 1).
    - specialize (IHr Hr (Frame true x b l :: p0)). rewrite zlen_cons in IHr.
      destruct (descend _ _ _ r _); lia.
    - specialize (IHl Hl (Frame false x b r :: p0)). rewrite zlen_cons in IHl.
      destruct (descend _ _ _ l _); lia. }
  specialize (Hpath []). split; [|split; intros ? E; rewrite E in Hpath; [done|by rewrite Hpath]].
  pose proof (comparisons_height cmp val v t) as Hc. pose proof (avl_min_nodes t Ht) as Hn.
  pose proof (height_nonneg t) as Hh.
  pose proof (min_nodes_pow (Z.to_nat (comparisons cmp val v t / 2))) as Hp.
  pose proof (min_nodes_mono (2 * Z.to_nat (comparisons cmp val v t / 2)) (Z.to_nat (height t))) as Hm.
  pose proof (Z.div_mod (comparisons cmp val v t) 2). pose proof (Z.mod_pos_bound (comparisons cmp val v t) 2).
  destruct (decide (0 <= comparisons cmp val v t / 2)) as [Hpos|]; [|rewrite Z.pow_neg_r; zlia].
  rewrite Z2Nat.id in Hp by done. lia.
Qed.

(** ** Witnesses *)

Definition cmp_example (a b : Z) : Z := Z.b2z (b <? a) - Z.b2z (a <? b).
#[local] Instance cmp_example_ok : Comparator cmp_example.
Proof.
  unfold cmp_example. split; intros;
    repeat match goal with |- context [Z.b2z (?x <? ?y)] => destruct (Z.ltb_spec x y) end;
    repeat match goal with H : context [Z.b2z (?x <? ?y)] |- _ => destruct (Z.ltb_spec x y) end;
    cbn in *; lia.
Qed.
Definition ops_example : list (tree_op Z) :=
  [Insert 5; Insert 3; Insert 8; Insert 9; Insert 10; Insert 3; Remove 5; Insert 4; Remove 9].
Lemma ops_example_list :
  ops (op_list cmp_example id) ops_example [] =
  Some ([true; true; true; true; true; false; true; true; true], [3; 4; 8; 10]).
Proof. reflexivity. Qed.
Lemma bavl_is_sorted_list_witness :
  exists t, ops (op_tree cmp_example id) ops_example BAVL_Init =
    Some ([true; true; true; true; true; false; true; true; true], t) /\
    elems t = [3; 4; 8; 10] /\ BAVL_LookupExact cmp_example id 8 t = Some 8.
Proof.
  destruct (bavl_is_sorted_list cmp_example id ops_example _ _ ops_example_list)
    as (t & Hrun & _ & He & _ & Hl & _).
  exists t. split; [exact Hrun|]. split; [exact He|]. rewrite Hl. reflexivity.
Defined.

Definition tree_example : tree Z := Node (Node Leaf 1 0 Leaf) 2 1 (Node Leaf 5 1 (Node Leaf 7 0 Leaf)).
Lemma bavl_logarithmic_witness :
  2 ^ (comparisons cmp_example id 7 tree_example / 2) <= zlen (elems tree_example) + 1 /\
  comparisons cmp_example id 7 tree_example = 3.
Proof.
  split; [|reflexivity].
  refine (proj1 (bavl_logarithmic cmp_example id 7 tree_example _)). cbn. lia.
Defined.
