(* ===== verification/BPending.v ===== *)
(** Job scheduling: [base/BPending.c] over the list of [SLinkedList_impl.h].

    Jobs are identified by the address of their [BSmallPending] object.  The
    group is a stack: [BSmallPending_Set] puts a job on top and
    [BPendingGroup_ExecuteJob] takes the job on top.  The debug field [pending]
    is kept, because the [ASSERT]s compare it with the list membership.  A
    handler and its user pointer are two numbers; running one is an event. *)

From S2P Require Import Prelude System.

Record BSmallPending := mk_small {
  handler : Z;
  user : Z;
  list_removed : bool; (* BPending__ListIsRemoved *)
  pending : bool       (* debug builds *)
}.
#[export] Instance eta_small : Eta BSmallPending :=
  fun o => mk_small (handler o) (user o) (list_removed o) (pending o).

Record BPendingGroup := mk_group {
  jobs : list Z;                 (* g->jobs, first to run first *)
  objs : gmap Z BSmallPending    (* the initialised job objects *)
}.
#[export] Instance eta_group : Eta BPendingGroup := fun g => mk_group (jobs g) (objs g).

(** A call of a job's handler, and the answers of the queries. *)
Inductive event := Ran (o handler user : Z) | Answer (b : bool) | Peeked (o : option Z).

Section operations.
Local Abbreviation M := (M BPendingGroup event).

Definition BPendingGroup_Init : BPendingGroup := mk_group [] ∅.

(** The counter of job objects must be zero. *)
Definition BPendingGroup_Free : M unit :=
  g ← get;
  assert (bool_decide (objs g = ∅));;
  assert (bool_decide (jobs g = [])).

Definition BPendingGroup_HasJobs : M bool :=
  gets (fun g => match jobs g with [] => false | _ => true end).

Definition get_obj (o : Z) : M BSmallPending :=
  objs ← gets objs; must (objs !! o).
Definition set_obj (o : Z) (x : BSmallPending) : M unit :=
  modify (upd objs <[o := x]>).

(** [SLinkedList_Remove]: the node must be in the list. *)
Definition List_Remove (o : Z) : M unit :=
  l ← gets jobs;
  assert (bool_decide (o ∈ l));;
  modify (upd jobs (filter (fun j => j <> o))).
Definition List_Prepend (o : Z) : M unit := modify (upd jobs (cons o)).

Definition BPendingGroup_ExecuteJob : M unit :=
  l ← gets jobs;
  p ← must (head l);
  x ← get_obj p;
  assert (negb (list_removed x));;
  assert (pending x);;
  (* remove from jobs list *)
  modify (upd jobs tail);;
  set_obj p (x <| list_removed := true |> <| pending := false |>);;
  (* execute job *)
  emit (Ran p (handler x) (user x)).

Definition BPendingGroup_PeekJob : M (option Z) := gets (fun g => head (jobs g)).

Definition BSmallPending_Init (o handler user : Z) : M unit :=
  set_obj o (mk_small handler user true false).

Definition BSmallPending_Free (o : Z) : M unit :=
  x ← get_obj o;
  assert (Bool.eqb (pending x) (negb (list_removed x)));;
  when (negb (list_removed x)) (List_Remove o);;
  modify (upd objs (delete o)).

Definition BSmallPending_SetHandler (o handler' user' : Z) : M unit :=
  x ← get_obj o;
  set_obj o (x <| handler := handler' |> <| user := user' |>).

Definition BSmallPending_Set (o : Z) : M unit :=
  x ← get_obj o;
  assert (Bool.eqb (pending x) (negb (list_removed x)));;
  when (negb (list_removed x)) (List_Remove o);;
  List_Prepend o;;
  set_obj o (x <| list_removed := false |> <| pending := true |>).

Definition BSmallPending_Unset (o : Z) : M unit :=
  x ← get_obj o;
  assert (Bool.eqb (pending x) (negb (list_removed x)));;
  when (negb (list_removed x)) (
    List_Remove o;;
    set_obj o (x <| list_removed := true |> <| pending := false |>)).

Definition BSmallPending_IsSet (o : Z) : M bool :=
  x ← get_obj o;
  assert (Bool.eqb (pending x) (negb (list_removed x)));;
  mret (negb (list_removed x)).

(** ** The group in use *)

Inductive action :=
| DoInit (o handler user : Z) | DoFree (o : Z) | DoSetHandler (o handler user : Z)
| DoSet (o : Z) | DoUnset (o : Z) | DoIsSet (o : Z)
| DoHasJobs | DoPeek | DoExecute.

Definition exec_action (a : action) : M unit :=
  match a with
  | DoInit o h u => BSmallPending_Init o h u
  | DoFree o => BSmallPending_Free o
  | DoSetHandler o h u => BSmallPending_SetHandler o h u
  | DoSet o => BSmallPending_Set o
  | DoUnset o => BSmallPending_Unset o
  | DoIsSet o => b ← BSmallPending_IsSet o; emit (Answer b)
  | DoHasJobs => b ← BPendingGroup_HasJobs; emit (Answer b)
  | DoPeek => o ← BPendingGroup_PeekJob; emit (Peeked o)
  | DoExecute => BPendingGroup_ExecuteJob
  end.

(** Objects are used between their initialisation and their release; a job
    is executed when there is one. *)
Definition action_enabled (g : BPendingGroup) (a : action) : bool :=
  match a with
  | DoInit o _ _ => bool_decide (objs g !! o = None)
  | DoFree o | DoSetHandler o _ _ | DoSet o | DoUnset o | DoIsSet o => bool_decide (is_Some (objs g !! o))
  | DoHasJobs | DoPeek => true
  | DoExecute => negb (bool_decide (jobs g = []))
  end.
End operations.

#[export] Instance BPending_System : System BPendingGroup action event := {
  enabled := action_enabled;
  exec := exec_action
}.

(** * The specification: a stack of jobs, each in it at most once *)

Record stack := mk_stack { st_jobs : list Z; st_handlers : gmap Z (Z * Z) }.

Definition spec_step (a : action) (s : stack) : stack * list event :=
  let set_jobs l := mk_stack l (st_handlers s) in
  let without o := filter (fun j => j <> o) (st_jobs s) in
  match a with
  | DoInit o h u => (mk_stack (st_jobs s) (<[o := (h, u)]> (st_handlers s)), [])
  | DoFree o => (mk_stack (without o) (delete o (st_handlers s)), [])
  | DoSetHandler o h u => (mk_stack (st_jobs s) (<[o := (h, u)]> (st_handlers s)), [])
  | DoSet o => (set_jobs (o :: without o), [])
  | DoUnset o => (set_jobs (without o), [])
  | DoIsSet o => (s, [Answer (bool_decide (o ∈ st_jobs s))])
  | DoHasJobs => (s, [Answer (negb (bool_decide (st_jobs s = [])))])
  | DoPeek => (s, [Peeked (head (st_jobs s))])
  | DoExecute =>
      (set_jobs (tail (st_jobs s)),
       match st_jobs s with
       | o :: _ => match st_handlers s !! o with Some (h, u) => [Ran o h u] | None => [] end
       | [] => []
       end)
  end.

Definition callback (x : BSmallPending) : Z * Z := (handler x, user x).
Definition abs (g : BPendingGroup) : stack := mk_stack (jobs g) (callback <$> objs g).

(** * The group invariant *)

Definition small_ok (listed : bool) (x : BSmallPending) : Prop :=
  list_removed x = negb listed /\ pending x = listed.

Record group_inv (g : BPendingGroup) : Prop := {
  gi_nodup : NoDup (jobs g);
  gi_objs : forall o x, objs g !! o = Some x -> small_ok (bool_decide (o ∈ jobs g)) x;
  gi_jobs : forall o, o ∈ jobs g -> is_Some (objs g !! o)
}.

Section laws.
Implicit Types g : BPendingGroup.

Lemma group_inv_init : group_inv BPendingGroup_Init.
Proof. constructor; cbn; [constructor|done|by intros ? ?%elem_of_nil]. Qed.

(** One object changes, and with it only its own membership in the list. *)
Lemma group_inv_change g o l x :
  group_inv g -> NoDup l -> (forall j, j <> o -> (j ∈ l <-> j ∈ jobs g)) ->
  small_ok (bool_decide (o ∈ l)) x -> group_inv (mk_group l (<[o:=x]> (objs g))).
Proof.
  intros [_ Ho Hj] Hn Hl Hx. constructor; cbn; [done| |].
  - intros o' x'. destruct (decide (o' = o)) as [->|Hne].
    + rewrite lookup_insert_eq. by intros [= <-].
    + rewrite lookup_insert_ne by done. intros Hx'%Ho.
      by rewrite (bool_decide_ext _ _ (Hl o' Hne)).
  - intros j Hin. destruct (decide (j = o)) as [->|Hne]; [rewrite lookup_insert_eq; eauto|].
    rewrite lookup_insert_ne by done. apply Hj. by apply Hl.
Qed.

Lemma group_inv_drop g o :
  group_inv g ->
  group_inv (mk_group (filter (fun j => j <> o) (jobs g)) (delete o (objs g))).
Proof.
  intros [Hn Ho Hj]. constructor; cbn; [by apply NoDup_filter| |].
  - intros o' x'. rewrite lookup_delete_Some. intros [Hne Hx'%Ho].
    erewrite bool_decide_ext; [done|]. rewrite list_elem_of_filter.
    split; [by intros [_ ?]|by intros; split; [congruence|]].
  - intros j [Hne Hin]%list_elem_of_filter. rewrite lookup_delete_ne by done. auto.
Qed.

Lemma NoDup_cons_filter (o : Z) l : NoDup l -> NoDup (o :: filter (fun j => j <> o) l).
Proof. intros. constructor; [|by apply NoDup_filter]. rewrite list_elem_of_filter. tauto. Qed.

(** What an operation must establish. *)
Definition simulates (a : action) g (g' : BPendingGroup) (t : list event) : Prop :=
  group_inv g' /\ (abs g', t) = spec_step a (abs g).

Lemma wp_List_Remove o g (Q : unit -> BPendingGroup -> list event -> Prop) :
  (o ∈ jobs g) -> Q tt (mk_group (filter (fun j => j <> o) (jobs g)) (objs g)) [] ->
  wp (List_Remove o) Q g.
Proof. intros. unfold List_Remove. msteps; [by apply bool_decide_eq_true|]. done. Qed.

Lemma obj_cases g o x :
  group_inv g -> objs g !! o = Some x ->
  (o ∈ jobs g /\ list_removed x = false /\ pending x = true) \/
  (o ∉ jobs g /\ list_removed x = true /\ pending x = false).
Proof.
  intros Hg Hx. pose proof (gi_objs g Hg o x Hx) as Hok; unfold small_ok in Hok.
  destruct (bool_decide_reflect (o ∈ jobs g)); [left|right]; done.
Qed.

Lemma abs_insert g o x :
  callback <$> <[o:=x]> (objs g) = <[o:=callback x]> (st_handlers (abs g)).
Proof. apply fmap_insert. Qed.
Lemma abs_insert_same g o x x' :
  objs g !! o = Some x -> callback x' = callback x ->
  callback <$> <[o:=x']> (objs g) = st_handlers (abs g).
Proof.
  intros Hx Hc. rewrite abs_insert, Hc. apply insert_id. cbn.
  by rewrite lookup_fmap, Hx.
Qed.

Lemma op_Set o g : group_inv g -> is_Some (objs g !! o) ->
  wp (BSmallPending_Set o) (fun _ g' t => simulates (DoSet o) g g' t) g.
Proof.
  intros Hg [x Hx].
  assert (Hend : forall l, l = filter (fun j => j <> o) (jobs g) ->
    simulates (DoSet o) g
      (mk_group (o :: l) (<[o := x <| list_removed := false |> <| pending := true |>]> (objs g))) []).
  { intros l ->. split.
    - apply group_inv_change; [done|apply NoDup_cons_filter, Hg| |].
      + intros j Hj. rewrite elem_of_cons, list_elem_of_filter. tauto.
      + by rewrite bool_decide_true by left.
    - unfold abs at 1. cbn [jobs objs]. by rewrite (abs_insert_same g o x). }
  unfold BSmallPending_Set, get_obj, List_Prepend, set_obj.
  destruct (obj_cases g o x Hg Hx) as [(Hin & H1 & H2)|(Hin & H1 & H2)]; mgo; rewrite ?H1, ?H2; cbn [negb]; mgo.
  - apply wp_List_Remove; [done|]. mgo. by apply Hend.
  - apply (Hend (jobs g)). by rewrite filter_ne_notin.
Qed.

Lemma op_Unset o g : group_inv g -> is_Some (objs g !! o) ->
  wp (BSmallPending_Unset o) (fun _ g' t => simulates (DoUnset o) g g' t) g.
Proof.
  intros Hg [x Hx]. unfold BSmallPending_Unset, get_obj, set_obj.
  destruct (obj_cases g o x Hg Hx) as [(Hin & H1 & H2)|(Hin & H1 & H2)]; mgo; rewrite ?H1, ?H2; cbn [negb]; mgo.
  - apply wp_List_Remove; [done|]. mgo. split.
    + unfold upd. cbn [jobs objs]. apply group_inv_change; [done|apply NoDup_filter, Hg| |].
      * intros j Hj. rewrite list_elem_of_filter. tauto.
      * rewrite bool_decide_false by (rewrite list_elem_of_filter; tauto). done.
    + unfold abs at 1, upd. cbn [jobs objs]. by rewrite (abs_insert_same g o x).
  - split; [done|]. cbn. rewrite filter_ne_notin by done. done.
Qed.

Lemma op_Free o g : group_inv g -> is_Some (objs g !! o) ->
  wp (BSmallPending_Free o) (fun _ g' t => simulates (DoFree o) g g' t) g.
Proof.
  intros Hg [x Hx]. pose proof (group_inv_drop g o Hg) as Hinv.
  assert (Habs : simulates (DoFree o) g
    (mk_group (filter (fun j => j <> o) (jobs g)) (delete o (objs g))) []).
  { split; [done|]. unfold abs. cbn. by rewrite fmap_delete. }
  unfold BSmallPending_Free, get_obj.
  destruct (obj_cases g o x Hg Hx) as [(Hin & H1 & H2)|(Hin & H1 & H2)]; mgo; rewrite ?H1, ?H2; cbn [negb]; mgo.
  - by apply wp_List_Remove.
  - unfold upd. cbn. by rewrite filter_ne_notin in Habs by done.
Qed.

Lemma op_Execute g : group_inv g -> jobs g <> [] ->
  wp BPendingGroup_ExecuteJob (fun _ g' t => simulates DoExecute g g' t) g.
Proof.
  intros Hg Hne. destruct (jobs g) as [|o l] eqn:Hjobs; [done|].
  destruct (gi_jobs g Hg o) as [x Hx]; [rewrite Hjobs; left|].
  destruct (obj_cases g o x Hg Hx) as [(Hin & H1 & H2)|(Hin & _)]; [|rewrite Hjobs in Hin; exfalso; apply Hin; left].
  unfold BPendingGroup_ExecuteJob, get_obj, set_obj. mgo. rewrite Hjobs. mgo.
  rewrite ?H1, ?H2. cbn [negb]. mgo.
  pose proof (gi_nodup g Hg) as Hn. rewrite Hjobs in Hn. apply NoDup_cons in Hn as [Hn1 Hn2].
  split.
  - unfold upd. cbn [jobs objs]. rewrite Hjobs. apply group_inv_change; [done..| |].
    + intros j Hj. rewrite Hjobs, elem_of_cons. naive_solver.
    + by rewrite bool_decide_false.
  - unfold abs at 1, upd. cbn [jobs objs]. rewrite (abs_insert_same g o x) by done.
    cbn. rewrite Hjobs, lookup_fmap, Hx. done.
Qed.

Lemma step_simulates g a : group_inv g -> action_enabled g a = true ->
  wp (exec_action a) (fun _ g' t => simulates a g g' t) g.
Proof.
  intros Hg Hen. destruct a; cbn [action_enabled exec_action] in *; b2p.
  - unfold BSmallPending_Init, set_obj. mgo. split.
    + unfold upd. cbn [jobs objs]. apply group_inv_change; [done|apply Hg|done|].
      rewrite bool_decide_false; [done|]. intros Hin. apply (gi_jobs g Hg) in Hin as [? ?]. congruence.
    + unfold abs at 1, upd. cbn [jobs objs]. by rewrite abs_insert.
  - by apply op_Free.
  - destruct Hen as [x Hx]. unfold BSmallPending_SetHandler, get_obj, set_obj. mgo. split.
    + unfold upd. cbn [jobs objs]. apply group_inv_change; [done|apply Hg|done|]. by apply (gi_objs g Hg o x).
    + unfold abs at 1, upd. cbn [jobs objs]. by rewrite abs_insert.
  - by apply op_Set.
  - by apply op_Unset.
  - destruct Hen as [x Hx]. unfold BSmallPending_IsSet, get_obj.
    destruct (obj_cases g o x Hg Hx) as [(Hin & H1 & H2)|(Hin & H1 & H2)]; mgo; rewrite ?H1, ?H2; cbn [negb]; mgo;
      (split; [done|]); cbn; by rewrite ?bool_decide_true, ?bool_decide_false by done.
  - unfold BPendingGroup_HasJobs. mgo. split; [done|]. cbn. by destruct (jobs g).
  - unfold BPendingGroup_PeekJob. mgo. done.
  - by apply op_Execute.
Qed.

(** The specification along a sequence of actions. *)
Fixpoint spec_run (acts : list action) (s : stack) : stack * list event :=
  match acts with
  | [] => (s, [])
  | a :: acts => let '(s, t) := spec_step a s in let '(s', t') := spec_run acts s in (s', t ++ t')
  end.
End laws.

(** C3: from an empty group, every sequence of calls that respects the life
    time of the job objects passes all [ASSERT]s, keeps the list and the
    [pending] marks consistent, and behaves as a stack in which every job
    occurs at most once: setting a job moves it to the top, executing runs
    the handler on top and takes the job off the list. *)
Theorem bpending_is_job_stack (acts : list action) (g : BPendingGroup) (t : list event)
  (Hrun : run acts BPendingGroup_Init = Some (g, t)) :
  safe BPendingGroup_Init /\ group_inv g /\ (abs g, t) = spec_run acts (abs BPendingGroup_Init).
Proof.
  assert (Hstep : forall g a, group_inv g -> action_enabled g a = true ->
    wp (exec_action a) (fun _ g' t => simulates a g g' t) g) by apply step_simulates.
  split.
  - apply (inv_safe (fun _ => group_inv)); [|apply group_inv_init].
    intros tr w a Hi He. eapply wp_mono; [by apply Hstep|]. by intros ? ? ? [].
  - pose proof group_inv_init as Hinv. revert Hrun Hinv.
    generalize BPendingGroup_Init as g0. revert g t.
    induction acts as [|a acts IH]; intros g t g0 Hrun Hinv; cbn in Hrun.
    { injection Hrun as <- <-. done. }
    destruct (action_enabled g0 a) eqn:Hen; [|done].
    destruct (exec_action a g0) as [[[[] g1] t1]|] eqn:Hx; [|done].
    destruct (run acts g1) as [[g2 t2]|] eqn:Hr; [|done]. injection Hrun as <- <-.
    destruct (wp_run _ _ _ _ _ _ (Hstep g0 a Hinv Hen) Hx) as [Hg1 Heq].
    destruct (IH g2 t2 g1 Hr Hg1) as [Hg2 Heq2]. split; [done|].
    cbn [spec_run]. rewrite <- Heq, <- Heq2. done.
Qed.

Definition acts_example : list action :=
  [DoInit 1 10 0; DoInit 2 20 0; DoSet 1; DoSet 2; DoSet 1; DoIsSet 2; DoExecute; DoSetHandler 2 21 7;
   DoExecute; DoHasJobs; DoSet 2; DoFree 2; DoPeek].
Definition end_example : BPendingGroup := default BPendingGroup_Init (fst <$> run acts_example BPendingGroup_Init).
Definition trace_example : list event :=
  [Answer true; Ran 1 10 0; Ran 2 21 7; Answer false; Peeked None].
Lemma run_example : run acts_example BPendingGroup_Init = Some (end_example, trace_example).
Proof. vm_compute. reflexivity. Qed.
Lemma bpending_is_job_stack_witness :
  group_inv end_example /\
  (abs end_example, trace_example) = spec_run acts_example (abs BPendingGroup_Init).
Proof. exact (proj2 (bpending_is_job_stack acts_example end_example trace_example run_example)). Defined.
