(* ===== verification/Interfaces.v ===== *)
(** The flow interfaces: [flow/PacketPassInterface], [flow/PacketRecvInterface],
    [flow/StreamPassInterface] and [flow/StreamRecvInterface].

    Each interface object is shared by a provider and a user.  Its jobs are
    kept as the flags of [BPending]: a job is run by the dispatcher only while
    it is set, and running it resets the flag first.  [D] is the type of data
    pointers; a pointer handed over is valid, so the null tests are left out.
    The job functions return the arguments of the handler they call. *)

From S2P Require Import Prelude.

Inductive if_state := NONE | OPERATION_PENDING | BUSY | DONE_PENDING.
#[export] Instance if_state_eq : EqDecision if_state.
Proof. solve_decision. Defined.

Definition st_eq (a b : if_state) : bool := bool_decide (a = b).

(** * Packet pass *)

Record PacketPassInterface (D : Type) := mk_pp {
  pp_mtu : Z;
  pp_handler_requestcancel : bool;
  pp_handler_done : bool;
  pp_job_operation : bool;
  pp_job_operation_data : option D;
  pp_job_operation_len : Z;
  pp_job_requestcancel : bool;
  pp_job_done : bool;
  pp_state : if_state;
  pp_cancel_requested : bool
}.
Arguments mk_pp {D}.
Arguments pp_mtu {D}. Arguments pp_handler_requestcancel {D}.
Arguments pp_handler_done {D}. Arguments pp_job_operation {D}.
Arguments pp_job_operation_data {D}. Arguments pp_job_operation_len {D}.
Arguments pp_job_requestcancel {D}. Arguments pp_job_done {D}.
Arguments pp_state {D}. Arguments pp_cancel_requested {D}.
#[export] Instance eta_pp D : Eta (PacketPassInterface D) := fun i =>
  mk_pp (pp_mtu i) (pp_handler_requestcancel i) (pp_handler_done i)
    (pp_job_operation i) (pp_job_operation_data i) (pp_job_operation_len i)
    (pp_job_requestcancel i) (pp_job_done i) (pp_state i) (pp_cancel_requested i).

Section packet_pass.
Context {D E : Type}.
Local Abbreviation M := (M (PacketPassInterface D) E).

Definition PacketPassInterface_Init (mtu : Z) : PacketPassInterface D :=
  mk_pp mtu false false false None 0 false false NONE false.

Definition PacketPassInterface_EnableCancel : M unit :=
  i ← get;
  assert (negb (pp_handler_requestcancel i));;
  assert (negb (pp_handler_done i));;
  pp_handler_requestcancel ::= true.

Definition PacketPassInterface_Done : M unit :=
  i ← get;
  assert (st_eq (pp_state i) BUSY);;
  pp_job_requestcancel ::= false;;
  pp_job_done ::= true;;
  pp_state ::= DONE_PENDING.

Definition PacketPassInterface_GetMTU : M Z := gets pp_mtu.
Definition PacketPassInterface_HasCancel : M bool := gets pp_handler_requestcancel.

Definition PacketPassInterface_Sender_Init : M unit :=
  i ← get;
  assert (negb (pp_handler_done i));;
  pp_handler_done ::= true.

Definition PacketPassInterface_Sender_Send (data : D) (data_len : Z) : M unit :=
  i ← get;
  assert (0 <=? data_len);;
  assert (data_len <=? pp_mtu i);;
  assert (st_eq (pp_state i) NONE);;
  assert (pp_handler_done i);;
  pp_job_operation_data ::= Some data;;
  pp_job_operation_len ::= data_len;;
  pp_job_operation ::= true;;
  pp_state ::= OPERATION_PENDING;;
  pp_cancel_requested ::= false.

Definition PacketPassInterface_Sender_RequestCancel : M unit :=
  i ← get;
  assert (st_eq (pp_state i) OPERATION_PENDING || st_eq (pp_state i) BUSY
          || st_eq (pp_state i) DONE_PENDING);;
  assert (pp_handler_requestcancel i);;
  if pp_cancel_requested i then mret tt else
  pp_cancel_requested ::= true;;
  match pp_state i with
  | OPERATION_PENDING =>
      pp_job_operation ::= false;;
      pp_job_done ::= true;;
      pp_state ::= DONE_PENDING
  | BUSY => pp_job_requestcancel ::= true
  | _ => mret tt
  end.

(** The jobs, as the dispatcher runs them. *)
Definition PacketPassInterface_job_operation : M (D * Z) :=
  i ← get;
  assert (pp_job_operation i);;
  pp_job_operation ::= false;;
  assert (st_eq (pp_state i) OPERATION_PENDING);;
  pp_state ::= BUSY;;
  d ← must (pp_job_operation_data i);
  mret (d, pp_job_operation_len i).

Definition PacketPassInterface_job_requestcancel : M unit :=
  i ← get;
  assert (pp_job_requestcancel i);;
  pp_job_requestcancel ::= false;;
  assert (st_eq (pp_state i) BUSY);;
  assert (pp_cancel_requested i);;
  assert (pp_handler_requestcancel i).

Definition PacketPassInterface_job_done : M unit :=
  i ← get;
  assert (pp_job_done i);;
  pp_job_done ::= false;;
  assert (st_eq (pp_state i) DONE_PENDING);;
  pp_state ::= NONE.
End packet_pass.

(** * Packet receive *)

Record PacketRecvInterface (D : Type) := mk_pr {
  pr_mtu : Z;
  pr_handler_done : bool;
  pr_job_operation : bool;
  pr_job_operation_data : option D;
  pr_job_done : bool;
  pr_job_done_len : Z;
  pr_state : if_state
}.
Arguments mk_pr {D}. Arguments pr_mtu {D}. Arguments pr_handler_done {D}.
Arguments pr_job_operation {D}. Arguments pr_job_operation_data {D}.
Arguments pr_job_done {D}. Arguments pr_job_done_len {D}. Arguments pr_state {D}.
#[export] Instance eta_pr D : Eta (PacketRecvInterface D) := fun i =>
  mk_pr (pr_mtu i) (pr_handler_done i) (pr_job_operation i)
    (pr_job_operation_data i) (pr_job_done i) (pr_job_done_len i) (pr_state i).

Section packet_recv.
Context {D E : Type}.
Local Abbreviation M := (M (PacketRecvInterface D) E).

Definition PacketRecvInterface_Init (mtu : Z) : PacketRecvInterface D :=
  mk_pr mtu false false None false 0 NONE.

Definition PacketRecvInterface_Done (data_len : Z) : M unit :=
  i ← get;
  assert (0 <=? data_len);;
  assert (data_len <=? pr_mtu i);;
  assert (st_eq (pr_state i) BUSY);;
  pr_job_done_len ::= data_len;;
  pr_job_done ::= true;;
  pr_state ::= DONE_PENDING.

Definition PacketRecvInterface_GetMTU : M Z := gets pr_mtu.

Definition PacketRecvInterface_Receiver_Init : M unit :=
  i ← get;
  assert (negb (pr_handler_done i));;
  pr_handler_done ::= true.

Definition PacketRecvInterface_Receiver_Recv (data : D) : M unit :=
  i ← get;
  assert (st_eq (pr_state i) NONE);;
  assert (pr_handler_done i);;
  pr_job_operation_data ::= Some data;;
  pr_job_operation ::= true;;
  pr_state ::= OPERATION_PENDING.

Definition PacketRecvInterface_job_operation : M D :=
  i ← get;
  assert (pr_job_operation i);;
  pr_job_operation ::= false;;
  assert (st_eq (pr_state i) OPERATION_PENDING);;
  pr_state ::= BUSY;;
  must (pr_job_operation_data i).

Definition PacketRecvInterface_job_done : M Z :=
  i ← get;
  assert (pr_job_done i);;
  pr_job_done ::= false;;
  assert (st_eq (pr_state i) DONE_PENDING);;
  pr_state ::= NONE;;
  mret (pr_job_done_len i).
End packet_recv.

(** * Stream receive *)

Record StreamRecvInterface (D : Type) := mk_sr {
  sr_handler_done : bool;
  sr_job_operation : bool;
  sr_job_operation_data : option D;
  sr_job_operation_len : Z;
  sr_job_done : bool;
  sr_job_done_len : Z;
  sr_state : if_state
}.
Arguments mk_sr {D}. Arguments sr_handler_done {D}. Arguments sr_job_operation {D}.
Arguments sr_job_operation_data {D}. Arguments sr_job_operation_len {D}.
Arguments sr_job_done {D}. Arguments sr_job_done_len {D}. Arguments sr_state {D}.
#[export] Instance eta_sr D : Eta (StreamRecvInterface D) := fun i =>
  mk_sr (sr_handler_done i) (sr_job_operation i) (sr_job_operation_data i)
    (sr_job_operation_len i) (sr_job_done i) (sr_job_done_len i) (sr_state i).

Section stream_recv.
Context {D E : Type}.
Local Abbreviation M := (M (StreamRecvInterface D) E).

Definition StreamRecvInterface_Init : StreamRecvInterface D :=
  mk_sr false false None 0 false 0 NONE.

Definition StreamRecvInterface_Done (data_len : Z) : M unit :=
  i ← get;
  assert (st_eq (sr_state i) BUSY);;
  assert (0 <? data_len);;
  assert (data_len <=? sr_job_operation_len i);;
  sr_job_done_len ::= data_len;;
  sr_job_done ::= true;;
  sr_state ::= DONE_PENDING.

Definition StreamRecvInterface_Receiver_Init : M unit :=
  i ← get;
  assert (negb (sr_handler_done i));;
  sr_handler_done ::= true.

Definition StreamRecvInterface_Receiver_Recv (data : D) (data_len : Z) : M unit :=
  i ← get;
  assert (0 <? data_len);;
  assert (st_eq (sr_state i) NONE);;
  assert (sr_handler_done i);;
  sr_job_operation_data ::= Some data;;
  sr_job_operation_len ::= data_len;;
  sr_job_operation ::= true;;
  sr_state ::= OPERATION_PENDING.

Definition StreamRecvInterface_job_operation : M (D * Z) :=
  i ← get;
  assert (sr_job_operation i);;
  sr_job_operation ::= false;;
  assert (st_eq (sr_state i) OPERATION_PENDING);;
  sr_state ::= BUSY;;
  d ← must (sr_job_operation_data i);
  mret (d, sr_job_operation_len i).

Definition StreamRecvInterface_job_done : M Z :=
  i ← get;
  assert (sr_job_done i);;
  sr_job_done ::= false;;
  assert (st_eq (sr_state i) DONE_PENDING);;
  sr_state ::= NONE;;
  mret (sr_job_done_len i).
End stream_recv.

(** * Stream pass *)

Record StreamPassInterface (D : Type) := mk_sp {
  sp_handler_done : bool;
  sp_job_operation : bool;
  sp_job_operation_data : option D;
  sp_job_operation_len : Z;
  sp_job_done : bool;
  sp_job_done_len : Z;
  sp_state : if_state
}.
Arguments mk_sp {D}. Arguments sp_handler_done {D}. Arguments sp_job_operation {D}.
Arguments sp_job_operation_data {D}. Arguments sp_job_operation_len {D}.
Arguments sp_job_done {D}. Arguments sp_job_done_len {D}. Arguments sp_state {D}.
#[export] Instance eta_sp D : Eta (StreamPassInterface D) := fun i =>
  mk_sp (sp_handler_done i) (sp_job_operation i) (sp_job_operation_data i)
    (sp_job_operation_len i) (sp_job_done i) (sp_job_done_len i) (sp_state i).

Section stream_pass.
Context {D E : Type}.
Local Abbreviation M := (M (StreamPassInterface D) E).

Definition StreamPassInterface_Init : StreamPassInterface D :=
  mk_sp false false None 0 false 0 NONE.

Definition StreamPassInterface_Done (data_len : Z) : M unit :=
  i ← get;
  assert (st_eq (sp_state i) BUSY);;
  assert (0 <? data_len);;
  assert (data_len <=? sp_job_operation_len i);;
  sp_job_done_len ::= data_len;;
  sp_job_done ::= true;;
  sp_state ::= DONE_PENDING.

Definition StreamPassInterface_Sender_Init : M unit :=
  i ← get;
  assert (negb (sp_handler_done i));;
  sp_handler_done ::= true.

Definition StreamPassInterface_Sender_Send (data : D) (data_len : Z) : M unit :=
  i ← get;
  assert (0 <? data_len);;
  assert (st_eq (sp_state i) NONE);;
  assert (sp_handler_done i);;
  sp_job_operation_data ::= Some data;;
  sp_job_operation_len ::= data_len;;
  sp_job_operation ::= true;;
  sp_state ::= OPERATION_PENDING.

Definition StreamPassInterface_job_operation : M (D * Z) :=
  i ← get;
  assert (sp_job_operation i);;
  sp_job_operation ::= false;;
  assert (st_eq (sp_state i) OPERATION_PENDING);;
  sp_state ::= BUSY;;
  d ← must (sp_job_operation_data i);
  mret (d, sp_job_operation_len i).

Definition StreamPassInterface_job_done : M Z :=
  i ← get;
  assert (sp_job_done i);;
  sp_job_done ::= false;;
  assert (st_eq (sp_state i) DONE_PENDING);;
  sp_state ::= NONE;;
  mret (sp_job_done_len i).
End stream_pass.

(** * Phases

    What a component relies on: an interface is idle, has an operation
    scheduled or started, or has its completion scheduled.  The record with
    its job flags implements this four-phase cycle; the rules below are the
    only facts about interfaces that the components use. *)

Inductive phase (D : Type) :=
  | Idle
  | Op (d : D) (n : Z)
  | Busy (d : D) (n : Z)
  | Done (d : D) (n k : Z).
Arguments Idle {D}. Arguments Op {D}. Arguments Busy {D}. Arguments Done {D}.

Section phases.
Context {D E : Type}.
Implicit Types ph : phase D.

Definition phase_state ph : if_state :=
  match ph with Idle => NONE | Op _ _ => OPERATION_PENDING | Busy _ _ => BUSY | Done _ _ _ => DONE_PENDING end.

(** [pp_is mtu ph i]: [i], with its user connected, is in phase [ph]. *)
Definition pp_is (mtu : Z) ph (i : PacketPassInterface D) : Prop :=
  pp_mtu i = mtu /\ pp_handler_done i = true /\ pp_state i = phase_state ph /\
  pp_job_operation i = st_eq (phase_state ph) OPERATION_PENDING /\
  pp_job_done i = st_eq (phase_state ph) DONE_PENDING /\
  pp_job_requestcancel i = false /\
  match ph with
  | Idle => True
  | Op d n | Busy d n => pp_job_operation_data i = Some d /\ pp_job_operation_len i = n /\ 0 <= n <= mtu
  | Done d n _ => pp_job_operation_data i = Some d /\ pp_job_operation_len i = n /\ 0 <= n <= mtu
  end.

Definition pr_is (mtu : Z) ph (i : PacketRecvInterface D) : Prop :=
  pr_mtu i = mtu /\ pr_handler_done i = true /\ pr_state i = phase_state ph /\
  pr_job_operation i = st_eq (phase_state ph) OPERATION_PENDING /\
  pr_job_done i = st_eq (phase_state ph) DONE_PENDING /\
  match ph with
  | Idle => True
  | Op d n | Busy d n => pr_job_operation_data i = Some d /\ n = mtu
  | Done d n k => pr_job_operation_data i = Some d /\ n = mtu /\ pr_job_done_len i = k /\ 0 <= k <= mtu
  end.

Definition sr_is ph (i : StreamRecvInterface D) : Prop :=
  sr_handler_done i = true /\ sr_state i = phase_state ph /\
  sr_job_operation i = st_eq (phase_state ph) OPERATION_PENDING /\
  sr_job_done i = st_eq (phase_state ph) DONE_PENDING /\
  match ph with
  | Idle => True
  | Op d n | Busy d n => sr_job_operation_data i = Some d /\ sr_job_operation_len i = n /\ 0 < n
  | Done d n k =>
      sr_job_operation_data i = Some d /\ sr_job_operation_len i = n /\
      sr_job_done_len i = k /\ 0 < k <= n
  end.

Definition sp_is ph (i : StreamPassInterface D) : Prop :=
  sp_handler_done i = true /\ sp_state i = phase_state ph /\
  sp_job_operation i = st_eq (phase_state ph) OPERATION_PENDING /\
  sp_job_done i = st_eq (phase_state ph) DONE_PENDING /\
  match ph with
  | Idle => True
  | Op d n | Busy d n => sp_job_operation_data i = Some d /\ sp_job_operation_len i = n /\ 0 < n
  | Done d n k =>
      sp_job_operation_data i = Some d /\ sp_job_operation_len i = n /\
      sp_job_done_len i = k /\ 0 < k <= n
  end.

Ltac run_iface :=
  intros; unfold pp_is, pr_is, sr_is, sp_is, PacketPassInterface_Sender_Init,
    PacketRecvInterface_Receiver_Init, StreamRecvInterface_Receiver_Init, StreamPassInterface_Sender_Init,
    PacketPassInterface_Sender_Send, PacketRecvInterface_Receiver_Recv,
    StreamRecvInterface_Receiver_Recv, StreamPassInterface_Sender_Send,
    PacketPassInterface_Done, PacketRecvInterface_Done, StreamRecvInterface_Done, StreamPassInterface_Done,
    PacketPassInterface_job_operation, PacketRecvInterface_job_operation,
    StreamRecvInterface_job_operation, StreamPassInterface_job_operation,
    PacketPassInterface_job_done, PacketRecvInterface_job_done,
    StreamRecvInterface_job_done, StreamPassInterface_job_done in *;
  cbn [phase_state] in *; destruct_and?; msteps; b2p; su; try done; try lia; try congruence;
  try by (match goal with H : _ = ?s |- st_eq _ ?s = true => by rewrite H end).

Lemma wp_pp_connect mtu (Q : unit -> PacketPassInterface D -> list E -> Prop) :
  (forall i', pp_is mtu Idle i' -> Q tt i' []) ->
  wp PacketPassInterface_Sender_Init Q (PacketPassInterface_Init mtu).
Proof. run_iface. naive_solver. Qed.
Lemma wp_pr_connect mtu (Q : unit -> PacketRecvInterface D -> list E -> Prop) :
  (forall i', pr_is mtu Idle i' -> Q tt i' []) ->
  wp PacketRecvInterface_Receiver_Init Q (PacketRecvInterface_Init mtu).
Proof. run_iface. naive_solver. Qed.
Lemma wp_sr_connect (Q : unit -> StreamRecvInterface D -> list E -> Prop) :
  (forall i', sr_is Idle i' -> Q tt i' []) ->
  wp StreamRecvInterface_Receiver_Init Q StreamRecvInterface_Init.
Proof. run_iface. naive_solver. Qed.
Lemma wp_sp_connect (Q : unit -> StreamPassInterface D -> list E -> Prop) :
  (forall i', sp_is Idle i' -> Q tt i' []) ->
  wp StreamPassInterface_Sender_Init Q StreamPassInterface_Init.
Proof. run_iface. naive_solver. Qed.

Lemma wp_pp_send mtu d n i (Q : unit -> PacketPassInterface D -> list E -> Prop) :
  pp_is mtu Idle i -> 0 <= n <= mtu -> (forall i', pp_is mtu (Op d n) i' -> Q tt i' []) ->
  wp (PacketPassInterface_Sender_Send d n) Q i.
Proof. run_iface. naive_solver. Qed.
Lemma wp_pr_recv mtu d i (Q : unit -> PacketRecvInterface D -> list E -> Prop) :
  pr_is mtu Idle i -> (forall i', pr_is mtu (Op d mtu) i' -> Q tt i' []) ->
  wp (PacketRecvInterface_Receiver_Recv d) Q i.
Proof. run_iface. naive_solver. Qed.
Lemma wp_sr_recv d n i (Q : unit -> StreamRecvInterface D -> list E -> Prop) :
  sr_is Idle i -> 0 < n -> (forall i', sr_is (Op d n) i' -> Q tt i' []) ->
  wp (StreamRecvInterface_Receiver_Recv d n) Q i.
Proof. run_iface. naive_solver. Qed.
Lemma wp_sp_send d n i (Q : unit -> StreamPassInterface D -> list E -> Prop) :
  sp_is Idle i -> 0 < n -> (forall i', sp_is (Op d n) i' -> Q tt i' []) ->
  wp (StreamPassInterface_Sender_Send d n) Q i.
Proof. run_iface. naive_solver. Qed.

Lemma wp_pp_job_op mtu d n i (Q : D * Z -> PacketPassInterface D -> list E -> Prop) :
  pp_is mtu (Op d n) i -> (forall i', pp_is mtu (Busy d n) i' -> Q (d, n) i' []) ->
  wp PacketPassInterface_job_operation Q i.
Proof. run_iface. subst. naive_solver. Qed.
Lemma wp_pr_job_op mtu d n i (Q : D -> PacketRecvInterface D -> list E -> Prop) :
  pr_is mtu (Op d n) i -> (forall i', pr_is mtu (Busy d n) i' -> Q d i' []) ->
  wp PacketRecvInterface_job_operation Q i.
Proof. run_iface. naive_solver. Qed.
Lemma wp_sr_job_op d n i (Q : D * Z -> StreamRecvInterface D -> list E -> Prop) :
  sr_is (Op d n) i -> (forall i', sr_is (Busy d n) i' -> Q (d, n) i' []) ->
  wp StreamRecvInterface_job_operation Q i.
Proof. run_iface. subst. naive_solver. Qed.
Lemma wp_sp_job_op d n i (Q : D * Z -> StreamPassInterface D -> list E -> Prop) :
  sp_is (Op d n) i -> (forall i', sp_is (Busy d n) i' -> Q (d, n) i' []) ->
  wp StreamPassInterface_job_operation Q i.
Proof. run_iface. subst. naive_solver. Qed.

Lemma wp_pp_done mtu d n i (Q : unit -> PacketPassInterface D -> list E -> Prop) :
  pp_is mtu (Busy d n) i -> (forall i', pp_is mtu (Done d n 0) i' -> Q tt i' []) ->
  wp PacketPassInterface_Done Q i.
Proof. run_iface. naive_solver. Qed.
Lemma wp_pr_done mtu d n k i (Q : unit -> PacketRecvInterface D -> list E -> Prop) :
  pr_is mtu (Busy d n) i -> 0 <= k <= mtu -> (forall i', pr_is mtu (Done d n k) i' -> Q tt i' []) ->
  wp (PacketRecvInterface_Done k) Q i.
Proof. run_iface. naive_solver. Qed.
Lemma wp_sr_done d n k i (Q : unit -> StreamRecvInterface D -> list E -> Prop) :
  sr_is (Busy d n) i -> 0 < k <= n -> (forall i', sr_is (Done d n k) i' -> Q tt i' []) ->
  wp (StreamRecvInterface_Done k) Q i.
Proof. run_iface. naive_solver. Qed.
Lemma wp_sp_done d n k i (Q : unit -> StreamPassInterface D -> list E -> Prop) :
  sp_is (Busy d n) i -> 0 < k <= n -> (forall i', sp_is (Done d n k) i' -> Q tt i' []) ->
  wp (StreamPassInterface_Done k) Q i.
Proof. run_iface. naive_solver. Qed.

Lemma wp_pp_job_done mtu d n k i (Q : unit -> PacketPassInterface D -> list E -> Prop) :
  pp_is mtu (Done d n k) i -> (forall i', pp_is mtu Idle i' -> Q tt i' []) ->
  wp PacketPassInterface_job_done Q i.
Proof. run_iface. naive_solver. Qed.
Lemma wp_pr_job_done mtu d n k i (Q : Z -> PacketRecvInterface D -> list E -> Prop) :
  pr_is mtu (Done d n k) i -> 
  (0 <= k <= mtu -> forall i', pr_is mtu Idle i' -> Q k i' []) ->
  wp PacketRecvInterface_job_done Q i.
Proof. run_iface. subst. naive_solver. Qed.
Lemma wp_sr_job_done d n k i (Q : Z -> StreamRecvInterface D -> list E -> Prop) :
  sr_is (Done d n k) i -> (0 < k <= n -> forall i', sr_is Idle i' -> Q k i' []) ->
  wp StreamRecvInterface_job_done Q i.
Proof. run_iface. subst. naive_solver. Qed.
Lemma wp_sp_job_done d n k i (Q : Z -> StreamPassInterface D -> list E -> Prop) :
  sp_is (Done d n k) i -> (0 < k <= n -> forall i', sp_is Idle i' -> Q k i' []) ->
  wp StreamPassInterface_job_done Q i.
Proof. run_iface. subst. naive_solver. Qed.

(** The state tests of the environment select the phase. *)
Lemma pp_phase mtu ph i s : pp_is mtu ph i -> st_eq (pp_state i) s = true -> phase_state ph = s.
Proof. intros (_ & _ & -> & _) ?. unfold st_eq in *. by b2p. Qed.
Lemma pr_phase mtu ph i s : pr_is mtu ph i -> st_eq (pr_state i) s = true -> phase_state ph = s.
Proof. intros (_ & _ & -> & _) ?. unfold st_eq in *. by b2p. Qed.
Lemma sr_phase ph i s : sr_is ph i -> st_eq (sr_state i) s = true -> phase_state ph = s.
Proof. intros (_ & -> & _) ?. unfold st_eq in *. by b2p. Qed.
Lemma sp_phase ph i s : sp_is ph i -> st_eq (sp_state i) s = true -> phase_state ph = s.
Proof. intros (_ & -> & _) ?. unfold st_eq in *. by b2p. Qed.

Lemma pp_is_data mtu d n i : pp_is mtu (Busy d n) i ->
  pp_job_operation_data i = Some d /\ pp_job_operation_len i = n /\ 0 <= n <= mtu.
Proof. intros (_ & _ & _ & _ & _ & _ & H). exact H. Qed.
Lemma pr_is_data mtu d n i : pr_is mtu (Busy d n) i ->
  pr_job_operation_data i = Some d /\ n = mtu.
Proof. intros (_ & _ & _ & _ & _ & H). exact H. Qed.
Lemma sr_is_data d n i : sr_is (Busy d n) i ->
  sr_job_operation_data i = Some d /\ sr_job_operation_len i = n /\ 0 < n.
Proof. intros (_ & _ & _ & _ & H). exact H. Qed.
Lemma sp_is_data d n i : sp_is (Busy d n) i ->
  sp_job_operation_data i = Some d /\ sp_job_operation_len i = n /\ 0 < n.
Proof. intros (_ & _ & _ & _ & H). exact H. Qed.
Lemma pr_is_done_len mtu d n k i : pr_is mtu (Done d n k) i -> n = mtu /\ 0 <= k <= mtu.
Proof. intros (_ & _ & _ & _ & _ & _ & ? & _ & ?). done. Qed.
End phases.

(** [phase_case H Hen ph]: the enabled test [Hen] leaves one phase [ph] of the
    interface described by [H]. *)
Ltac phase_case H Hen ph :=
  let Hp := fresh in
  first [ pose proof (pp_phase _ _ _ _ H Hen) as Hp | pose proof (pr_phase _ _ _ _ H Hen) as Hp
        | pose proof (sr_phase _ _ _ H Hen) as Hp | pose proof (sp_phase _ _ _ H Hen) as Hp ];
  destruct ph; try discriminate Hp; clear Hp.
