(* ===== verification/IfaceProtocol.v ===== *)
(** The protocol of [flow/PacketPassInterface]: the interface object between a
    provider and a user that calls it, with cancellation, against the automaton
    a client relies on: each operation is handed to the provider at most once,
    completes exactly once, and its cancellation reaches the provider at most
    once and only while it works on the operation. *)

From S2P Require Import Prelude System Interfaces.

Section protocol.
Context {D : Type}.
Implicit Types i : PacketPassInterface D.

Inductive action :=
| Send (d : D) (n : Z)    (* user: PacketPassInterface_Sender_Send *)
| RequestCancel           (* user *)
| ProviderDone            (* provider: PacketPassInterface_Done *)
| RunOperation            (* dispatcher: the job of the operation *)
| RunRequestCancel
| RunDone.

Inductive event :=
| Sent (d : D) (n : Z)
| Operates (d : D) (n : Z) (* handler_operation is called *)
| Requested
| Cancels                  (* handler_requestcancel is called *)
| Completed
| Finishes.                (* handler_done is called *)

Definition exec_action (a : action) : M (PacketPassInterface D) event unit :=
  match a with
  | Send d n => PacketPassInterface_Sender_Send d n;; emit (Sent d n)
  | RequestCancel => PacketPassInterface_Sender_RequestCancel;; emit Requested
  | ProviderDone => PacketPassInterface_Done;; emit Completed
  | RunOperation => x ← PacketPassInterface_job_operation; emit (Operates x.1 x.2)
  | RunRequestCancel => PacketPassInterface_job_requestcancel;; emit Cancels
  | RunDone => PacketPassInterface_job_done;; emit Finishes
  end.

(** What the documentation of the interface allows: one operation at a time,
    data within the MTU, completion by the provider that works on one. *)
Definition action_enabled i (a : action) : bool :=
  match a with
  | Send d n => st_eq (pp_state i) NONE && (0 <=? n) && (n <=? pp_mtu i)
  | RequestCancel => negb (st_eq (pp_state i) NONE)
  | ProviderDone => st_eq (pp_state i) BUSY
  | RunOperation => pp_job_operation i
  | RunRequestCancel => pp_job_requestcancel i
  | RunDone => pp_job_done i
  end.

#[local] Instance pp_System : System (PacketPassInterface D) action event := {
  enabled := action_enabled;
  exec := exec_action
}.

(** ** The automaton *)

Inductive promise :=
| Quiet
| Waiting (d : D) (n : Z)           (* not yet handed to the provider *)
| Working (asked told : bool)       (* the provider has it *)
| Closing.                          (* completed or cancelled *)

Inductive next : promise -> event -> promise -> Prop :=
| next_send d n : next Quiet (Sent d n) (Waiting d n)
| next_operate d n : next (Waiting d n) (Operates d n) (Working false false)
| next_cancel_early d n : next (Waiting d n) Requested Closing
| next_ask asked told : next (Working asked told) Requested (Working true told)
| next_cancel : next (Working true false) Cancels (Working true true)
| next_complete asked told : next (Working asked told) Completed Closing
| next_ask_late : next Closing Requested Closing
| next_finish : next Closing Finishes Quiet.

Inductive accepts : promise -> list event -> promise -> Prop :=
| accepts_nil p : accepts p [] p
| accepts_snoc p tr q e r : accepts p tr q -> next q e r -> accepts p (tr ++ [e]) r.

(** The record in each state of the automaton. *)
Definition keeps (p : promise) i : Prop :=
  pp_handler_requestcancel i = true /\ pp_handler_done i = true /\
  match p with
  | Quiet => pp_state i = NONE /\ pp_job_operation i = false /\ pp_job_requestcancel i = false /\
      pp_job_done i = false
  | Waiting d n => pp_state i = OPERATION_PENDING /\ pp_job_operation i = true /\
      pp_job_requestcancel i = false /\ pp_job_done i = false /\
      pp_job_operation_data i = Some d /\ pp_job_operation_len i = n /\ pp_cancel_requested i = false
  | Working asked told => pp_state i = BUSY /\ pp_job_operation i = false /\
      pp_job_requestcancel i = asked && negb told /\ pp_job_done i = false /\
      pp_cancel_requested i = asked /\ (told = true -> asked = true)
  | Closing => pp_state i = DONE_PENDING /\ pp_job_operation i = false /\
      pp_job_requestcancel i = false /\ pp_job_done i = true
  end.

Lemma step_keeps i p a : keeps p i -> action_enabled i a = true ->
  wp (exec_action a) (fun _ i' t => exists e q, t = [e] /\ next p e q /\ keeps q i') i.
Proof.
  intros (Hrc & Hdone & Hk) Hen. destruct i as [mtu rc hd jo jd jl jr jdn st cr].
  destruct a, p as [|d0 n0|asked told|]; cbn in *; destruct_and?; subst; try discriminate;
    try destruct asked; try destruct told; try destruct cr; try discriminate;
    unfold PacketPassInterface_Sender_Send, PacketPassInterface_Sender_RequestCancel,
      PacketPassInterface_Done, PacketPassInterface_job_operation,
      PacketPassInterface_job_requestcancel, PacketPassInterface_job_done; mgo;
    cbn [pp_cancel_requested pp_state]; mgo; try (by match goal with H : true = true -> false = true |- _ => specialize (H eq_refl) end);
    eexists _, _; (split; [reflexivity|]); (split; [once constructor|]); unfold keeps; sug; by split_and!.
Qed.

(** C4: between a user and a provider that keep the contract, the interface
    passes all its [ASSERT]s and its calls follow the automaton: after an
    operation is sent, its handler is called at most once, with the same
    arguments; the cancellation handler is called at most once, after a
    request and before the completion; [handler_done] is called once. *)
Theorem packet_pass_protocol (mtu : Z) :
  let i0 := (PacketPassInterface_Init (D:=D) mtu) <| pp_handler_requestcancel := true |> <| pp_handler_done := true |> in
  safe i0 /\ forall tr i, reach i0 tr i -> exists p, accepts Quiet tr p /\ keeps p i.
Proof.
  intros i0.
  assert (Hstep : forall tr i a, (exists p, accepts Quiet tr p /\ keeps p i) -> action_enabled i a = true ->
    wp (exec_action a) (fun _ i' t => exists p, accepts Quiet (tr ++ t) p /\ keeps p i') i).
  { intros tr i a (p & Hp & Hk) Hen. eapply wp_mono; [by eapply step_keeps|].
    intros _ i' t (e & q & -> & Hn & Hq). exists q. split; [by econstructor|done]. }
  assert (H0 : exists p, accepts Quiet [] p /\ keeps p i0) by (exists Quiet; split; [constructor|done]).
  split; [exact (inv_safe (sys:=pp_System) _ Hstep _ H0)|].
  intros tr i Hr. exact (reach_inv (sys:=pp_System) _ Hstep _ _ _ H0 Hr).
Qed.
End protocol.
