(* ===== verification/CArith.v ===== *)
(** Integer helpers of [misc/]: [balign.h], [minmax.h], [bsize.h] and
    [compare.h], and the conversions of C integers the program relies on.

    [size_t] has 64 bits and [int] has 32; an assignment of a wider value to an
    [int] keeps its low 32 bits. *)

From S2P Require Import Prelude OrdTree.

Definition SIZE_MAX : Z := 2 ^ 64 - 1.

(** Conversion to [int]. *)
Definition i32 (x : Z) : Z := (x + 2 ^ 31) mod 2 ^ 32 - 2 ^ 31.
Definition sizet (x : Z) : Z := x mod 2 ^ 64.

Lemma i32_small x : - 2 ^ 31 <= x <= INT_MAX -> i32 x = x.
Proof. unfold i32, INT_MAX. intros. rewrite Z.mod_small; lia. Qed.
Lemma sizet_small x : 0 <= x <= SIZE_MAX -> sizet x = x.
Proof. unfold sizet, SIZE_MAX. intros. rewrite Z.mod_small; lia. Qed.
Lemma sizet_range x : 0 <= sizet x <= SIZE_MAX.
Proof. unfold sizet, SIZE_MAX. pose proof (Z.mod_pos_bound x (2 ^ 64)). lia. Qed.

(** * balign.h *)

Definition balign_up_overflows (x n : Z) : bool :=
  let r := x mod n in negb (r =? 0) && (SIZE_MAX - (n - r) <? x).
Definition balign_up (x n : Z) : Z :=
  let r := x mod n in if negb (r =? 0) then sizet (x + (n - r)) else x.
Definition balign_down (x n : Z) : Z := x - x mod n.
Definition bdivide_up (a b : Z) : Z :=
  let r := a mod b in if 0 <? r then a / b + 1 else a / b.

Lemma bdivide_up_spec a b : 0 < b -> a <= b * bdivide_up a b < a + b.
Proof.
  intros Hb. unfold bdivide_up. pose proof (Z.div_mod a b). pose proof (Z.mod_pos_bound a b).
  destruct (0 <? a mod b) eqn:Hr; b2p; lia.
Qed.
Lemma bdivide_up_mono a a' b : 0 < b -> a <= a' -> bdivide_up a b <= bdivide_up a' b.
Proof.
  intros Hb Ha. pose proof (bdivide_up_spec a b Hb). pose proof (bdivide_up_spec a' b Hb). nia.
Qed.
Lemma bdivide_up_nonneg a b : 0 < b -> 0 <= a -> 0 <= bdivide_up a b.
Proof. intros Hb Ha. pose proof (bdivide_up_spec a b Hb). nia. Qed.
Lemma bdivide_up_le a b k : 0 < b -> a <= b * k -> bdivide_up a b <= k.
Proof. intros Hb Ha. pose proof (bdivide_up_spec a b Hb). nia. Qed.

(** * minmax.h and compare.h *)

Definition bmin_int (a b : Z) : Z := if a <? b then a else b.
Definition bmax_int (a b : Z) : Z := if b <? a then a else b.
Definition B_COMPARE (a b : Z) : Z := Z.b2z (b <? a) - Z.b2z (a <? b).

Lemma bmin_int_min a b : bmin_int a b = Z.min a b.
Proof. unfold bmin_int. destruct (a <? b) eqn:H; b2p; lia. Qed.
Lemma bmax_int_max a b : bmax_int a b = Z.max a b.
Proof. unfold bmax_int. destruct (b <? a) eqn:H; b2p; lia. Qed.

(** Comparison by a first key, then by a second one. *)
Definition B_COMPARE2 (a b c d : Z) : Z :=
  if negb (B_COMPARE a b =? 0) then B_COMPARE a b else B_COMPARE c d.
Definition compare_pair (p q : Z * Z) : Z := B_COMPARE2 p.1 q.1 p.2 q.2.

Lemma B_COMPARE_spec a b :
  B_COMPARE a b = match a ?= b with Lt => -1 | Eq => 0 | Gt => 1 end.
Proof.
  unfold B_COMPARE, Z.ltb. rewrite (Z.compare_antisym a b). by destruct (a ?= b).
Qed.
Lemma compare_pair_lt p q : compare_pair p q = -1 <-> p.1 < q.1 \/ (p.1 = q.1 /\ p.2 < q.2).
Proof.
  unfold compare_pair, B_COMPARE2. rewrite !B_COMPARE_spec.
  destruct (Z.compare_spec p.1 q.1), (Z.compare_spec p.2 q.2); cbn; lia.
Qed.
Lemma compare_pair_eq p q : compare_pair p q = 0 <-> p = q.
Proof.
  destruct p as [a b], q as [c d]. unfold compare_pair, B_COMPARE2; cbn. rewrite !B_COMPARE_spec.
  destruct (Z.compare_spec a c), (Z.compare_spec b d); cbn; split; intros; try congruence;
    injection H1 || (exfalso; congruence) || idtac; try lia; congruence.
Qed.
#[export] Instance compare_pair_cmp : Comparator compare_pair.
Proof.
  split.
  - intros a b. unfold compare_pair, B_COMPARE2. rewrite !B_COMPARE_spec.
    destruct (a.1 ?= b.1), (a.2 ?= b.2); cbn; lia.
  - intros a b. unfold compare_pair, B_COMPARE2. rewrite !B_COMPARE_spec.
    rewrite (Z.compare_antisym a.1), (Z.compare_antisym a.2).
    by destruct (a.1 ?= b.1), (a.2 ?= b.2).
  - intros a b c. rewrite !compare_pair_lt. lia.
  - intros a b c Hab. by apply compare_pair_eq in Hab as ->.
Qed.

(** * bsize.h: arithmetic with overflow detection *)

Record bsize_t := mk_bsize { is_overflow : bool; value : Z }.

Definition bsize_fromsize (v : Z) : bsize_t := mk_bsize false v.
Definition bsize_fromint (v : Z) : bsize_t := mk_bsize ((v <? 0) || (SIZE_MAX <? sizet v)) (sizet v).
Definition bsize_overflow : bsize_t := mk_bsize true 0.
Definition bsize_tosize (s : bsize_t) : option Z :=
  if is_overflow s then None else Some (value s).
Definition bsize_toint (s : bsize_t) : option Z :=
  if is_overflow s || (INT_MAX <? value s) then None else Some (value s).
Definition bsize_add (s1 s2 : bsize_t) : bsize_t :=
  mk_bsize (is_overflow s1 || is_overflow s2 || (SIZE_MAX - value s1 <? value s2))
    (sizet (value s1 + value s2)).
Definition bsize_max (s1 s2 : bsize_t) : bsize_t :=
  mk_bsize (is_overflow s1 || is_overflow s2)
    (Z.b2z (value s2 <? value s1) * value s1 + Z.b2z (value s1 <=? value s2) * value s2).
Definition bsize_mul (s1 s2 : bsize_t) : bsize_t :=
  mk_bsize (is_overflow s1 || is_overflow s2 ||
            (negb (value s1 =? 0) && (SIZE_MAX / value s1 <? value s2)))
    (sizet (value s1 * value s2)).

(** [bsize_rep s x]: [s] represents the exact natural number [x]: its value,
    or an overflow exactly when [x] does not fit. *)
Definition bsize_rep (s : bsize_t) (x : Z) : Prop :=
  0 <= x /\ 0 <= value s <= SIZE_MAX /\
  (is_overflow s = true -> SIZE_MAX < x) /\
  (is_overflow s = false -> value s = x).

Lemma bsize_fromsize_rep v : 0 <= v <= SIZE_MAX -> bsize_rep (bsize_fromsize v) v.
Proof. intros. split_and!; try done; cbn; lia. Qed.
Lemma bsize_fromint_rep v : 0 <= v <= INT_MAX -> bsize_rep (bsize_fromint v) v.
Proof.
  intros. assert (sizet v = v) by (apply sizet_small; unfold INT_MAX, SIZE_MAX in *; lia).
  unfold bsize_rep, bsize_fromint; cbn. rewrite !H0. unfold INT_MAX, SIZE_MAX in *.
  split_and!; try lia.
Qed.
Lemma bsize_add_rep s1 s2 x y :
  bsize_rep s1 x -> bsize_rep s2 y -> bsize_rep (bsize_add s1 s2) (x + y).
Proof.
  intros (Hx & Hv1 & Ho1 & Hn1) (Hy & Hv2 & Ho2 & Hn2).
  unfold bsize_rep, bsize_add; cbn. pose proof (sizet_range (value s1 + value s2)).
  split_and!; try lia.
  - destruct (is_overflow s1), (is_overflow s2); cbn; intros; b2p;
      try specialize (Ho1 eq_refl); try specialize (Ho2 eq_refl);
      try specialize (Hn1 eq_refl); try specialize (Hn2 eq_refl); lia.
  - intros Hf. b2p. rewrite Hn1, Hn2 in * by done. apply sizet_small. lia.
Qed.
(** The flag of a product is conservative: a product by zero of an overflowed
    factor is flagged although the exact product is zero. *)
Lemma bsize_mul_rep s1 s2 x y :
  0 < x -> 0 < y -> bsize_rep s1 x -> bsize_rep s2 y -> bsize_rep (bsize_mul s1 s2) (x * y).
Proof.
  intros Hx0 Hy0 (Hx & Hv1 & Ho1 & Hn1) (Hy & Hv2 & Ho2 & Hn2).
  unfold bsize_rep, bsize_mul; cbn. pose proof (sizet_range (value s1 * value s2)).
  split_and!; try lia.
  - destruct (is_overflow s1), (is_overflow s2); cbn; intros; b2p;
      try specialize (Ho1 eq_refl); try specialize (Ho2 eq_refl);
      try specialize (Hn1 eq_refl); try specialize (Hn2 eq_refl); try nia.
    pose proof (Z.mul_succ_div_gt SIZE_MAX (value s1)). nia.
  - intros Hf. rewrite !orb_false_iff, andb_false_iff in Hf. destruct Hf as [[H1 H2] H3].
    rewrite Hn1, Hn2 in * by done. apply sizet_small.
    destruct H3 as [H3|H3]; b2p; [lia|]. pose proof (Z.mul_div_le SIZE_MAX x). nia.
Qed.
Lemma bsize_max_rep s1 s2 x y :
  bsize_rep s1 x -> bsize_rep s2 y -> bsize_rep (bsize_max s1 s2) (Z.max x y).
Proof.
  intros (Hx & Hv1 & Ho1 & Hn1) (Hy & Hv2 & Ho2 & Hn2).
  unfold bsize_rep, bsize_max; cbn.
  destruct (value s2 <? value s1) eqn:E1, (value s1 <=? value s2) eqn:E2; b2p; try lia;
    unfold Z.b2z; (split_and!; [lia..| |]);
    destruct (is_overflow s1), (is_overflow s2); cbn; intros; try done;
    try specialize (Ho1 eq_refl); try specialize (Ho2 eq_refl);
    try specialize (Hn1 eq_refl); try specialize (Hn2 eq_refl); lia.
Qed.
Lemma bsize_toint_rep s x :
  bsize_rep s x -> bsize_toint s = if x <=? INT_MAX then Some x else None.
Proof.
  intros (Hx & Hv & Ho & Hn). unfold bsize_toint.
  destruct (is_overflow s) eqn:Hf; cbn.
  - specialize (Ho eq_refl). rewrite (proj2 (Z.leb_gt _ _)); [done|]. unfold INT_MAX, SIZE_MAX in *. lia.
  - rewrite Hn by done. rewrite Z.leb_antisym. by destruct (INT_MAX <? x).
Qed.

(** The size computations of the program are expressions over sizes that are
    known not to be negative (C [size_t] and nonnegative [int]s). *)
Inductive size_exp :=
| FromSize (v : Z)
| FromInt (v : Z)
| Add (a b : size_exp)
| Mul (a b : size_exp)
| Max (a b : size_exp).

Fixpoint size_eval (e : size_exp) : bsize_t :=
  match e with
  | FromSize v => bsize_fromsize v
  | FromInt v => bsize_fromint v
  | Add a b => bsize_add (size_eval a) (size_eval b)
  | Mul a b => bsize_mul (size_eval a) (size_eval b)
  | Max a b => bsize_max (size_eval a) (size_eval b)
  end.
Fixpoint size_exact (e : size_exp) : Z :=
  match e with
  | FromSize v | FromInt v => v
  | Add a b => size_exact a + size_exact b
  | Mul a b => size_exact a * size_exact b
  | Max a b => Z.max (size_exact a) (size_exact b)
  end.
(** The leaves are in range, and no factor of a product is zero. *)
Fixpoint size_wf (e : size_exp) : Prop :=
  match e with
  | FromSize v => 0 <= v <= SIZE_MAX
  | FromInt v => 0 <= v <= INT_MAX
  | Add a b | Max a b => size_wf a /\ size_wf b
  | Mul a b => size_wf a /\ size_wf b /\ 0 < size_exact a /\ 0 < size_exact b
  end.

(** A negative [int] is an overflow from the start. *)
Lemma bsize_fromint_negative v : v < 0 -> is_overflow (bsize_fromint v) = true.
Proof. intros. unfold bsize_fromint. cbn. by replace (v <? 0) with true by lia. Qed.

Lemma size_eval_rep e : size_wf e -> bsize_rep (size_eval e) (size_exact e).
Proof.
  induction e; cbn [size_wf size_eval size_exact]; intros; destruct_and?.
  - by apply bsize_fromsize_rep.
  - by apply bsize_fromint_rep.
  - by apply bsize_add_rep; [apply IHe1|apply IHe2].
  - by apply bsize_mul_rep; [| |apply IHe1|apply IHe2].
  - by apply bsize_max_rep; [apply IHe1|apply IHe2].
Qed.

(** A size computed with [bsize] is the exact mathematical value when that
    fits in a [size_t] ([bsize_tosize]) or in an [int] ([bsize_toint]), and is
    reported as an overflow otherwise: no wrapped value is ever used. *)
Theorem bsize_exact (e : size_exp) (Hwf : size_wf e) :
  bsize_tosize (size_eval e) = (if size_exact e <=? SIZE_MAX then Some (size_exact e) else None) /\
  bsize_toint (size_eval e) = (if size_exact e <=? INT_MAX then Some (size_exact e) else None).
Proof.
  pose proof (size_eval_rep e Hwf) as Hr. split; [|by apply bsize_toint_rep].
  destruct Hr as (Hx & Hv & Ho & Hn). unfold bsize_tosize.
  destruct (is_overflow (size_eval e)) eqn:Hf.
  - specialize (Ho eq_refl). by rewrite (proj2 (Z.leb_gt _ _)).
  - rewrite Hn in * by done. replace (size_exact e <=? SIZE_MAX) with true by lia. done.
Qed.

(** The buffer of a fair queue's flow, and a product that does not fit. *)
Definition size_example : size_exp := Add (Mul (FromInt 12) (FromInt INT_MAX)) (Max (FromSize 5) (FromInt 7)).
Lemma bsize_exact_witness :
  bsize_tosize (size_eval size_example) = Some 25769803771 /\ bsize_toint (size_eval size_example) = None /\
  bsize_tosize (size_eval (Mul (FromSize SIZE_MAX) (FromInt 2))) = None.
Proof.
  split; [|split].
  - refine (proj1 (bsize_exact size_example _)). vm_compute. repeat split; discriminate.
  - refine (proj2 (bsize_exact size_example _)). vm_compute. repeat split; discriminate.
  - refine (proj1 (bsize_exact (Mul (FromSize SIZE_MAX) (FromInt 2)) _)). vm_compute. repeat split; discriminate.
Defined.
