(* ===== verification/ChunkBuffer2.v ===== *)
(** The circular packet buffer of [structure/ChunkBuffer2.h].

    The buffer is an array of [size] blocks of [sizeof(int)] bytes; a packet is
    a header block with its length followed by its data, and never wraps.  The
    memory is a list of bytes, pointers are byte offsets into it ([None] is
    NULL), and every access is bounds-checked.  The refinement relation
    [cb_rep] says which queue of packets a buffer holds. *)

From S2P Require Import Prelude System CArith.

Module CB.

(** [sizeof(struct ChunkBuffer2_block)] *)
Definition BLOCK : Z := 4.

Record ChunkBuffer2 := mk_cb {
  buffer : bytes;
  size : Z;
  wrap : Z;
  start : Z;
  used : Z;
  mtu : Z;
  input_dest : option Z;
  input_avail : Z;
  output_dest : option Z;
  output_avail : Z
}.
#[export] Instance eta_cb : Eta ChunkBuffer2 := fun b =>
  mk_cb (buffer b) (size b) (wrap b) (start b) (used b) (mtu b)
    (input_dest b) (input_avail b) (output_dest b) (output_avail b).

(** [buffer[i].len] *)
Definition block_len (mem : bytes) (i : Z) : option Z :=
  option_map (fun l => i32 (le_val l)) (mem_read (BLOCK * i) BLOCK mem).

Definition is_Some_b {A} (o : option A) : bool := match o with Some _ => true | None => false end.

Section operations.
Context {E : Type}.
Local Abbreviation M := (M ChunkBuffer2 E).

Definition ChunkBuffer2_end (b : ChunkBuffer2) : Z :=
  if wrap b - start b <=? used b then used b - (wrap b - start b) else start b + used b.

Definition ChunkBuffer2_assert_buffer : M unit :=
  b ← get;
  assert (0 <? size b);;
  assert (0 <? wrap b);;
  assert (wrap b <=? size b);;
  assert (0 <=? start b);;
  assert (start b <? wrap b);;
  assert (0 <=? used b);;
  assert (used b <=? wrap b);;
  assert ((wrap b =? size b) || (wrap b - start b <=? used b));;
  assert (0 <=? mtu b).

(** Number of free blocks after the last packet. *)
Definition free_blocks (b : ChunkBuffer2) : Z :=
  let e := ChunkBuffer2_end b in
  if wrap b - start b <=? used b then start b - e else size b - e.

Definition ChunkBuffer2_assert_io : M unit :=
  b ← get;
  let e := ChunkBuffer2_end b in
  (if (size b - e - 1 <? mtu b) || negb (0 <? free_blocks b) then
     assert (bool_decide (input_dest b = None));;
     assert (input_avail b =? -1)
   else
     assert (bool_decide (input_dest b = Some (BLOCK * (e + 1))));;
     assert (input_avail b =? i32 (sizet ((free_blocks b - 1) * BLOCK))));;
  if 0 <? used b then
    datalen ← must (block_len (buffer b) (start b));
    assert (0 <=? datalen);;
    let blocklen := i32 (bdivide_up datalen BLOCK) in
    assert (blocklen <=? used b - 1);;
    assert (blocklen <=? wrap b - start b - 1);;
    assert (bool_decide (output_dest b = Some (BLOCK * (start b + 1))));;
    assert (output_avail b =? datalen)
  else
    assert (bool_decide (output_dest b = None));;
    assert (output_avail b =? -1).

Definition ChunkBuffer2_update_input : M unit :=
  b ← get;
  let e := ChunkBuffer2_end b in
  if size b - e - 1 <? mtu b then
    input_dest ::= None;; input_avail ::= -1
  else
    if 0 <? free_blocks b then
      input_dest ::= Some (BLOCK * (e + 1));;
      input_avail ::= i32 (sizet ((free_blocks b - 1) * BLOCK))
    else
      input_dest ::= None;; input_avail ::= -1.

Definition ChunkBuffer2_update_output : M unit :=
  b ← get;
  if 0 <? used b then
    datalen ← must (block_len (buffer b) (start b));
    assert (0 <=? datalen);;
    let blocklen := i32 (bdivide_up datalen BLOCK) in
    assert (blocklen <=? used b - 1);;
    assert (blocklen <=? wrap b - start b - 1);;
    output_dest ::= Some (BLOCK * (start b + 1));;
    output_avail ::= datalen
  else
    output_dest ::= None;; output_avail ::= -1.

Definition ChunkBuffer2_calc_blocks (chunk_len num : Z) : Z :=
  let chunk_data_blocks := i32 (bdivide_up chunk_len BLOCK) in
  if INT_MAX - 1 <? chunk_data_blocks then -1 else
  let chunk_blocks := 1 + chunk_data_blocks in
  if INT_MAX - 1 <? num then -1 else
  let num_chunks := num + 1 in
  if INT_MAX / num_chunks <? chunk_blocks then -1 else
  chunk_blocks * num_chunks.

(** [buffer] is the memory the caller provides. *)
Definition ChunkBuffer2_Init (buf : bytes) (blocks mtu0 : Z) : M unit :=
  assert (0 <? blocks);;
  assert (0 <=? mtu0);;
  put (mk_cb buf blocks blocks 0 0 (i32 (bdivide_up mtu0 BLOCK)) None 0 None 0);;
  ChunkBuffer2_assert_buffer;;
  ChunkBuffer2_update_input;;
  ChunkBuffer2_update_output;;
  ChunkBuffer2_assert_io.

Definition ChunkBuffer2_SubmitPacket (len : Z) : M unit :=
  b ← get;
  assert (is_Some_b (input_dest b));;
  assert (0 <=? len);;
  assert (len <=? input_avail b);;
  ChunkBuffer2_assert_buffer;;
  ChunkBuffer2_assert_io;;
  let e := ChunkBuffer2_end b in
  let blocklen := i32 (bdivide_up len BLOCK) in
  assert (blocklen <=? size b - e - 1);;
  assert ((used b <? wrap b - start b) || (blocklen <=? start b - e - 1));;
  mem ← must (mem_write (BLOCK * e) (le_bytes 4 len) (buffer b));
  buffer ::= mem;;
  used ::= used b + (1 + blocklen);;
  when ((used b + (1 + blocklen) <=? wrap b - start b)
        && (size b - (e + 1 + blocklen) - 1 <? mtu b))
    (wrap ::= e + 1 + blocklen);;
  ChunkBuffer2_assert_buffer;;
  ChunkBuffer2_update_input;;
  u ← gets used;
  when (u =? 1 + blocklen) ChunkBuffer2_update_output;;
  ChunkBuffer2_assert_io.

Definition ChunkBuffer2_ConsumePacket : M unit :=
  b ← get;
  assert (is_Some_b (output_dest b));;
  ChunkBuffer2_assert_buffer;;
  ChunkBuffer2_assert_io;;
  assert (1 <=? wrap b - start b);;
  assert (1 <=? used b);;
  len ← must (block_len (buffer b) (start b));
  let blocklen := i32 (bdivide_up len BLOCK) in
  assert (blocklen <=? wrap b - start b - 1);;
  assert (blocklen <=? used b - 1);;
  let data_wrapped := wrap b - start b <=? used b in
  start ::= start b + (1 + blocklen);;
  used ::= used b - (1 + blocklen);;
  b1 ← get;
  when (start b1 =? wrap b1) (start ::= 0;; wrap ::= size b1);;
  ChunkBuffer2_assert_buffer;;
  when data_wrapped ChunkBuffer2_update_input;;
  ChunkBuffer2_update_output;;
  ChunkBuffer2_assert_io.

(** The producer fills the space it was given. *)
Definition write_input (data : bytes) : M unit :=
  b ← get;
  d ← must (input_dest b);
  assert (zlen data <=? input_avail b);;
  mem ← must (mem_write d data (buffer b));
  buffer ::= mem.
End operations.

(** * The queue a buffer holds *)

(** Blocks of a packet. *)
Definition blocks_of (p : bytes) : Z := 1 + bdivide_up (zlen p) BLOCK.

(** [chunks mem a l z]: the packets [l] lie one after the other from block [a]
    to block [z]. *)
Fixpoint chunks (mem : bytes) (a : Z) (l : list bytes) (z : Z) : Prop :=
  match l with
  | [] => a = z
  | p :: l =>
      mem_read (BLOCK * a) BLOCK mem = Some (le_bytes 4 (zlen p)) /\
      mem_read (BLOCK * (a + 1)) (zlen p) mem = Some p /\
      chunks mem (a + blocks_of p) l z
  end.

(** Every packet starts where a packet of the largest size fits. *)
Fixpoint fits (sz m a : Z) (l : list bytes) : Prop :=
  match l with
  | [] => True
  | p :: l => a + 1 + m <= sz /\ fits sz m (a + blocks_of p) l
  end.

Definition input_ok (b : ChunkBuffer2) : Prop :=
  if 0 <? free_blocks b then
    input_dest b = Some (BLOCK * (ChunkBuffer2_end b + 1)) /\
    input_avail b = BLOCK * (free_blocks b - 1)
  else input_dest b = None /\ input_avail b = -1.

Definition output_ok (b : ChunkBuffer2) (l : list bytes) : Prop :=
  match l with
  | [] => output_dest b = None /\ output_avail b = -1
  | p :: _ => output_dest b = Some (BLOCK * (start b + 1)) /\ output_avail b = zlen p
  end.

(** The shape: one run of packets, or a run up to [wrap] and a run from 0. *)
Definition cb_data (b : ChunkBuffer2) (l : list bytes) : Prop :=
  (wrap b = size b /\ start b + used b < size b /\ 0 <= used b /\
   start b + used b + 1 + mtu b <= size b /\
   chunks (buffer b) (start b) l (start b + used b) /\ fits (size b) (mtu b) (start b) l) \/
  exists l1 l2, l = l1 ++ l2 /\ l1 <> [] /\ size b < wrap b + 1 + mtu b /\
    chunks (buffer b) (start b) l1 (wrap b) /\ fits (size b) (mtu b) (start b) l1 /\
    chunks (buffer b) 0 l2 (used b - (wrap b - start b)) /\ fits (size b) (mtu b) 0 l2 /\
    0 <= used b - (wrap b - start b) <= start b /\ wrap b <= size b.

Record cb_core (b : ChunkBuffer2) (l : list bytes) : Prop := {
  rep_mem : zlen (buffer b) = BLOCK * size b;
  rep_size : BLOCK * size b <= INT_MAX;
  rep_mtu : 0 <= mtu b;
  rep_start : 0 <= start b;
  rep_data : cb_data b l
}.

Record cb_rep (b : ChunkBuffer2) (l : list bytes) : Prop := {
  rep_core : cb_core b l;
  rep_input : input_ok b;
  rep_output : output_ok b l
}.

Section layout.
Implicit Types mem p : bytes.

Lemma blocks_of_pos p : 1 <= blocks_of p.
Proof. unfold blocks_of. pose proof (bdivide_up_nonneg (zlen p) BLOCK ltac:(done) (zlen_nonneg p)). lia. Qed.

Lemma blocks_of_len p : zlen p <= BLOCK * (blocks_of p - 1) < zlen p + BLOCK.
Proof.
  unfold blocks_of. pose proof (bdivide_up_spec (zlen p) BLOCK ltac:(done)).
  unfold BLOCK in *. lia.
Qed.

Lemma chunks_le mem a l z : chunks mem a l z -> a + Z.of_nat (length l) <= z.
Proof.
  revert a; induction l as [|p l IH]; cbn; intros a; [lia|].
  intros (_ & _ & H). apply IH in H. pose proof (blocks_of_pos p). lia.
Qed.

Lemma chunks_app mem a l1 m l2 z :
  chunks mem a l1 m -> chunks mem m l2 z -> chunks mem a (l1 ++ l2) z.
Proof.
  revert a; induction l1 as [|p l1 IH]; cbn; intros a; [by intros ->|].
  intros (H1 & H2 & H3) H4. eauto.
Qed.

(** Whatever leaves the bytes of blocks [a..z) alone leaves the packets. *)
Lemma chunks_frame mem mem' a l z :
  zlen mem' = zlen mem ->
  (forall o n, BLOCK * a <= o -> 0 <= n -> o + n <= BLOCK * z -> slice o n mem' = slice o n mem) ->
  chunks mem a l z -> chunks mem' a l z.
Proof.
  intros Hlen. revert a; induction l as [|p l IH]; cbn; intros a Hs; [done|].
  intros (H1 & H2 & H3). pose proof (chunks_le _ _ _ _ H3) as Hle.
  pose proof (blocks_of_pos p). pose proof (blocks_of_len p).
  unfold mem_read, BLOCK in *. rewrite !Hlen.
  split_and!.
  - destruct (in_bounds _ _ _) eqn:Hb in H1 |- *; [|done].
    rewrite Hs by lia. done.
  - destruct (in_bounds _ (zlen p) _) eqn:Hb in H2 |- *; [|done].
    rewrite Hs by zlia. done.
  - apply IH; [|done]. intros. apply Hs; lia.
Qed.

Lemma fits_app sz m a l1 l2 mem z :
  chunks mem a l1 z -> fits sz m a l1 -> fits sz m z l2 -> fits sz m a (l1 ++ l2).
Proof.
  revert a; induction l1 as [|p l1 IH]; cbn; intros a; [by intros ->|].
  intros (_ & _ & H3) [? ?] ?. eauto.
Qed.

Lemma block_len_chunk mem a p :
  zlen p <= INT_MAX ->
  mem_read (BLOCK * a) BLOCK mem = Some (le_bytes 4 (zlen p)) -> block_len mem a = Some (zlen p).
Proof.
  intros Hp H. unfold block_len. rewrite H. cbn [option_map].
  rewrite le_val_bytes. f_equal. pose proof (zlen_nonneg p).
  change (256 ^ Z.of_nat 4) with (2 ^ 32). unfold INT_MAX in *.
  rewrite Z.mod_small by lia. apply i32_small. unfold INT_MAX. lia.
Qed.

(** The packets of a run are short enough for their length to be an [int]. *)
Lemma chunks_head_len mem a p l z sz :
  chunks mem a (p :: l) z -> 0 <= a -> z <= sz -> BLOCK * sz <= INT_MAX ->
  zlen p <= INT_MAX /\ block_len mem a = Some (zlen p) /\ a + blocks_of p <= z /\
  i32 (bdivide_up (zlen p) BLOCK) = blocks_of p - 1.
Proof.
  intros (H1 & H2 & H3) Ha Hz Hsz. pose proof (chunks_le _ _ _ _ H3).
  pose proof (blocks_of_len p). pose proof (blocks_of_pos p).
  assert (zlen p <= INT_MAX) by (unfold BLOCK in *; lia).
  split_and!; [done|by apply block_len_chunk|lia|].
  unfold blocks_of in *. rewrite i32_small; [lia|]. unfold BLOCK, INT_MAX in *. lia.
Qed.
End layout.

Section laws.
Context {E : Type}.
Implicit Types b : ChunkBuffer2.

(** What the debug checks of the code test, and the position of the end. *)
Record bounds b (l : list bytes) : Prop := {
  bd_wrap : 0 < wrap b <= size b;
  bd_start : 0 <= start b < wrap b;
  bd_used : 0 <= used b <= wrap b;
  bd_shape : wrap b = size b \/ wrap b - start b <= used b;
  bd_end : 0 <= ChunkBuffer2_end b /\ ChunkBuffer2_end b + 1 + mtu b <= size b;
  bd_free : 0 <= free_blocks b <= size b - ChunkBuffer2_end b;
  bd_empty : used b = 0 <-> l = []
}.

Lemma core_bounds b l : cb_core b l -> bounds b l.
Proof.
  intros [Hmem Hsz Hm Hs [(Hw & Hlt & Hu & Hfit & Hc & _)|
    (l1 & l2 & -> & Hne & Hwf & Hc1 & Hf1 & Hc2 & Hf2 & Hx & Hw)]].
  - pose proof (chunks_le _ _ _ _ Hc).
    split; unfold ChunkBuffer2_end, free_blocks, ChunkBuffer2_end;
      try (destruct (wrap b - start b <=? used b) eqn:He; b2p); try lia.
    split; [|intros ->; cbn in Hc; lia].
    intros Hu0. destruct l; [done|]. cbn [length] in *. lia.
  - destruct l1 as [|p l1]; [done|]. pose proof (chunks_le _ _ _ _ Hc1) as Hle.
    cbn [length] in Hle. destruct Hf1 as [Hf1 _].
    assert (He : (wrap b - start b <=? used b) = true) by (b2p; lia).
    split; unfold free_blocks, ChunkBuffer2_end; rewrite ?He; try lia.
    split; [lia|done].
Qed.

Lemma i32_avail b l : cb_core b l -> 0 < free_blocks b ->
  i32 (sizet ((free_blocks b - 1) * BLOCK)) = BLOCK * (free_blocks b - 1).
Proof.
  intros Hc Hf. pose proof (core_bounds b l Hc) as []. destruct Hc.
  unfold BLOCK, INT_MAX in *. rewrite sizet_small by (unfold SIZE_MAX; lia).
  rewrite i32_small; unfold INT_MAX; lia.
Qed.

Lemma wp_assert_buffer b l (Q : unit -> ChunkBuffer2 -> list E -> Prop) :
  cb_core b l -> Q tt b [] -> wp ChunkBuffer2_assert_buffer Q b.
Proof.
  intros Hc HQ. pose proof (core_bounds b l Hc) as []. destruct Hc.
  unfold ChunkBuffer2_assert_buffer. msteps; b2p; try lia. done.
Qed.

Definition with_input b : ChunkBuffer2 :=
  if 0 <? free_blocks b
  then b <| input_dest := Some (BLOCK * (ChunkBuffer2_end b + 1)) |>
         <| input_avail := BLOCK * (free_blocks b - 1) |>
  else b <| input_dest := None |> <| input_avail := -1 |>.

Definition with_output b (l : list bytes) : ChunkBuffer2 :=
  match l with
  | [] => b <| output_dest := None |> <| output_avail := -1 |>
  | p :: _ => b <| output_dest := Some (BLOCK * (start b + 1)) |> <| output_avail := zlen p |>
  end.

Lemma wp_update_input b l (Q : unit -> ChunkBuffer2 -> list E -> Prop) :
  cb_core b l -> Q tt (with_input b) [] -> wp ChunkBuffer2_update_input Q b.
Proof.
  intros Hc HQ. pose proof (core_bounds b l Hc) as []. pose proof (i32_avail b l Hc) as Hi.
  unfold ChunkBuffer2_update_input, with_input in *.
  msteps; b2p; try lia.
  - rewrite (proj2 (Z.ltb_lt _ _)) in HQ by done. by rewrite Hi.
  - rewrite (proj2 (Z.ltb_ge _ _)) in HQ by done. done.
Qed.

(** The first packet, where the code reads it. *)
Lemma core_head b p l : cb_core b (p :: l) ->
  block_len (buffer b) (start b) = Some (zlen p) /\
  i32 (bdivide_up (zlen p) BLOCK) = blocks_of p - 1 /\
  blocks_of p <= used b /\ blocks_of p <= wrap b - start b.
Proof.
  intros Hcore. pose proof (core_bounds _ _ Hcore) as [].
  destruct Hcore as [Hmem Hsz Hm Hs [(Hw & Hlt & Hu & Hfit & Hc & _)|
    (l1 & l2 & Heq & Hne & Hwf & Hc1 & Hf1 & Hc2 & Hf2 & Hx & Hw)]].
  - destruct (chunks_head_len _ _ _ _ _ (size b) Hc) as (? & ? & ? & ?); try lia.
    split_and!; try done; lia.
  - destruct l1 as [|p' l1]; [done|]. injection Heq as -> ->.
    destruct (chunks_head_len _ _ _ _ _ (size b) Hc1) as (? & ? & ? & ?); try lia.
    split_and!; try done; lia.
Qed.

Lemma wp_update_output b l (Q : unit -> ChunkBuffer2 -> list E -> Prop) :
  cb_core b l -> Q tt (with_output b l) [] -> wp ChunkBuffer2_update_output Q b.
Proof.
  intros Hc HQ. pose proof (core_bounds b l Hc) as [].
  unfold ChunkBuffer2_update_output, with_output in *.
  destruct l as [|p l].
  - assert ((0 <? used b) = false) as Hu by (b2p; rewrite (proj2 bd_empty0 eq_refl); lia).
    do 2 mstep. rewrite Hu. by msteps.
  - destruct (core_head b p l Hc) as (Hl & Hb & ? & ?).
    assert ((0 <? used b) = true) as Hu by (b2p; assert (used b <> 0) by (by rewrite bd_empty0); lia).
    do 2 mstep. rewrite Hu. msteps; b2p; try done; rewrite ?Hb; try lia. apply zlen_nonneg.
Qed.

Lemma wp_assert_io b l (Q : unit -> ChunkBuffer2 -> list E -> Prop) :
  cb_rep b l -> Q tt b [] -> wp ChunkBuffer2_assert_io Q b.
Proof.
  intros [Hc Hi Ho] HQ. pose proof (core_bounds b l Hc) as [].
  pose proof (i32_avail b l Hc) as Hav.
  unfold ChunkBuffer2_assert_io, input_ok, output_ok in *.
  assert (Hm : (size b - ChunkBuffer2_end b - 1 <? mtu b) = false) by (b2p; lia).
  mstep; mstep. rewrite Hm. cbn [orb].
  destruct (0 <? free_blocks b) eqn:Hf; cbn [negb]; destruct Hi as [-> ->].
  all: destruct l as [|p l];
    [|destruct (core_head b p l Hc) as (Hl & Hb & ? & ?)]; destruct Ho as [-> ->];
    (assert (Hu : used b <> 0) by (by rewrite bd_empty0)) ||
    (assert (Hu : used b = 0) by (by apply bd_empty0)).
  all: msteps; b2p; rewrite ?Hb; try done; try lia; try apply zlen_nonneg.
  all: rewrite Hav; lia.
Qed.

(** Only the fields the layout depends on matter. *)
Lemma core_with_input b l : cb_core b l -> cb_core (with_input b) l.
Proof. intros []. unfold with_input. by destruct (0 <? free_blocks b). Qed.
Lemma core_with_output b l l' : cb_core b l -> cb_core (with_output b l') l.
Proof. intros []. unfold with_output. by destruct l'. Qed.
Lemma input_with_input b : input_ok (with_input b).
Proof.
  unfold input_ok, with_input. destruct (0 <? free_blocks b) eqn:Hf.
  - change (free_blocks (upd _ _ (upd _ _ b))) with (free_blocks b). by rewrite Hf.
  - change (free_blocks (upd _ _ (upd _ _ b))) with (free_blocks b). by rewrite Hf.
Qed.
Lemma input_with_output b l : input_ok b -> input_ok (with_output b l).
Proof. by destruct l. Qed.
Lemma output_with_output b l : output_ok (with_output b l) l.
Proof. by destruct l. Qed.
Lemma output_with_input b l : output_ok b l -> output_ok (with_input b) l.
Proof. unfold with_input. by destruct (0 <? free_blocks b), l. Qed.
Lemma rep_update b l : cb_core b l -> cb_rep (with_output (with_input b) l) l.
Proof.
  intros. split; [by apply core_with_output, core_with_input| |apply output_with_output].
  apply input_with_output, input_with_input.
Qed.

Lemma cb_Init buf blocks mtu0 b (Q : unit -> ChunkBuffer2 -> list E -> Prop) :
  0 <= mtu0 -> 1 + bdivide_up mtu0 BLOCK <= blocks -> BLOCK * blocks <= INT_MAX ->
  zlen buf = BLOCK * blocks ->
  (forall b', cb_rep b' [] -> size b' = blocks -> mtu b' = bdivide_up mtu0 BLOCK -> Q tt b' []) ->
  wp (ChunkBuffer2_Init buf blocks mtu0) Q b.
Proof.
  intros H0 Hm Hsz Hbuf HQ. pose proof (bdivide_up_nonneg mtu0 BLOCK ltac:(done) H0).
  assert (Hi : i32 (bdivide_up mtu0 BLOCK) = bdivide_up mtu0 BLOCK).
  { apply i32_small. unfold BLOCK, INT_MAX in *. lia. }
  assert (Hc : cb_core (mk_cb buf blocks blocks 0 0 (i32 (bdivide_up mtu0 BLOCK)) None 0 None 0) []).
  { rewrite Hi. split; cbn; try lia. left. cbn. split_and!; try lia; done. }
  unfold ChunkBuffer2_Init. msteps; b2p; try lia.
  apply (wp_assert_buffer _ _ _ Hc). msteps. apply (wp_update_input _ _ _ Hc). msteps.
  eapply wp_update_output; [by apply core_with_input|]. msteps.
  eapply wp_assert_io; [by apply rep_update|]. apply HQ; [by apply rep_update|..];
    unfold with_output, with_input; by destruct (0 <? free_blocks _).
Qed.

Lemma wp_write_input b l data (Q : unit -> ChunkBuffer2 -> list E -> Prop) d :
  cb_rep b l -> input_dest b = Some d -> zlen data <= input_avail b ->
  (forall mem, cb_rep (b <| buffer := mem |>) l -> slice d (zlen data) mem = data ->
     Q tt (b <| buffer := mem |>) []) ->
  wp (write_input data) Q b.
Proof.
  intros [Hc Hi Ho] Hd Hlen HQ. pose proof (core_bounds b l Hc) as [].
  pose proof Hi as Hi0.
  unfold input_ok in Hi. destruct (0 <? free_blocks b) eqn:Hf; [|destruct Hi; congruence].
  b2p. destruct Hi as [Hd' Ha]. assert (d = BLOCK * (ChunkBuffer2_end b + 1)) by congruence. subst d.
  pose proof (zlen_nonneg data). pose proof (rep_mem b l Hc) as Hmem.
  assert (Hw : mem_write (BLOCK * (ChunkBuffer2_end b + 1)) data (buffer b)
               = Some (splice (BLOCK * (ChunkBuffer2_end b + 1)) data (buffer b))).
  { apply mem_write_Some; unfold BLOCK in *; lia. }
  unfold write_input. msteps; b2p; [done|done|done|].
  apply HQ; [|apply slice_splice_same; unfold BLOCK in *; lia].
  split; [|exact Hi0|exact Ho]. destruct Hc as [_ Hsz Hm Hs Hdata]. split; try done.
  { sug. rewrite zlen_splice; unfold BLOCK in *; lia. }
  unfold free_blocks in *.
  destruct Hdata as [(Hw1 & Hlt & Hu & Hfit & Hch & Hft)|
    (l1 & l2 & -> & Hne & Hwf & Hc1 & Hf1 & Hc2 & Hf2 & Hx & Hw1)];
    unfold ChunkBuffer2_end in *.
  - assert (He : (wrap b - start b <=? used b) = false) by (b2p; lia). rewrite He in *.
    left. sug. split_and!; try done. eapply chunks_frame; [|  |exact Hch].
    + rewrite zlen_splice; unfold BLOCK in *; lia.
    + intros. apply slice_splice_before; unfold BLOCK in *; lia.
  - assert (He : (wrap b - start b <=? used b) = true) by (b2p; lia). rewrite He in *.
    right. exists l1, l2. sug. split_and!; try done; try lia.
    + eapply chunks_frame; [| |exact Hc1].
      * rewrite zlen_splice; unfold BLOCK in *; lia.
      * intros. apply slice_splice_after; unfold BLOCK in *; lia.
    + eapply chunks_frame; [| |exact Hc2].
      * rewrite zlen_splice; unfold BLOCK in *; lia.
      * intros. apply slice_splice_before; unfold BLOCK in *; lia.
Qed.

(** ** Submitting a packet *)

Definition submitted b (p : bytes) : ChunkBuffer2 :=
  let e := ChunkBuffer2_end b in
  let b' := b <| buffer := splice (BLOCK * e) (le_bytes 4 (zlen p)) (buffer b) |>
              <| used := used b + blocks_of p |> in
  if (used b + blocks_of p <=? wrap b - start b) && (size b - (e + blocks_of p) - 1 <? mtu b)
  then b' <| wrap := e + blocks_of p |> else b'.

(** The new packet, once its header is written. *)
Lemma chunk_submit mem e p sz :
  0 <= e -> e + blocks_of p <= sz -> zlen mem = BLOCK * sz ->
  slice (BLOCK * (e + 1)) (zlen p) mem = p ->
  chunks (splice (BLOCK * e) (le_bytes 4 (zlen p)) mem) e [p] (e + blocks_of p).
Proof.
  intros He Hsz Hmem Hp. pose proof (blocks_of_len p). pose proof (blocks_of_pos p).
  assert (Hl : zlen (le_bytes 4 (zlen p)) = BLOCK) by by rewrite zlen_le_bytes.
  cbn [chunks]. split_and!; [| |done].
  - rewrite mem_read_Some; [|unfold BLOCK in *; lia..|].
    + f_equal. apply slice_splice_same; unfold BLOCK in *; lia.
    + rewrite zlen_splice; unfold BLOCK in *; lia.
  - rewrite mem_read_Some; [|unfold BLOCK in *; zlia..|].
    + f_equal. rewrite slice_splice_after by (unfold BLOCK in *; zlia). done.
    + rewrite zlen_splice; unfold BLOCK in *; zlia.
Qed.

Lemma chunks_header mem e p a l z sz :
  0 <= e -> e + blocks_of p <= sz -> zlen mem = BLOCK * sz -> 0 <= a -> z <= sz ->
  z <= e \/ e + 1 <= a -> chunks mem a l z ->
  chunks (splice (BLOCK * e) (le_bytes 4 (zlen p)) mem) a l z.
Proof.
  intros He Hsz Hmem Ha Hz Hdis Hc. pose proof (blocks_of_pos p).
  assert (Hl : zlen (le_bytes 4 (zlen p)) = BLOCK) by by rewrite zlen_le_bytes.
  eapply chunks_frame; [| |exact Hc].
  - rewrite zlen_splice; unfold BLOCK in *; lia.
  - intros. destruct Hdis; [apply slice_splice_before|apply slice_splice_after]; unfold BLOCK in *; lia.
Qed.

Lemma submit_blocks b l p : cb_core b l -> 0 < free_blocks b ->
  zlen p <= BLOCK * (free_blocks b - 1) -> blocks_of p <= free_blocks b.
Proof.
  intros Hc Hf Hp. unfold blocks_of. pose proof (bdivide_up_le (zlen p) BLOCK _ ltac:(done) Hp). lia.
Qed.

Lemma core_submit b l p :
  cb_core b l -> 0 < free_blocks b -> zlen p <= BLOCK * (free_blocks b - 1) ->
  slice (BLOCK * (ChunkBuffer2_end b + 1)) (zlen p) (buffer b) = p ->
  cb_core (submitted b p) (l ++ [p]).
Proof.
  intros Hc Hfree Hlen Hp. pose proof (core_bounds b l Hc) as Hbd.
  pose proof (submit_blocks b l p Hc Hfree Hlen) as Hbl. pose proof (blocks_of_pos p).
  destruct Hbd. destruct Hc as [Hmem Hsz Hm Hs Hdata].
  assert (Hm' : zlen (splice (BLOCK * ChunkBuffer2_end b) (le_bytes 4 (zlen p)) (buffer b)) = BLOCK * size b).
  { rewrite zlen_splice; rewrite ?zlen_le_bytes; unfold BLOCK in *; lia. }
  pose proof (chunk_submit (buffer b) (ChunkBuffer2_end b) p (size b) ltac:(lia) ltac:(lia) Hmem Hp) as Hnew.
  destruct Hdata as [(Hw & Hlt & Hu & Hfit & Hch & Hft)|
    (l1 & l2 & -> & Hne & Hwf & Hc1 & Hf1 & Hc2 & Hf2 & Hx & Hw)];
    unfold submitted, free_blocks in *; unfold ChunkBuffer2_end in *.
  - assert (He : (wrap b - start b <=? used b) = false) by (b2p; lia). rewrite He in *.
    assert (He2 : (used b + blocks_of p <=? wrap b - start b) = true) by (b2p; lia). rewrite He2.
    eapply (chunks_header _ (start b + used b) p _ _ _ (size b)) in Hch; [|lia..].
    cbn [andb]. destruct (size b - _ - 1 <? mtu b) eqn:Hwr; b2p; split; sug; try done; try lia.
    + right. exists (l ++ [p]), []. sug. split_and!; try lia.
      * by rewrite app_nil_r.
      * by destruct l.
      * eapply chunks_app; [exact Hch|]. done.
      * eapply fits_app; [exact Hch|done|]. cbn. split; [lia|done].
    + left. sug. split_and!; try lia.
      * eapply chunks_app; [exact Hch|]. by rewrite Z.add_assoc.
      * eapply fits_app; [exact Hch|done|]. cbn. split; [lia|done].
  - assert (He : (wrap b - start b <=? used b) = true) by (b2p; lia). rewrite He in *.
    assert (He2 : (used b + blocks_of p <=? wrap b - start b) = false) by (b2p; lia). rewrite He2.
    set (e := used b - (wrap b - start b)) in *.
    pose proof (chunks_le _ _ _ _ Hc1). 
    eapply (chunks_header _ e p _ _ _ (size b)) in Hc1; [|lia..].
    eapply (chunks_header _ e p _ _ _ (size b)) in Hc2; [|lia..].
    cbn [andb]. split; sug; try done.
    right. exists l1, (l2 ++ [p]). sug.
    replace (used b + blocks_of p - (wrap b - start b)) with (e + blocks_of p) by lia.
    split_and!; try done; try lia.
    + by rewrite app_assoc.
    + eapply chunks_app; [exact Hc2|done].
    + eapply fits_app; [exact Hc2|done|]. cbn. split; [lia|done].
Qed.

Lemma with_output_id b l : output_ok b l -> with_output b l = b.
Proof. destruct b, l; cbn; by intros [-> ->]. Qed.
Lemma output_submitted b l p :
  output_ok b l -> l <> [] -> output_ok (submitted b p) (l ++ [p]).
Proof. unfold submitted. intros. by destruct (_ && _), l. Qed.

Lemma wp_SubmitPacket b l p d (Q : unit -> ChunkBuffer2 -> list E -> Prop) :
  cb_rep b l -> input_dest b = Some d -> zlen p <= input_avail b ->
  slice d (zlen p) (buffer b) = p ->
  (forall b', cb_rep b' (l ++ [p]) -> size b' = size b -> mtu b' = mtu b -> start b' = start b ->
     Q tt b' []) ->
  wp (ChunkBuffer2_SubmitPacket (zlen p)) Q b.
Proof.
  intros Hrep Hd Hlen Hp HQ. destruct Hrep as [Hc Hi Ho] eqn:Heq. clear Heq.
  pose proof (core_bounds b l Hc) as Hbd. destruct Hbd.
  pose proof Hi as Hi0. unfold input_ok in Hi0.
  destruct (0 <? free_blocks b) eqn:Hf; [|destruct Hi0; congruence].
  b2p. destruct Hi0 as [Hd' Ha]. assert (d = BLOCK * (ChunkBuffer2_end b + 1)) by congruence. subst d.
  rewrite Ha in Hlen. pose proof (core_submit b l p Hc Hf Hlen Hp) as Hc'.
  pose proof (submit_blocks b l p Hc Hf Hlen). pose proof (blocks_of_pos p).
  assert (Hbl : i32 (bdivide_up (zlen p) BLOCK) = blocks_of p - 1).
  { destruct Hc. unfold blocks_of in *. rewrite i32_small; unfold BLOCK, INT_MAX in *; lia. }
  unfold ChunkBuffer2_SubmitPacket. mstep. mstep. rewrite Hbl, Hd'.
  replace (1 + (blocks_of p - 1)) with (blocks_of p) by lia.
  replace (ChunkBuffer2_end b + 1 + (blocks_of p - 1)) with (ChunkBuffer2_end b + blocks_of p) by lia.
  mstep; mstep; [done|]. mstep; mstep; [b2p; apply zlen_nonneg|]. mstep; mstep; [b2p; lia|].
  mstep. eapply wp_assert_buffer; [done|]. mstep. eapply wp_assert_io; [done|].
  mstep; mstep; [b2p; lia|]. mstep; mstep.
  { unfold free_blocks in *. rewrite orb_true_iff, Z.ltb_lt, Z.leb_le.
    destruct (_ <=? _) eqn:E1 in Hf, H; b2p; lia. }
  mstep; mstep. { apply mem_write_Some; rewrite ?zlen_le_bytes; destruct Hc; unfold BLOCK in *; lia. }
  mstep; mstep. mstep; mstep. mstep.
  set (b0 := upd used _ _).
  apply (wp_mono _ (fun _ s t => s = submitted b p /\ t = [])).
  { unfold submitted. unfold when. by destruct (_ && _). }
  intros [] b' t [-> ->]. mstep. eapply wp_assert_buffer; [done|]. mstep.
  eapply wp_update_input; [done|]. do 3 mstep.
  assert (Hu : used (with_input (submitted b p)) = used b + blocks_of p).
  { unfold with_input, submitted. by destruct (_ && _), (_ <? _). }
  assert (Hfin : forall t, t = [] -> wp ChunkBuffer2_assert_io (fun u s2 t2 => Q u s2 (t ++ t2))
     (with_output (with_input (submitted b p)) (l ++ [p]))).
  { intros ? ->. eapply wp_assert_io; [by apply rep_update|].
    apply HQ; [by apply rep_update|..];
    unfold with_output, with_input, submitted; by destruct (_ && _), (_ <? _), (l ++ [p]). }
  assert (Hout : l <> [] -> with_output (with_input (submitted b p)) (l ++ [p])
                 = with_input (submitted b p)).
  { intros Hl. apply with_output_id, output_with_input, output_submitted; done. }
  rewrite Hu. unfold when. destruct (used b + blocks_of p =? blocks_of p) eqn:Hz; b2p.
  - eapply wp_update_output; [by apply core_with_input|]. exact (Hfin [] eq_refl).
  - mstep. rewrite <- Hout; [exact (Hfin [] eq_refl)|]. rewrite <- bd_empty0. lia.
Qed.

(** ** Removing the first packet *)

Definition consumed b (p : bytes) : ChunkBuffer2 :=
  let b' := b <| start := start b + blocks_of p |> <| used := used b - blocks_of p |> in
  if start b' =? wrap b' then b' <| start := 0 |> <| wrap := size b' |> else b'.

Lemma core_consume b p l : cb_core b (p :: l) -> cb_core (consumed b p) l.
Proof.
  intros Hc. pose proof (core_bounds _ _ Hc) as []. pose proof (core_head _ _ _ Hc) as (_ & _ & Hu1 & Hu2).
  pose proof (blocks_of_pos p). destruct Hc as [Hmem Hsz Hm Hs Hdata].
  destruct Hdata as [(Hw & Hlt & Hu & Hfit & Hch & Hft)|
    (l1 & l2 & Heq & Hne & Hwf & Hc1 & Hf1 & Hc2 & Hf2 & Hx & Hw)]; unfold consumed; sug.
  - destruct Hch as (_ & _ & Hch). destruct Hft as [? Hft].
    assert (Hz : (start b + blocks_of p =? wrap b) = false) by (b2p; lia). rewrite Hz.
    split; sug; try done; try lia. left. sug. split_and!; try done; try lia.
    by replace (start b + blocks_of p + (used b - blocks_of p)) with (start b + used b) by lia.
  - destruct l1 as [|p' l1]; [done|]. injection Heq as <- ->.
    destruct Hc1 as (_ & _ & Hc1). destruct Hf1 as [? Hf1]. pose proof (chunks_le _ _ _ _ Hc1).
    destruct (start b + blocks_of p =? wrap b) eqn:Hz; b2p; (split; sug; try done; try lia).
    + left. destruct l1 as [|q l1]; [|cbn [length] in *; lia]. sug.
      replace (used b - blocks_of p) with (used b - (wrap b - start b)) by lia.
      split_and!; try done; lia.
    + right. exists l1, l2. sug.
      replace (used b - blocks_of p - (wrap b - (start b + blocks_of p)))
        with (used b - (wrap b - start b)) by lia.
      split_and!; try done; try lia. intros ->. by cbn in Hc1.
Qed.

Lemma consumed_end b p l : cb_core b (p :: l) ->
  ChunkBuffer2_end (consumed b p) = ChunkBuffer2_end b /\
  free_blocks b <= free_blocks (consumed b p).
Proof.
  intros Hc. pose proof (core_bounds _ _ Hc) as []. pose proof (core_head _ _ _ Hc) as (_ & _ & Hu1 & Hu2).
  pose proof (blocks_of_pos p).
  assert (Hx : wrap b - start b <= used b \/ wrap b = size b).
  { destruct (rep_data _ _ Hc) as [|(l1 & l2 & _ & _ & _ & _ & _ & _ & _ & ? & _)]; lia. }
  clear Hc. unfold consumed, free_blocks, ChunkBuffer2_end in *. sug.
  destruct (start b + blocks_of p =? wrap b) eqn:Hz; cbn;
    repeat match goal with
    | |- context [?x <=? ?y] => destruct (x <=? y) eqn:?
    end; b2p; lia.
Qed.

Lemma wp_ConsumePacket b p l (Q : unit -> ChunkBuffer2 -> list E -> Prop) :
  cb_rep b (p :: l) ->
  (forall b', cb_rep b' l -> size b' = size b -> mtu b' = mtu b -> buffer b' = buffer b ->
     ChunkBuffer2_end b' = ChunkBuffer2_end b -> free_blocks b <= free_blocks b' -> Q tt b' []) ->
  wp ChunkBuffer2_ConsumePacket Q b.
Proof.
  intros Hrep HQ. pose proof Hrep as [Hc Hi Ho]. pose proof (core_bounds _ _ Hc) as Hbd. destruct Hbd.
  pose proof (core_head _ _ _ Hc) as (Hbl & Hi32 & Hu1 & Hu2). pose proof (core_consume _ _ _ Hc) as Hc'.
  pose proof (blocks_of_pos p). destruct Ho as [Ho1 Ho2].
  pose proof (consumed_end _ _ _ Hc) as [Hen Hfr].
  unfold ChunkBuffer2_ConsumePacket. mstep. mstep. rewrite Ho1.
  mstep; mstep; [done|]. mstep. eapply wp_assert_buffer; [done|].
  mstep. eapply wp_assert_io; [done|]. mstep; mstep; [b2p; lia|]. mstep; mstep; [b2p; lia|].
  mstep; mstep; [done|]. rewrite Hi32. mstep; mstep; [b2p; lia|]. mstep; mstep; [b2p; lia|].
  replace (1 + (blocks_of p - 1)) with (blocks_of p) by lia.
  do 4 mstep. do 3 mstep.
  apply (wp_mono _ (fun _ s t => s = consumed b p /\ t = [])).
  { unfold consumed, when. by destruct (_ =? _). }
  intros [] b' t [-> ->]. mstep. eapply wp_assert_buffer; [done|]. mstep.
  assert (Hin : (wrap b - start b <=? used b) = false -> input_ok (consumed b p)).
  { intros Hw. b2p. unfold consumed.
    assert (Hz : (start b + blocks_of p =? wrap b) = false).
    { b2p. destruct (rep_data _ _ Hc) as [|(l1 & l2 & _ & _ & _ & _ & _ & _ & _ & ? & _)]; lia. }
    sug. rewrite Hz. unfold input_ok, free_blocks, ChunkBuffer2_end in *. sug.
    destruct (wrap b - start b <=? used b) eqn:E1; b2p; [lia|].
    destruct (wrap b - (start b + blocks_of p) <=? used b - blocks_of p) eqn:E2; b2p; [lia|].
    replace (start b + blocks_of p + (used b - blocks_of p)) with (start b + used b) by lia. done. }
  assert (Hfin : forall b', cb_core b' l -> input_ok b' -> size b' = size b -> mtu b' = mtu b ->
    buffer b' = buffer b -> ChunkBuffer2_end b' = ChunkBuffer2_end b -> free_blocks b <= free_blocks b' ->
    wp (ChunkBuffer2_update_output ≫= fun _ => ChunkBuffer2_assert_io) Q b').
  { intros b' Hcb' Hib' Hs Hm Hb Hen1 Hfr1. mstep. eapply wp_update_output; [done|].
    assert (cb_rep (with_output b' l) l).
    { split; [by apply core_with_output|by apply input_with_output|apply output_with_output]. }
    eapply wp_assert_io; [done|]. apply HQ; [done|..]; by destruct l. }
  assert (size (consumed b p) = size b /\ mtu (consumed b p) = mtu b /\
          buffer (consumed b p) = buffer b) as (? & ? & ?).
  { unfold consumed. by destruct (_ =? _). }
  unfold when. destruct (wrap b - start b <=? used b) eqn:Hw.
  - eapply wp_update_input; [done|]. apply Hfin; [by apply core_with_input|apply input_with_input|..];
      (unfold with_input; destruct (_ <? _); first [exact Hen|exact Hfr|done]).
  - mstep. apply Hfin; auto.
Qed.

(** ** What the pointers give access to *)

Lemma rep_output_data b p l : cb_rep b (p :: l) ->
  output_dest b = Some (BLOCK * (start b + 1)) /\ output_avail b = zlen p /\
  mem_read (BLOCK * (start b + 1)) (zlen p) (buffer b) = Some p.
Proof.
  intros [Hc _ [-> ->]]. split_and!; try done.
  destruct (rep_data _ _ Hc) as [(_ & _ & _ & _ & (_ & H & _) & _)|(l1 & l2 & Heq & Hne & _ & H & _)]; [done|].
  destruct l1 as [|p' l1]; [done|]. injection Heq as -> ->. by destruct H as (_ & H & _).
Qed.

Lemma rep_input_bounds b l d : cb_rep b l -> input_dest b = Some d ->
  d = BLOCK * (ChunkBuffer2_end b + 1) /\ 0 <= d /\ 0 <= input_avail b /\
  d + input_avail b <= zlen (buffer b) /\
  input_avail b = BLOCK * (free_blocks b - 1) /\ 0 < free_blocks b.
Proof.
  intros [Hc Hi _] Hd. pose proof (core_bounds _ _ Hc) as []. pose proof (rep_mem _ _ Hc).
  unfold input_ok in Hi. destruct (0 <? free_blocks b) eqn:Hf; [|destruct Hi; congruence].
  b2p. destruct Hi as [Hd' ->]. assert (d = BLOCK * (ChunkBuffer2_end b + 1)) by congruence. subst.
  unfold BLOCK in *. split_and!; try done; lia.
Qed.

Lemma rep_input_avail b l : cb_rep b l -> 0 <= input_avail b ->
  input_dest b = Some (BLOCK * (ChunkBuffer2_end b + 1)).
Proof. intros [_ Hi _] ?. unfold input_ok in Hi. destruct (_ <? _), Hi; [done|lia]. Qed.

(** ** Capacity *)

(** A run of packets, each of at most [m] blocks of data, is short. *)
Lemma chunks_size mem a l z m :
  chunks mem a l z -> (forall p, p ∈ l -> blocks_of p <= 1 + m) -> z - a <= (1 + m) * zlen l.
Proof.
  revert a; induction l as [|p l IH]; intros a; cbn [chunks].
  - intros -> _. rewrite zlen_nil. lia.
  - intros (_ & _ & H) Hm. rewrite zlen_cons.
    pose proof (IH _ H ltac:(intros; apply Hm; by apply list_elem_of_further)).
    pose proof (Hm p ltac:(by apply list_elem_of_here)). lia.
Qed.

Lemma core_capacity b l num :
  cb_core b l -> (1 + mtu b) * (num + 1) <= size b -> 0 <= num ->
  (forall p, p ∈ l -> blocks_of p <= 1 + mtu b) -> zlen l < num ->
  1 + mtu b <= free_blocks b.
Proof.
  intros Hc Hsz Hn Hp Hl. pose proof (core_bounds _ _ Hc) as [].
  destruct Hc as [Hmem Hsz' Hm Hs Hdata]. unfold free_blocks, ChunkBuffer2_end in *.
  destruct Hdata as [(Hw & Hlt & Hu & Hfit & Hch & Hft)|
    (l1 & l2 & -> & Hne & Hwf & Hc1 & Hf1 & Hc2 & Hf2 & Hx & Hw)].
  - destruct (_ <=? _) eqn:E1; b2p; lia.
  - destruct (_ <=? _) eqn:E1; b2p; [|lia]. rewrite zlen_app in Hl.
    pose proof (chunks_size _ _ _ _ (mtu b) Hc1 ltac:(intros; apply Hp, elem_of_app; auto)).
    pose proof (chunks_size _ _ _ _ (mtu b) Hc2 ltac:(intros; apply Hp, elem_of_app; auto)).
    nia.
Qed.

Lemma calc_blocks_spec chunk_len num :
  0 <= chunk_len <= INT_MAX -> 0 < num <= INT_MAX ->
  let n := ChunkBuffer2_calc_blocks chunk_len num in
  n = -1 \/ n = (1 + bdivide_up chunk_len BLOCK) * (num + 1) /\ 0 < n <= INT_MAX.
Proof.
  intros Hc Hn. cbn. pose proof (bdivide_up_nonneg chunk_len BLOCK ltac:(done) ltac:(lia)).
  assert (bdivide_up chunk_len BLOCK <= INT_MAX)
    by (apply bdivide_up_le; [done|]; unfold BLOCK, INT_MAX in *; lia).
  unfold ChunkBuffer2_calc_blocks. rewrite i32_small by lia.
  destruct (INT_MAX - 1 <? bdivide_up _ _) eqn:E1; [auto|].
  destruct (INT_MAX - 1 <? num) eqn:E2; [auto|].
  destruct (INT_MAX / (num + 1) <? _) eqn:E3; [auto|]. b2p. right.
  split; [done|]. pose proof (Z.mul_div_le INT_MAX (num + 1) ltac:(lia)). nia.
Qed.
End laws.

(** * A buffer in use *)

Inductive event := In (p : bytes) | Out (p : bytes).
Inductive action := Submit (p : bytes) | Consume.

(** The producer writes at [input_dest] and submits; the consumer reads at
    [output_dest] and consumes. *)
Definition exec_action (a : action) : M ChunkBuffer2 event unit :=
  match a with
  | Submit p => write_input p;; ChunkBuffer2_SubmitPacket (zlen p);; emit (In p)
  | Consume =>
      b ← get;
      d ← must (output_dest b);
      p ← must (mem_read d (output_avail b) (buffer b));
      ChunkBuffer2_ConsumePacket;;
      emit (Out p)
  end.
Definition action_enabled (b : ChunkBuffer2) (a : action) : bool :=
  match a with
  | Submit p => is_Some_b (input_dest b) && (zlen p <=? input_avail b)
  | Consume => is_Some_b (output_dest b)
  end.
#[export] Instance cb_System : System ChunkBuffer2 action event := {
  enabled := action_enabled;
  exec := exec_action
}.

Definition ins (tr : list event) : list bytes := omap (fun e => match e with In p => Some p | _ => None end) tr.
Definition outs (tr : list event) : list bytes := omap (fun e => match e with Out p => Some p | _ => None end) tr.

(** The buffer holds what went in and did not come out. *)
Definition inv (sz m : Z) (tr : list event) (b : ChunkBuffer2) : Prop :=
  exists l, cb_rep b l /\ ins tr = outs tr ++ l /\ size b = sz /\ mtu b = m.

Lemma ins_snoc tr e : ins (tr ++ [e]) = ins tr ++ match e with In p => [p] | Out _ => [] end.
Proof. unfold ins. rewrite omap_app. by destruct e. Qed.
Lemma outs_snoc tr e : outs (tr ++ [e]) = outs tr ++ match e with Out p => [p] | In _ => [] end.
Proof. unfold outs. rewrite omap_app. by destruct e. Qed.

Lemma step_inv sz m tr b a : inv sz m tr b -> action_enabled b a = true ->
  wp (exec_action a) (fun _ b' t => inv sz m (tr ++ t) b') b.
Proof.
  intros (l & Hrep & Hio & Hs & Hm) Hen. destruct a as [p|]; cbn [exec_action action_enabled] in *.
  - b2p. destruct (input_dest b) as [d|] eqn:Hd; [|done]. mstep.
    eapply (wp_write_input b l p); [done..|]. intros mem Hrep' Hsl. mstep.
    eapply (wp_SubmitPacket (b <| buffer := mem |>) l p d); [done..|]. intros b' Hb' Hs' Hm' _. mgo.
    exists (l ++ [p]). rewrite ?app_nil_r. cbn [app]. rewrite ins_snoc, outs_snoc, Hio, app_nil_r, app_assoc. sua. split_and!; congruence.
  - destruct l as [|p l]; [by destruct Hrep as [_ _ [Ho _]]; rewrite Ho in Hen|].
    destruct (rep_output_data _ _ _ Hrep) as (Ho & Ha & Hr). mstep. mstep. mstep. mstep; [done|].
    mstep. rewrite Ha. mstep; [done|]. mstep.
    apply (wp_ConsumePacket b p l); [done|]. intros b' Hb' Hs' Hm' _ _ _. mgo.
    exists l. rewrite ?app_nil_r. cbn [app]. rewrite ins_snoc, outs_snoc, Hio, app_nil_r, <- app_assoc. split_and!; [done|done|congruence..].
Qed.

Definition blank : ChunkBuffer2 := mk_cb [] 0 0 0 0 0 None 0 None 0.

(** C6: a buffer of [ChunkBuffer2_calc_blocks chunk_len num] blocks, once
    initialised, never violates an [ASSERT] nor touches memory outside it; the
    packets come out unchanged and in the order they went in; and as long as
    it holds fewer than [num] packets of at most [chunk_len] bytes it offers
    room for [chunk_len] more bytes. *)
Theorem chunk_buffer_is_queue (buf : bytes) (chunk_len num : Z)
  (Hlen : 0 <= chunk_len <= INT_MAX) (Hnum : 0 < num <= INT_MAX)
  (Hblocks : 0 <= ChunkBuffer2_calc_blocks chunk_len num)
  (Hint : BLOCK * ChunkBuffer2_calc_blocks chunk_len num <= INT_MAX)
  (Hbuf : zlen buf = BLOCK * ChunkBuffer2_calc_blocks chunk_len num) :
  exists b0,
    ChunkBuffer2_Init (E:=event) buf (ChunkBuffer2_calc_blocks chunk_len num) chunk_len blank = Some (tt, b0, []) /\
    safe b0 /\
    forall tr b, reach b0 tr b -> exists l,
      ins tr = outs tr ++ l /\ cb_rep b l /\
      (output_dest b = None <-> l = []) /\
      (zlen l < num -> Forall (fun p => zlen p <= chunk_len) l ->
       input_dest b <> None /\ chunk_len <= input_avail b).
Proof.
  pose proof (calc_blocks_spec chunk_len num Hlen Hnum) as Hcs.
  set (n := ChunkBuffer2_calc_blocks chunk_len num) in *. cbn zeta in Hcs.
  destruct Hcs as [Hcs|[Hcs Hn]]; [lia|].
  pose proof (bdivide_up_nonneg chunk_len BLOCK ltac:(done) ltac:(lia)) as Hd.
  assert (Hinit : wp (ChunkBuffer2_Init (E:=event) buf n chunk_len)
    (fun _ b0 t => inv n (bdivide_up chunk_len BLOCK) [] b0 /\ t = []) blank).
  { apply cb_Init; [lia|nia|lia|done|]. intros b' Hb' Hs Hm. split; [|done]. by exists []. }
  destruct (wp_elim _ _ _ Hinit) as ([] & b0 & t & Hi & Hinv & ->).
  exists b0. split; [done|]. split.
  { eapply inv_safe; [|exact Hinv]. intros. by apply step_inv. }
  intros tr b Hr.
  destruct (reach_inv (sys:=cb_System) (inv n (bdivide_up chunk_len BLOCK)) (step_inv _ _) b0 tr b Hinv Hr) as (l & Hrep & Hio & Hs & Hm).
  exists l. split; [done|]. split; [done|]. split.
  { destruct Hrep as [_ _ Ho]. destruct l as [|p l]; destruct Ho as [Ho _]; rewrite Ho; [tauto|done]. }
  intros Hl Hp.
  assert (Hfree : 1 + mtu b <= free_blocks b).
  { eapply (core_capacity b l num); [apply Hrep|rewrite Hm, Hs; lia|lia| |done].
    intros p Hin. rewrite Forall_forall in Hp. specialize (Hp p Hin). unfold blocks_of. rewrite Hm.
    pose proof (bdivide_up_mono (zlen p) chunk_len BLOCK ltac:(done) Hp). lia. }
  destruct Hrep as [_ Hin _]. unfold input_ok in Hin.
  destruct (0 <? free_blocks b) eqn:Hf; b2p; [|lia]. destruct Hin as [-> ->].
  split; [done|]. pose proof (bdivide_up_spec chunk_len BLOCK ltac:(done)). unfold BLOCK in *. lia.
Qed.

Lemma chunk_buffer_is_queue_witness :
  ChunkBuffer2_calc_blocks 6 3 = 12 /\
  exists b0, ChunkBuffer2_Init (E:=event) (repeat 0 48) 12 6 blank = Some (tt, b0, []) /\ safe b0.
Proof.
  split; [reflexivity|].
  destruct (chunk_buffer_is_queue (repeat 0 48) 6 3) as (b0 & Hi & Hs & _).
  - unfold INT_MAX. lia.
  - unfold INT_MAX. lia.
  - vm_compute. discriminate.
  - vm_compute. discriminate.
  - reflexivity.
  - exists b0. split; [exact Hi|exact Hs].
Defined.
End CB.
