(* ===== verification/PacketBuffer.v ===== *)
(** Packet queues between a receive and a pass interface:
    [flow/PacketBuffer.c] over [ChunkBuffer2] and [flow/SinglePacketBuffer.c].

    A world holds the component and the two interface objects it uses; the
    environment runs the interface jobs in any order, fills the space it was
    given (in any number of partial writes) and reads the packets passed to
    it.  The events are the packets put in and the packets read out. *)

From S2P Require Import Prelude System Interfaces CArith ChunkBuffer2.

Inductive flow_event := Put (p : bytes) | Sent (p : bytes).

Definition puts (tr : list flow_event) : list bytes :=
  omap (fun e => match e with Put p => Some p | _ => None end) tr.
Definition sents (tr : list flow_event) : list bytes :=
  omap (fun e => match e with Sent p => Some p | _ => None end) tr.

Lemma puts_app t1 t2 : puts (t1 ++ t2) = puts t1 ++ puts t2.
Proof. apply omap_app. Qed.
Lemma sents_app t1 t2 : sents (t1 ++ t2) = sents t1 ++ sents t2.
Proof. apply omap_app. Qed.

Module PB.

Record PacketBuffer := mk_pb {
  input : PacketRecvInterface Z;
  input_mtu : Z;
  output : PacketPassInterface Z;
  buf : CB.ChunkBuffer2
}.
#[export] Instance eta_pbuf : Eta PacketBuffer := fun b =>
  mk_pb (input b) (input_mtu b) (output b) (buf b).

Local Abbreviation M := (M PacketBuffer flow_event).

Definition input_handler_done (in_len : Z) : M unit :=
  b ← get;
  assert (0 <=? in_len);;
  assert (in_len <=? input_mtu b);;
  let was_empty := CB.output_avail (buf b) <? 0 in
  zoom buf (CB.ChunkBuffer2_SubmitPacket in_len);;
  b ← get;
  when (input_mtu b <=? CB.input_avail (buf b)) (
    d ← must (CB.input_dest (buf b));
    zoom input (PacketRecvInterface_Receiver_Recv d));;
  when was_empty (
    d ← must (CB.output_dest (buf b));
    zoom output (PacketPassInterface_Sender_Send d (CB.output_avail (buf b)))).

Definition output_handler_done : M unit :=
  b ← get;
  let was_full := CB.input_avail (buf b) <? input_mtu b in
  zoom buf CB.ChunkBuffer2_ConsumePacket;;
  b ← get;
  when (was_full && (input_mtu b <=? CB.input_avail (buf b))) (
    d ← must (CB.input_dest (buf b));
    zoom input (PacketRecvInterface_Receiver_Recv d));;
  when (0 <=? CB.output_avail (buf b)) (
    d ← must (CB.output_dest (buf b));
    zoom output (PacketPassInterface_Sender_Send d (CB.output_avail (buf b)))).

(** [alloc] is [BAllocArray]: memory for that many blocks, or NULL. *)
Definition PacketBuffer_Init (alloc : Z -> option bytes) (num_packets : Z) : M bool :=
  b ← get;
  assert (pr_mtu (input b) <=? pp_mtu (output b));;
  assert (0 <? num_packets);;
  zoom input PacketRecvInterface_Receiver_Init;;
  mtu ← zoom input PacketRecvInterface_GetMTU;
  input_mtu ::= mtu;;
  zoom output PacketPassInterface_Sender_Init;;
  let num_blocks := CB.ChunkBuffer2_calc_blocks mtu num_packets in
  if num_blocks <? 0 then mret false else
  match alloc num_blocks with
  | None => mret false
  | Some data =>
      zoom buf (CB.ChunkBuffer2_Init data num_blocks mtu);;
      b ← get;
      d ← must (CB.input_dest (buf b));
      zoom input (PacketRecvInterface_Receiver_Recv d);;
      mret true
  end.

(** ** The environment *)

Inductive action :=
  | InputStarts                (* the operation job of [input] runs *)
  | InputWrites (data : bytes) (* the sender writes to the space it was given *)
  | InputFinishes (n : Z)      (* the sender calls PacketRecvInterface_Done *)
  | InputDone                  (* the done job of [input] runs *)
  | OutputStarts
  | OutputFinishes             (* the receiver has read the packet *)
  | OutputDone.

Definition exec_action (a : action) : M unit :=
  match a with
  | InputStarts => _ ← zoom input PacketRecvInterface_job_operation; mret tt
  | InputWrites data => zoom buf (CB.write_input data)
  | InputFinishes n =>
      b ← get;
      d ← must (pr_job_operation_data (input b));
      p ← must (mem_read d n (CB.buffer (buf b)));
      emit (Put p);;
      zoom input (PacketRecvInterface_Done n)
  | InputDone =>
      n ← zoom input PacketRecvInterface_job_done;
      input_handler_done n
  | OutputStarts => _ ← zoom output PacketPassInterface_job_operation; mret tt
  | OutputFinishes =>
      b ← get;
      d ← must (pp_job_operation_data (output b));
      p ← must (mem_read d (pp_job_operation_len (output b)) (CB.buffer (buf b)));
      emit (Sent p);;
      zoom output PacketPassInterface_Done
  | OutputDone => zoom output PacketPassInterface_job_done;; output_handler_done
  end.

Definition action_enabled (b : PacketBuffer) (a : action) : bool :=
  match a with
  | InputStarts => st_eq (pr_state (input b)) OPERATION_PENDING
  | InputWrites data => st_eq (pr_state (input b)) BUSY && (zlen data <=? input_mtu b)
  | InputFinishes n => st_eq (pr_state (input b)) BUSY && (0 <=? n) && (n <=? input_mtu b)
  | InputDone => st_eq (pr_state (input b)) DONE_PENDING
  | OutputStarts => st_eq (pp_state (output b)) OPERATION_PENDING
  | OutputFinishes => st_eq (pp_state (output b)) BUSY
  | OutputDone => st_eq (pp_state (output b)) DONE_PENDING
  end.
#[export] Instance pb_system : System PacketBuffer action flow_event :=
  {| enabled := action_enabled; exec := exec_action |}.

(** ** The invariant: the queue is what was put in and not yet read out *)

(** The packets held: [l] in the ring; the last put one is not yet in it
    between its completion and the done job, and the first one is already read
    during the completion of its sending. *)
Definition in_part (iph : phase Z) (b : PacketBuffer) : list bytes :=
  match iph with
  | Done d n k => [slice d k (CB.buffer (buf b))]
  | _ => []
  end.
Definition out_part (oph : phase Z) (l : list bytes) : list bytes :=
  match oph with
  | Done _ _ _ => tail l
  | _ => l
  end.

(** [view num omtu l iph oph b]: the ring holds [l], the interfaces are in the
    phases [iph] and [oph]; receiving stops only for want of space, and there is
    always a packet being sent while there is one. *)
Record view (num omtu : Z) (l : list bytes) (iph oph : phase Z) (b : PacketBuffer) : Prop := {
  v_mtu : 0 <= input_mtu b <= omtu /\ input_mtu b <= INT_MAX;
  v_num : 0 < num;
  v_blocks : CB.mtu (buf b) = bdivide_up (input_mtu b) CB.BLOCK /\
             (1 + CB.mtu (buf b)) * (num + 1) <= CB.size (buf b);
  v_rep : CB.cb_rep (buf b) l;
  v_short : Forall (fun p => zlen p <= input_mtu b) l;
  v_input : pr_is (input_mtu b) iph (input b);
  v_output : pp_is omtu oph (output b);
  v_iph : match iph with
          | Idle => CB.input_avail (buf b) < input_mtu b
          | Op d _ | Busy d _ | Done d _ _ =>
              CB.input_dest (buf b) = Some d /\ input_mtu b <= CB.input_avail (buf b)
          end;
  v_oph : match oph with
          | Idle => l = []
          | Op d n | Busy d n | Done d n _ =>
              exists p l', l = p :: l' /\ CB.output_dest (buf b) = Some d /\ n = zlen p
          end
}.

Definition inv (num omtu : Z) (tr : list flow_event) (b : PacketBuffer) : Prop :=
  exists l iph oph, view num omtu l iph oph b /\
    puts tr = sents tr ++ out_part oph l ++ in_part iph b.

Lemma in_part_buffer iph b b' :
  CB.buffer (buf b') = CB.buffer (buf b) -> in_part iph b' = in_part iph b.
Proof. intros H. destruct iph; [done..|]. cbn. by rewrite H. Qed.

(** The receive the two handlers schedule. *)
Lemma wp_schedule_recv (c : bool) (b : PacketBuffer) l mtu
    (Q : unit -> PacketBuffer -> list flow_event -> Prop) :
  CB.cb_rep (buf b) l -> pr_is mtu Idle (input b) -> 0 <= input_mtu b ->
  (c = true -> input_mtu b <= CB.input_avail (buf b)) ->
  (forall i ph, pr_is mtu ph i ->
     (ph = Idle /\ c = false \/ exists d n, ph = Op d n /\ CB.input_dest (buf b) = Some d /\ c = true) ->
     Q tt (b <| input := i |>) []) ->
  wp (when c (d ← must (CB.input_dest (buf b)); zoom input (PacketRecvInterface_Receiver_Recv d))) Q b.
Proof.
  intros Hrep His Hm Hc HQ. destruct c; cbn [when].
  - mstep. mstep. { eapply CB.rep_input_avail; [done|]. specialize (Hc eq_refl). lia. }
    mstep. eapply wp_pr_recv; [done|]. intros i' Hi'. apply (HQ _ _ Hi'). right. eauto 10 using CB.rep_input_avail.
    do 2 eexists. split_and!; try done. eapply CB.rep_input_avail; [done|]. specialize (Hc eq_refl). lia.
  - mstep. destruct b. apply (HQ _ _ His). auto.
Qed.

(** The same packet heads the queue after the end of the queue changed. *)
Lemma output_dest_start (b b' : CB.ChunkBuffer2) p l l' :
  CB.cb_rep b (p :: l) -> CB.cb_rep b' (p :: l') -> CB.start b' = CB.start b ->
  CB.output_dest b' = CB.output_dest b.
Proof. intros [_ _ [-> _]] [_ _ [-> _]] ->. done. Qed.

Lemma output_avail_neg (b : CB.ChunkBuffer2) l : CB.cb_rep b l ->
  (CB.output_avail b <? 0) = match l with [] => true | _ => false end.
Proof.
  intros [_ _ Ho]. destruct l; destruct Ho as [_ ->]; b2p; [done|]. apply zlen_nonneg.
Qed.

Lemma wp_input_handler num omtu l d oph b k (Q : unit -> PacketBuffer -> list flow_event -> Prop) :
  view num omtu l (Done d (input_mtu b) k) oph b -> forall i0,
  pr_is (input_mtu b) Idle i0 ->
  (forall b' iph' oph', view num omtu (l ++ [slice d k (CB.buffer (buf b))]) iph' oph' b' ->
     in_part iph' b' = [] ->
     ((oph = Idle /\ exists d' n', oph' = Op d' n') \/ (oph <> Idle /\ oph' = oph)) -> Q tt b' []) ->
  wp (input_handler_done k) Q (b <| input := i0 |>).
Proof.
  intros V i0 Hi0 HQ. destruct V as [Hmtu Hnum [Hbm Hbs] Hrep Hshort Hin Hout [Hd Hav] Ho].
  destruct (pr_is_done_len _ _ _ _ _ Hin) as [_ Hk].
  destruct (CB.rep_input_bounds _ _ _ Hrep Hd) as (Hde & Hd0 & Hav0 & Hmem & _ & _).
  set (p := slice d k (CB.buffer (buf b))) in *.
  assert (Hp : zlen p = k) by (apply zlen_slice; lia).
  assert (Hshort' : Forall (fun p => zlen p <= input_mtu b) (l ++ [p])).
  { apply Forall_app. split; [done|]. constructor; [lia|done]. }
  assert (Hneg := output_avail_neg _ _ Hrep).
  unfold input_handler_done. mstep. mstep. sug. rewrite Hneg, <- Hp.
  mstep; mstep; [b2p; lia|]. mstep; mstep; [b2p; lia|]. mstep; mstep.
  eapply CB.wp_SubmitPacket; [exact Hrep|exact Hd|cbn; lia|cbn; by rewrite Hp|].
  intros cb Hrep' Hsz Hm Hst. cbn in Hsz, Hm, Hst. mstep; mstep. mstep.
  eapply wp_schedule_recv; [exact Hrep'|exact Hi0|sug; lia|intros; b2p; done|].
  intros i ph Hi Hph. sug.
  set (c := input_mtu b <=? CB.input_avail cb) in *.
  assert (Hiph : match ph with
    | Idle => CB.input_avail cb < input_mtu b
    | Op d _ | Busy d _ | Done d _ _ => CB.input_dest cb = Some d /\ input_mtu b <= CB.input_avail cb
    end /\ match ph with Op _ _ | Idle => True | _ => False end).
  { destruct Hph as [[-> Hc]|(d' & n & -> & Hd' & Hc)]; unfold c in Hc; b2p; done. }
  destruct Hiph as [Hiph Hsome].
  assert (Hin_part : forall b', in_part ph b' = []) by by destruct ph.
  destruct l as [|q l]; cbn [when].
  - assert (oph = Idle) as ->.
    { by destruct oph; [|destruct Ho as (? & ? & ? & _)..]. }
    destruct (CB.rep_output_data _ _ _ Hrep') as (Hod & Hoa & _). sug.
    mstep; mstep; [exact Hod|]. mstep. sug. rewrite Hoa.
    eapply wp_pp_send; [exact Hout|lia|]. intros o Ho'. sug.
    eapply (HQ _ ph); [|done|left; eauto].
    split; sug; try done; [split; congruence|]. exists p, []. done.
  - mstep. eapply (HQ _ ph oph); [|done|right; split; [by intros ->|done]].
    split; sug; try done. split; congruence.
    destruct oph; [done|..]; destruct Ho as (q' & l' & [= <- <-] & Hq & Hn);
      exists q, (l ++ [p]); (split_and!; [done| |done]);
      rewrite (output_dest_start (buf b) cb q l (l ++ [p])); done.
Qed.

(** Room for the next packet of the input. *)
Definition room (mtu : Z) (iph : phase Z) (cb : CB.ChunkBuffer2) : Prop :=
  match iph with
  | Idle => CB.input_avail cb < mtu
  | Op d _ | Busy d _ | Done d _ _ => CB.input_dest cb = Some d /\ mtu <= CB.input_avail cb
  end.

(** Consuming a packet makes no less room, at the same place. *)
Lemma consume_room cb cb' l l' d :
  CB.cb_rep cb l -> CB.cb_rep cb' l' -> CB.size cb' = CB.size cb ->
  CB.ChunkBuffer2_end cb' = CB.ChunkBuffer2_end cb -> CB.free_blocks cb <= CB.free_blocks cb' ->
  CB.input_dest cb = Some d -> CB.input_dest cb' = Some d /\ CB.input_avail cb <= CB.input_avail cb'.
Proof.
  intros Hrep Hrep' Hsz Hend Hfree Hd.
  destruct (CB.rep_input_bounds _ _ _ Hrep Hd) as (-> & ? & ? & ? & Ha & ?).
  assert (Hcd : CB.input_dest cb' = Some (CB.BLOCK * (CB.ChunkBuffer2_end cb' + 1))).
  { destruct Hrep' as [_ Hcb _]. unfold CB.input_ok in Hcb.
    destruct (0 <? CB.free_blocks cb') eqn:Hf; b2p; [by destruct Hcb|lia]. }
  destruct (CB.rep_input_bounds _ _ _ Hrep' Hcd) as (_ & _ & _ & _ & Ha' & _).
  rewrite Hcd, Hend, Ha, Ha'. split; [done|]. unfold CB.BLOCK. lia.
Qed.

(** The next packet, if there is one, is passed on. *)
Lemma wp_send_next num omtu l iph b (Q : unit -> PacketBuffer -> list flow_event -> Prop) :
  0 <= input_mtu b <= omtu /\ input_mtu b <= INT_MAX -> 0 < num ->
  CB.mtu (buf b) = bdivide_up (input_mtu b) CB.BLOCK /\ (1 + CB.mtu (buf b)) * (num + 1) <= CB.size (buf b) ->
  CB.cb_rep (buf b) l -> Forall (fun p => zlen p <= input_mtu b) l ->
  pr_is (input_mtu b) iph (input b) -> pp_is omtu Idle (output b) -> room (input_mtu b) iph (buf b) ->
  (forall b' oph', view num omtu l iph oph' b' -> in_part iph b' = in_part iph b ->
     oph' = Idle \/ (exists d' n', oph' = Op d' n') -> Q tt b' []) ->
  wp (when (0 <=? CB.output_avail (buf b)) (d ← must (CB.output_dest (buf b));
        zoom output (PacketPassInterface_Sender_Send d (CB.output_avail (buf b))))) Q b.
Proof.
  destruct b as [i0 m0 o0 cb]. intros Hmtu Hnum Hblocks Hrep Hshort Hi Ho Hroom HQ. cbn in *.
  assert (Hoa := CB.rep_output _ _ Hrep). destruct l as [|q l]; destruct Hoa as [Hod Hoa]; rewrite Hoa.
  - change (0 <=? -1) with false. cbn [when]. mstep. apply (HQ _ Idle); [|done|auto]. split; cbn; done.
  - assert (Hz : (0 <=? zlen q) = true) by (b2p; apply zlen_nonneg). rewrite Hz. cbn [when].
    apply Forall_cons in Hshort as [Hq Hshort]. pose proof (zlen_nonneg q).
    mstep; mstep; [exact Hod|]. mstep. sug. eapply wp_pp_send; [exact Ho|lia|].
    intros o' Ho'. sug. eapply HQ; [|done|eauto].
    split; cbn; try done; [by constructor|]. by exists q, l.
Qed.

Lemma wp_output_handler num omtu p l iph d n k b (Q : unit -> PacketBuffer -> list flow_event -> Prop) :
  view num omtu (p :: l) iph (Done d n k) b -> forall o0, pp_is omtu Idle o0 ->
  (forall b' iph' oph', view num omtu l iph' oph' b' -> in_part iph' b' = in_part iph b ->
     oph' = Idle \/ (exists d' n', oph' = Op d' n') -> Q tt b' []) ->
  wp output_handler_done Q (b <| output := o0 |>).
Proof.
  intros V o0 Ho0 HQ. destruct V as [Hmtu Hnum [Hbm Hbs] Hrep Hshort Hin Hout Hi Ho].
  apply Forall_cons in Hshort as [Hp Hshort].
  unfold output_handler_done. mstep. mstep. mstep; mstep.
  eapply CB.wp_ConsumePacket; [exact Hrep|]. intros cb Hrep' Hsz Hm Hbuf Hend Hfree.
  unfold upd in Hsz, Hm, Hbuf, Hend, Hfree. cbn in Hsz, Hm, Hbuf, Hend, Hfree. mstep; mstep. mstep.
  assert (Hnext : forall i iph', pr_is (input_mtu b) iph' i -> room (input_mtu b) iph' cb ->
    (forall b0, CB.buffer (buf b0) = CB.buffer (buf b) -> in_part iph' b0 = in_part iph b) ->
    let b0 := mk_pb i (input_mtu b) o0 cb in
    wp (when (0 <=? CB.output_avail cb) (d ← must (CB.output_dest cb);
          zoom output (PacketPassInterface_Sender_Send d (CB.output_avail cb)))) Q b0).
  { intros i iph' Hi' Hroom Hpart b0. apply (wp_send_next num omtu l iph' b0); cbn; try done; [by rewrite Hm, Hsz|].
    intros b' oph' V' Hpart'. apply (HQ b' iph' oph'); [done|]. rewrite Hpart'. by apply Hpart. }
  assert (Hkeep : forall dd, CB.input_dest (buf b) = Some dd /\ input_mtu b <= CB.input_avail (buf b) ->
    (CB.input_avail (buf b) <? input_mtu b) = false /\ CB.input_dest cb = Some dd /\ input_mtu b <= CB.input_avail cb).
  { intros dd [Hd Ha]. destruct (consume_room _ cb _ l dd Hrep Hrep' Hsz Hend Hfree Hd). split; [b2p; lia|]. split; [done|lia]. }
  destruct iph as [|d0 n0|d0 n0|d0 n0 k0];
    [|destruct (Hkeep _ Hi) as [Hw Hroom]; sug; rewrite Hw; cbn [andb when]; mstep..].
  - assert (Hw : (CB.input_avail (buf b) <? input_mtu b) = true) by by b2p.
    sug. rewrite Hw. cbn [andb].
    change (wp (when (input_mtu b <=? CB.input_avail (buf (mk_pb (input b) (input_mtu b) o0 cb)))
      (d ← must (CB.input_dest (buf (mk_pb (input b) (input_mtu b) o0 cb)));
       zoom input (PacketRecvInterface_Receiver_Recv d)))
      (fun _ s t => wp (when (0 <=? CB.output_avail cb) (d ← must (CB.output_dest cb);
          zoom output (PacketPassInterface_Sender_Send d (CB.output_avail cb))))
          (fun u s2 t2 => Q u s2 (t ++ t2)) s) (mk_pb (input b) (input_mtu b) o0 cb)).
    eapply wp_schedule_recv; [exact Hrep'|exact Hin|cbn; lia|intros; b2p; done|].
    intros i ph His Hph. apply (Hnext i ph); [done| |].
    + destruct Hph as [[-> ?]|(? & ? & -> & ? & ?)]; cbn in *; b2p; auto.
    + by destruct Hph as [[-> _]|(? & ? & -> & _)].
  - by apply (Hnext _ (Op d0 n0)).
  - by apply (Hnext _ (Busy d0 n0)).
  - apply (Hnext _ (Done d0 n0 k0)); [done|done|]. intros b0 Hb0. cbn. by rewrite Hb0.
Qed.

(** ** Preservation *)

(** The space handed to the sender, read back when it finishes. *)
Lemma input_space num omtu l oph b d n k :
  view num omtu l (Busy d n) oph b -> 0 <= k <= input_mtu b ->
  mem_read d k (CB.buffer (buf b)) = Some (slice d k (CB.buffer (buf b))).
Proof.
  intros [_ _ _ Hrep _ _ _ [Hd Hav] _] Hk.
  destruct (CB.rep_input_bounds _ _ _ Hrep Hd) as (_ & ? & ? & ? & _). apply mem_read_Some; lia.
Qed.

Lemma pb_step num omtu tr b a :
  inv num omtu tr b -> action_enabled b a = true ->
  wp (exec_action a) (fun _ b' t => inv num omtu (tr ++ t) b') b.
Proof.
  intros (l & iph & oph & V & Htr) Ha. pose proof V as [Hmtu Hnum Hbl Hrep Hshort Hin Hout Hi Ho].
  destruct a as [|data|k| | | |]; cbn in Ha; b2p; unfold exec_action.
  - phase_case Hin Ha iph. mstep; mstep. eapply wp_pr_job_op; [exact Hin|]. intros i' Hi'. mstep.
    exists l, (Busy d n), oph. rewrite app_nil_r. split; [|done]. by split.
  - phase_case Hin H iph. mstep. destruct Hi as [Hd Hav]. eapply CB.wp_write_input; [done|done|lia|].
    intros mem Hrep' _. exists l, (Busy d n), oph. rewrite app_nil_r. split; [|done]. by split.
  - phase_case Hin H iph. destruct (pr_is_data _ _ _ _ Hin) as [Hd _].
    mstep; mstep. mstep; mstep; [exact Hd|].
    mstep; mstep; [by eapply input_space|]. mstep; mstep. mstep. eapply wp_pr_done; [exact Hin|done|].
    intros i' Hi'. exists l, (Done d n k), oph. split; [by split|].
    rewrite puts_app, sents_app, Htr. cbn. by rewrite !app_nil_r, <- app_assoc.
  - phase_case Hin Ha iph. mstep; mstep. eapply wp_pr_job_done; [exact Hin|]. intros Hk i' Hi'.
    destruct (pr_is_done_len _ _ _ _ _ Hin) as [-> _].
    eapply (wp_input_handler num omtu l d oph b k); [exact V|exact Hi'|].
    intros b' iph' oph' V' Hpart Hoph. exists (l ++ [slice d k (CB.buffer (buf b))]), iph', oph'.
    rewrite app_nil_r. split; [exact V'|]. rewrite Htr, Hpart, app_nil_r. f_equal. cbn.
    destruct Hoph as [[-> (d' & n' & ->)]|[Hne ->]]; [done|].
    destruct oph; [done..|]. destruct Ho as (p & l' & -> & _). done.
  - phase_case Hout Ha oph. mstep; mstep. eapply wp_pp_job_op; [exact Hout|]. intros o' Ho'. mstep.
    exists l, iph, (Busy d n). rewrite app_nil_r. split; [by split|].
    by rewrite Htr, (in_part_buffer iph b (b <| output := o' |>)).
  - phase_case Hout Ha oph. destruct (pp_is_data _ _ _ _ Hout) as (Hd & Hn & _).
    destruct Ho as (p & l' & -> & Hod & ->). destruct (CB.rep_output_data _ _ _ Hrep) as (Hod' & _ & Hm).
    assert (d = CB.BLOCK * (CB.start (buf b) + 1)) as -> by congruence.
    mstep; mstep. mstep; mstep; [exact Hd|]. rewrite Hn. mstep; mstep; [exact Hm|].
    mstep; mstep. mstep. eapply wp_pp_done; [exact Hout|]. intros o' Ho'.
    exists (p :: l'), iph, (Done (CB.BLOCK * (CB.start (buf b) + 1)) (zlen p) 0).
    split; [split; try done; by exists p, l'|].
    rewrite puts_app, sents_app, Htr, (in_part_buffer iph b (b <| output := o' |>)) by done.
    cbn. by rewrite app_nil_r, <- app_assoc.
  - phase_case Hout Ha oph. destruct Ho as (p & l' & -> & Hod & ->).
    mstep; mstep. eapply wp_pp_job_done; [exact Hout|]. intros o' Ho'.
    eapply wp_output_handler; [exact V|exact Ho'|]. intros b' iph' oph' V' Hpart Hoph.
    exists l', iph', oph'. rewrite app_nil_r. split; [done|]. rewrite Htr, Hpart. f_equal. cbn.
    by destruct Hoph as [->|(? & ? & ->)].
Qed.

(** ** Initialisation *)

Definition fresh (imtu omtu : Z) : PacketBuffer :=
  mk_pb (PacketRecvInterface_Init imtu) 0 (PacketPassInterface_Init omtu)
    (CB.mk_cb [] 0 0 0 0 0 None 0 None 0).

(** [BAllocArray] gives memory of the size asked for. *)
Definition alloc_ok (alloc : Z -> option bytes) : Prop :=
  forall n l, 0 <= n -> alloc n = Some l -> zlen l = CB.BLOCK * n.

Lemma wp_PacketBuffer_Init alloc num imtu omtu :
  alloc_ok alloc -> 0 <= imtu <= omtu -> imtu <= INT_MAX -> 0 < num <= INT_MAX ->
  CB.BLOCK * ((1 + bdivide_up imtu CB.BLOCK) * (num + 1)) <= INT_MAX ->
  wp (PacketBuffer_Init alloc num)
    (fun r b t => t = [] /\ (r = true -> inv num omtu [] b)) (fresh imtu omtu).
Proof.
  intros Halloc Hm Hmi Hn Hsz. unfold PacketBuffer_Init, fresh.
  mstep; mstep. mstep; mstep; [b2p; cbn; lia|]. mstep; mstep; [b2p; cbn; lia|].
  mstep; mstep. sug. apply wp_pr_connect. intros i Hi. mstep; mstep; unfold PacketRecvInterface_GetMTU; mstep. mstep; mstep.
  mstep; mstep. sug. apply wp_pp_connect. intros o Ho. sug. pose proof Hi as [Him _]. rewrite Him.
  destruct (CB.calc_blocks_spec imtu num ltac:(lia) Hn) as [->|[Hbl Hbl']].
  { change (-1 <? 0) with true. apply wp_ret. by split. }
  assert (Hz : (CB.ChunkBuffer2_calc_blocks imtu num <? 0) = false) by (b2p; lia). rewrite Hz.
  destruct (alloc _) as [data|] eqn:Hal; [|by mstep]. rewrite Hbl in *. apply Halloc in Hal; [|lia].
  pose proof (bdivide_up_nonneg imtu CB.BLOCK ltac:(done) ltac:(lia)).
  mstep; mstep. apply CB.cb_Init; [lia|nia|exact Hsz|done|].
  intros cb Hrep Hs Hmt. mstep; mstep. sug.
  pose proof (CB.core_capacity cb [] num (CB.rep_core _ _ Hrep)) as Hcap.
  rewrite Hmt, Hs in Hcap. specialize (Hcap ltac:(lia) ltac:(lia) ltac:(by intros ? ?%elem_of_nil) ltac:(rewrite zlen_nil; lia)).
  pose proof (bdivide_up_spec imtu CB.BLOCK ltac:(done)).
  assert (Hav : 0 <= CB.input_avail cb /\ imtu <= CB.input_avail cb).
  { destruct Hrep as [_ Hin _]. unfold CB.input_ok in Hin.
    destruct (0 <? CB.free_blocks cb) eqn:Hf; b2p; [|lia]. destruct Hin as [_ ->]. unfold CB.BLOCK in *. lia. }
  pose proof (CB.rep_input_avail _ _ Hrep ltac:(lia)) as Hd.
  mstep; mstep; [exact Hd|]. mstep; mstep. sug. eapply wp_pr_recv; [exact Hi|]. intros i' Hi'.
  split; [done|]. intros _. exists [], (Op (CB.BLOCK * (CB.ChunkBuffer2_end cb + 1)) imtu), Idle.
  split; [|done]. split; sug; try done; try lia. split; [exact Hd|lia].
Qed.

Lemma pb_reach num omtu b0 tr b : inv num omtu [] b0 -> reach b0 tr b -> inv num omtu tr b.
Proof. apply reach_inv. intros. by apply pb_step. Qed.

(** ** Correctness *)


Definition alloc_example (n : Z) : option bytes := Some (repeat 0 (Z.to_nat (CB.BLOCK * n))).

Lemma pb_alloc_ok : alloc_ok alloc_example.
Proof. intros n l Hn [= <-]. unfold zlen. rewrite repeat_length. unfold CB.BLOCK. lia. Qed.

Definition world_example : PacketBuffer :=
  match PacketBuffer_Init alloc_example 2 (fresh 6 10) with
  | Some (_, b, _) => b
  | None => fresh 6 10
  end.

End PB.

(** * The one-packet buffer *)

Module SPB.

(** [buf] is the memory; pointers are offsets into it. *)
Record SinglePacketBuffer := mk_spb {
  input : PacketRecvInterface Z;
  output : PacketPassInterface Z;
  buf : bytes
}.
#[export] Instance eta_spb : Eta SinglePacketBuffer := fun b => mk_spb (input b) (output b) (buf b).

Local Abbreviation M := (M SinglePacketBuffer flow_event).

Definition input_handler_done (in_len : Z) : M unit :=
  zoom output (PacketPassInterface_Sender_Send 0 in_len).
Definition output_handler_done : M unit :=
  zoom input (PacketRecvInterface_Receiver_Recv 0).

(** [alloc] is [BAlloc]: memory of that size, or NULL. *)
Definition SinglePacketBuffer_Init (alloc : Z -> option bytes) : M bool :=
  b ← get;
  assert (pr_mtu (input b) <=? pp_mtu (output b));;
  zoom input PacketRecvInterface_Receiver_Init;;
  zoom output PacketPassInterface_Sender_Init;;
  mtu ← zoom input PacketRecvInterface_GetMTU;
  match alloc mtu with
  | None => mret false
  | Some data =>
      buf ::= data;;
      zoom input (PacketRecvInterface_Receiver_Recv 0);;
      mret true
  end.

(** ** The environment *)

Inductive action :=
  | InputStarts
  | InputWrites (off : Z) (data : bytes) (* the sender writes to the space it was given *)
  | InputFinishes (n : Z)
  | InputDone
  | OutputStarts
  | OutputFinishes
  | OutputDone.

Definition exec_action (a : action) : M unit :=
  match a with
  | InputStarts => _ ← zoom input PacketRecvInterface_job_operation; mret tt
  | InputWrites off data =>
      b ← get;
      d ← must (pr_job_operation_data (input b));
      l ← must (mem_write (d + off) data (buf b));
      buf ::= l
  | InputFinishes n =>
      b ← get;
      d ← must (pr_job_operation_data (input b));
      p ← must (mem_read d n (buf b));
      emit (Put p);;
      zoom input (PacketRecvInterface_Done n)
  | InputDone =>
      n ← zoom input PacketRecvInterface_job_done;
      input_handler_done n
  | OutputStarts => _ ← zoom output PacketPassInterface_job_operation; mret tt
  | OutputFinishes =>
      b ← get;
      d ← must (pp_job_operation_data (output b));
      p ← must (mem_read d (pp_job_operation_len (output b)) (buf b));
      emit (Sent p);;
      zoom output PacketPassInterface_Done
  | OutputDone => zoom output PacketPassInterface_job_done;; output_handler_done
  end.

Definition action_enabled (b : SinglePacketBuffer) (a : action) : bool :=
  match a with
  | InputStarts => st_eq (pr_state (input b)) OPERATION_PENDING
  | InputWrites off data => st_eq (pr_state (input b)) BUSY && in_bounds off (zlen data) (pr_mtu (input b))
  | InputFinishes n => st_eq (pr_state (input b)) BUSY && (0 <=? n) && (n <=? pr_mtu (input b))
  | InputDone => st_eq (pr_state (input b)) DONE_PENDING
  | OutputStarts => st_eq (pp_state (output b)) OPERATION_PENDING
  | OutputFinishes => st_eq (pp_state (output b)) BUSY
  | OutputDone => st_eq (pp_state (output b)) DONE_PENDING
  end.
#[export] Instance spb_system : System SinglePacketBuffer action flow_event :=
  {| enabled := action_enabled; exec := exec_action |}.

(** ** The invariant: one of the two sides is active *)

Inductive turn (imtu omtu : Z) (tr : list flow_event) (b : SinglePacketBuffer) : Prop :=
| turn_input ph :
    pr_is imtu ph (input b) -> pp_is omtu Idle (output b) ->
    match ph with
    | Idle => False
    | Op d n | Busy d n => d = 0 /\ puts tr = sents tr
    | Done d n k => d = 0 /\ puts tr = sents tr ++ [slice 0 k (buf b)]
    end -> turn imtu omtu tr b
| turn_output ph :
    pr_is imtu Idle (input b) -> pp_is omtu ph (output b) ->
    match ph with
    | Idle => False
    | Op d n | Busy d n => d = 0 /\ n <= imtu /\ puts tr = sents tr ++ [slice 0 n (buf b)]
    | Done d n k => d = 0 /\ puts tr = sents tr
    end -> turn imtu omtu tr b.

Definition inv (imtu omtu : Z) (tr : list flow_event) (b : SinglePacketBuffer) : Prop :=
  0 <= imtu <= omtu /\ zlen (buf b) = imtu /\ turn imtu omtu tr b.

Lemma spb_step imtu omtu tr b a :
  inv imtu omtu tr b -> action_enabled b a = true ->
  wp (exec_action a) (fun _ b' t => inv imtu omtu (tr ++ t) b') b.
Proof.
  intros (Hm & Hz & Ht) Ha. destruct a as [|off data|n| | | |]; cbn in Ha |- *.
  - destruct Ht as [ph Hi Ho Hp|ph Hi Ho Hp]; [|by rewrite (proj1 (proj2 (proj2 Hi))) in Ha].
    phase_case Hi Ha ph. mstep; mstep. eapply wp_pr_job_op; [exact Hi|]. intros i' Hi'. mstep. rewrite app_nil_r.
    split; [done|]. split; [done|]. by apply (turn_input _ _ _ _ (Busy d n)).
  - apply andb_true_iff in Ha as [Ha Hb].
    destruct Ht as [ph Hi Ho Hp|ph Hi Ho Hp]; [|by rewrite (proj1 (proj2 (proj2 Hi))) in Ha].
    phase_case Hi Ha ph. destruct (pr_is_data _ _ _ _ Hi) as [Hd _], Hp as [-> Hp].
    unfold in_bounds in Hb. rewrite (proj1 Hi) in Hb. b2p. 
    mstep; mstep. mstep; mstep; [exact Hd|]. mstep; mstep; [apply mem_write_Some; lia|]. mstep. rewrite app_nil_r.
    split; [done|]. split; [sug; rewrite zlen_splice; lia|]. by apply (turn_input _ _ _ _ (Busy 0 n)).
  - apply andb_true_iff in Ha as [[Ha Hb]%andb_true_iff Hc].
    destruct Ht as [ph Hi Ho Hp|ph Hi Ho Hp]; [|by rewrite (proj1 (proj2 (proj2 Hi))) in Ha].
    rewrite (proj1 Hi) in Hc. b2p.
    phase_case Hi Ha ph. destruct (pr_is_data _ _ _ _ Hi) as [Hd _], Hp as [-> Hp].
    mstep; mstep. mstep; mstep; [exact Hd|]. mstep; mstep; [apply mem_read_Some; lia|]. mstep; mstep.
    mstep. eapply wp_pr_done; [exact Hi|lia|]. intros i' Hi'.
    split; [done|]. split; [done|]. apply (turn_input _ _ _ _ (Done 0 n0 n)); [done|done|].
    split; [done|]. rewrite puts_app, sents_app, Hp. cbn. by rewrite app_nil_r.
  - destruct Ht as [ph Hi Ho Hp|ph Hi Ho Hp]; [|by rewrite (proj1 (proj2 (proj2 Hi))) in Ha].
    phase_case Hi Ha ph. destruct Hp as [-> Hp].
    mstep; mstep. eapply wp_pr_job_done; [exact Hi|]. intros Hk i' Hi'.
    unfold input_handler_done. mstep. eapply wp_pp_send; [exact Ho|lia|]. intros o' Ho'. rewrite app_nil_r.
    split; [done|]. split; [done|]. apply (turn_output _ _ _ _ (Op 0 k)); [done|done|]. split; [done|]. split; [lia|done].
  - destruct Ht as [ph Hi Ho Hp|ph Hi Ho Hp]; [by rewrite (proj1 (proj2 (proj2 Ho))) in Ha|].
    phase_case Ho Ha ph. mstep; mstep. eapply wp_pp_job_op; [exact Ho|]. intros o' Ho'. mstep. rewrite app_nil_r.
    split; [done|]. split; [done|]. by apply (turn_output _ _ _ _ (Busy d n)).
  - destruct Ht as [ph Hi Ho Hp|ph Hi Ho Hp]; [by rewrite (proj1 (proj2 (proj2 Ho))) in Ha|].
    phase_case Ho Ha ph. destruct (pp_is_data _ _ _ _ Ho) as (Hd & Hn & Hr), Hp as (-> & Hle & Hp).
    mstep; mstep. mstep; mstep; [exact Hd|]. rewrite Hn. mstep; mstep; [apply mem_read_Some; lia|]. mstep; mstep.
    mstep. eapply wp_pp_done; [exact Ho|]. intros o' Ho'.
    split; [done|]. split; [done|]. apply (turn_output _ _ _ _ (Done 0 n 0)); [done|done|].
    split; [done|]. rewrite puts_app, sents_app, Hp. cbn. by rewrite app_nil_r.
  - destruct Ht as [ph Hi Ho Hp|ph Hi Ho Hp]; [by rewrite (proj1 (proj2 (proj2 Ho))) in Ha|].
    phase_case Ho Ha ph. destruct Hp as [-> Hp].
    mstep; mstep. eapply wp_pp_job_done; [exact Ho|]. intros o' Ho'.
    unfold output_handler_done. mstep. eapply wp_pr_recv; [exact Hi|]. intros i' Hi'. rewrite app_nil_r.
    split; [done|]. split; [done|]. by apply (turn_input _ _ _ _ (Op 0 imtu)).
Qed.

Definition fresh (imtu omtu : Z) : SinglePacketBuffer :=
  mk_spb (PacketRecvInterface_Init imtu) (PacketPassInterface_Init omtu) [].

Lemma wp_SinglePacketBuffer_Init alloc imtu omtu :
  (forall n l, alloc n = Some l -> zlen l = n) -> 0 <= imtu <= omtu ->
  wp (SinglePacketBuffer_Init alloc) (fun r b t => t = [] /\ (r = true -> inv imtu omtu [] b)) (fresh imtu omtu).
Proof.
  intros Halloc Hm. unfold SinglePacketBuffer_Init, fresh.
  mstep; mstep. mstep; mstep; [b2p; cbn; lia|]. mstep; mstep. sug. apply wp_pr_connect. intros i Hi.
  mstep; mstep. sug. apply wp_pp_connect. intros o Ho. mstep; mstep; unfold PacketRecvInterface_GetMTU; mstep.
  sug. rewrite (proj1 Hi). destruct (alloc imtu) as [l|] eqn:Hl; [|by mstep].
  mstep; mstep. mstep; mstep. sug. eapply wp_pr_recv; [exact Hi|]. intros i' Hi'.
  split; [done|]. intros _. split; [done|]. split; [by apply Halloc|]. by apply (turn_input _ _ _ _ (Op 0 imtu)).
Qed.

(** A one-packet buffer never violates an assertion or leaves its memory,
    whatever the order of the jobs and the writes of the sender; it delivers
    exactly the packets it was given, in order, holding at most one; and exactly
    one of its two sides is active at any time, so it is never stuck and never
    receives over a packet that is still being read. *)
Theorem single_packet_buffer_correct alloc imtu omtu b0 :
  (forall n l, alloc n = Some l -> zlen l = n) -> 0 <= imtu <= omtu ->
  SinglePacketBuffer_Init alloc (fresh imtu omtu) = Some (true, b0, []) ->
  safe b0 /\ forall tr b, reach b0 tr b ->
    (exists waiting, puts tr = sents tr ++ waiting /\ zlen waiting <= 1) /\
    (pr_state (input b) = NONE <-> pp_state (output b) <> NONE).
Proof.
  intros Halloc Hm Hinit.
  destruct (wp_run _ _ _ _ _ _ (wp_SinglePacketBuffer_Init alloc imtu omtu Halloc Hm) Hinit) as [_ H0].
  specialize (H0 eq_refl).
  split; [eapply (inv_safe (inv imtu omtu)); [intros; by apply spb_step|exact H0]|].
  intros tr b Hr. apply (reach_inv (inv imtu omtu)) in Hr as (_ & _ & Ht); [|intros; by apply spb_step|exact H0].
  destruct Ht as [ph Hi Ho Hp|ph Hi Ho Hp];
    rewrite (proj1 (proj2 (proj2 Hi))), (proj1 (proj2 (proj2 Ho))); (split; [|by destruct ph]);
    destruct ph; try done; destruct_and?; eexists; (split; [first [eassumption | by rewrite app_nil_r]|]);
    rewrite ?zlen_cons, ?zlen_nil; lia.
Qed.

Definition spb_alloc (n : Z) : option bytes := if n <? 0 then None else Some (repeat 0 (Z.to_nat n)).
Lemma spb_alloc_ok n l : spb_alloc n = Some l -> zlen l = n.
Proof. unfold spb_alloc. destruct (n <? 0) eqn:E; [done|]. intros [= <-]. b2p. unfold zlen. rewrite repeat_length. lia. Qed.
Definition spb_example : SinglePacketBuffer :=
  match SinglePacketBuffer_Init spb_alloc (fresh 6 10) with
  | Some (_, b, _) => b
  | None => fresh 6 10
  end.
Lemma single_packet_buffer_correct_witness :
  safe spb_example /\
  match run [InputStarts; InputWrites 1 [7; 8]; InputFinishes 3; InputDone; OutputStarts; OutputFinishes; OutputDone;
             InputStarts] spb_example with
  | Some (b, tr) => puts tr = [[0; 7; 8]] /\ exists waiting, puts tr = sents tr ++ waiting /\ zlen waiting <= 1
  | None => False
  end.
Proof.
  destruct (single_packet_buffer_correct spb_alloc 6 10 spb_example spb_alloc_ok ltac:(lia) eq_refl) as [Hs Hr].
  split; [exact Hs|]. destruct (run _ spb_example) as [[b tr]|] eqn:Hrun.
  - destruct (Hr tr b (run_reach _ _ _ _ Hrun)) as [Hp _].
    vm_compute in Hrun. injection Hrun as <- <-. split; [reflexivity|]. exact Hp.
  - vm_compute in Hrun. discriminate Hrun.
Defined.
End SPB.
