(* ===== verification/BufferWriter.v ===== *)
(** Writing single packets into a flow: [flow/BufferWriter.c].

    The reader of the packets gives the memory for the next one through the
    receive interface; the writer fills it between [BufferWriter_StartPacket]
    and [BufferWriter_EndPacket].  The rules at the end are what the users of a
    writer rely on. *)

From S2P Require Import Prelude Interfaces.

Record BufferWriter (D : Type) := mk_bw {
  recv_interface : PacketRecvInterface D;
  out_have : bool;
  out : option D;
  d_mtu : Z;         (* debug builds *)
  d_writing : bool   (* debug builds *)
}.
Arguments mk_bw {D}. Arguments recv_interface {D}. Arguments out_have {D}.
Arguments out {D}. Arguments d_mtu {D}. Arguments d_writing {D}.
#[export] Instance eta_bw D : Eta (BufferWriter D) := fun w =>
  mk_bw (recv_interface w) (out_have w) (out w) (d_mtu w) (d_writing w).

Section buffer_writer.
Context {D E : Type}.
Local Abbreviation M := (M (BufferWriter D) E).

Definition output_handler_recv (data : D) : M unit :=
  w ← get;
  assert (negb (out_have w));;
  out_have ::= true;;
  out ::= Some data.

Definition BufferWriter_Init (mtu : Z) : BufferWriter D :=
  mk_bw (PacketRecvInterface_Init mtu) false None mtu false.

(** [None] is the result 0: there is no memory to write to. *)
Definition BufferWriter_StartPacket : M (option D) :=
  w ← get;
  assert (negb (d_writing w));;
  if negb (out_have w) then mret None
  else
    buf ← must (out w);
    d_writing ::= true;;
    mret (Some buf).

Definition BufferWriter_EndPacket (len : Z) : M unit :=
  w ← get;
  assert (0 <=? len);;
  assert (len <=? d_mtu w);;
  assert (out_have w);;
  assert (d_writing w);;
  out_have ::= false;;
  zoom recv_interface (PacketRecvInterface_Done len);;
  d_writing ::= false.

(** The operation job of the interface, as the dispatcher runs it. *)
Definition BufferWriter_job_operation : M unit :=
  d ← zoom recv_interface PacketRecvInterface_job_operation;
  output_handler_recv d.

(** [bw_is mtu ph w]: between packets, with the interface in phase [ph]; the
    writer has memory exactly while the operation is being served. *)
Definition bw_is (mtu : Z) (ph : phase D) (w : BufferWriter D) : Prop :=
  pr_is mtu ph (recv_interface w) /\ d_mtu w = mtu /\ d_writing w = false /\
  match ph with
  | Busy d _ => out_have w = true /\ out w = Some d
  | _ => out_have w = false
  end.
Definition bw_writing (mtu : Z) (d : D) (w : BufferWriter D) : Prop :=
  pr_is mtu (Busy d mtu) (recv_interface w) /\ d_mtu w = mtu /\ d_writing w = true /\ out_have w = true.

Implicit Types w : BufferWriter D.

Lemma wp_bw_connect mtu (Q : unit -> BufferWriter D -> list E -> Prop) :
  (forall w, bw_is mtu Idle w -> Q tt w []) ->
  wp (zoom recv_interface PacketRecvInterface_Receiver_Init) Q (BufferWriter_Init mtu).
Proof. intros HQ. mstep. apply wp_pr_connect. intros i Hi. by apply HQ. Qed.

Lemma wp_bw_recv mtu d w (Q : unit -> BufferWriter D -> list E -> Prop) :
  bw_is mtu Idle w -> (forall w', bw_is mtu (Op d mtu) w' -> Q tt w' []) ->
  wp (zoom recv_interface (PacketRecvInterface_Receiver_Recv d)) Q w.
Proof.
  intros (Hi & Hm & Hw & Ho) HQ. mstep. eapply wp_pr_recv; [exact Hi|]. intros i Hi'. by apply HQ.
Qed.

Lemma wp_bw_job_operation mtu d n w (Q : unit -> BufferWriter D -> list E -> Prop) :
  bw_is mtu (Op d n) w -> (forall w', bw_is mtu (Busy d n) w' -> Q tt w' []) ->
  wp BufferWriter_job_operation Q w.
Proof.
  intros (Hi & Hm & Hw & Ho) HQ. unfold BufferWriter_job_operation, output_handler_recv.
  mstep; mstep. eapply wp_pr_job_op; [exact Hi|]. intros i Hi'. mgo. by apply HQ.
Qed.

Lemma wp_bw_start mtu ph w (Q : option D -> BufferWriter D -> list E -> Prop) :
  bw_is mtu ph w ->
  match ph with
  | Busy d _ => forall w', bw_writing mtu d w' -> Q (Some d) w' []
  | _ => Q None w []
  end ->
  wp BufferWriter_StartPacket Q w.
Proof.
  intros (Hi & Hm & Hw & Ho) HQ. unfold BufferWriter_StartPacket. mstep; mstep.
  mstep; mstep; [by rewrite Hw|]. destruct ph; rewrite ?Ho; cbn [negb]; try (by mstep).
  destruct Ho as [Hh Ho]. rewrite Hh. cbn [negb]. mstep; mstep; [exact Ho|]. mstep; mstep. mstep.
  apply HQ. pose proof (pr_is_data _ _ _ _ Hi) as [_ ->]. done.
Qed.

Lemma wp_bw_end mtu d len w (Q : unit -> BufferWriter D -> list E -> Prop) :
  bw_writing mtu d w -> 0 <= len <= mtu ->
  (forall w', bw_is mtu (Done d mtu len) w' -> Q tt w' []) ->
  wp (BufferWriter_EndPacket len) Q w.
Proof.
  intros (Hi & Hm & Hw & Ho) Hl HQ. unfold BufferWriter_EndPacket.
  mstep; mstep. mstep; mstep; [b2p; lia|]. mstep; mstep; [rewrite Hm; b2p; lia|]. do 2 (mstep; mstep; [done|]).
  mstep; mstep. mstep; mstep. eapply wp_pr_done; [exact Hi|lia|]. intros i Hi'. mstep. by apply HQ.
Qed.

Lemma wp_bw_job_done mtu d n k w (Q : Z -> BufferWriter D -> list E -> Prop) :
  bw_is mtu (Done d n k) w -> (forall w', bw_is mtu Idle w' -> Q k w' []) ->
  wp (zoom recv_interface PacketRecvInterface_job_done) Q w.
Proof.
  intros (Hi & Hm & Hw & Ho) HQ. mstep. eapply wp_pr_job_done; [exact Hi|]. intros Hk i Hi'. by apply HQ.
Qed.
End buffer_writer.
