(* ===== verification/PacketProto.v ===== *)
(** PacketProto, the framing of packets over a byte stream:
    [protocol/packetproto.h], [flow/PacketProtoDecoder.c],
    [flow/PacketProtoEncoder.c] behind a [BufferWriter].

    [enc] is the wire format; the decoder is shown to cut any stream, however
    it is chunked, into the packets whose encodings make it up. *)

From S2P Require Import Prelude System Interfaces CArith BufferWriter.

(** * The wire format *)

Definition HDR : Z := 2. (* sizeof(struct packetproto_header) *)
Definition PACKETPROTO_MAXPAYLOAD : Z := UINT16_MAX.
Definition PACKETPROTO_ENCLEN (len : Z) : Z := HDR + len.

Definition enc (p : bytes) : bytes := le_bytes 2 (zlen p) ++ p.
Definition encs (ps : list bytes) : bytes := concat (enc <$> ps).

Lemma encs_app l1 l2 : encs (l1 ++ l2) = encs l1 ++ encs l2.
Proof. unfold encs. by rewrite fmap_app, concat_app. Qed.
Lemma encs_one p : encs [p] = enc p.
Proof. unfold encs. cbn. by rewrite app_nil_r. Qed.
Lemma zlen_enc p : zlen (enc p) = HDR + zlen p.
Proof. unfold enc. by rewrite zlen_app, zlen_le_bytes. Qed.

(** The length announced by a stream. *)
Definition header_len (s : bytes) : Z := le_val (take 2 s).

Lemma header_len_enc p s : zlen p <= PACKETPROTO_MAXPAYLOAD -> header_len (enc p ++ s) = zlen p.
Proof.
  intros Hp. unfold header_len, enc. rewrite <- app_assoc, take_app_length', le_val_bytes by done.
  pose proof (zlen_nonneg p). apply Z.mod_small. unfold PACKETPROTO_MAXPAYLOAD, UINT16_MAX in *. lia.
Qed.

(** [waits mtu s]: [s] is the beginning of an acceptable packet only. *)
Definition waits (mtu : Z) (s : bytes) : Prop :=
  zlen s < HDR \/ (header_len s <= mtu /\ zlen s < HDR + header_len s).
(** [too_large mtu s]: [s] announces a packet that is not accepted. *)
Definition too_large (mtu : Z) (s : bytes) : Prop := HDR <= zlen s /\ mtu < header_len s.

(** ** Streams are cut in one way only *)

Definition short (ps : list bytes) : Prop := Forall (fun p => zlen p <= PACKETPROTO_MAXPAYLOAD) ps.

Lemma enc_app_inj p q r s :
  zlen p <= PACKETPROTO_MAXPAYLOAD -> zlen q <= PACKETPROTO_MAXPAYLOAD ->
  enc p ++ r = enc q ++ s -> p = q /\ r = s.
Proof.
  intros Hp Hq H. pose proof (header_len_enc p r Hp) as H1. rewrite H, header_len_enc in H1 by done.
  unfold enc in H. rewrite H1 in H. rewrite <- !app_assoc in H. apply app_inv_head in H.
  apply app_inj_1 in H; [done|]. unfold zlen in H1. lia.
Qed.

Lemma enc_app_nonnil p r : enc p ++ r <> [].
Proof.
  intros H. apply (f_equal zlen) in H. rewrite zlen_app, zlen_enc, zlen_nil in H. unfold HDR in *. zlia.
Qed.

Lemma encs_cons p ps : encs (p :: ps) = enc p ++ encs ps.
Proof. done. Qed.

Lemma encs_prefix ps qs r :
  short ps -> short qs -> (exists more, encs ps ++ r ++ more = encs qs) ->
  exists qs', qs = ps ++ qs' /\ exists more, r ++ more = encs qs'.
Proof.
  intros Hps. revert qs; induction Hps as [|p ps Hp Hps IH]; intros qs Hqs [more Heq].
  - exists qs. split; [done|]. by exists more.
  - rewrite encs_cons, <- app_assoc in Heq. destruct qs as [|q qs].
    { by apply enc_app_nonnil in Heq. }
    apply Forall_cons in Hqs as [Hq Hqs]. rewrite encs_cons in Heq.
    apply enc_app_inj in Heq as [-> Heq]; [|done..].
    destruct (IH qs Hqs) as (qs' & -> & ?); [eauto|]. by exists qs'.
Qed.

Lemma header_len_app s t : HDR <= zlen s -> header_len (s ++ t) = header_len s.
Proof. intros. unfold header_len. rewrite take_app_le; [done|]. unfold zlen, HDR in *. lia. Qed.

Lemma waits_encs mtu qs : short qs -> Forall (fun q => zlen q <= mtu) qs -> waits mtu (encs qs) -> qs = [].
Proof.
  intros Hs Hm Hw. destruct qs as [|q qs]; [done|].
  apply Forall_cons in Hs as [Hq _]. rewrite encs_cons in Hw.
  unfold waits in Hw. rewrite header_len_enc, zlen_app, zlen_enc in Hw by done. zlia.
Qed.

Lemma too_large_encs mtu qs r more :
  short qs -> Forall (fun q => zlen q <= mtu) qs -> r ++ more = encs qs -> ~ too_large mtu r.
Proof.
  intros Hs Hm Heq [Hl Ht]. rewrite <- (header_len_app r more), Heq in Ht by done.
  destruct qs as [|q qs].
  - apply (f_equal zlen) in Heq. rewrite zlen_app in Heq. change (zlen (encs [])) with 0 in Heq.
    unfold HDR in *. zlia.
  - apply Forall_cons in Hs as [Hq _]. apply Forall_cons in Hm as [Hqm _].
    rewrite encs_cons, header_len_enc in Ht by done. lia.
Qed.

Module Decoder.

Record PacketProtoDecoder := mk_dec {
  input : StreamRecvInterface Z;
  output : PacketPassInterface Z;
  output_mtu : Z;
  buf_size : Z;
  buf_start : Z;
  buf_used : Z;
  buf : bytes
}.
#[export] Instance eta_dec : Eta PacketProtoDecoder := fun d =>
  mk_dec (input d) (output d) (output_mtu d) (buf_size d) (buf_start d) (buf_used d) (buf d).

Inductive event :=
  | Recv (chunk : bytes)  (* bytes received from the stream *)
  | Packet (p : bytes)    (* a packet is submitted to the output *)
  | Read (p : bytes)      (* the receiver has read the packet *)
  | Error                 (* handler_error is called *)
  | Reset.

Local Abbreviation M := (M PacketProtoDecoder event).

Definition process_data : M unit :=
  e ← get;
  let data := buf_start e in
  let left := buf_used e in
  (* [r] is [Some was_error] when the loop is left by a break *)
  r ← (if left <? HDR then mret (Some false) else
       header ← must (mem_read data HDR (buf e));
       let data := data + HDR in
       let left := left - HDR in
       let data_len := le_val header in
       if output_mtu e <? data_len then mret (Some true) else
       if left <? data_len then mret (Some false) else
       buf_start ::= buf_start e + (HDR + data_len);;
       buf_used ::= buf_used e - (HDR + data_len);;
       zoom output (PacketPassInterface_Sender_Send data data_len);;
       mret None);
  match r with
  | None => mret tt
  | Some was_error =>
      (if was_error : bool then
         buf_start ::= 0;; buf_used ::= 0
       else
         when (buf_start e + buf_used e =? buf_size e) (
           moved ← must (mem_read (buf_start e) (buf_used e) (buf e));
           mem ← must (mem_write 0 moved (buf e));
           buf ::= mem;;
           buf_start ::= 0));;
      e ← get;
      zoom input (StreamRecvInterface_Receiver_Recv (buf_start e + buf_used e)
                    (buf_size e - (buf_start e + buf_used e)));;
      when was_error (emit Error)
  end.

Definition input_handler_done (data_len : Z) : M unit :=
  e ← get;
  assert (0 <? data_len);;
  assert (data_len <=? buf_size e - (buf_start e + buf_used e));;
  buf_used ::= buf_used e + data_len;;
  process_data.

Definition output_handler_done : M unit := process_data.

(** [alloc] is [malloc]. *)
Definition PacketProtoDecoder_Init (alloc : Z -> option bytes) : M bool :=
  zoom input StreamRecvInterface_Receiver_Init;;
  zoom output PacketPassInterface_Sender_Init;;
  mtu ← zoom output PacketPassInterface_GetMTU;
  let omtu := bmin_int mtu PACKETPROTO_MAXPAYLOAD in
  output_mtu ::= omtu;;
  buf_size ::= PACKETPROTO_ENCLEN omtu;;
  buf_start ::= 0;;
  buf_used ::= 0;;
  match alloc (PACKETPROTO_ENCLEN omtu) with
  | None => mret false
  | Some mem =>
      buf ::= mem;;
      zoom input (StreamRecvInterface_Receiver_Recv 0 (PACKETPROTO_ENCLEN omtu));;
      mret true
  end.

Definition PacketProtoDecoder_Reset : M unit :=
  e ← get;
  buf_start ::= buf_start e + buf_used e;;
  buf_used ::= 0.

(** ** The environment *)

#[export] Instance byte_ok_dec b : Decision (byte_ok b).
Proof. unfold byte_ok. apply _. Defined.
#[export] Instance bytes_ok_dec l : Decision (bytes_ok l).
Proof. unfold bytes_ok. apply _. Defined.

Inductive action :=
  | InputStarts
  | InputWrites (off : Z) (data : bytes) (* the source writes to the space it was given *)
  | InputFinishes (n : Z)
  | InputDone
  | OutputStarts
  | OutputFinishes
  | OutputDone
  | CallReset.

(** The packet submitted by the handler that just ran. *)
Definition observe : M unit :=
  e ← get;
  when (st_eq (pp_state (output e)) OPERATION_PENDING) (
    d ← must (pp_job_operation_data (output e));
    p ← must (mem_read d (pp_job_operation_len (output e)) (buf e));
    emit (Packet p)).

Definition exec_action (a : action) : M unit :=
  match a with
  | InputStarts => _ ← zoom input StreamRecvInterface_job_operation; mret tt
  | InputWrites off data =>
      e ← get;
      d ← must (sr_job_operation_data (input e));
      mem ← must (mem_write (d + off) data (buf e));
      buf ::= mem
  | InputFinishes n => zoom input (StreamRecvInterface_Done n)
  | InputDone =>
      e ← get;
      n ← zoom input StreamRecvInterface_job_done;
      d ← must (sr_job_operation_data (input e));
      c ← must (mem_read d n (buf e));
      emit (Recv c);;
      input_handler_done n;;
      observe
  | OutputStarts => _ ← zoom output PacketPassInterface_job_operation; mret tt
  | OutputFinishes =>
      e ← get;
      d ← must (pp_job_operation_data (output e));
      p ← must (mem_read d (pp_job_operation_len (output e)) (buf e));
      emit (Read p);;
      zoom output PacketPassInterface_Done
  | OutputDone => zoom output PacketPassInterface_job_done;; output_handler_done;; observe
  | CallReset => emit Reset;; PacketProtoDecoder_Reset
  end.

Definition action_enabled (e : PacketProtoDecoder) (a : action) : bool :=
  match a with
  | InputStarts => st_eq (sr_state (input e)) OPERATION_PENDING
  | InputWrites off data =>
      st_eq (sr_state (input e)) BUSY && (0 <=? off) && (off + zlen data <=? sr_job_operation_len (input e))
      && bool_decide (bytes_ok data)
  | InputFinishes n =>
      st_eq (sr_state (input e)) BUSY && (0 <? n) && (n <=? sr_job_operation_len (input e))
  | InputDone => st_eq (sr_state (input e)) DONE_PENDING
  | OutputStarts => st_eq (pp_state (output e)) OPERATION_PENDING
  | OutputFinishes => st_eq (pp_state (output e)) BUSY
  | OutputDone => st_eq (pp_state (output e)) DONE_PENDING
  | CallReset => true
  end.
#[export] Instance dec_system : System PacketProtoDecoder action event :=
  {| enabled := action_enabled; exec := exec_action |}.

(** ** The specification *)

(** The bytes received and the packets submitted since the last error or
    reset. *)
Definition seg_step (s : bytes * list bytes) (e : event) : bytes * list bytes :=
  match e with
  | Recv c => (s.1 ++ c, s.2)
  | Packet p => (s.1, s.2 ++ [p])
  | Read _ => s
  | Error | Reset => ([], [])
  end.
Definition seg (tr : list event) : bytes * list bytes := fold_left seg_step tr ([], []).

Definition packets (tr : list event) : list bytes :=
  omap (fun e => match e with Packet p => Some p | _ => None end) tr.
Definition reads (tr : list event) : list bytes :=
  omap (fun e => match e with Read p => Some p | _ => None end) tr.
Definition recvd (tr : list event) : bytes :=
  concat (omap (fun e => match e with Recv c => Some c | _ => None end) tr).

(** An error is reported only for a stream that announces a packet larger than
    the output accepts. *)
Definition errors_justified (mtu : Z) (tr : list event) : Prop :=
  forall t1 t2, tr = t1 ++ Error :: t2 ->
    exists rest, (seg t1).1 = encs (seg t1).2 ++ rest /\ too_large mtu rest.

(** The state of the decoder after a history. *)
Record view (mtu : Z) (iph oph : phase Z) (ps : list bytes) (tr : list event) (e : PacketProtoDecoder) : Prop := {
  v_mtu : 0 <= output_mtu e <= mtu /\ output_mtu e <= PACKETPROTO_MAXPAYLOAD;
  v_size : buf_size e = HDR + output_mtu e /\ zlen (buf e) = buf_size e;
  v_ok : bytes_ok (buf e);
  v_start : 0 <= buf_start e;
  v_used : 0 <= buf_used e /\ buf_start e + buf_used e <= buf_size e;
  v_input : sr_is iph (input e);
  v_output : pp_is mtu oph (output e);
  v_seg : seg tr = (encs ps ++ slice (buf_start e) (buf_used e) (buf e), ps);
  v_iph : match iph with
          | Idle => oph <> Idle
          | Op d n | Busy d n | Done d n _ => oph = Idle /\
              d = buf_start e + buf_used e /\ n = buf_size e - d /\
              waits (output_mtu e) (slice (buf_start e) (buf_used e) (buf e))
          end;
  v_oph : match oph with
          | Idle => packets tr = reads tr
          | Op d n | Busy d n => iph = Idle /\ 0 <= d /\ d + n <= buf_start e /\
              packets tr = reads tr ++ [slice d n (buf e)]
          | Done d n _ => iph = Idle /\ packets tr = reads tr
          end;
  v_short : Forall (fun p => zlen p <= output_mtu e) (packets tr);
  v_errors : errors_justified (output_mtu e) tr
}.

Lemma seg_snoc tr e : seg (tr ++ [e]) = seg_step (seg tr) e.
Proof. unfold seg. by rewrite fold_left_app. Qed.
Lemma packets_snoc tr e : packets (tr ++ [e]) = packets tr ++ match e with Packet p => [p] | _ => [] end.
Proof. unfold packets. rewrite omap_app. by destruct e. Qed.
Lemma reads_snoc tr e : reads (tr ++ [e]) = reads tr ++ match e with Read p => [p] | _ => [] end.
Proof. unfold reads. rewrite omap_app. by destruct e. Qed.

Lemma justified_snoc mtu tr e :
  errors_justified mtu tr ->
  (e = Error -> exists rest, (seg tr).1 = encs (seg tr).2 ++ rest /\ too_large mtu rest) ->
  errors_justified mtu (tr ++ [e]).
Proof.
  intros Hj He t1 t2 Heq. destruct t2 as [|x t2 _] using rev_ind.
  - apply app_inj_tail in Heq as [-> ->]. auto.
  - rewrite app_comm_cons, app_assoc in Heq. apply app_inj_tail in Heq as [-> _]. eauto.
Qed.

(** A complete packet at the front of the buffered bytes. *)
Lemma slice_enc (mem : bytes) a u n :
  bytes_ok mem -> 0 <= a -> HDR + n <= u -> a + u <= zlen mem ->
  n = le_val (slice a HDR mem) -> 0 <= n ->
  slice a u mem = enc (slice (a + HDR) n mem) ++ slice (a + (HDR + n)) (u - (HDR + n)) mem.
Proof.
  intros Hok Ha Hu Hm Hn Hn0. unfold enc. rewrite zlen_slice by (unfold HDR in *; lia).
  replace u with (HDR + (n + (u - (HDR + n)))) at 1 by lia.
  rewrite slice_split by (unfold HDR in *; lia). rewrite (slice_split (a + HDR)) by (unfold HDR in *; lia).
  rewrite <- app_assoc. f_equal; [|f_equal; f_equal; lia].
  pose proof (le_bytes_val (slice a HDR mem)) as Hl. rewrite <- Hn in Hl.
  assert (length (slice a HDR mem) = 2%nat) as Hlen.
  { pose proof (zlen_slice a HDR mem) as H. unfold zlen, HDR in *. lia. }
  rewrite Hlen in Hl. rewrite Hl; [done|].
  unfold slice. by apply Forall_take, Forall_drop.
Qed.

(** What the two handlers start from: nothing is in progress. *)
Record base (mtu : Z) (ps : list bytes) (tr : list event) (e : PacketProtoDecoder) : Prop := {
  b_mtu : 0 <= output_mtu e <= mtu /\ output_mtu e <= PACKETPROTO_MAXPAYLOAD;
  b_size : buf_size e = HDR + output_mtu e /\ zlen (buf e) = buf_size e;
  b_ok : bytes_ok (buf e);
  b_start : 0 <= buf_start e;
  b_used : 0 <= buf_used e /\ buf_start e + buf_used e <= buf_size e;
  b_input : sr_is Idle (input e);
  b_output : pp_is mtu Idle (output e);
  b_seg : seg tr = (encs ps ++ slice (buf_start e) (buf_used e) (buf e), ps);
  b_reads : packets tr = reads tr;
  b_short : Forall (fun p => zlen p <= output_mtu e) (packets tr);
  b_errors : errors_justified (output_mtu e) tr
}.

Lemma observe_idle mtu e (Q : unit -> PacketProtoDecoder -> list event -> Prop) :
  pp_is mtu Idle (output e) -> Q tt e [] -> wp observe Q e.
Proof.
  intros (_ & _ & Hs & _) HQ. unfold observe. mstep; mstep. rewrite Hs. cbn [st_eq phase_state].
  change (st_eq NONE OPERATION_PENDING) with false. cbn [when]. by mstep.
Qed.

Lemma header_slice (mem : bytes) a u :
  0 <= a -> HDR <= u -> a + u <= zlen mem -> header_len (slice a u mem) = le_val (slice a HDR mem).
Proof.
  intros. unfold header_len. f_equal.
  transitivity (slice 0 HDR (slice a u mem)); [done|]. rewrite slice_slice by (unfold HDR in *; lia).
  f_equal. lia.
Qed.

(** Waiting for more data: the buffered bytes are moved to the front when the
    end of the buffer is reached. *)
Lemma wp_wait mtu ps tr e (Q : unit -> PacketProtoDecoder -> list event -> Prop) :
  base mtu ps tr e -> waits (output_mtu e) (slice (buf_start e) (buf_used e) (buf e)) ->
  buf_used e < buf_size e ->
  (forall e' d n, view mtu (Op d n) Idle ps tr e' -> output_mtu e' = output_mtu e -> Q tt e' []) ->
  wp (when (buf_start e + buf_used e =? buf_size e) (
        moved ← must (mem_read (buf_start e) (buf_used e) (buf e));
        mem ← must (mem_write 0 moved (buf e));
        buf ::= mem;; buf_start ::= 0);;
      e ← get;
      zoom input (StreamRecvInterface_Receiver_Recv (buf_start e + buf_used e)
                    (buf_size e - (buf_start e + buf_used e)));;
      when false (emit Error)) Q e.
Proof.
  intros [Hmtu [Hsz Hlen] Hok Hst [Hu Hsu] Hin Hout Hseg Hrd Hsh Herr] Hw Hlt HQ.
  mstep. mstep.
  - b2p. mstep; mstep; [apply mem_read_Some; lia|]. mstep; mstep; [apply mem_write_Some; [lia|]|].
    { rewrite zlen_slice; lia. }
    mstep; mstep; mstep. mstep; mstep. mstep; mstep. sug.
    eapply wp_sr_recv; [exact Hin|lia|]. intros i Hi. sug.
    assert (Hz : zlen (slice (buf_start e) (buf_used e) (buf e)) = buf_used e) by (apply zlen_slice; lia).
    set (mem := splice 0 _ (buf e)).
    assert (Hs : slice 0 (buf_used e) mem = slice (buf_start e) (buf_used e) (buf e)).
    { unfold mem. apply slice_splice_same; lia. }
    assert (Hm : zlen mem = zlen (buf e)) by (unfold mem; rewrite zlen_splice; lia).
    assert (bytes_ok mem).
    { unfold mem, splice, bytes_ok. rewrite !Forall_app. unfold slice.
      split; [by apply Forall_take|]. split; [by apply Forall_take, Forall_drop|by apply Forall_drop]. }
    apply (HQ _ (0 + buf_used e) (buf_size e - (0 + buf_used e))); [|done].
    split; sug; try done; try lia; rewrite ?Hs; try done; try (split_and!; try done; lia).
  - b2p. mstep; mstep. mstep; mstep. eapply wp_sr_recv; [exact Hin|lia|]. intros i Hi. sug.
    apply (HQ _ (buf_start e + buf_used e) (buf_size e - (buf_start e + buf_used e))); [|done].
    split; sug; try done; try lia; try (split_and!; try done; lia).
Qed.

Lemma view_errors mtu iph oph ps tr e : view mtu iph oph ps tr e -> errors_justified (output_mtu e) tr.
Proof. by intros []. Qed.

(** What [process_data] leaves, its call of the output included. *)
Definition processed (mtu : Z) (tr : list event) (e e' : PacketProtoDecoder) (t : list event) : Prop :=
  exists iph oph ps', view mtu iph oph ps' (tr ++ t) e' /\ output_mtu e' = output_mtu e.

(** A header that announces too much: everything is dropped. *)
Lemma wp_too_large mtu ps tr e :
  base mtu ps tr e -> HDR <= buf_used e -> output_mtu e < le_val (slice (buf_start e) HDR (buf e)) ->
  wp ((buf_start ::= 0;; buf_used ::= 0);;
      e ← get;
      zoom input (StreamRecvInterface_Receiver_Recv (buf_start e + buf_used e)
                    (buf_size e - (buf_start e + buf_used e)));;
      when true (emit Error))
    (fun _ e1 t1 => wp observe (fun _ e2 t2 => processed mtu tr e e2 (t1 ++ t2)) e1) e.
Proof.
  intros [Hmtu [Hsz Hlen] Hok Hst [Hu Hsu] Hin Hout Hseg Hrd Hsh Herr] Hused Hlarge.
  mgo. sug. eapply wp_sr_recv; [exact Hin|unfold HDR in *; lia|]. intros i Hi. sug.
  eapply observe_idle; [exact Hout|]. cbn [app].
  exists (Op 0 (buf_size e)), Idle, []. split; [|done].
  rewrite Z.add_0_l, Z.sub_0_r in Hi.
  split; sug; try done; try lia.
  - by rewrite seg_snoc.
  - split_and!; try done; try lia. left. by rewrite zlen_slice by (unfold HDR in *; lia).
  - by rewrite packets_snoc, reads_snoc, !app_nil_r.
  - by rewrite packets_snoc, app_nil_r.
  - apply justified_snoc; [done|]. intros _. rewrite Hseg. cbn. eexists. split; [done|].
    split; rewrite ?header_slice, ?zlen_slice by (unfold HDR in *; lia); lia.
Qed.

(** A complete packet is passed to the output. *)
Lemma wp_packet mtu ps tr e n :
  base mtu ps tr e -> HDR + n <= buf_used e -> n <= output_mtu e ->
  n = le_val (slice (buf_start e) HDR (buf e)) -> 0 <= n ->
  wp (zoom output (PacketPassInterface_Sender_Send (buf_start e + HDR) n))
    (fun _ e1 t1 => wp observe (fun _ e2 t2 => processed mtu tr e e2 (t1 ++ t2)) e1)
    (e <| buf_start := buf_start e + (HDR + n) |> <| buf_used := buf_used e - (HDR + n) |>).
Proof.
  intros [Hmtu [Hsz Hlen] Hok Hst [Hu Hsu] Hin Hout Hseg Hrd Hsh Herr] Hused Hshort Hn Hn0.
  mstep. sug. eapply wp_pp_send; [exact Hout|lia|]. intros o Ho. sug.
  pose proof Ho as (_ & _ & Hos & _ & _ & _ & Hod & Hol & _).
  unfold observe. mstep; mstep. cbn. rewrite Hos, Hod, Hol.
  change (st_eq (phase_state (Op (buf_start e + HDR) n)) OPERATION_PENDING) with true. cbn [when].
  mstep; mstep; [done|]. mstep; mstep; [apply mem_read_Some; unfold HDR in *; lia|]. mstep.
  set (pk := slice (buf_start e + HDR) n (buf e)).
  assert (Hpk : zlen pk = n) by (apply zlen_slice; unfold HDR in *; lia).
  exists Idle, (Op (buf_start e + HDR) n), (ps ++ [pk]). split; [|done]. cbn [app].
  split; sug; try done; try (unfold HDR in *; lia).
  - rewrite seg_snoc, Hseg. cbn. f_equal. rewrite encs_app, encs_one, <- app_assoc. f_equal.
    apply slice_enc; try done; lia.
  - rewrite packets_snoc, reads_snoc, Hrd, app_nil_r. split_and!; try done; unfold HDR in *; lia.
  - rewrite packets_snoc. apply Forall_app. split; [done|]. constructor; [lia|done].
  - apply justified_snoc; [done|]. intros ?. done.
Qed.

Lemma wp_process mtu ps tr e :
  base mtu ps tr e -> wp (process_data;; observe) (fun _ e' t => processed mtu tr e e' t) e.
Proof.
  intros B. pose proof B as [Hmtu [Hsz Hlen] Hok Hst [Hu Hsu] Hin Hout Hseg Hrd Hsh Herr].
  assert (Hwait : waits (output_mtu e) (slice (buf_start e) (buf_used e) (buf e)) -> buf_used e < buf_size e ->
    wp (when (buf_start e + buf_used e =? buf_size e) (
          moved ← must (mem_read (buf_start e) (buf_used e) (buf e));
          mem ← must (mem_write 0 moved (buf e));
          buf ::= mem;; buf_start ::= 0);;
        e ← get;
        zoom input (StreamRecvInterface_Receiver_Recv (buf_start e + buf_used e)
                      (buf_size e - (buf_start e + buf_used e)));;
        when false (emit Error))
      (fun _ e1 t1 => wp observe (fun _ e2 t2 => processed mtu tr e e2 (t1 ++ t2)) e1) e).
  { intros Hw Hlt. apply (wp_wait mtu ps tr e); try done. intros e' d n V Ho.
    eapply observe_idle; [by destruct V|]. exists (Op d n), Idle, ps. by rewrite app_nil_r. }
  pose proof (zlen_slice (buf_start e) (buf_used e) (buf e) ltac:(lia) ltac:(lia) ltac:(lia)) as Hrest.
  mstep. unfold process_data. mstep. mstep. mstep. mstep.
  - mstep. b2p. apply Hwait; [|unfold HDR in *; lia]. left. lia.
  - b2p. mstep; mstep; [apply mem_read_Some; unfold HDR in *; lia|].
    assert (Hn : 0 <= le_val (slice (buf_start e) HDR (buf e))).
    { apply le_val_bound. unfold slice. by apply Forall_take, Forall_drop. }
    mstep; [|mstep]; b2p.
    + mstep. by apply (wp_too_large mtu ps).
    + mstep. apply Hwait; [|unfold HDR in *; lia]. right. rewrite header_slice, Hrest by lia. lia.
    + mstep; mstep; mstep; mstep. mstep. eapply wp_mono; [apply (wp_packet mtu ps tr e); try done; lia|].
      intros [] e1 t1 Hp1. mstep. mstep. cbn [app] in *. rewrite ?app_nil_r. exact Hp1.
Qed.

Definition inv (mtu omtu : Z) (tr : list event) (e : PacketProtoDecoder) : Prop :=
  output_mtu e = omtu /\ exists iph oph ps, view mtu iph oph ps tr e.

Lemma justified_nil mtu : errors_justified mtu [].
Proof. intros t1 t2 H. by destruct t1. Qed.

(** Every action keeps the invariant. *)
Definition keeps (a : action) : Prop := forall mtu omtu tr e,
  inv mtu omtu tr e -> action_enabled e a = true ->
  wp (exec_action a) (fun _ e' t => inv mtu omtu (tr ++ t) e') e.
Ltac keeps_start :=
  intros mtu omtu tr e (Homtu & iph & oph & ps & V) Ha;
  pose proof V as [Hmtu [Hsz Hlen] Hok Hst [Hu Hsu] Hin Hout Hseg Hi Ho Hsh Herr];
  cbn in Ha; b2p; unfold exec_action.

Lemma keeps_InputStarts : keeps InputStarts.
Proof.
  keeps_start. phase_case Hin Ha iph. mgo. eapply wp_sr_job_op; [exact Hin|]. intros i' Hi'. mstep.
  split; [done|]. destruct Hi as (-> & Hi). exists (Busy d n), Idle, ps. rewrite app_nil_r. by split.
Qed.
Lemma keeps_InputWrites off data : keeps (InputWrites off data).
Proof.
  keeps_start. phase_case Hin H iph. destruct (sr_is_data _ _ _ Hin) as (Hd & Hn & Hn0).
  destruct Hi as (-> & -> & -> & Hw). rewrite Hn in *.
  assert (Hzs : 0 <= buf_start e + buf_used e + off /\
                buf_start e + buf_used e + off + zlen data <= zlen (buf e)) by lia.
  mgo. mstep; [apply mem_write_Some; lia|]. mstep. split; [done|].
  exists (Busy (buf_start e + buf_used e) (buf_size e - (buf_start e + buf_used e))), Idle, ps.
  rewrite app_nil_r. 
  assert (Hs : slice (buf_start e) (buf_used e)
    (splice (buf_start e + buf_used e + off) data (buf e)) = slice (buf_start e) (buf_used e) (buf e))
    by (apply slice_splice_before; zlia).
  split; sug; rewrite ?Hs; try done.
  - rewrite zlen_splice; lia.
  - unfold splice, bytes_ok. rewrite !Forall_app. by split_and!; [apply Forall_take| |apply Forall_drop].
Qed.
Lemma keeps_InputFinishes k : keeps (InputFinishes k).
Proof.
  keeps_start. phase_case Hin H iph. destruct (sr_is_data _ _ _ Hin) as (Hd & Hn & Hn0). rewrite Hn in *.
  mgo. eapply wp_sr_done; [exact Hin|lia|]. intros i' Hi'.
  split; [done|]. destruct Hi as (-> & Hi). exists (Done d n k), Idle, ps. rewrite app_nil_r. by split.
Qed.
Lemma keeps_InputDone : keeps InputDone.
Proof.
  keeps_start. phase_case Hin Ha iph. pose proof Hin as (_ & _ & _ & _ & Hd & _ & _ & Hk).
  destruct Hi as (-> & -> & -> & Hw).
  mgo. eapply wp_sr_job_done; [exact Hin|]. intros _ i' Hi'. cbn [app]. mgo.
  mstep; [apply mem_read_Some; lia|]. mgo. unfold input_handler_done. mgo.
  set (c := slice (buf_start e + buf_used e) k (buf e)).
  eapply wp_mono; [apply (wp_unbind process_data (fun _ => observe)), (wp_process mtu ps (tr ++ [Recv c]))|].
  - split; sug; try done; try lia.
    * rewrite seg_snoc, Hseg. cbn. f_equal. rewrite <- app_assoc. f_equal. unfold c.
      rewrite <- slice_split by lia. done.
    * by rewrite packets_snoc, reads_snoc, !app_nil_r.
    * by rewrite packets_snoc, app_nil_r.
    * by apply justified_snoc.
  - intros [] e1 t1 H1. eapply wp_mono; [exact H1|].
    intros [] e' t (iph' & oph' & ps' & V' & Homtu'). cbn [app] in *. rewrite <- app_assoc in V'.
    split; [by rewrite Homtu'|]. by exists iph', oph', ps'.
Qed.
Lemma keeps_OutputStarts : keeps OutputStarts.
Proof.
  keeps_start. phase_case Hout Ha oph. mgo. eapply wp_pp_job_op; [exact Hout|]. intros o' Ho'. mstep.
  split; [done|]. exists iph, (Busy d n), ps. rewrite app_nil_r. split; try done.
  by destruct iph; try (destruct Hi; discriminate).
Qed.
Lemma keeps_OutputFinishes : keeps OutputFinishes.
Proof.
  keeps_start. phase_case Hout Ha oph. destruct (pp_is_data _ _ _ _ Hout) as (Hd & Hn & Hn0).
  destruct Ho as (-> & Hd0 & Hds & Hrd).
  mgo. rewrite Hn. mstep; [apply mem_read_Some; lia|]. mgo. eapply wp_pp_done; [exact Hout|]. intros o' Ho'.
  split; [done|]. exists Idle, (Done d n 0), ps. cbn [app].
  split; sug; try done.
  - by rewrite seg_snoc.
  - rewrite packets_snoc, reads_snoc, app_nil_r. done.
  - by rewrite packets_snoc, app_nil_r.
  - by apply justified_snoc.
Qed.
Lemma keeps_OutputDone : keeps OutputDone.
Proof.
  keeps_start. phase_case Hout Ha oph. destruct Ho as (-> & Hrd).
  mgo. eapply wp_pp_job_done; [exact Hout|]. intros o' Ho'. unfold output_handler_done.
  eapply wp_mono; [apply (wp_process mtu ps tr); by split|].
  intros [] e' t (iph' & oph' & ps' & V' & Homtu'). cbn [app].
  split; [by rewrite Homtu'|]. by exists iph', oph', ps'.
Qed.
Lemma keeps_CallReset : keeps CallReset.
Proof.
  keeps_start. mgo. unfold PacketProtoDecoder_Reset. mgo. split; [done|]. exists iph, oph, []. cbn [app].
  assert (Hz : slice (buf_start e + buf_used e) 0 (buf e) = []) by done.
  split; sug; rewrite ?packets_snoc, ?reads_snoc, ?app_nil_r; try done; try lia.
  - rewrite seg_snoc. by rewrite Hz.
  - destruct iph; [done|..]; destruct Hi as (? & -> & -> & _); (split_and!; [done|lia|lia|]); left; by rewrite Hz.
  - destruct oph; [done|..|done]; destruct Ho as (? & ? & ? & ?); (split_and!; [done|done|lia|done]).
  - by apply justified_snoc.
Qed.

Lemma dec_step mtu omtu tr e a :
  inv mtu omtu tr e -> action_enabled e a = true ->
  wp (exec_action a) (fun _ e' t => inv mtu omtu (tr ++ t) e') e.
Proof.
  destruct a; [apply keeps_InputStarts|apply keeps_InputWrites|apply keeps_InputFinishes|apply keeps_InputDone
    |apply keeps_OutputStarts|apply keeps_OutputFinishes|apply keeps_OutputDone|apply keeps_CallReset].
Qed.

(** ** Initialisation and correctness *)

Definition fresh (mtu : Z) : PacketProtoDecoder :=
  mk_dec StreamRecvInterface_Init (PacketPassInterface_Init mtu) 0 0 0 0 [].

Definition alloc_ok (alloc : Z -> option bytes) : Prop :=
  forall n l, 0 <= n -> alloc n = Some l -> zlen l = n /\ bytes_ok l.

Lemma wp_PacketProtoDecoder_Init alloc mtu :
  alloc_ok alloc -> 0 <= mtu ->
  wp (PacketProtoDecoder_Init alloc)
    (fun r e t => t = [] /\ (r = true -> inv mtu (Z.min mtu PACKETPROTO_MAXPAYLOAD) [] e)) (fresh mtu).
Proof.
  intros Halloc Hm. unfold PacketProtoDecoder_Init, fresh. mgo. apply wp_sr_connect. intros i Hi.
  mgo. apply wp_pp_connect. intros o Ho. unfold PacketPassInterface_GetMTU. mgo.
  pose proof Ho as [Hom _]. sug. rewrite Hom, bmin_int_min.
  assert (0 <= Z.min mtu PACKETPROTO_MAXPAYLOAD) by (unfold PACKETPROTO_MAXPAYLOAD, UINT16_MAX; lia).
  unfold PACKETPROTO_ENCLEN. set (omtu := Z.min mtu _) in *.
  destruct (alloc (HDR + omtu)) as [mem|] eqn:Hal; [|by mstep].
  apply Halloc in Hal as [Hl Hok]; [|unfold HDR; lia].
  mgo. eapply wp_sr_recv; [exact Hi|unfold HDR; lia|]. intros i' Hi'. mstep.
  split; [done|]. intros _. split; [done|]. exists (Op 0 (HDR + omtu)), Idle, [].
  split; sug; try done; try (unfold HDR in *; lia).
  - split_and!; try lia; [done|by left].
  - apply justified_nil.
Qed.

Lemma dec_reach mtu omtu e0 tr e : inv mtu omtu [] e0 -> reach e0 tr e -> inv mtu omtu tr e.
Proof. apply reach_inv. intros. by apply dec_step. Qed.

(** Without errors and resets the segment is everything. *)
Lemma seg_all tr : Error ∉ tr -> Reset ∉ tr -> seg tr = (recvd tr, packets tr).
Proof.
  induction tr as [|e tr IH] using rev_ind; [done|]. rewrite !elem_of_app, !list_elem_of_singleton.
  intros He Hr. rewrite seg_snoc, packets_snoc, IH by tauto.
  unfold recvd. rewrite omap_app, concat_app. destruct e; cbn; rewrite ?app_nil_r; try done.
  - destruct He; auto.
  - destruct Hr; auto.
Qed.

#[export] Instance event_eq : EqDecision event.
Proof. solve_decision. Defined.

(** The received bytes of a valid stream keep the decoder free of errors. *)
Lemma valid_no_error omtu qs tr more :
  errors_justified omtu tr -> Reset ∉ tr -> short qs -> Forall (fun q => zlen q <= omtu) qs ->
  Forall (fun p => zlen p <= omtu) (packets tr) -> omtu <= PACKETPROTO_MAXPAYLOAD ->
  recvd tr ++ more = encs qs -> Error ∉ tr.
Proof.
  intros Herr Hres Hs Hq Hp Ho Heq Hin.
  apply list_elem_of_split_l in Hin as (t1 & t2 & -> & Hfirst).
  destruct (Herr t1 t2 eq_refl) as (rest & Hseg & Hbig).
  rewrite seg_all in Hseg by (done || (intros ?; apply Hres, elem_of_app; auto)). cbn in Hseg.
  unfold recvd in Heq. rewrite omap_app, concat_app in Heq. fold (recvd t1) in Heq.
  rewrite Hseg, <- !app_assoc in Heq.
  unfold packets in Hp. rewrite omap_app in Hp. apply Forall_app in Hp as [Hp _].
  destruct (encs_prefix (packets t1) qs rest) as (qs' & -> & more' & Heq').
  - eapply Forall_impl; [exact Hp|]. cbn. lia.
  - done.
  - eauto.
  - apply Forall_app in Hs as [_ Hs]. apply Forall_app in Hq as [_ Hq].
    by apply (too_large_encs omtu qs' rest more' Hs Hq Heq').
Qed.

Section initialised.
Context (alloc : Z -> option bytes) (mtu : Z) (e0 : PacketProtoDecoder).
Context (Halloc : alloc_ok alloc) (Hmtu : 0 <= mtu).
Context (Hinit : PacketProtoDecoder_Init alloc (fresh mtu) = Some (true, e0, [])).
Let omtu := Z.min mtu PACKETPROTO_MAXPAYLOAD.

Lemma init_inv : inv mtu omtu [] e0.
Proof using Halloc Hmtu Hinit.
  apply (wp_run _ _ _ _ _ _ (wp_PacketProtoDecoder_Init alloc mtu Halloc Hmtu) Hinit). done.
Qed.

(** C8: an initialised decoder never violates an assertion, accesses memory
    outside its buffer or asks its input for zero bytes, whatever the chunks
    the stream arrives in and the order of the jobs, resets included.  Since
    the last error or reset, the received bytes are exactly the encodings of
    the packets submitted followed by the unconsumed bytes; while it asks for
    input these are the start of an acceptable packet.  The receiver reads
    exactly the submitted packets, none above the MTU, and an error is only
    reported when the stream announces a larger packet. *)
Theorem decoder_correct :
  safe e0 /\ forall tr e, reach e0 tr e ->
    (exists rest, (seg tr).1 = encs (seg tr).2 ++ rest /\
       (sr_state (input e) <> NONE -> waits omtu rest)) /\
    (exists last, packets tr = reads tr ++ last /\ zlen last <= 1 /\
       (sr_state (input e) <> NONE -> last = [])) /\
    Forall (fun p => zlen p <= omtu) (packets tr) /\
    errors_justified omtu tr.
Proof using Halloc Hmtu Hinit.
  split; [eapply (inv_safe (inv mtu omtu)); [intros; by apply dec_step|exact init_inv]|].
  intros tr e (Homtu & iph & oph & ps & V)%(dec_reach mtu omtu e0 tr e init_inv).
  destruct V as [_ _ _ _ _ Hin _ Hseg Hi Ho Hsh Herr]. rewrite Homtu in *.
  assert (Hst : sr_state (input e) <> NONE -> oph = Idle /\
            waits omtu (slice (buf_start e) (buf_used e) (buf e))).
  { destruct Hin as (_ & -> & _). destruct iph; cbn; [done|..]; intros _; by destruct Hi as (? & _ & _ & ?). }
  split_and!; [| |done|done].
  - rewrite Hseg. eexists. split; [done|]. intros ?. by apply Hst.
  - destruct oph; [|destruct Ho as (_ & _ & _ & Ho)..|destruct Ho as (_ & Ho)].
    + exists []. by rewrite app_nil_r.
    + exists [slice d n (buf e)]. split_and!; try done. intros []%Hst. done.
    + exists [slice d n (buf e)]. split_and!; try done. intros []%Hst. done.
    + exists []. by rewrite app_nil_r.
Qed.

(** C9: when the bytes received so far are the beginning of the encodings of
    packets the output accepts, the decoder reports no error and submits
    these packets in order; once all bytes are received and it asks for more,
    the receiver has read all of them. *)
Theorem decoder_roundtrip qs more tr e :
  Forall (fun q => zlen q <= omtu) qs ->
  reach e0 tr e -> Reset ∉ tr -> recvd tr ++ more = encs qs ->
  (Error ∉ tr) /\
  (exists qs', qs = packets tr ++ qs') /\
  (more = [] -> sr_state (input e) <> NONE -> reads tr = qs).
Proof using Halloc Hmtu Hinit.
  intros Hq Hr Hres Heq. apply (dec_reach mtu omtu e0 tr e init_inv) in Hr as (Homtu & iph & oph & ps & V).
  destruct V as [[_ Hmax] _ _ _ _ Hin _ Hseg Hi Ho Hsh Herr]. rewrite Homtu in *.
  assert (Hs : short qs) by (eapply Forall_impl; [exact Hq|]; cbn; lia).
  pose proof (valid_no_error omtu qs tr more Herr Hres Hs Hq Hsh Hmax Heq) as Hno.
  rewrite seg_all in Hseg by done. injection Hseg as Hrec <-. rewrite Hrec, <- app_assoc in Heq.
  destruct (encs_prefix (packets tr) qs (slice (buf_start e) (buf_used e) (buf e)))
    as (qs' & -> & more' & Heq'); [|done|eauto|].
  { eapply Forall_impl; [exact Hsh|]. cbn. lia. }
  split_and!; [done|by eexists|]. intros -> Hst. rewrite app_nil_r, encs_app in Heq.
  apply app_inv_head in Heq.
  assert (Hw : oph = Idle /\ waits omtu (slice (buf_start e) (buf_used e) (buf e))).
  { destruct Hin as (_ & Hst' & _). rewrite Hst' in Hst. destruct iph; cbn in Hst; [done|..]; by destruct Hi as (? & _ & _ & ?). }
  destruct Hw as [-> Hw]. rewrite Heq in Hw. apply Forall_app in Hs as [_ Hs]. apply Forall_app in Hq as [_ Hq].
  rewrite (waits_encs _ _ Hs Hq Hw), app_nil_r. done.
Qed.
End initialised.

(** Two packets and an empty one, in chunks that cut the headers. *)
Definition alloc_example (n : Z) : option bytes := Some (repeat 0 (Z.to_nat n)).
Lemma dec_alloc_ok : alloc_ok alloc_example.
Proof.
  intros n l Hn [= <-]. unfold zlen. rewrite repeat_length. split; [lia|].
  apply Forall_forall. intros x Hx. apply list_elem_of_In, repeat_spec in Hx. subst. by vm_compute.
Qed.
Definition world_example : PacketProtoDecoder :=
  match PacketProtoDecoder_Init alloc_example (fresh 4) with Some (_, e, _) => e | None => fresh 0 end.
Definition feed (c : bytes) : list action := [InputStarts; InputWrites 0 c; InputFinishes (zlen c); InputDone].
Definition deliver : list action := [OutputStarts; OutputFinishes; OutputDone].
Definition acts_example : list action :=
  feed [2] ++ feed [0; 7; 8; 0; 0] ++ deliver ++ deliver ++ feed [1; 0; 9] ++ deliver.

Lemma decoder_correct_witness :
  safe world_example /\ errors_justified 4 [Recv [5; 0]; Error].
Proof.
  assert (H := decoder_correct alloc_example 4 world_example dec_alloc_ok ltac:(lia) ltac:(vm_compute; reflexivity)).
  destruct H as [Hs Hr]. split; [exact Hs|].
  destruct (run (feed [5; 0]) world_example) as [[e tr]|] eqn:Hrun.
  - destruct (Hr tr e (run_reach _ _ _ _ Hrun)) as (_ & _ & _ & Hj).
    vm_compute in Hrun. injection Hrun as <- <-. exact Hj.
  - vm_compute in Hrun. discriminate Hrun.
Defined.

Lemma decoder_roundtrip_witness :
  match run acts_example world_example with
  | Some (e, tr) => reads tr = [[7; 8]; []; [9]]
  | None => False
  end.
Proof.
  destruct (run acts_example world_example) as [[e tr]|] eqn:Hrun.
  - apply (decoder_roundtrip alloc_example 4 world_example dec_alloc_ok ltac:(lia)
      ltac:(vm_compute; reflexivity) [[7; 8]; []; [9]] [] tr e).
    + repeat constructor; vm_compute; congruence.
    + exact (run_reach _ _ _ _ Hrun).
    + vm_compute in Hrun. injection Hrun as <- <-. apply (bool_decide_unpack _). vm_compute. reflexivity.
    + vm_compute in Hrun. injection Hrun as <- <-. vm_compute. reflexivity.
    + reflexivity.
    + vm_compute in Hrun. injection Hrun as <- <-. vm_compute. congruence.
  - vm_compute in Hrun. discriminate Hrun.
Defined.
End Decoder.

(** * Framing packets: [PacketProtoFlow] without its buffer

    A [BufferWriter] lets the user write a packet directly into the buffer of
    the consumer, which the encoder has offset by the header it fills in. *)
Module Encoder.

Record PacketProtoEncoder := mk_enc {
  output : PacketRecvInterface Z;
  output_packet : option Z
}.
#[export] Instance eta_enc : Eta PacketProtoEncoder := fun e => mk_enc (output e) (output_packet e).

(** [mem] is the memory the consumer's buffers lie in. *)
Record PacketProtoFlow := mk_flow {
  ainput : BufferWriter Z;
  encoder : PacketProtoEncoder;
  mem : bytes
}.
#[export] Instance eta_flow : Eta PacketProtoFlow := fun f => mk_flow (ainput f) (encoder f) (mem f).

Inductive event := Put (p : bytes) | Framed (f : bytes).
Local Abbreviation M := (M PacketProtoFlow event).

(** PacketProtoEncoder.c *)

Definition output_handler_recv (data : Z) : M unit :=
  e ← gets encoder;
  assert (match output_packet e with None => true | Some _ => false end);;
  zoom encoder (output_packet ::= Some data);;
  zoom ainput (zoom recv_interface (PacketRecvInterface_Receiver_Recv (data + HDR))).

Definition input_handler_done (in_len : Z) : M unit :=
  f ← get;
  packet ← must (output_packet (encoder f));
  m ← must (mem_write packet (le_bytes 2 in_len) (mem f));
  mem ::= m;;
  zoom encoder (output_packet ::= None);;
  zoom encoder (zoom output (PacketRecvInterface_Done (PACKETPROTO_ENCLEN in_len))).

(** The encoder on top of the writer, [PacketProtoFlow_Init] up to the buffer. *)
Definition PacketProtoEncoder_Init : M unit :=
  mtu ← gets (fun f => pr_mtu (recv_interface (ainput f)));
  assert (mtu <=? PACKETPROTO_MAXPAYLOAD);;
  zoom ainput (zoom recv_interface PacketRecvInterface_Receiver_Init);;
  zoom encoder (output ::= PacketRecvInterface_Init (PACKETPROTO_ENCLEN mtu));;
  zoom encoder (output_packet ::= None).

Definition PacketProtoFlow_Init (input_mtu : Z) : M unit :=
  assert (0 <=? input_mtu);;
  assert (input_mtu <=? PACKETPROTO_MAXPAYLOAD);;
  ainput ::= BufferWriter_Init input_mtu;;
  PacketProtoEncoder_Init.

(** ** The environment *)

Inductive action :=
  | ConsumerConnects           (* PacketRecvInterface_Receiver_Init *)
  | ConsumerReceives (d : Z)   (* PacketRecvInterface_Receiver_Recv *)
  | OutputStarts
  | OutputDone
  | InputStarts
  | InputDone
  | StartPacket
  | WritePacket (off : Z) (data : bytes)
  | EndPacket (len : Z).

Definition exec_action (a : action) : M unit :=
  match a with
  | ConsumerConnects => zoom encoder (zoom output PacketRecvInterface_Receiver_Init)
  | ConsumerReceives d => zoom encoder (zoom output (PacketRecvInterface_Receiver_Recv d))
  | OutputStarts =>
      d ← zoom encoder (zoom output PacketRecvInterface_job_operation);
      output_handler_recv d
  | OutputDone =>
      f ← get;
      n ← zoom encoder (zoom output PacketRecvInterface_job_done);
      d ← must (pr_job_operation_data (output (encoder f)));
      p ← must (mem_read d n (mem f));
      emit (Framed p)
  | InputStarts => zoom ainput BufferWriter_job_operation
  | InputDone =>
      n ← zoom ainput (zoom recv_interface PacketRecvInterface_job_done);
      input_handler_done n
  | StartPacket => _ ← zoom ainput BufferWriter_StartPacket; mret tt
  | WritePacket off data =>
      f ← get;
      d ← must (out (ainput f));
      m ← must (mem_write (d + off) data (mem f));
      mem ::= m
  | EndPacket len =>
      f ← get;
      d ← must (out (ainput f));
      p ← must (mem_read d len (mem f));
      emit (Put p);;
      zoom ainput (BufferWriter_EndPacket len)
  end.

Definition action_enabled (f : PacketProtoFlow) (a : action) : bool :=
  let o := output (encoder f) in
  let i := recv_interface (ainput f) in
  match a with
  | ConsumerConnects => negb (pr_handler_done o)
  | ConsumerReceives d => pr_handler_done o && st_eq (pr_state o) NONE && in_bounds d (pr_mtu o) (zlen (mem f))
  | OutputStarts => st_eq (pr_state o) OPERATION_PENDING
  | OutputDone => st_eq (pr_state o) DONE_PENDING
  | InputStarts => st_eq (pr_state i) OPERATION_PENDING
  | InputDone => st_eq (pr_state i) DONE_PENDING
  | StartPacket => negb (d_writing (ainput f))
  | WritePacket off data => d_writing (ainput f) && (0 <=? off) && (off + zlen data <=? d_mtu (ainput f))
  | EndPacket len => d_writing (ainput f) && (0 <=? len) && (len <=? d_mtu (ainput f))
  end.
#[export] Instance enc_system : System PacketProtoFlow action event :=
  {| enabled := action_enabled; exec := exec_action |}.

Definition puts (tr : list event) : list bytes :=
  omap (fun e => match e with Put p => Some p | _ => None end) tr.
Definition frames (tr : list event) : list bytes :=
  omap (fun e => match e with Framed p => Some p | _ => None end) tr.
Lemma puts_snoc tr e : puts (tr ++ [e]) = puts tr ++ match e with Put p => [p] | _ => [] end.
Proof. unfold puts. rewrite omap_app. by destruct e. Qed.
Lemma frames_snoc tr e : frames (tr ++ [e]) = frames tr ++ match e with Framed p => [p] | _ => [] end.
Proof. unfold frames. rewrite omap_app. by destruct e. Qed.

(** Where the packet in progress is. *)
Inductive stage :=
  | Waiting (oph : phase Z) | Asked (d : Z) | Writing (d : Z) | Written (d k : Z) | Encoded (d k : Z).

Record view (mtu : Z) (conn : bool) (s : stage) (tr : list event) (f : PacketProtoFlow) : Prop := {
  v_mtu : 0 <= mtu <= PACKETPROTO_MAXPAYLOAD /\ d_mtu (ainput f) = mtu;
  v_output : if conn then pr_is (HDR + mtu)
      match s with
      | Waiting oph => oph
      | Asked d | Writing d | Written d _ => Busy d (HDR + mtu)
      | Encoded d k => Done d (HDR + mtu) (HDR + k)
      end (output (encoder f))
    else output (encoder f) = PacketRecvInterface_Init (HDR + mtu) /\ s = Waiting Idle;
  v_input : pr_is mtu
      match s with
      | Waiting _ | Encoded _ _ => Idle
      | Asked d => Op (d + HDR) mtu
      | Writing d => Busy (d + HDR) mtu
      | Written d k => Done (d + HDR) mtu k
      end (recv_interface (ainput f));
  v_stage : match s with
    | Waiting oph => match oph with Idle => True | Op d _ => 0 <= d /\ d + HDR + mtu <= zlen (mem f) | _ => False end
    | Asked d | Writing d | Written d _ | Encoded d _ => 0 <= d /\ d + HDR + mtu <= zlen (mem f)
    end;
  v_packet : output_packet (encoder f) = match s with
      | Waiting _ | Encoded _ _ => None
      | Asked d | Writing d | Written d _ => Some d
      end;
  v_writer : match s with
      | Writing d => out_have (ainput f) = true /\ out (ainput f) = Some (d + HDR)
      | _ => out_have (ainput f) = false /\ d_writing (ainput f) = false
      end;
  v_puts : exists ps, frames tr = enc <$> ps /\
      match s with
      | Written d k => puts tr = ps ++ [slice (d + HDR) k (mem f)]
      | Encoded d k => exists p, puts tr = ps ++ [p] /\ slice d (HDR + k) (mem f) = enc p
      | _ => puts tr = ps
      end;
  v_short : Forall (fun p => zlen p <= mtu) (puts tr)
}.

Definition inv (mtu : Z) (tr : list event) (f : PacketProtoFlow) : Prop :=
  exists conn s, view mtu conn s tr f.

(** The done job of the input: the header is put in front of the packet. *)
Lemma write_header (m : bytes) d k :
  0 <= d -> 0 <= k <= PACKETPROTO_MAXPAYLOAD -> d + HDR + k <= zlen m ->
  slice d (HDR + k) (splice d (le_bytes 2 k) m) = enc (slice (d + HDR) k m).
Proof.
  intros Hd Hk Hm. assert (Hl : zlen (le_bytes 2 k) = HDR) by by rewrite zlen_le_bytes.
  rewrite slice_split; [|unfold HDR in *; lia..|rewrite zlen_splice; unfold HDR in *; lia].
  rewrite slice_splice_same by (unfold HDR in *; lia).
  rewrite slice_splice_after by (unfold HDR in *; lia).
  unfold enc. rewrite zlen_slice by (unfold HDR in *; lia). done.
Qed.

Ltac stage_case H Hen s :=
  let Hp := fresh in
  pose proof (pr_phase _ _ _ _ H Hen) as Hp;
  destruct s as [[]| | | |]; try discriminate Hp; try contradiction; clear Hp.

(** Every action keeps the invariant. *)
Definition keeps (a : action) : Prop := forall mtu tr f,
  inv mtu tr f -> action_enabled f a = true ->
  wp (exec_action a) (fun _ f' t => inv mtu (tr ++ t) f') f.
Ltac keeps_start :=
  intros mtu tr f (conn & s & V) Ha; pose proof V as [[Hmtu Hdm] Hout Hin Hs Hpk Hw Hputs Hsh];
  cbn in Ha; b2p; unfold exec_action.

Lemma enc_keeps_ConsumerConnects : keeps ConsumerConnects.
Proof.
  keeps_start. destruct conn; [destruct Hout as (_ & Hc & _); congruence|]. destruct Hout as [Hout ->].
  mgo. sug. rewrite Hout. apply wp_pr_connect. intros o Ho. exists true, (Waiting Idle).
  rewrite app_nil_r. by split.
Qed.
Lemma enc_keeps_ConsumerReceives d : keeps (ConsumerReceives d).
Proof.
  keeps_start. destruct conn; [|destruct Hout as [Hout _]; rewrite Hout in H; discriminate].
  pose proof Hout as [Hom _]. rewrite Hom in *. stage_case Hout H1 s.
  mgo. eapply wp_pr_recv; [exact Hout|]. intros o Ho. exists true, (Waiting (Op d (HDR + mtu))).
  rewrite app_nil_r. unfold in_bounds in *. b2p. split; try done. sug. lia.
Qed.
Lemma enc_keeps_OutputStarts : keeps OutputStarts.
Proof.
  keeps_start. destruct conn; [|destruct Hout as [Hout _]; rewrite Hout in Ha; discriminate].
  stage_case Hout Ha s. pose proof Hout as (_ & _ & _ & _ & _ & _ & ->).
  mgo. eapply wp_pr_job_op; [exact Hout|]. intros o Ho. unfold output_handler_recv.
  mgo. mstep; [sug; by rewrite Hpk|]. mgo. eapply wp_pr_recv; [exact Hin|]. intros i Hi.
  exists true, (Asked d). rewrite app_nil_r. by split.
Qed.
Lemma enc_keeps_OutputDone : keeps OutputDone.
Proof.
  keeps_start. destruct conn; [|destruct Hout as [Hout _]; rewrite Hout in Ha; discriminate].
  stage_case Hout Ha s. pose proof Hout as (_ & _ & _ & _ & _ & Hd & _ & _ & Hk).
  destruct Hputs as (ps & Hf & p & Hp & Henc).
  mgo. eapply wp_pr_job_done; [exact Hout|]. intros _ o Ho.
  mgo. mstep; [apply mem_read_Some; unfold HDR in *; lia|]. mgo.
  exists true, (Waiting Idle). cbn [app].
  split; rewrite ?puts_snoc, ?frames_snoc, ?app_nil_r; try done.
  exists (ps ++ [p]). rewrite Hf, Henc, fmap_app. done.
Qed.
Lemma enc_keeps_InputStarts : keeps InputStarts.
Proof.
  keeps_start. stage_case Hin Ha s. destruct conn; [|by destruct Hout].
  unfold BufferWriter_job_operation, BufferWriter.output_handler_recv.
  mgo. eapply wp_pr_job_op; [exact Hin|]. intros i Hi. destruct Hw as [Hw1 Hw2]. mgo.
  exists true, (Writing d). rewrite app_nil_r. by split.
Qed.
Lemma enc_keeps_InputDone : keeps InputDone.
Proof.
  keeps_start. stage_case Hin Ha s. destruct conn; [|by destruct Hout].
  pose proof Hin as (_ & _ & _ & _ & _ & _ & _ & _ & Hk).
  mgo. eapply wp_pr_job_done; [exact Hin|]. intros _ i Hi. unfold input_handler_done.
  mgo. mstep; [apply mem_write_Some; rewrite ?zlen_le_bytes; unfold HDR in *; sug; lia|].
  mgo. unfold PACKETPROTO_ENCLEN. eapply wp_pr_done; [exact Hout|unfold HDR in *; lia|]. intros o Ho.
  destruct Hputs as (ps & Hf & Hp).
  exists true, (Encoded d k). rewrite app_nil_r. split; try done; sug.
  - rewrite zlen_splice; rewrite ?zlen_le_bytes; unfold HDR in *; lia.
  - exists ps. split; [done|]. exists (slice (d + HDR) k (mem f)). split; [done|].
    apply write_header; unfold HDR in *; lia.
Qed.
Lemma enc_keeps_StartPacket : keeps StartPacket.
Proof.
  keeps_start. unfold BufferWriter_StartPacket. mgo. mstep.
  - mstep. exists conn, s. by rewrite app_nil_r.
  - assert (Hwr : exists d, s = Writing d) by (destruct s; try (destruct Hw; b2p; congruence); eauto).
    destruct Hwr as [d ->]. destruct Hw as [Hoh Ho]. mgo.
    exists conn, (Writing d). rewrite app_nil_r. by split.
Qed.
Lemma enc_keeps_WritePacket off data : keeps (WritePacket off data).
Proof.
  keeps_start. assert (Hwr : exists d, s = Writing d) by (destruct s; try (destruct Hw; congruence); eauto).
  destruct Hwr as [d ->]. destruct Hw as [Hoh Ho]. destruct conn; [|by destruct Hout].
  mgo. assert (Hb : 0 <= d + HDR + off /\ d + HDR + off + zlen data <= zlen (mem f)) by (unfold HDR in *; lia).
  mstep; [apply mem_write_Some; lia|]. mgo. exists true, (Writing d). rewrite app_nil_r.
  split; try done. sug. rewrite zlen_splice; lia.
Qed.
Lemma enc_keeps_EndPacket len : keeps (EndPacket len).
Proof.
  keeps_start. assert (Hwr : exists d, s = Writing d) by (destruct s; try (destruct Hw; congruence); eauto).
  destruct Hwr as [d ->]. destruct Hw as [Hoh Ho]. destruct conn; [|by destruct Hout].
  mgo. mstep; [apply mem_read_Some; unfold HDR in *; lia|]. mgo. unfold BufferWriter_EndPacket. mgo.
  eapply wp_pr_done; [exact Hin|lia|]. intros i Hi. mgo. destruct Hputs as (ps & Hf & Hp).
  exists true, (Written d len). cbn [app].
  split; rewrite ?puts_snoc, ?frames_snoc, ?app_nil_r; try done.
  - exists ps. by rewrite Hp.
  - apply Forall_app. split; [done|]. constructor; [|done]. rewrite zlen_slice; unfold HDR in *; lia.
Qed.

Lemma enc_step mtu tr f a :
  inv mtu tr f -> action_enabled f a = true ->
  wp (exec_action a) (fun _ f' t => inv mtu (tr ++ t) f') f.
Proof.
  destruct a; [apply enc_keeps_ConsumerConnects|apply enc_keeps_ConsumerReceives|apply enc_keeps_OutputStarts
    |apply enc_keeps_OutputDone|apply enc_keeps_InputStarts|apply enc_keeps_InputDone|apply enc_keeps_StartPacket
    |apply enc_keeps_WritePacket|apply enc_keeps_EndPacket].
Qed.

Definition fresh (mem : bytes) : PacketProtoFlow :=
  mk_flow (BufferWriter_Init 0) (mk_enc (PacketRecvInterface_Init 0) None) mem.

Lemma wp_PacketProtoFlow_Init mtu m :
  0 <= mtu <= PACKETPROTO_MAXPAYLOAD ->
  wp (PacketProtoFlow_Init mtu) (fun _ f t => t = [] /\ inv mtu [] f) (fresh m).
Proof.
  intros Hm. unfold PacketProtoFlow_Init, PacketProtoEncoder_Init, fresh, BufferWriter_Init. mgo.
  apply wp_pr_connect. intros i Hi. mgo. split; [done|]. exists false, (Waiting Idle).
  split; try done. by exists [].
Qed.

(** C10: an encoder behind a buffer writer never violates an assertion or writes
    outside the buffers it is given, however the consumer, the jobs and the
    writer interleave; the consumer receives, for every packet the user has
    finished and in order, its PacketProto encoding, of length at most
    [2 + mtu], the last finished packet possibly being still on its way. *)
Theorem encoder_correct mtu m f0 :
  0 <= mtu <= PACKETPROTO_MAXPAYLOAD ->
  PacketProtoFlow_Init mtu (fresh m) = Some (tt, f0, []) ->
  safe f0 /\ forall tr f, reach f0 tr f ->
    exists ps rest, puts tr = ps ++ rest /\ zlen rest <= 1 /\ frames tr = enc <$> ps /\
      Forall (fun g => zlen g <= PACKETPROTO_ENCLEN mtu) (frames tr).
Proof.
  intros Hm Hinit.
  destruct (wp_run _ _ _ _ _ _ (wp_PacketProtoFlow_Init mtu m Hm) Hinit) as [_ H0].
  split; [eapply (inv_safe (inv mtu)); [intros; by apply enc_step|exact H0]|].
  intros tr f Hr. assert (H : inv mtu tr f).
  { revert Hr. apply reach_inv; [intros; by apply enc_step|exact H0]. }
  destruct H as (conn & s & [_ _ _ _ _ _ (ps & Hf & Hp) Hsh]). exists ps.
  assert (Hx : exists rest, puts tr = ps ++ rest /\ zlen rest <= 1).
  { destruct s; try (exists []; by rewrite app_nil_r).
    - by eexists.
    - destruct Hp as (p & Hp & _). by exists [p]. }
  destruct Hx as (rest & Hx & Hlen). exists rest. split_and!; try done.
  rewrite Hf, Hx in *. apply Forall_app in Hsh as [Hsh _]. apply Forall_fmap.
  eapply Forall_impl; [exact Hsh|]. intros p. cbn. rewrite zlen_enc. unfold PACKETPROTO_ENCLEN. lia.
Qed.

Definition world_example : PacketProtoFlow :=
  match PacketProtoFlow_Init 5 (fresh (repeat 7 12)) with Some (_, f, _) => f | None => fresh [] end.

Lemma encoder_correct_witness :
  safe world_example /\
  match run [ConsumerConnects; ConsumerReceives 4; OutputStarts; InputStarts; StartPacket;
             WritePacket 0 [1; 2]; EndPacket 3; InputDone; OutputDone] world_example with
  | Some (f, tr) =>
      frames tr = [[3; 0; 1; 2; 7]] /\
      exists ps rest, puts tr = ps ++ rest /\ zlen rest <= 1 /\ frames tr = enc <$> ps
  | None => False
  end.
Proof.
  assert (H := encoder_correct 5 (repeat 7 12) world_example ltac:(vm_compute; split; congruence)
    ltac:(vm_compute; reflexivity)).
  destruct H as [Hs Hr]. split; [exact Hs|].
  destruct (run _ world_example) as [[f tr]|] eqn:Hrun.
  - destruct (Hr tr f (run_reach _ _ _ _ Hrun)) as (ps & rest & H1 & H2 & H3 & _).
    split; [|exists ps, rest; exact (conj H1 (conj H2 H3))].
    vm_compute in Hrun. injection Hrun as _ <-. vm_compute. reflexivity.
  - vm_compute in Hrun. discriminate Hrun.
Defined.
End Encoder.
