(* ===== verification/FairQueue.v ===== *)
(** The fair packet queue: [flow/PacketPassFairQueue.c].

    Flows are identified by the address of their object.  The queue of flows
    waiting to send is any tree [T] with the laws of [OrdTree]: its nodes are
    the flow objects themselves, so the comparison reads the time of a flow in
    the store and the overflow handling, which changes the times of queued
    flows in place, has to keep the tree sorted.  Times are 64-bit. *)

From S2P Require Import Prelude System Interfaces OrdTree BAVL CArith.

Module FQ.

Definition FAIRQUEUE_MAX_TIME : Z := UINT64_MAX.

(** [D] stands for a data pointer. *)
Definition D : Type := Z.

Record Flow := mk_fl {
  input : PacketPassInterface D;
  handler_busy : bool;
  time : Z;
  is_queued : bool;
  queued_data : D;
  queued_len : Z
}.
#[export] Instance eta_fl : Eta Flow := fun f =>
  mk_fl (input f) (handler_busy f) (time f) (is_queued f) (queued_data f) (queued_len f).

Record PacketPassFairQueue (T : Type -> Type) := mk_fq {
  output : PacketPassInterface D;
  use_cancel : bool;
  packet_weight : Z;
  sending_flow : option Z;
  sending_len : Z;
  previous_flow : option Z;
  queued_tree : T Z;
  flows_list : list Z;
  freeing : bool;
  schedule_job : bool;  (* BPending_IsSet *)
  flows : gmap Z Flow   (* the flow objects *)
}.
Arguments mk_fq {T}. Arguments output {T}. Arguments use_cancel {T}.
Arguments packet_weight {T}. Arguments sending_flow {T}. Arguments sending_len {T}.
Arguments previous_flow {T}. Arguments queued_tree {T}. Arguments flows_list {T}.
Arguments freeing {T}. Arguments schedule_job {T}. Arguments flows {T}.
#[export] Instance eta_fq T : Eta (PacketPassFairQueue T) := fun m =>
  mk_fq (output m) (use_cancel m) (packet_weight m) (sending_flow m) (sending_len m)
    (previous_flow m) (queued_tree m) (flows_list m) (freeing m) (schedule_job m) (flows m).

Inductive event :=
  | Accepted (a : Z) (d : D) (n : Z)  (* flow [a] hands over a packet *)
  | Sending (a : Z) (d : D) (n : Z)   (* it is passed to the output *)
  | Finished (a : Z)                  (* it has been sent *)
  | BusyHandler (a : Z).              (* the busy handler of [a] is called *)

Section operations.
Context {T : Type -> Type} `{!OrdTree T}.
Local Abbreviation Q := (PacketPassFairQueue T).
Local Abbreviation M := (M Q event).
Implicit Types m : Q.

Definition time_of m (a : Z) : Z := default 0 (time <$> flows m !! a).
(** The value [compare_flows] compares. *)
Definition key m (a : Z) : Z * Z := (time_of m a, a).
Definition compare_flows m (f1 f2 : Z) : Z := compare_pair (key m f1) (key m f2).

Definition get_flow (a : Z) : M Flow := fl ← gets flows; must (fl !! a).
(** Run [p] on the object of flow [a]. *)
Definition on_flow {A} (a : Z) (p : Prelude.M Flow event A) : M A := fun m =>
  match flows m !! a with
  | Some fl =>
      match p fl with
      | Some (x, fl', t) => Some (x, upd flows <[a := fl']> m, t)
      | None => None
      end
  | None => None
  end.

Definition tree_first : M (option Z) := gets (fun m => ot_first (queued_tree m)).
Definition tree_insert (a : Z) : M bool :=
  m ← get;
  r ← must (ot_insert compare_pair (key m) a (queued_tree m));
  queued_tree ::= r.2;;
  mret r.1.
Definition tree_remove (a : Z) : M unit :=
  m ← get;
  t ← must (ot_remove a (queued_tree m));
  queued_tree ::= t.

Definition get_current_time : M Z :=
  m ← get;
  match sending_flow m with
  | Some s => f ← get_flow s; mret (time f)
  | None =>
      first_flow ← tree_first;
      th ← match first_flow with
           | Some a => f ← get_flow a; assert (is_queued f);; mret (time f, true)
           | None => mret (0, false)
           end;
      th ← match previous_flow m with
           | Some a =>
               f ← get_flow a;
               mret (if negb th.2 || (time f <? th.1) then (time f, true) else th)
           | None => mret th
           end;
      mret (if th.2 : bool then th.1 else 0)
  end.

(** The loop of [increment_sent_flow]. *)
Fixpoint subtract_all (l : list Z) (flow subtract : Z) : M unit :=
  match l with
  | [] => mret tt
  | someflow :: l =>
      f ← get_flow someflow;
      (if (time f <? subtract) && negb (someflow =? flow) then
         assert (negb (is_queued f));;
         on_flow someflow (time ::= 0)
       else
         on_flow someflow (time ::= u64 (time f - subtract)));;
      subtract_all l flow subtract
  end.

Definition increment_sent_flow (flow amount : Z) : M unit :=
  m ← get;
  f ← get_flow flow;
  assert (amount <=? FAIRQUEUE_MAX_TIME);;
  assert (negb (is_queued f));;
  assert (bool_decide (sending_flow m = None));;
  when (FAIRQUEUE_MAX_TIME - time f <? amount) (
    first_flow ← tree_first;
    subtract ← match first_flow with
               | None => mret (time f)
               | Some a => g ← get_flow a; assert (is_queued g);; mret (time g)
               end;
    subtract_all (flows_list m) flow subtract);;
  f ← get_flow flow;
  on_flow flow (time ::= u64 (time f + amount)).

Definition schedule : M unit :=
  m ← get;
  assert (bool_decide (sending_flow m = None));;
  assert (bool_decide (previous_flow m = None));;
  assert (negb (freeing m));;
  first ← tree_first;
  qflow ← must first;
  q ← get_flow qflow;
  assert (is_queued q);;
  tree_remove qflow;;
  on_flow qflow (is_queued ::= false);;
  zoom output (PacketPassInterface_Sender_Send (queued_data q) (queued_len q));;
  emit (Sending qflow (queued_data q) (queued_len q));;
  sending_flow ::= Some qflow;;
  sending_len ::= queued_len q.

Definition schedule_job_handler : M unit :=
  m ← get;
  assert (bool_decide (sending_flow m = None));;
  assert (negb (freeing m));;
  previous_flow ::= None;;
  first ← tree_first;
  match first with Some _ => schedule | None => mret tt end.

Definition input_handler_send (flow : Z) (data : D) (data_len : Z) : M unit :=
  m ← get;
  f ← get_flow flow;
  assert (negb (bool_decide (sending_flow m = Some flow)));;
  assert (negb (is_queued f));;
  assert (negb (freeing m));;
  (if bool_decide (previous_flow m = Some flow) then
     previous_flow ::= None
   else
     t ← get_current_time;
     on_flow flow (time ::= Z.max (time f) t));;
  on_flow flow (queued_data ::= data);;
  on_flow flow (queued_len ::= data_len);;
  res ← tree_insert flow;
  assert res;;
  on_flow flow (is_queued ::= true);;
  m ← get;
  when (bool_decide (sending_flow m = None) && negb (schedule_job m)) schedule.

Definition output_handler_done : M unit :=
  m ← get;
  flow ← must (sending_flow m);
  assert (bool_decide (previous_flow m = None));;
  assert (negb (schedule_job m));;
  assert (negb (freeing m));;
  f ← get_flow flow;
  assert (negb (is_queued f));;
  sending_flow ::= None;;
  previous_flow ::= Some flow;;
  increment_sent_flow flow (packet_weight m + sending_len m);;
  schedule_job ::= true;;
  on_flow flow (zoom input PacketPassInterface_Done);;
  emit (Finished flow);;
  when (handler_busy f) (
    on_flow flow (handler_busy ::= false);;
    emit (BusyHandler flow)).

Definition PacketPassFairQueue_Init (out : PacketPassInterface D) (uc : bool) (weight : Z) : M bool :=
  assert (0 <? weight);;
  assert (negb uc || pp_handler_requestcancel out);;
  put (mk_fq out uc weight None 0 None ot_empty [] false false ∅);;
  mtu ← zoom output PacketPassInterface_GetMTU;
  if negb ((mtu <=? FAIRQUEUE_MAX_TIME) && (weight <=? FAIRQUEUE_MAX_TIME - mtu)) then mret false else
  zoom output PacketPassInterface_Sender_Init;;
  mret true.

Definition PacketPassFairQueue_Free : M unit :=
  m ← get;
  assert (bool_decide (flows_list m = []));;
  assert (bool_decide (ot_first (queued_tree m) = None));;
  assert (bool_decide (previous_flow m = None));;
  assert (bool_decide (sending_flow m = None));;
  schedule_job ::= false.

Definition PacketPassFairQueue_PrepareFree : M unit := freeing ::= true.
Definition PacketPassFairQueue_GetMTU : M Z := zoom output PacketPassInterface_GetMTU.

Definition PacketPassFairQueueFlow_Init (flow : Z) : M unit :=
  m ← get;
  assert (negb (freeing m));;
  mtu ← zoom output PacketPassInterface_GetMTU;
  modify (upd flows <[flow := mk_fl (PacketPassInterface_Init mtu) false 0 false 0 0]>);;
  flows_list ::= flows_list m ++ [flow].

Definition PacketPassFairQueueFlow_Free (flow : Z) : M unit :=
  m ← get;
  f ← get_flow flow;
  assert (freeing m || negb (bool_decide (sending_flow m = Some flow)));;
  when (bool_decide (sending_flow m = Some flow)) (sending_flow ::= None);;
  when (bool_decide (previous_flow m = Some flow)) (previous_flow ::= None);;
  when (is_queued f) (tree_remove flow);;
  modify (upd flows_list (filter (fun a => a <> flow)));;
  modify (upd flows (delete flow)).

Definition PacketPassFairQueueFlow_IsBusy (flow : Z) : M bool :=
  m ← get;
  assert (negb (freeing m));;
  mret (bool_decide (sending_flow m = Some flow)).

Definition PacketPassFairQueueFlow_RequestCancel (flow : Z) : M unit :=
  m ← get;
  assert (bool_decide (sending_flow m = Some flow));;
  assert (use_cancel m);;
  assert (negb (freeing m));;
  assert (negb (schedule_job m));;
  zoom output PacketPassInterface_Sender_RequestCancel.

Definition PacketPassFairQueueFlow_SetBusyHandler (flow : Z) (handler : bool) : M unit :=
  m ← get;
  assert (bool_decide (sending_flow m = Some flow));;
  assert (negb (freeing m));;
  on_flow flow (handler_busy ::= handler).

(** ** The environment *)

Inductive action :=
  | NewFlow (a : Z)
  | FreeFlow (a : Z)
  | SetBusyHandler (a : Z)
  | FlowConnects (a : Z)
  | FlowSends (a : Z) (d : D) (n : Z)
  | FlowStarts (a : Z)   (* the operation job of the input of [a] *)
  | FlowDone (a : Z)     (* its done job *)
  | OutputStarts
  | OutputFinishes
  | OutputDone
  | ScheduleJob.

Definition exec_action (x : action) : M unit :=
  match x with
  | NewFlow a => PacketPassFairQueueFlow_Init a
  | FreeFlow a => PacketPassFairQueueFlow_Free a
  | SetBusyHandler a => PacketPassFairQueueFlow_SetBusyHandler a true
  | FlowConnects a => on_flow a (zoom input PacketPassInterface_Sender_Init)
  | FlowSends a d n => on_flow a (zoom input (PacketPassInterface_Sender_Send d n))
  | FlowStarts a =>
      r ← on_flow a (zoom input PacketPassInterface_job_operation);
      emit (Accepted a r.1 r.2);;
      input_handler_send a r.1 r.2
  | FlowDone a => on_flow a (zoom input PacketPassInterface_job_done)
  | OutputStarts => _ ← zoom output PacketPassInterface_job_operation; mret tt
  | OutputFinishes => zoom output PacketPassInterface_Done
  | OutputDone => zoom output PacketPassInterface_job_done;; output_handler_done
  | ScheduleJob => schedule_job ::= false;; schedule_job_handler
  end.

Definition flow_test m (a : Z) (p : Flow -> bool) : bool :=
  match flows m !! a with Some f => p f | None => false end.

Definition action_enabled m (x : action) : bool :=
  match x with
  | NewFlow a => bool_decide (flows m !! a = None)
  | FreeFlow a => flow_test m a (fun _ => true) && negb (bool_decide (sending_flow m = Some a))
  | SetBusyHandler a => bool_decide (sending_flow m = Some a)
  | FlowConnects a => flow_test m a (fun f => negb (pp_handler_done (input f)))
  | FlowSends a d n => flow_test m a (fun f =>
      pp_handler_done (input f) && st_eq (pp_state (input f)) NONE) && (0 <=? n) && (n <=? pp_mtu (output m))
  | FlowStarts a => flow_test m a (fun f => st_eq (pp_state (input f)) OPERATION_PENDING)
  | FlowDone a => flow_test m a (fun f => st_eq (pp_state (input f)) DONE_PENDING)
  | OutputStarts => st_eq (pp_state (output m)) OPERATION_PENDING
  | OutputFinishes => st_eq (pp_state (output m)) BUSY
  | OutputDone => st_eq (pp_state (output m)) DONE_PENDING
  | ScheduleJob => schedule_job m
  end.

#[export] Instance fq_system : System Q action event :=
  {| enabled := action_enabled; exec := exec_action |}.
End operations.

(** * The invariant *)

Section invariant.
Context {T : Type -> Type} `{!OrdTree T}.
Local Abbreviation Q := (PacketPassFairQueue T).
Implicit Types m : Q.

Definition busy m (a : Z) : bool := bool_decide (sending_flow m = Some a).

(** The interface of a flow, which is connected or not yet. *)
Definition flow_phase (mtu : Z) (ph : phase D) (f : Flow) : Prop :=
  pp_is mtu ph (input f) \/ (ph = Idle /\ input f = PacketPassInterface_Init mtu).

Record flow_ok (mtu : Z) m (a : Z) (f : Flow) : Prop := {
  fo_time : 0 <= time f <= FAIRQUEUE_MAX_TIME;
  fo_queued : a ∈ ot_elems (queued_tree m) <-> is_queued f = true;
  fo_input : exists ph, flow_phase mtu ph f /\
    if is_queued f then ph = Busy (queued_data f) (queued_len f) /\ sending_flow m <> Some a
    else if busy m a then exists d, ph = Busy d (sending_len m)
    else forall d n, ph <> Busy d n
}.

Record core (mtu : Z) m : Prop := {
  i_mtu : 0 <= mtu /\ 0 < packet_weight m /\ packet_weight m + mtu <= FAIRQUEUE_MAX_TIME;
  i_freeing : freeing m = false;
  i_list : NoDup (flows_list m) /\ (forall a, a ∈ flows_list m <-> is_Some (flows m !! a));
  i_tree : ot_wf (queued_tree m) /\ sorted compare_pair (key m) (ot_elems (queued_tree m)) /\
           (forall a, a ∈ ot_elems (queued_tree m) -> is_Some (flows m !! a));
  i_flows : forall a f, flows m !! a = Some f -> flow_ok mtu m a f;
  i_output : exists oph, pp_is mtu oph (output m) /\
    match sending_flow m with
    | Some s =>
        is_Some (flows m !! s) /\ previous_flow m = None /\ schedule_job m = false /\
        0 <= sending_len m <= mtu /\ oph <> Idle /\
        (forall a, a ∈ ot_elems (queued_tree m) -> time_of m s <= time_of m a)
    | None => oph = Idle
    end;
  i_previous : forall p, previous_flow m = Some p ->
    exists f, flows m !! p = Some f /\ is_queued f = false
}.

(** When nothing is being sent, a job that will look for the next packet is
    scheduled, or nothing is waiting. *)
Definition inv (mtu : Z) m : Prop :=
  core mtu m /\
  (sending_flow m = None -> schedule_job m = false ->
   ot_elems (queued_tree m) = [] /\ previous_flow m = None).
End invariant.

Section laws.
Context {T : Type -> Type} `{!OrdTree T} `{!OrdTreeLaws T}.
Local Abbreviation Q := (PacketPassFairQueue T).
Implicit Types m : Q.

Lemma wp_get_flow a f m (P : Flow -> Q -> list event -> Prop) :
  flows m !! a = Some f -> P f m [] -> wp (get_flow a) P m.
Proof. intros Hf HP. unfold get_flow. mgo. exact HP. Qed.

Lemma wp_on_flow {A} a f (p : M Flow event A) m (P : A -> Q -> list event -> Prop) :
  flows m !! a = Some f -> wp p (fun x f' t => P x (upd flows <[a := f']> m) t) f ->
  wp (on_flow a p) P m.
Proof.
  intros Hf. unfold wp, on_flow. rewrite Hf. by destruct (p f) as [[[x f'] t]|].
Qed.

Lemma time_of_Some m a f : flows m !! a = Some f -> time_of m a = time f.
Proof. intros H. unfold time_of. by rewrite H. Qed.

Lemma flow_queued mtu m a f : core mtu m -> flows m !! a = Some f ->
  (a ∈ ot_elems (queued_tree m) <-> is_queued f = true).
Proof. intros Hc Hf. apply (i_flows _ _ Hc _ _ Hf). Qed.

Lemma key_inj m a b : key m a = key m b -> a = b.
Proof. unfold key. congruence. Qed.

(** ** Times *)

(** [adj]: what the loop does to one flow. *)
Definition adj (flow subtract x : Z) (f : Flow) : Flow :=
  if (time f <? subtract) && negb (x =? flow) then f <| time := 0 |>
  else f <| time := u64 (time f - subtract) |>.

Lemma wp_subtract_all l flow s m (P : unit -> Q -> list event -> Prop) :
  NoDup l ->
  (forall a, a ∈ l -> exists f, flows m !! a = Some f /\ (time f < s -> a <> flow -> is_queued f = false)) ->
  (forall F, (forall x, F !! x = if bool_decide (x ∈ l) then adj flow s x <$> flows m !! x else flows m !! x) ->
     P tt (m <| flows := F |>) []) ->
  wp (subtract_all l flow s) P m.
Proof.
  intros Hl. revert m P. induction Hl as [|a l Ha Hl IH]; intros m P Hex HP; cbn [subtract_all].
  - mstep. specialize (HP (flows m)). destruct m. apply HP. intros x. rewrite bool_decide_false; [done|].
    by apply not_elem_of_nil.
  - destruct (Hex a) as (f & Hf & Hq); [by left|].
    mstep. eapply wp_get_flow; [done|]. mstep.
    eapply wp_mono with (Q := fun _ m' t => m' = m <| flows := <[a := adj flow s a f]> (flows m) |> /\ t = []).
    { unfold adj. destruct ((time f <? s) && negb (a =? flow)) eqn:Hb.
      - b2p. mgo. mstep; [by rewrite Hq|]. eapply wp_on_flow; [done|]. by mgo.
      - eapply wp_on_flow; [done|]. by mgo. }
    intros [] m' t [-> ->]. apply IH.
    + intros x Hx. sug. rewrite lookup_insert_ne by (by intros ->). apply Hex. by right.
    + intros F HF. apply HP. intros x. rewrite HF. sug.
      destruct (decide (x = a)) as [->|Hne].
      * rewrite bool_decide_false by done. rewrite bool_decide_true by (by left).
        by rewrite lookup_insert_eq, Hf.
      * rewrite lookup_insert_ne by done.
        erewrite (bool_decide_ext (x ∈ a :: l) (x ∈ l)); [done|]. rewrite elem_of_cons. tauto.
Qed.

(** The exact effect on the time of a flow that is charged [amount]: all
    times are moved back by [sub]. *)
Definition charged (flow amount sub x : Z) (f : Flow) : Flow :=
  f <| time := if x =? flow then time f + amount - sub else Z.max 0 (time f - sub) |>.

(** The last statement adds the amount to the time of the flow. *)
Lemma wp_add_amount m flow f amount F sub (P : unit -> Q -> list event -> Prop) :
  (forall a g, flows m !! a = Some g -> 0 <= time g <= FAIRQUEUE_MAX_TIME) ->
  flows m !! flow = Some f -> 0 <= sub -> 0 <= time f + amount - sub <= FAIRQUEUE_MAX_TIME ->
  (sub = 0 /\ F = flows m \/ forall x, F !! x = adj flow sub x <$> flows m !! x) ->
  (forall F, (forall x, F !! x = charged flow amount sub x <$> flows m !! x) -> P tt (m <| flows := F |>) []) ->
  wp (f ← get_flow flow; on_flow flow (time ::= u64 (time f + amount))) P (m <| flows := F |>).
Proof.
  intros Hfl Hf Hsub Hsum HF HP. pose proof (Hfl _ _ Hf) as Ht.
  assert (Hff : exists f', F !! flow = Some f' /\ f' <| time := 0 |> = f <| time := 0 |> /\
            time f' = u64 (time f - sub)).
  { destruct HF as [[-> ->]|HF]; [exists f|].
    - split_and!; [done|done|]. unfold u64, FAIRQUEUE_MAX_TIME, UINT64_MAX in *.
      rewrite Z.mod_small by lia. lia.
    - exists (f <| time := u64 (time f - sub) |>). rewrite HF, Hf. cbn. unfold adj.
      rewrite Z.eqb_refl, andb_false_r. done. }
  destruct Hff as (f' & Hf' & Heq & Htf').
  mstep. eapply wp_get_flow; [done|]. eapply wp_on_flow; [done|]. mstep.
  assert (Htime : u64 (time f' + amount) = time f + amount - sub).
  { rewrite Htf'. unfold u64. rewrite Zplus_mod_idemp_l. unfold FAIRQUEUE_MAX_TIME, UINT64_MAX in *.
    rewrite Z.mod_small; lia. }
  rewrite Htime. eapply HP.
  intros x. destruct (decide (x = flow)) as [->|Hne].
  - sug. rewrite lookup_insert_eq, Hf. cbn. f_equal. unfold charged. rewrite Z.eqb_refl.
    destruct f', f. unfold upd in *. cbn in *. congruence.
  - sug. rewrite lookup_insert_ne by done. destruct (flows m !! x) as [g|] eqn:Hg.
    + pose proof (Hfl _ _ Hg) as Hgt. cbn. unfold charged. rewrite (proj2 (Z.eqb_neq _ _) Hne).
      destruct HF as [[-> ->]|HF].
      * rewrite Hg. f_equal. destruct g. unfold upd; cbn in *. f_equal. lia.
      * rewrite HF, Hg. cbn. f_equal. unfold adj. rewrite (proj2 (Z.eqb_neq _ _) Hne), andb_true_r.
        destruct (time g <? sub) eqn:Hlt; b2p; unfold upd; cbn; f_equal; [lia|].
        unfold u64, FAIRQUEUE_MAX_TIME, UINT64_MAX in *. rewrite Z.mod_small by lia. lia.
    + destruct HF as [[-> ->]|HF]; [by rewrite Hg|by rewrite HF, Hg].
Qed.

Lemma wp_increment m flow f amount (P : unit -> Q -> list event -> Prop) :
  NoDup (flows_list m) -> (forall a, a ∈ flows_list m <-> is_Some (flows m !! a)) ->
  sorted compare_pair (key m) (ot_elems (queued_tree m)) ->
  (forall a g, flows m !! a = Some g ->
     0 <= time g <= FAIRQUEUE_MAX_TIME /\ (a ∈ ot_elems (queued_tree m) <-> is_queued g = true)) ->
  (forall a, a ∈ ot_elems (queued_tree m) -> is_Some (flows m !! a)) ->
  flows m !! flow = Some f -> is_queued f = false -> sending_flow m = None ->
  (forall a, a ∈ ot_elems (queued_tree m) -> time f <= time_of m a) ->
  0 <= amount <= FAIRQUEUE_MAX_TIME ->
  (forall F sub, 0 <= sub -> 0 <= time f + amount - sub <= FAIRQUEUE_MAX_TIME ->
     (forall x, F !! x = charged flow amount sub x <$> flows m !! x) ->
     (forall a, a ∈ ot_elems (queued_tree m) -> sub <= time_of m a) ->
     P tt (m <| flows := F |>) []) ->
  wp (increment_sent_flow flow amount) P m.
Proof.
  intros Hnd Hlist Hsort Hfl Htree Hf Hq Hs Hmin Ham HP.
  pose proof (Hfl _ _ Hf) as [Ht Hfq].
  assert (Hnotin : flow ∉ ot_elems (queued_tree m)) by (rewrite Hfq, Hq; done).
  assert (Hend : forall F sub, 0 <= sub -> 0 <= time f + amount - sub <= FAIRQUEUE_MAX_TIME ->
    (sub = 0 /\ F = flows m \/ forall x, F !! x = adj flow sub x <$> flows m !! x) ->
    (forall a, a ∈ ot_elems (queued_tree m) -> sub <= time_of m a) ->
    wp (f ← get_flow flow; on_flow flow (time ::= u64 (time f + amount))) P (m <| flows := F |>)).
  { intros F sub Hsub Hsum HF Hqs. eapply wp_add_amount; eauto. intros a g Hg. by apply (Hfl a g). }
  unfold increment_sent_flow. mstep; mstep. mstep. eapply wp_get_flow; [done|].
  mgo. mstep; b2p; cbn [app].
  - (* the overflow branch *)
    unfold tree_first. mgo. rewrite ot_first_spec.
    assert (Hloop : forall sub, 0 <= sub -> 0 <= time f + amount - sub <= FAIRQUEUE_MAX_TIME ->
      (forall a, a ∈ ot_elems (queued_tree m) -> sub <= time_of m a) ->
      wp (subtract_all (flows_list m) flow sub) (fun _ s2 t2 =>
        wp (f ← get_flow flow; on_flow flow (time ::= u64 (time f + amount)))
          (fun b s3 t3 => P b s3 (t2 ++ t3)) s2) m).
    { intros sub Hsub Hsum Hqs. apply wp_subtract_all; [done|..].
      - intros a Ha. apply Hlist in Ha as [g Hg]. exists g. split; [done|]. intros Hlt _.
        pose proof (Hfl _ _ Hg) as [_ Hgq]. destruct (is_queued g); [|done]. exfalso.
        assert (Hin : a ∈ ot_elems (queued_tree m)) by by apply Hgq.
        specialize (Hqs a Hin). rewrite (time_of_Some _ _ _ Hg) in Hqs. lia.
      - intros F HF. apply (Hend F sub); try done. right. intros x. rewrite HF.
        destruct (bool_decide _) eqn:Hb; [done|]. b2p. rewrite Hlist in Hb.
        apply eq_None_not_Some in Hb. by rewrite Hb. }
    destruct (head (ot_elems (queued_tree m))) as [a|] eqn:Hhd.
    + assert (Hin : a ∈ ot_elems (queued_tree m)) by by apply list_elem_of_lookup_2 with 0%nat; rewrite <- head_lookup.
      destruct (Htree a Hin) as [g Hg]. pose proof (Hfl _ _ Hg) as [Hgt Hgq].
      mstep. eapply wp_get_flow; [done|]. mgo. mstep; [by apply Hgq|]. mgo. cbn [app].
      pose proof (time_of_Some _ _ _ Hg) as Hta. pose proof (Hmin a Hin).
      apply Hloop; [lia|lia|].
      intros b Hb. destruct (ot_elems (queued_tree m)) as [|x l] eqn:He; [done|]. injection Hhd as ->.
      apply elem_of_cons in Hb as [->|Hb]; [lia|].
      apply StronglySorted_inv in Hsort as [_ Hsort]. rewrite Forall_forall in Hsort.
      specialize (Hsort b Hb). unfold before in Hsort. apply compare_pair_lt in Hsort. cbn in Hsort. lia.
    + mgo. apply Hloop; [lia|lia|].
      intros b Hb. destruct (ot_elems (queued_tree m)); [by apply elem_of_nil in Hb|done].
  - assert (m = m <| flows := flows m |>) as -> by by destruct m.
    apply (Hend (flows m) 0); try lia; [auto|].
    intros a Ha. destruct (Htree a Ha) as [g Hg]. rewrite (time_of_Some _ _ _ Hg).
    apply (Hfl _ _ Hg).
Qed.

(** ** Changes that leave the other flows alone *)

Lemma flow_ok_mono mtu m m' a f :
  flow_ok mtu m a f ->
  (a ∈ ot_elems (queued_tree m') <-> a ∈ ot_elems (queued_tree m)) ->
  (sending_flow m' = Some a <-> sending_flow m = Some a) ->
  (sending_flow m = Some a -> sending_len m' = sending_len m) ->
  flow_ok mtu m' a f.
Proof.
  intros [Ht Hq (ph & Hph & Hcase)] Hel Hs Hlen. split; [done|by rewrite Hel|].
  exists ph. split; [done|].
  destruct (is_queued f); [by rewrite Hs|].
  unfold busy in *. rewrite (bool_decide_ext _ _ Hs).
  destruct (bool_decide (sending_flow m = Some a)) eqn:Hb; b2p; [|done].
  destruct Hcase as [d Hd]. exists d. by rewrite Hlen.
Qed.

Lemma sorted_key m m' l :
  (forall a, a ∈ l -> time_of m' a = time_of m a) ->
  sorted compare_pair (key m) l -> sorted compare_pair (key m') l.
Proof.
  intros H. apply sorted_ext. intros a b Ha Hb. unfold before, key. by rewrite !H.
Qed.

Lemma time_of_insert m a f b (fs : gmap Z Flow) :
  fs = <[a := f]> (flows m) -> a <> b \/ time f = time_of m a ->
  default 0 (time <$> fs !! b) = time_of m b.
Proof.
  intros -> H. unfold time_of. destruct (decide (a = b)) as [->|].
  - rewrite lookup_insert_eq. cbn. destruct H; [done|]. done.
  - by rewrite lookup_insert_ne.
Qed.

(** ** Service *)

(** What flow [a] is charged for the packets it is allowed to send. *)
Definition service (weight a : Z) (t : list event) : Z :=
  foldr (fun e n => match e with
    | Sending b _ k => if b =? a then weight + k + n else n
    | _ => n
    end) 0 t.
Definition backlogged m (a : Z) : Prop :=
  a ∈ ot_elems (queued_tree m) \/ sending_flow m = Some a \/ previous_flow m = Some a.
(** The time of a flow, the packet being sent included. *)
Definition vtime m (a : Z) : Z :=
  time_of m a + if bool_decide (sending_flow m = Some a) then packet_weight m + sending_len m else 0.

(** One step: all backlogged flows move by the same amount, besides what they
    are charged; only the flow that is furthest behind sends. *)
Definition fair_step m m' (t : list event) : Prop :=
  packet_weight m' = packet_weight m /\
  (exists sub, forall a, backlogged m a -> backlogged m' a ->
     vtime m' a = vtime m a + service (packet_weight m) a t - sub) /\
  (forall a, 0 <= service (packet_weight m) a t) /\
  (forall a b mtu, inv mtu m' -> 0 < service (packet_weight m) a t -> backlogged m a -> backlogged m b ->
     backlogged m' b -> b <> a ->
     vtime m a <= vtime m b /\ service (packet_weight m) a t <= packet_weight m + mtu /\
     service (packet_weight m) b t = 0).

Lemma fair_step_quiet m m' t :
  packet_weight m' = packet_weight m -> (forall a, service (packet_weight m) a t = 0) ->
  (forall a, backlogged m a -> backlogged m' a -> vtime m' a = vtime m a) ->
  fair_step m m' t.
Proof.
  intros Hw Ht Hv. split_and!; [done| | |].
  - exists 0. intros a H1 H2. rewrite Hv, Ht by done. lia.
  - intros a. rewrite Ht. lia.
  - intros a b mtu _. rewrite Ht. lia.
Qed.

(** ** Sending the next packet *)

Lemma wp_schedule mtu m a l (P : unit -> Q -> list event -> Prop) :
  core mtu m -> sending_flow m = None -> previous_flow m = None -> schedule_job m = false ->
  ot_elems (queued_tree m) = a :: l ->
  (forall m' f, inv mtu m' -> flows m !! a = Some f -> sending_flow m' = Some a ->
     flows m' = <[a := f <| is_queued := false |>]> (flows m) ->
     ot_elems (queued_tree m') = l -> previous_flow m' = None -> sending_len m' = queued_len f ->
     packet_weight m' = packet_weight m ->
     (forall b, b ∈ a :: l -> compare_flows m a b = -1 \/ b = a) ->
     P tt m' [Sending a (queued_data f) (queued_len f)]) ->
  wp schedule P m.
Proof.
  intros Hc Hs Hp Hj He HP. destruct Hc as [Hmtu Hfr [Hnd Hlist] [Hwf [Hsort Htree]] Hfl (oph & Hout & Ho) Hprev].
  rewrite Hs in Ho. subst oph.
  assert (Hin : a ∈ ot_elems (queued_tree m)) by (rewrite He; left).
  destruct (Htree a Hin) as [f Hf]. pose proof (Hfl _ _ Hf) as [Hft Hfq (ph & Hph & Hcase)].
  assert (Hqt : is_queued f = true) by by apply Hfq.
  rewrite Hqt in Hcase. destruct Hcase as [-> _].
  destruct Hph as [Hph|[? _]]; [|done]. destruct (Hph) as (_ & _ & _ & _ & _ & _ & _ & _ & Hlen).
  destruct (ot_remove_in a (queued_tree m) [] l Hwf He ltac:(apply not_elem_of_nil)) as (t' & Hrem & Hwf' & He').
  cbn [app] in He'. rewrite He in Hsort.
  pose proof (sorted_NoDup compare_pair (key m) _ Hsort) as Hndt. apply NoDup_cons in Hndt as [Hnal _].
  unfold schedule. mgo. unfold tree_first. mgo. rewrite ot_first_spec, He. cbn [head].
  mgo. eapply wp_get_flow; [done|]. mgo. unfold tree_remove. mgo.
  eapply wp_on_flow; [done|]. mgo. eapply wp_pp_send; [exact Hout|exact Hlen|]. intros o Ho. mgo. cbn [app].
  eapply (HP _ f); try done.
  - split; [|done]. split; try done; sug.
    + split; [done|]. intros b. rewrite Hlist. destruct (decide (a = b)) as [<-|].
      * rewrite lookup_insert_eq, Hf. split; eauto.
      * by rewrite lookup_insert_ne.
    + split_and!; [done| |].
      * rewrite He'. apply StronglySorted_inv in Hsort as [Hsort _].
        eapply sorted_key; [|exact Hsort]. intros b Hb. apply (time_of_insert m a (f <| is_queued := false |>)); [done|].
        right. by rewrite (time_of_Some _ _ _ Hf).
      * intros b Hb. destruct (decide (a = b)) as [<-|]; [rewrite lookup_insert_eq; eauto|].
        rewrite lookup_insert_ne by done. apply Htree. rewrite He. right. by rewrite <- He'.
    + intros b g. destruct (decide (a = b)) as [<-|Hne].
      * rewrite lookup_insert_eq. intros [= <-]. split; [done| |].
        { sug. rewrite He'. split; [done|discriminate]. }
        eexists. split; [left; exact Hph|]. sug. unfold busy. sug. rewrite bool_decide_true by done. eauto.
      * rewrite lookup_insert_ne by done. intros Hg.
        eapply flow_ok_mono; [by apply Hfl| | |]; sug; rewrite ?He', ?He, ?Hs.
        { rewrite elem_of_cons. split; [auto|]. by intros [->|]. }
        { split; congruence. } { congruence. }
    + eexists. split; [exact Ho|]. split_and!; try done; try lia.
      { rewrite lookup_insert_eq. eauto. }
      intros b. rewrite He'. intros Hb. apply StronglySorted_inv in Hsort as [_ Hsort].
      rewrite Forall_forall in Hsort. specialize (Hsort b Hb). unfold before in Hsort.
      apply compare_pair_lt in Hsort. cbn in Hsort. unfold time_of at 1 2. sug.
      rewrite lookup_insert_eq, lookup_insert_ne by congruence. cbn.
      fold (time_of m b). rewrite (time_of_Some _ _ _ Hf) in Hsort. lia.
    + intros p Hpp. congruence.
  - intros b [->|Hb]%elem_of_cons; [auto|]. left. apply StronglySorted_inv in Hsort as [_ Hsort].
    rewrite Forall_forall in Hsort. by apply Hsort.
Qed.

(** ** Queueing a flow *)

Lemma wp_get_current_time m (P : Z -> Q -> list event -> Prop) :
  (forall x f, flows m !! x = Some f -> 0 <= time f <= FAIRQUEUE_MAX_TIME) ->
  (forall s, sending_flow m = Some s -> is_Some (flows m !! s)) ->
  (forall p, previous_flow m = Some p -> is_Some (flows m !! p)) ->
  (forall x, x ∈ ot_elems (queued_tree m) -> exists f, flows m !! x = Some f /\ is_queued f = true) ->
  (forall c, 0 <= c <= FAIRQUEUE_MAX_TIME ->
     (forall s, sending_flow m = Some s -> c = time_of m s) -> P c m []) ->
  wp get_current_time P m.
Proof.
  intros Ht Hs Hp Hq HP. unfold get_current_time. mgo.
  destruct (sending_flow m) as [s|] eqn:Hsend.
  - destruct (Hs s eq_refl) as [f Hf]. mstep. eapply wp_get_flow; [done|]. mstep.
    apply HP; [by eapply Ht|]. intros ? [= <-]. by rewrite (time_of_Some _ _ _ Hf).
  - unfold tree_first. mgo. rewrite ot_first_spec.
    apply wp_mono with (Q := fun th m' t => m' = m /\ t = [] /\ 0 <= th.1 <= FAIRQUEUE_MAX_TIME).
    { destruct (ot_elems (queued_tree m)) as [|x l] eqn:He; cbn [head].
      - mstep. by split_and!.
      - destruct (Hq x) as (f & Hf & Hqf); [left|]. mstep. eapply wp_get_flow; [done|]. mgo.
        split_and!; try done; by eapply Ht. }
    intros [c h] m' t (-> & -> & Hc). mstep.
    apply wp_mono with (Q := fun th m' t => m' = m /\ t = [] /\ 0 <= th.1 <= FAIRQUEUE_MAX_TIME).
    { destruct (previous_flow m) as [p|].
      - destruct (Hp p eq_refl) as [f Hf]. mstep. eapply wp_get_flow; [done|]. mstep.
        pose proof (Ht _ _ Hf). destruct (_ || _); cbn in *; split_and!; try done; lia.
      - mstep. done. }
    intros [c' h'] m' t (-> & -> & Hc'). mstep. apply HP; [|done].
    destruct h'; cbn in *; [done|]. unfold FAIRQUEUE_MAX_TIME, UINT64_MAX. lia.
Qed.

(** The queue with [a] inserted by the new times is sorted by them. *)
Lemma insert_flow_sorted m a g g' l : time g = time g' ->
  StronglySorted (before compare_pair (key m)) l -> a ∉ l ->
  StronglySorted (before compare_pair (fun b => (default 0 (time <$> (<[a := g']> (flows m)) !! b), b)))
    (insert_sorted compare_pair (fun b => (default 0 (time <$> (<[a := g]> (flows m)) !! b), b)) a l).
Proof.
  intros Hg Hsort Hnin.
  eapply (sorted_ext compare_pair compare_pair); [|apply (insert_sorted_sorted compare_pair)].
  - intros x y _ _. unfold before.
    destruct (decide (a = x)) as [<-|], (decide (a = y)) as [<-|];
      rewrite ?lookup_insert_eq, ?lookup_insert_ne by done; cbn; rewrite ?Hg; exact id.
  - eapply sorted_ext; [|exact Hsort]. intros x y Hx Hy. unfold before, key, time_of.
    rewrite !lookup_insert_ne by (by intros ->). exact id.
  - apply find_equal_None, Forall_forall. intros x Hx Heq. apply compare_pair_eq in Heq. congruence.
Qed.

(** A flow that offers packet [(d, n)] is in the phase of that packet. *)
Lemma pp_is_phase mtu f ph d n :
  pp_is mtu (Op d n) (input f) -> flow_phase mtu ph f -> ph = Op d n.
Proof.
  intros Hi [H|[-> H]].
  - destruct Hi as (_ & _ & Hst & _ & _ & _ & Hdd & Hnn & _). destruct H as (_ & _ & Hst' & _ & _ & _ & H).
    rewrite Hst in Hst'. destruct ph; try discriminate Hst'. destruct H as (H1 & H2 & _). congruence.
  - rewrite H in Hi. by destruct Hi as (_ & ? & _).
Qed.

(** The queue with flow [a] inserted at time [t]. *)
Lemma core_insert mtu m a f i t d n tr' prev :
  core mtu m -> flows m !! a = Some f -> pp_is mtu (Op d n) (input f) ->
  pp_is mtu (Busy d n) i -> 0 <= t <= FAIRQUEUE_MAX_TIME ->
  (forall s, sending_flow m = Some s -> time_of m s <= t) ->
  (prev = previous_flow m \/ prev = None) -> (prev <> Some a) ->
  ot_wf tr' ->
  ot_elems tr' = insert_sorted compare_pair
    (fun b => (default 0 (time <$> (<[a := mk_fl i (handler_busy f) t false d n]> (flows m)) !! b), b)) a
    (ot_elems (queued_tree m)) ->
  a ∉ ot_elems (queued_tree m) ->
  core mtu (m <| previous_flow := prev |> <| queued_tree := tr' |>
              <| flows := <[a := mk_fl i (handler_busy f) t true d n]> (flows m) |>).
Proof.
  intros Hc Hf Hi Hi' Ht Hs Hprev Hpa Hwf' He' Hnin.
  destruct Hc as [Hmtu Hfr [Hnd Hlist] [Hwf [Hsort Htree]] Hfl (oph & Hout & Ho) Hpv].
  pose proof (Hfl _ _ Hf) as [Hft Hfq (ph & Hph & Hcase)].
  pose proof (pp_is_phase mtu f ph d n Hi Hph) as ->.
  assert (Hqf : is_queued f = false).
  { destruct (is_queued f); [|done]. by destruct Hcase. }
  rewrite Hqf in Hcase. unfold busy in Hcase.
  destruct (bool_decide (sending_flow m = Some a)) eqn:Hba; b2p; [by destruct Hcase|].
  set (F := <[a := mk_fl i (handler_busy f) t true d n]> (flows m)).
  assert (Hel : forall b, b ∈ ot_elems tr' <-> b = a \/ b ∈ ot_elems (queued_tree m)).
  { intros b. rewrite He'. apply insert_sorted_elem. }
  assert (Hkey : forall b, default 0 (time <$> F !! b) = if decide (b = a) then t else time_of m b).
  { intros b. unfold F, time_of. destruct (decide (b = a)) as [->|]; [by rewrite lookup_insert_eq|].
    by rewrite lookup_insert_ne. }
  split; try done; sug; fold F.
  - split; [done|]. intros b. rewrite Hlist. unfold F. destruct (decide (a = b)) as [<-|].
    + rewrite lookup_insert_eq, Hf. split; eauto.
    + by rewrite lookup_insert_ne.
  - split_and!; [done| |].
    + rewrite He'. by apply (insert_flow_sorted m a (mk_fl i (handler_busy f) t false d n) (mk_fl i (handler_busy f) t true d n)).
    + intros b [->|Hb]%Hel; [unfold F; rewrite lookup_insert_eq; eauto|].
      unfold F. rewrite lookup_insert_ne by (by intros ->). by apply Htree.
  - intros b g. unfold F. destruct (decide (a = b)) as [<-|Hne].
    + rewrite lookup_insert_eq. intros [= <-]. split; [done| |].
      * cbn. rewrite Hel. split; [done|auto].
      * exists (Busy d n). split; [by left|]. cbn. done.
    + rewrite lookup_insert_ne by done. intros Hg. eapply flow_ok_mono; [by apply Hfl|..]; sug; try done.
      rewrite Hel. split; [|auto]. by intros [->|].
  - exists oph. split; [done|]. destruct (sending_flow m) as [s|] eqn:Hse; [|done].
    destruct Ho as (H1 & H2 & H3 & H4 & H5 & H6). assert (Hsa : s <> a) by congruence. split_and!; try done; try lia.
    + unfold F. by rewrite lookup_insert_ne.
    + destruct Hprev as [->| ->]; done.
    + intros b [->|Hb]%Hel; unfold time_of; sug; fold F; rewrite !Hkey.
      * rewrite decide_False, decide_True by done. by apply Hs.
      * rewrite (decide_False (P := s = a)) by done. rewrite decide_False by (by intros ->). by apply H6.
  - intros p Hp. destruct Hprev as [->| ->]; [|done]. destruct (Hpv p Hp) as (g & Hg & Hgq).
    exists g. unfold F. rewrite lookup_insert_ne by congruence. done.
Qed.

(** The flow whose job starts an operation. *)
Lemma flow_starting mtu m a f :
  core mtu m -> flows m !! a = Some f -> pp_state (input f) = OPERATION_PENDING ->
  exists d n, pp_is mtu (Op d n) (input f) /\ is_queued f = false /\ sending_flow m <> Some a /\
    a ∉ ot_elems (queued_tree m).
Proof.
  intros Hc Hf Hst. pose proof (i_flows _ _ Hc _ _ Hf) as [_ Hfq (ph & Hph & Hcase)].
  destruct Hph as [Hi|[_ Hi]]; [|by rewrite Hi in Hst].
  pose proof Hi as (_ & _ & Hs' & _). rewrite Hst in Hs'. destruct ph as [|d n| |]; try discriminate Hs'.
  assert (Hqf : is_queued f = false) by (destruct (is_queued f); [by destruct Hcase|done]).
  rewrite Hqf in Hcase, Hfq. unfold busy in Hcase. exists d, n.
  destruct (bool_decide (sending_flow m = Some a)) eqn:Hba; b2p; [by destruct Hcase|].
  split_and!; [done|done|done|]. by intros ?%Hfq.
Qed.

(** The time at which flow [a] is queued, and what is left of [previous_flow]. *)
Record queue_time m (a : Z) (f : Flow) (t : Z) (prev : option Z) : Prop := {
  qt_range : 0 <= t <= FAIRQUEUE_MAX_TIME;
  qt_sending : forall s, sending_flow m = Some s -> time_of m s <= t;
  qt_prev : (prev = previous_flow m \/ prev = None) /\ prev <> Some a;
  qt_same : previous_flow m = Some a -> t = time f
}.

Lemma wp_queue_time mtu m a f i (P : unit -> Q -> list event -> Prop) :
  core mtu m -> flows m !! a = Some f -> sending_flow m <> Some a -> a ∉ ot_elems (queued_tree m) ->
  (forall t prev, queue_time m a f t prev ->
     P tt (m <| previous_flow := prev |> <| flows := <[a := f <| input := i |> <| time := t |>]> (flows m) |>) []) ->
  wp (if bool_decide (previous_flow m = Some a) then previous_flow ::= None
      else t ← get_current_time; on_flow a (time ::= Z.max (time (f <| input := i |>)) t))
    P (m <| flows := <[a := f <| input := i |>]> (flows m) |>).
Proof.
  intros Hc Hf Hba Hnin HP.
  pose proof Hc as [_ _ _ [_ [_ Htree]] Hfl (oph & _ & Ho) Hpv]. pose proof (fo_time _ _ _ _ (Hfl _ _ Hf)) as Hft.
  destruct (bool_decide (previous_flow m = Some a)) eqn:Hpa; b2p.
  - mgo. apply (HP (time f) None). split; [done| |auto|done].
    intros s Hs. rewrite Hs in Ho. destruct Ho as (_ & Ho & _). congruence.
  - mstep. eapply wp_get_current_time; sug.
    + intros x g. destruct (decide (a = x)) as [<-|];
        [rewrite lookup_insert_eq; intros [= <-]; done|rewrite lookup_insert_ne by done; intros Hg; apply (Hfl _ _ Hg)].
    + intros s Hs. rewrite Hs in Ho. destruct Ho as [Ho _]. rewrite lookup_insert_ne by (intros ->; congruence). done.
    + intros p Hp. destruct (Hpv p Hp) as (g & Hg & _). rewrite lookup_insert_ne by congruence. eauto.
    + intros x Hx. rewrite lookup_insert_ne by (by intros ->). destruct (Htree x Hx) as [g Hg].
      exists g. split; [done|]. by apply (flow_queued mtu m x g Hc Hg).
    + intros c Hcr Hcs. eapply wp_on_flow; [apply lookup_insert_eq|]. mstep.
      specialize (HP (Z.max (time f) c) (previous_flow m)). unfold upd in *. cbn in *. rewrite insert_insert_eq.
      apply HP. split; [lia| |auto|done]. intros s Hs. specialize (Hcs s Hs). unfold time_of in Hcs |- *. cbn in Hcs |- *.
      rewrite lookup_insert_ne in Hcs by (intros ->; congruence). lia.
Qed.

Lemma insert_ok m a g t :
  ot_wf (queued_tree m) -> sorted compare_pair (key m) (ot_elems (queued_tree m)) ->
  a ∉ ot_elems (queued_tree m) -> time g = t ->
  let keys b := (default 0 (time <$> (<[a := g]> (flows m)) !! b), b) in
  exists tr, ot_insert compare_pair keys a (queued_tree m) = Some (true, tr) /\ ot_wf tr /\
    ot_elems tr = insert_sorted compare_pair keys a (ot_elems (queued_tree m)).
Proof.
  intros Hwf Hsort Hnin Ht keys. apply ot_insert_new; [apply _|done| |].
  - eapply sorted_ext; [|exact Hsort]. intros x y Hx Hy. unfold keys, before, key, time_of.
    rewrite !lookup_insert_ne by (by intros ->). exact id.
  - apply find_equal_None, Forall_forall. intros x Hx Heq. apply compare_pair_eq in Heq. unfold keys in Heq. congruence.
Qed.

(** Queued, the flow is scheduled at once when nothing is sent or waiting. *)
Lemma queued_schedule mtu m m2 a l (P : unit -> Q -> list event -> Prop) :
  inv mtu m -> core mtu m2 -> ot_elems (queued_tree m2) = l ->
  (ot_elems (queued_tree m) = [] -> l = [a]) ->
  packet_weight m2 = packet_weight m -> sending_flow m2 = sending_flow m -> schedule_job m2 = schedule_job m ->
  (previous_flow m = None -> previous_flow m2 = None) ->
  (forall b, backlogged m b -> time_of m2 b = time_of m b) -> sending_len m2 = sending_len m ->
  (forall m' t, inv mtu m' -> fair_step m m' t -> P tt m' t) ->
  wp (m ← get; when (bool_decide (sending_flow m = None) && negb (schedule_job m)) schedule) P m2.
Proof.
  intros [Hc Hidle] Hc2 He2 Hl Hw2 Hs2 Hj2 Hp2 Ht2 Hlen2 HP. mgo. rewrite Hs2, Hj2.
  destruct (bool_decide (sending_flow m = None) && negb (schedule_job m)) eqn:Hsch; cbn [when].
  - apply andb_true_iff in Hsch as [Hs1 Hs1']. b2p. destruct (Hidle Hs1 Hs1') as [Hemp Hpn].
    eapply (wp_schedule mtu m2 a []); try congruence; [by auto|by rewrite He2, Hl|].
    intros m' g Hinv _ Hsm' _ _ _ Hlen' Hpw _. apply HP; [done|].
    assert (Hnone : forall b, ~ backlogged m b).
    { intros b [Hb|[Hb|Hb]]; [rewrite Hemp in Hb; by apply elem_of_nil in Hb|congruence..]. }
    split_and!; [congruence|exists 0; by intros b ?%Hnone| |by intros b c mtu' _ _ ?%Hnone].
    intros b. cbn. destruct (a =? b); [|lia].
    destruct Hinv as [Hc3 _]. destruct (i_output _ _ Hc3) as (? & _ & Ho3). rewrite Hsm' in Ho3.
    pose proof (i_mtu _ _ Hc). lia.
  - mstep. apply HP; [split; [exact Hc2|]; rewrite Hs2, Hj2; intros Hs Hj; by rewrite Hs, Hj in Hsch|].
    apply fair_step_quiet; [done|done|]. intros b Hb _. unfold vtime. rewrite Hs2, Hw2, Hlen2. by rewrite Ht2.
Qed.

(** The handler of a flow's input, from the dispatch of its job. *)
Lemma wp_FlowStarts mtu m a f (P : unit -> Q -> list event -> Prop) :
  inv mtu m -> flows m !! a = Some f -> pp_state (input f) = OPERATION_PENDING ->
  (forall m' t, inv mtu m' -> fair_step m m' t -> P tt m' t) ->
  wp (exec_action (FlowStarts a)) P m.
Proof.
  intros Hinv Hf Hst HP. destruct (Hinv) as [Hc _].
  pose proof Hc as [_ Hfr _ [Hwf [Hsort _]] _ _ _].
  destruct (flow_starting mtu m a f Hc Hf Hst) as (d & n & Hi & Hqf & Hba & Hnin).
  unfold exec_action. mgo. eapply wp_on_flow; [done|]. mgo. eapply wp_pp_job_op; [exact Hi|].
  intros i Hi'. mgo. unfold input_handler_send.
  mgo. eapply (wp_get_flow a (f <| input := i |>)); [apply lookup_insert_eq|].
  mstep; mstep; [sug; by rewrite bool_decide_false|]. mgo.
  eapply (wp_queue_time mtu m a f i); [done..|]. intros t prev [Ht Hts [Hprev Hpa] Hpt].
  destruct (insert_ok m a (mk_fl i (handler_busy f) t false d n) t) as (tr' & Hins & Hwf' & He'); [done..|].
  pose proof (core_insert mtu m a f i t d n tr' prev Hc Hf Hi Hi' Ht Hts Hprev Hpa Hwf' He' Hnin) as Hc'.
  set (m2 := _ <| flows := _ |>) in Hc'.
  mstep. eapply wp_on_flow; [apply lookup_insert_eq|]. mgo.
  eapply wp_on_flow; [sug; apply lookup_insert_eq|]. mgo.
  match goal with |- wp _ _ ?st => replace st with (m <| previous_flow := prev |>
    <| flows := <[a := mk_fl i (handler_busy f) t false d n]> (flows m) |>) end;
    [|unfold upd; cbn; by rewrite !insert_insert_eq, Hqf].
  unfold tree_insert. mgo. eapply wp_on_flow; [apply lookup_insert_eq|]. mstep.
  match goal with |- wp _ _ ?st => replace st with m2 end;
    [|unfold m2, upd; cbn; by rewrite !insert_insert_eq].
  eapply (queued_schedule mtu m m2 a _ _ Hinv Hc' eq_refl); [|done|done|done| | |done|by intros m3 t3 ? ?; apply HP].
  - intros Hemp. unfold m2. sug. by rewrite He', Hemp.
  - unfold m2. sug. by destruct Hprev as [->| ->].
  - intros b Hb. unfold time_of, m2. sug. destruct (decide (a = b)) as [<-|].
    + rewrite lookup_insert_eq, Hf. cbn. apply Hpt. by destruct Hb as [?|[?|?]].
    + by rewrite lookup_insert_ne.
Qed.

Lemma wp_ScheduleJob mtu m (P : unit -> Q -> list event -> Prop) :
  inv mtu m -> schedule_job m = true -> (forall m' t, inv mtu m' -> fair_step m m' t -> P tt m' t) ->
  wp (exec_action ScheduleJob) P m.
Proof.
  intros [Hc _] Hj HP. pose proof Hc as [Hmtu Hfr Hl Ht Hfl (oph & Hout & Ho) Hpv].
  destruct (sending_flow m) as [s|] eqn:Hs; [destruct Ho as (_ & _ & Ho & _); congruence|]. subst oph.
  unfold exec_action, schedule_job_handler. mgo. unfold tree_first. mgo. cbn [app].
  set (m1 := _ <| previous_flow := None |>).
  assert (Hc1 : core mtu m1).
  { split; try done; [|unfold m1; sug; exists Idle; by rewrite Hs].
    intros a f Hf. eapply flow_ok_mono; [by apply Hfl|done..]. }
  rewrite ot_first_spec. destruct (ot_elems (queued_tree m1)) as [|a l] eqn:He; cbn [head].
  - mstep. apply HP; [split; [done|]; intros _ _; by rewrite He|].
    apply fair_step_quiet; [done|done|]. done.
  - eapply (wp_schedule mtu m1 a l); try done.
    intros m' f Hinv Hf Hs' Hfs Hel' Hp' Hlen' Hpw Hmin. apply HP; [done|].
    pose proof Hinv as [Hc' _]. destruct (i_output _ _ Hc') as (? & _ & Ho'). rewrite Hs' in Ho'.
    destruct Ho' as (_ & _ & _ & Hlen & _ & Hle). destruct Hmtu as (Hm1 & Hm2 & Hm3).
    change (packet_weight m1) with (packet_weight m) in Hpw.
    assert (Htime : forall b, time_of m' b = time_of m b).
    { intros b. unfold time_of. rewrite Hfs. change (flows m1) with (flows m) in *.
      destruct (decide (a = b)) as [<-|]; [by rewrite lookup_insert_eq, Hf|by rewrite lookup_insert_ne]. }
    assert (Hsv : forall b, service (packet_weight m) b [Sending a (queued_data f) (queued_len f)] =
      if decide (a = b) then packet_weight m + sending_len m' else 0).
    { intros b. cbn. rewrite Hlen'. destruct (decide (a = b)) as [<-|]; [rewrite Z.eqb_refl; lia|].
      by rewrite (proj2 (Z.eqb_neq _ _)). }
    split_and!; [done| | |].
    + exists 0. intros b _ _. unfold vtime. rewrite Hsv, Htime, Hs, Hs', Hpw.
      destruct (decide (a = b)) as [<-|]; [by rewrite bool_decide_true, bool_decide_false by done; lia|].
      rewrite !bool_decide_false by congruence. lia.
    + intros b. rewrite Hsv. destruct (decide (a = b)); lia.
    + intros b c mtu' Hinv' Hpos _ _ Hc'' Hcb. rewrite Hsv in Hpos.
      destruct (decide (a = b)) as [<-|]; [|lia]. rewrite !Hsv, decide_True, decide_False by done.
      unfold vtime. rewrite Hs, !bool_decide_false by done. split_and!; [|  |done].
      * destruct Hc'' as [H|[H|H]]; [|congruence|congruence]. specialize (Hle c H). rewrite !Htime in Hle. lia.
      * destruct Hinv' as [Hc3 _]. destruct (i_output _ _ Hc3) as (? & _ & Ho3). rewrite Hs' in Ho3. lia.
Qed.

(** ** The end of a transmission *)

Lemma inv_charged mtu m s amount sub f' F' o d n :
  core mtu m -> sending_flow m = Some s -> pp_is mtu Idle o -> 0 <= sub ->
  F' !! s = Some f' -> 0 <= time f' <= FAIRQUEUE_MAX_TIME -> is_queued f' = false ->
  pp_is mtu (Done d n 0) (input f') ->
  (forall x, x <> s -> F' !! x = charged s amount sub x <$> flows m !! x) ->
  (forall a, a ∈ ot_elems (queued_tree m) -> sub <= time_of m a) ->
  inv mtu (m <| output := o |> <| sending_flow := None |> <| previous_flow := Some s |>
             <| flows := F' |> <| schedule_job := true |>).
Proof.
  intros Hc Hs Ho Hsub HFs Ht' Hq' Hi' HF Hqs.
  destruct Hc as [Hmtu Hfr [Hnd Hlist] [Hwf [Hsort Htree]] Hfl (oph & Hout & Hsend) Hpv].
  rewrite Hs in Hsend. destruct Hsend as ([f Hf] & _).
  pose proof (Hfl _ _ Hf) as [Hft Hfq (ph & Hph & Hcase)].
  assert (Hsq : is_queued f = false) by (destruct (is_queued f); [destruct Hcase; congruence|done]).
  assert (Hsnin : s ∉ ot_elems (queued_tree m)) by (rewrite Hfq, Hsq; done).
  assert (Hdom : forall x, is_Some (F' !! x) <-> is_Some (flows m !! x)).
  { intros x. destruct (decide (x = s)) as [->|]; [rewrite HFs, Hf; split; eauto|].
    rewrite HF by done. by rewrite fmap_is_Some. }
  assert (Hkey : forall x, x ∈ ot_elems (queued_tree m) ->
    default 0 (time <$> F' !! x) = time_of m x - sub).
  { intros x Hx. assert (x <> s) by (by intros ->). rewrite HF by done.
    specialize (Hqs x Hx). unfold time_of in *. destruct (Htree x Hx) as [g Hg]. rewrite Hg in *. cbn in *.
    unfold charged. rewrite (proj2 (Z.eqb_neq _ _) H). unfold upd; cbn. lia. }
  split; [|done]. split; try done; sug.
  - split; [done|]. intros x. by rewrite Hlist, Hdom.
  - split_and!; [done| |].
    + eapply sorted_ext; [|exact Hsort]. intros x y Hx Hy. unfold before, key. rewrite !compare_pair_lt. cbn.
      pose proof (Hkey x Hx). pose proof (Hkey y Hy). unfold time_of in *. cbn in *. lia.
    + intros x Hx. rewrite Hdom. by apply Htree.
  - intros x g. destruct (decide (x = s)) as [->|Hne].
    + rewrite HFs. intros [= <-]. split; [done| |].
      * sug. rewrite Hq'. split; [done|discriminate].
      * exists (Done d n 0). split; [by left|]. rewrite Hq'. done.
    + rewrite HF by done. rewrite fmap_Some. intros (g0 & Hg0 & ->).
      pose proof (Hfl _ _ Hg0) as [Hgt Hgq (ph' & Hph' & Hcase')]. split.
      * unfold charged, upd; cbn. rewrite (proj2 (Z.eqb_neq _ _) Hne). lia.
      * done.
      * exists ph'. split; [exact Hph'|].
        unfold charged, upd; cbn. destruct (is_queued g0); [by destruct Hcase'|].
        unfold busy in *. rewrite Hs in Hcase'. rewrite bool_decide_false in Hcase' by congruence. done.
  - exists Idle. done.
  - intros p [= <-]. eauto.
Qed.

(** All other times go back by the same [sub], so the step is fair. *)
Lemma charged_fair m s f f' F sub o t :
  sending_flow m = Some s -> previous_flow m = None -> flows m !! s = Some f ->
  (forall b, b ∈ ot_elems (queued_tree m) -> is_Some (flows m !! b)) ->
  (forall x, F !! x = charged s (packet_weight m + sending_len m) sub x <$> flows m !! x) ->
  (forall b, b ∈ ot_elems (queued_tree m) -> sub <= time_of m b) ->
  (forall b, service (packet_weight m) b t = 0) ->
  time f' = time f + (packet_weight m + sending_len m) - sub ->
  fair_step m (m <| output := o |> <| sending_flow := None |> <| previous_flow := Some s |>
                 <| flows := <[s := f']> F |> <| schedule_job := true |>) t.
Proof.
  intros Hs Hp Hf Htree HF Hqs Ht Hf'.
  split_and!; [done| |intros b; rewrite Ht; lia|intros b c mtu' _; rewrite Ht; lia].
  exists sub. intros b Hb _. rewrite Ht. unfold vtime. rewrite Hs. sug.
  rewrite (bool_decide_false (None = Some b)) by done. unfold time_of. sug.
  destruct (decide (s = b)) as [<-|Hne].
  - rewrite lookup_insert_eq, Hf, bool_decide_true by done. cbn. rewrite Hf'. lia.
  - rewrite lookup_insert_ne, bool_decide_false by congruence. rewrite HF.
    destruct Hb as [Hb|[?|?]]; [|congruence..]. specialize (Hqs b Hb). unfold time_of in Hqs. sua.
    destruct (Htree b Hb) as [g Hg]. rewrite Hg in *. cbn in *. unfold charged, upd; cbn.
    rewrite (proj2 (Z.eqb_neq _ _)) by done. lia.
Qed.

Lemma wp_OutputDone mtu m (P : unit -> Q -> list event -> Prop) :
  inv mtu m -> pp_state (output m) = DONE_PENDING ->
  (forall m' t, inv mtu m' -> fair_step m m' t -> P tt m' t) ->
  wp (exec_action OutputDone) P m.
Proof.
  intros [Hc _] Hst HP. pose proof Hc as [Hmtu Hfr [Hnd Hlist] [Hwf [Hsort Htree]] Hfl (oph & Hout & Ho) Hpv].
  pose proof Hout as (_ & _ & Hst' & _). rewrite Hst in Hst'. destruct oph as [| | |d n k]; try discriminate Hst'.
  destruct (sending_flow m) as [s|] eqn:Hs; [|done].
  destruct Ho as ([f Hf] & Hp & Hj & Hlen & _ & Hmin).
  pose proof (Hfl _ _ Hf) as [Hft Hfq (ph & Hph & Hcase)].
  assert (Hsq : is_queued f = false) by (destruct (is_queued f); [destruct Hcase; congruence|done]).
  rewrite Hsq in Hcase. unfold busy in Hcase. rewrite bool_decide_true in Hcase by done.
  destruct Hcase as [d' ->]. destruct Hph as [Hi|[? _]]; [|done].
  unfold exec_action. mgo. eapply wp_pp_job_done; [exact Hout|]. intros o Ho. unfold output_handler_done.
  mgo. eapply wp_get_flow; [exact Hf|]. mgo. cbn [app].
  eapply (wp_increment _ s f); sug; try done.
  - intros a g Hg. pose proof (Hfl _ _ Hg) as [? ? _]. done.
  - intros a Ha. specialize (Hmin a Ha). rewrite (time_of_Some _ _ _ Hf) in Hmin. exact Hmin.
  - lia.
  - intros F sub Hsub Hr HF Hqs. mgo.
    assert (HFs : F !! s = Some (charged s (packet_weight m + sending_len m) sub s f)) by by rewrite HF, Hf.
    eapply wp_on_flow; [exact HFs|]. mgo. eapply wp_pp_done; [exact Hi|]. intros i Hi'. mgo.
    assert (Hfin : forall f', f' = charged s (packet_weight m + sending_len m) sub s f <| input := i |> <| handler_busy := false |> \/
        f' = charged s (packet_weight m + sending_len m) sub s f <| input := i |> ->
      inv mtu (m <| output := o |> <| sending_flow := None |> <| previous_flow := Some s |>
             <| flows := <[s := f']> F |> <| schedule_job := true |>)).
    { intros f' Hf'.
      eapply (inv_charged mtu m s (packet_weight m + sending_len m) sub f' _ o d' (sending_len m) Hc Hs Ho Hsub).
      - apply lookup_insert_eq.
      - destruct Hf' as [->| ->]; unfold charged, upd; cbn; rewrite Z.eqb_refl; lia.
      - by destruct Hf' as [->| ->].
      - by destruct Hf' as [->| ->].
      - intros x Hx. rewrite lookup_insert_ne by done. apply HF.
      - exact Hqs. }
    assert (Hfair : forall f' t, (forall b, service (packet_weight m) b t = 0) ->
      time f' = time (charged s (packet_weight m + sending_len m) sub s f) ->
      fair_step m (m <| output := o |> <| sending_flow := None |> <| previous_flow := Some s |>
             <| flows := <[s := f']> F |> <| schedule_job := true |>) t).
    { intros f' t Ht Hf'. apply (charged_fair m s f f' F sub); try done.
      rewrite Hf'. unfold charged, upd; cbn. by rewrite Z.eqb_refl. }
    mstep.
    + mgo. eapply wp_on_flow; [apply lookup_insert_eq|]. mgo.
      match goal with |- P _ ?st _ => replace st with (m <| output := o |> <| sending_flow := None |> <| previous_flow := Some s |>
         <| flows := <[s := charged s (packet_weight m + sending_len m) sub s f <| input := i |> <| handler_busy := false |>]> F |>
         <| schedule_job := true |>) end; [|unfold upd; cbn; by rewrite insert_insert_eq].
      apply HP; [apply Hfin; auto|by apply Hfair].
    + match goal with |- P _ ?st _ => replace st with (m <| output := o |> <| sending_flow := None |> <| previous_flow := Some s |>
         <| flows := <[s := charged s (packet_weight m + sending_len m) sub s f <| input := i |>]> F |>
         <| schedule_job := true |>) by reflexivity end.
      apply HP; [apply Hfin; auto|by apply Hfair].
Qed.

(** ** The other actions *)

Lemma inv_flow mtu m a f f' :
  inv mtu m -> flows m !! a = Some f -> time f' = time f -> is_queued f' = is_queued f ->
  flow_ok mtu m a f' -> inv mtu (upd flows <[a := f']> m).
Proof.
  intros [Hc Hidle] Hf Htf Hqf Hok. split; [|done].
  destruct Hc as [Hmtu Hfr [Hnd Hlist] [Hwf [Hsort Htree]] Hfl (oph & Hout & Ho) Hpv].
  set (F := <[a := f']> (flows m)).
  assert (Htime : forall b, default 0 (time <$> F !! b) = time_of m b).
  { intros b. unfold time_of, F. destruct (decide (a = b)) as [<-|].
    - rewrite lookup_insert_eq, Hf. cbn. done.
    - by rewrite lookup_insert_ne. }
  assert (Hdom : forall b, is_Some (F !! b) <-> is_Some (flows m !! b)).
  { intros b. unfold F. destruct (decide (a = b)) as [<-|]; [rewrite lookup_insert_eq, Hf; split; eauto|].
    by rewrite lookup_insert_ne. }
  split; try done; sug; fold F.
  - split; [done|]. intros b. by rewrite Hlist, Hdom.
  - split_and!; [done| |].
    + eapply sorted_key; [|exact Hsort]. intros b _. apply Htime.
    + intros b Hb. rewrite Hdom. by apply Htree.
  - intros b g. unfold F. destruct (decide (a = b)) as [<-|].
    + rewrite lookup_insert_eq. intros [= <-]. by destruct Hok.
    + rewrite lookup_insert_ne by done. intros Hg. by destruct (Hfl _ _ Hg).
  - exists oph. split; [done|]. destruct (sending_flow m) as [s|]; [|done].
    destruct Ho as (H1 & H2 & H3 & H4 & H5 & H6). split_and!; try done; try lia.
    + by rewrite Hdom.
    + intros b Hb. unfold time_of; sug; fold F. rewrite !Htime. by apply H6.
  - intros p Hp. destruct (Hpv p Hp) as (g & Hg & Hgq). unfold F.
    destruct (decide (a = p)) as [<-|]; [rewrite lookup_insert_eq; exists f'; split; congruence|].
    rewrite lookup_insert_ne by done. eauto.
Qed.

(** A flow that is neither queued nor sending can be in any phase but busy. *)
Lemma inv_flow_input mtu m a f f' ph0 ph :
  inv mtu m -> flows m !! a = Some f -> flow_phase mtu ph0 f -> 
  (forall d n, ph0 <> Busy d n) -> (forall d n, ph <> Busy d n) ->
  time f' = time f -> is_queued f' = is_queued f -> pp_is mtu ph (input f') ->
  inv mtu (upd flows <[a := f']> m).
Proof.
  intros Hinv Hf Hph0 H0 Hph Htf Hqf Hi. pose proof Hinv as [Hc _].
  pose proof (i_flows _ _ Hc _ _ Hf) as [Hft Hfq (ph1 & Hph1 & Hcase)].
  assert (Hsame : phase_state ph1 = phase_state ph0).
  { destruct Hph0 as [(_ & _ & H1 & _)|[-> H1]], Hph1 as [(_ & _ & H2 & _)|[-> H2]]; try congruence.
    - rewrite H2 in H1. by rewrite <- H1.
    - rewrite H1 in H2. by rewrite <- H2. }
  assert (Hnb : forall d n, ph1 <> Busy d n).
  { intros d n ->. destruct ph0; try discriminate Hsame. by eapply H0. }
  eapply inv_flow; try done. split; [by rewrite Htf|by rewrite Hqf|].
  exists ph. split; [by left|]. rewrite Hqf.
  destruct (is_queued f); [destruct Hcase as [-> _]; by destruct (Hnb (queued_data f) (queued_len f))|].
  destruct (busy m a); [destruct Hcase as [d ->]; by destruct (Hnb d (sending_len m))|done].
Qed.

Lemma inv_output mtu m ph o :
  inv mtu m -> sending_flow m <> None -> pp_is mtu ph o -> ph <> Idle -> inv mtu (m <| output := o |>).
Proof.
  intros [Hc Hidle] Hs Ho Hph. split; [|done]. destruct Hc as [Hmtu Hfr Hl Ht Hfl (oph & Hout & Hsend) Hpv].
  split; try done.
  - intros a f Hf. eapply flow_ok_mono; [by apply Hfl|done..].
  - exists ph. split; [done|]. sug. destruct (sending_flow m); [|done].
    destruct Hsend as (? & ? & ? & ? & ? & ?). split_and!; try done; lia.
Qed.

Lemma inv_new mtu m a :
  inv mtu m -> flows m !! a = None ->
  inv mtu (m <| flows := <[a := mk_fl (PacketPassInterface_Init mtu) false 0 false 0 0]> (flows m) |>
             <| flows_list := flows_list m ++ [a] |>).
Proof.
  intros [Hc Hidle] Ha. split; [|done].
  destruct Hc as [Hmtu Hfr [Hnd Hlist] [Hwf [Hsort Htree]] Hfl (oph & Hout & Ho) Hpv].
  assert (Hnin : a ∉ ot_elems (queued_tree m)).
  { intros Hin. apply Htree in Hin as [? ?]. congruence. }
  set (F := <[a := _]> (flows m)).
  assert (HF : forall b, b <> a -> F !! b = flows m !! b) by (intros; unfold F; by rewrite lookup_insert_ne).
  assert (Htime : forall b, default 0 (time <$> F !! b) = time_of m b).
  { intros b. unfold time_of. destruct (decide (b = a)) as [->|]; [|by rewrite HF].
    unfold F. by rewrite lookup_insert_eq, Ha. }
  split; try done; sug; fold F.
  - split.
    + apply NoDup_app. split_and!; [done| |by apply NoDup_singleton].
      intros b Hb ->%list_elem_of_singleton. apply Hlist in Hb as [? ?]. congruence.
    + intros b. rewrite elem_of_app, list_elem_of_singleton, Hlist. destruct (decide (b = a)) as [->|].
      * unfold F. rewrite lookup_insert_eq. split; eauto.
      * rewrite HF by done. tauto.
  - split_and!; [done| |].
    + eapply sorted_key; [|exact Hsort]. intros b _. apply Htime.
    + intros b Hb. rewrite HF by (by intros ->). by apply Htree.
  - intros b g. destruct (decide (b = a)) as [->|].
    + unfold F. rewrite lookup_insert_eq. intros [= <-]. split; sug.
      * unfold FAIRQUEUE_MAX_TIME, UINT64_MAX. lia.
      * done.
      * exists Idle. split; [by right|]. unfold busy; sug.
        destruct (bool_decide (sending_flow m = Some a)) eqn:Hb; b2p; [|done].
        rewrite Hb in Ho. destruct Ho as [[? ?] _]. congruence.
    + rewrite HF by done. intros Hg. eapply flow_ok_mono; [by apply Hfl|done..].
  - exists oph. split; [done|]. destruct (sending_flow m) as [s|]; [|done].
    destruct Ho as (H1 & H2 & H3 & H4 & H5 & H6). split_and!; try done; try lia.
    + destruct (decide (s = a)) as [->|]; [rewrite Ha in H1; by destruct H1|by rewrite HF].
    + intros b Hb. unfold time_of; sug; fold F. rewrite !Htime. by apply H6.
  - intros p Hp. destruct (Hpv p Hp) as (g & Hg & Hgq). rewrite HF by congruence. eauto.
Qed.

Lemma inv_free mtu m a tr' :
  inv mtu m -> is_Some (flows m !! a) -> sending_flow m <> Some a ->
  ot_wf tr' -> sorted compare_pair (key m) (ot_elems tr') ->
  (forall b, b ∈ ot_elems tr' <-> b ∈ ot_elems (queued_tree m) /\ b <> a) ->
  forall prev, prev = previous_flow m \/ prev = None -> prev <> Some a ->
  inv mtu (m <| previous_flow := prev |> <| queued_tree := tr' |>
             <| flows_list := filter (fun b => b <> a) (flows_list m) |> <| flows := delete a (flows m) |>).
Proof.
  intros [Hc Hidle] Ha Hs Hwf' Hsort' Hel prev Hprev Hpa.
  destruct Hc as [Hmtu Hfr [Hnd Hlist] [Hwf [Hsort Htree]] Hfl (oph & Hout & Ho) Hpv].
  assert (HF : forall b, b <> a -> delete a (flows m) !! b = flows m !! b)
    by (intros; by rewrite lookup_delete_ne).
  split.
  2: { sug. intros H1 H2. destruct (Hidle H1 H2) as [He Hp]. split.
       - destruct (ot_elems tr') as [|x l]; [done|]. destruct (proj1 (Hel x)) as [Hx _]; [left|].
         rewrite He in Hx. by apply elem_of_nil in Hx.
       - by destruct Hprev as [->| ->]. }
  split; try done; sug.
  - split; [by apply NoDup_filter|]. intros b. rewrite list_elem_of_filter, Hlist.
    destruct (decide (b = a)) as [->|]; [rewrite lookup_delete_eq; split; [tauto|by intros []]|].
    rewrite HF by done. tauto.
  - split_and!; [done| |].
    + eapply sorted_key; [|exact Hsort']. intros b [_ Hb]%Hel. unfold time_of; sug. by rewrite HF.
    + intros b [Hb Hba]%Hel. rewrite HF by done. by apply Htree.
  - intros b g. destruct (decide (b = a)) as [->|]; [by rewrite lookup_delete_eq|].
    rewrite HF by done. intros Hg. eapply flow_ok_mono; [by apply Hfl|..]; sug; try done.
    rewrite Hel. tauto.
  - exists oph. split; [done|]. destruct (sending_flow m) as [s|]; [|done].
    destruct Ho as (H1 & H2 & H3 & H4 & H5 & H6). split_and!; try done; try lia.
    + rewrite HF by congruence. done.
    + destruct Hprev as [->| ->]; done.
    + intros b [Hb Hba]%Hel. unfold time_of; sug. rewrite !HF by congruence. by apply H6.
  - intros p Hp. destruct Hprev as [->| ->]; [|done]. destruct (Hpv p Hp) as (g & Hg & Hgq).
    exists g. rewrite HF by congruence. done.
Qed.

Lemma flow_test_Some m a p : flow_test m a p = true -> exists f, flows m !! a = Some f /\ p f = true.
Proof. unfold flow_test. destruct (flows m !! a); [eauto|done]. Qed.

Lemma flow_phase_eq mtu ph f s :
  flow_phase mtu ph f -> st_eq (pp_state (input f)) s = true -> s <> NONE ->
  pp_is mtu ph (input f) /\ phase_state ph = s.
Proof.
  intros [H|[-> H]] Hs Hn; [split; [done|by eapply pp_phase]|].
  rewrite H in Hs. apply bool_decide_eq_true in Hs. cbn in Hs. congruence.
Qed.

Lemma inv_out mtu m : inv mtu m -> exists oph, pp_is mtu oph (output m) /\
  (oph <> Idle -> exists s, sending_flow m = Some s).
Proof.
  intros [Hc _]. destruct (i_output _ _ Hc) as (oph & Hout & Ho). exists oph. split; [done|].
  destruct (sending_flow m); [eauto|]. by subst.
Qed.

(** Actions that do not touch the times. *)
Lemma fair_same m m' t :
  packet_weight m' = packet_weight m -> (forall a, service (packet_weight m) a t = 0) ->
  sending_flow m' = sending_flow m -> sending_len m' = sending_len m ->
  (forall a, backlogged m a -> backlogged m' a -> time_of m' a = time_of m a) -> fair_step m m' t.
Proof.
  intros Hw Ht Hs Hl Htime. apply fair_step_quiet; [done|done|].
  intros a H1 H2. unfold vtime. by rewrite Htime, Hs, Hl, Hw.
Qed.

Lemma fair_flow m a f f' :
  flows m !! a = Some f -> time f' = time f -> fair_step m (upd flows <[a := f']> m) [].
Proof.
  intros Hf Ht. apply fair_same; try done. intros b _ _. unfold time_of, upd; cbn.
  destruct (decide (a = b)) as [<-|]; [by rewrite lookup_insert_eq, Hf; cbn; rewrite Ht|].
  by rewrite lookup_insert_ne.
Qed.

Lemma wp_FreeFlow mtu m a (P : unit -> Q -> list event -> Prop) :
  inv mtu m -> is_Some (flows m !! a) -> sending_flow m <> Some a ->
  (forall m', inv mtu m' -> fair_step m m' [] -> P tt m' []) -> wp (PacketPassFairQueueFlow_Free a) P m.
Proof.
  intros Hinv [f Hf] Hs HP. pose proof Hinv as [Hc _].
  destruct (i_tree _ _ Hc) as (Hwf & Hsort & Htree).
  unfold PacketPassFairQueueFlow_Free. mgo. eapply wp_get_flow; [exact Hf|]. mgo.
  rewrite (bool_decide_false (sending_flow m = Some a)) by done. mstep; [by destruct (freeing m)|]. mgo.
  apply wp_mono with (Q := fun _ m' t => t = [] /\ exists prev, m' = m <| previous_flow := prev |> /\
     (prev = previous_flow m \/ prev = None) /\ prev <> Some a).
  { destruct (bool_decide (previous_flow m = Some a)) eqn:Hp; cbn [when]; mstep; (split; [done|]); b2p.
    - exists None. auto.
    - exists (previous_flow m). destruct m. auto. }
  intros [] m' t (-> & prev & -> & Hprev & Hpa). mstep.
  assert (Hfair : forall tr', (forall b, b ∈ ot_elems tr' -> b <> a) ->
    fair_step m (m <| previous_flow := prev |> <| queued_tree := tr' |>
             <| flows_list := filter (fun b => b <> a) (flows_list m) |> <| flows := delete a (flows m) |>) []).
  { intros tr' Htr. apply fair_same; try done. intros b _ Hb. unfold time_of. sug.
    rewrite lookup_delete_ne; [done|]. intros <-.
    destruct Hb as [Hb|[Hb|Hb]]; [by apply (Htr a Hb)|done|done]. }
  destruct (is_queued f) eqn:Hq; cbn [when].
  - assert (Hin : a ∈ ot_elems (queued_tree m)) by by apply (flow_queued mtu m a f Hc Hf).
    apply list_elem_of_split in Hin as (l1 & l2 & He).
    pose proof (sorted_NoDup compare_pair (key m) _ Hsort) as Hndt. rewrite He in Hndt.
    apply NoDup_app in Hndt as (Hn1 & Hn2 & Hn3). apply NoDup_cons in Hn3 as [Hn3 _].
    assert (Hal1 : a ∉ l1) by (intros H; apply (Hn2 a H); left).
    destruct (ot_remove_in a (queued_tree m) l1 l2 Hwf He Hal1) as (tr' & Hrem & Hwf' & He').
    unfold tree_remove. mgo.
    match goal with |- P _ ?st _ => replace st with (m <| previous_flow := prev |> <| queued_tree := tr' |>
             <| flows_list := filter (fun b => b <> a) (flows_list m) |> <| flows := delete a (flows m) |>)
      by reflexivity end.
    apply HP; [apply inv_free; try done|apply Hfair; intros b Hb ->; rewrite He', elem_of_app in Hb; tauto].
    + rewrite He'. rewrite He in Hsort. by eapply sorted_remove.
    + intros b. rewrite He', He, !elem_of_app, elem_of_cons. split; [|intros [[?|[?|?]] ?]; tauto].
      intros [Hb|Hb]; (split; [tauto|]); intros ->; tauto.
  - mgo.
    assert (a ∉ ot_elems (queued_tree m)) by (rewrite (flow_queued mtu m a f Hc Hf), Hq; done).
    match goal with |- P _ ?st _ => replace st with (m <| previous_flow := prev |> <| queued_tree := queued_tree m |>
             <| flows_list := filter (fun b => b <> a) (flows_list m) |> <| flows := delete a (flows m) |>)
      by reflexivity end.
    apply HP; [apply inv_free; try done|by apply Hfair; intros b Hb ->].
    intros b. split; [|tauto]. intros Hb. split; [done|]. by intros ->.
Qed.

Lemma fq_step mtu m x :
  inv mtu m -> action_enabled m x = true -> wp (exec_action x) (fun _ m' t => inv mtu m' /\ fair_step m m' t) m.
Proof.
  intros Hinv Ha. destruct (inv_out mtu m Hinv) as (oph & Hout & Hsend).
  pose proof Hout as [Hom _]. pose proof Hinv as [Hc _]. pose proof (i_freeing _ _ Hc) as Hfr.
  destruct x as [a|a|a|a|a d n|a|a| | | |]; cbn in Ha; b2p; unfold exec_action.
  - unfold PacketPassFairQueueFlow_Init, PacketPassInterface_GetMTU. mgo. rewrite Hom.
    split; [by apply (inv_new mtu m a)|]. apply fair_same; try done. intros b Hb _. unfold time_of. sug.
    destruct (decide (a = b)) as [<-|]; [by rewrite lookup_insert_eq, Ha|by rewrite lookup_insert_ne].
  - apply flow_test_Some in H as (f & Hf & _). eapply wp_FreeFlow; eauto.
  - unfold PacketPassFairQueueFlow_SetBusyHandler. mgo.
    destruct (i_output _ _ Hc) as (? & _ & Ho). rewrite Ha in Ho. destruct Ho as [[f Hf] _].
    eapply wp_on_flow; [done|]. mgo. split; [|by eapply fair_flow].
    eapply inv_flow; try done. by destruct (i_flows _ _ Hc _ _ Hf).
  - apply flow_test_Some in Ha as (f & Hf & Hp). cbn beta in Hp. b2p.
    destruct (i_flows _ _ Hc _ _ Hf) as [_ _ (ph & Hph & _)].
    destruct Hph as [(_ & ? & _)|[-> Hi]]; [congruence|].
    eapply wp_on_flow; [done|]. mgo. rewrite Hi. apply wp_pp_connect. intros i Hi'.
    split; [|by eapply fair_flow]. eapply (inv_flow_input mtu m a f _ Idle Idle); try done. by right.
  - apply flow_test_Some in H as (f & Hf & Hp). cbn beta in Hp. b2p. rewrite Hom in *.
    destruct (i_flows _ _ Hc _ _ Hf) as [_ _ (ph & Hph & _)].
    assert (Hi : pp_is mtu Idle (input f)).
    { destruct Hph as [Hi|[-> Hi]]; [|rewrite Hi in H; discriminate].
      pose proof (pp_phase _ _ _ _ Hi H2). by destruct ph. }
    eapply wp_on_flow; [done|]. mgo. eapply wp_pp_send; [exact Hi|lia|]. intros i Hi'.
    split; [|by eapply fair_flow]. eapply (inv_flow_input mtu m a f _ Idle (Op d n)); try done. by left.
  - apply flow_test_Some in Ha as (f & Hf & Hp). cbn beta in Hp.
    eapply wp_FlowStarts; try done. unfold st_eq in Hp. by b2p.
  - apply flow_test_Some in Ha as (f & Hf & Hp). cbn beta in Hp.
    destruct (i_flows _ _ Hc _ _ Hf) as [_ _ (ph & Hph & _)].
    destruct (flow_phase_eq _ _ _ _ Hph Hp) as [Hi Hphs]; [done|].
    destruct ph as [| | |d n k]; try discriminate Hphs.
    eapply wp_on_flow; [done|]. mgo. eapply wp_pp_job_done; [exact Hi|]. intros i Hi'.
    split; [|by eapply fair_flow]. eapply (inv_flow_input mtu m a f _ (Done d n k) Idle); try done.
  - phase_case Hout Ha oph. destruct Hsend as [s Hs]; [done|]. mgo.
    eapply wp_pp_job_op; [exact Hout|]. intros o Ho. mgo. split; [eapply inv_output; try done; congruence|by apply fair_same].
  - phase_case Hout Ha oph. destruct Hsend as [s Hs]; [done|]. mgo.
    eapply wp_pp_done; [exact Hout|]. intros o Ho. split; [eapply inv_output; try done; congruence|by apply fair_same].
  - eapply wp_OutputDone; try done. unfold st_eq in Ha. by b2p.
  - by eapply wp_ScheduleJob.
Qed.
End laws.

(** * Correctness *)

Section correctness.
Context {T : Type -> Type} `{!OrdTree T} `{!OrdTreeLaws T}.
Local Abbreviation Q := (PacketPassFairQueue T).
Implicit Types m : Q.

Definition blank : Q := mk_fq (PacketPassInterface_Init 0) false 0 None 0 None ot_empty [] false false ∅.

Lemma fq_Init mtu uc weight :
  0 <= mtu <= INT_MAX -> 0 < weight <= INT_MAX -> uc = false ->
  wp (PacketPassFairQueue_Init (PacketPassInterface_Init mtu) uc weight)
    (fun r m t => t = [] /\ r = true /\ inv mtu m /\ packet_weight m = weight) blank.
Proof.
  intros Hm Hw ->. unfold PacketPassFairQueue_Init, PacketPassInterface_GetMTU. mgo. mstep.
  - exfalso. sua. unfold FAIRQUEUE_MAX_TIME, UINT64_MAX, INT_MAX in *. apply negb_true_iff, andb_false_iff in H.
    destruct H as [H|H]; b2p; lia.
  - mgo. apply wp_pp_connect. intros o Ho. mgo. split_and!; try done. split; [|intros _ _; split; [apply ot_empty_elems|done]].
    split; sug; try done.
    + unfold FAIRQUEUE_MAX_TIME, UINT64_MAX, INT_MAX in *. lia.
    + split; [constructor|]. intros a. rewrite lookup_empty. split; [by intros ?%elem_of_nil|by intros []].
    + rewrite ot_empty_elems. split_and!; [apply ot_empty_wf|constructor|by intros ? ?%elem_of_nil].
    + by exists Idle.
Qed.

Lemma reach_invariant mtu m0 tr m :
  inv mtu m0 -> reach m0 tr m -> inv mtu m /\ packet_weight m = packet_weight m0.
Proof.
  intros H0. apply (reach_inv (fun _ m => inv mtu m /\ packet_weight m = packet_weight m0)); [|done].
  intros tr' m' x [Hinv Hw] Hx. eapply wp_mono; [by eapply fq_step|].
  intros [] m'' t [? [? _]]. split; [done|congruence].
Qed.

(** A run in which two flows always have something to send. *)
Inductive backlogged_run (f g : Z) m : list event -> Q -> Prop :=
| br_start : backlogged m f -> backlogged m g -> backlogged_run f g m [] m
| br_step t m1 x m2 t' :
    backlogged_run f g m t m1 -> action_enabled m1 x = true ->
    exec_action x m1 = Some (tt, m2, t') -> backlogged m2 f -> backlogged m2 g ->
    backlogged_run f g m (t ++ t') m2.

Definition backlogged_b m (a : Z) : bool :=
  bool_decide (a ∈ ot_elems (queued_tree m)) || bool_decide (sending_flow m = Some a)
  || bool_decide (previous_flow m = Some a).
Lemma backlogged_b_true m a : backlogged_b m a = true -> backlogged m a.
Proof.
  unfold backlogged_b, backlogged. rewrite !orb_true_iff, !bool_decide_eq_true. tauto.
Qed.
(** The executable form. *)
Fixpoint run_backlogged (f g : Z) (acts : list action) m : option (Q * list event) :=
  if backlogged_b m f && backlogged_b m g then
    match acts with
    | [] => Some (m, [])
    | x :: acts =>
        if action_enabled m x then
          match exec_action x m with
          | Some (_, m', t) =>
              match run_backlogged f g acts m' with
              | Some (m'', t') => Some (m'', t ++ t')
              | None => None
              end
          | None => None
          end
        else None
    end
  else None.
Lemma run_backlogged_run f g acts m0 t m m' t' :
  (backlogged m f -> backlogged m g -> backlogged_run f g m0 t m) ->
  run_backlogged f g acts m = Some (m', t') -> backlogged_run f g m0 (t ++ t') m'.
Proof.
  revert t m t'. induction acts as [|x acts IH]; intros t m t' Hb; cbn [run_backlogged];
    (destruct (_ && _) eqn:Hfg; [|done]);
    apply andb_true_iff in Hfg as [Hf%backlogged_b_true Hg%backlogged_b_true].
  - intros [= <- <-]. rewrite app_nil_r. auto.
  - destruct (action_enabled m x) eqn:Hx; [|done].
    destruct (exec_action x m) as [[[[] m1] t1]|] eqn:Hex; [|done].
    destruct (run_backlogged f g acts m1) as [[m2 t2]|] eqn:Hrun; [|done]. intros [= <- <-].
    rewrite app_assoc. eapply IH; [|exact Hrun]. intros. eapply br_step; eauto.
Qed.

Lemma service_app w a t t' : service w a (t ++ t') = service w a t + service w a t'.
Proof.
  unfold service. induction t as [|e t IH]; cbn; [lia|]. rewrite IH.
  destruct e as [|b d k| |]; try lia. destruct (b =? a); lia.
Qed.

Lemma run_service f g mtu m t m' :
  f <> g -> inv mtu m -> backlogged_run f g m t m' ->
  inv mtu m' /\ packet_weight m' = packet_weight m /\ backlogged m' f /\ backlogged m' g /\
  vtime m' f - vtime m' g =
    vtime m f - vtime m g + service (packet_weight m) f t - service (packet_weight m) g t /\
  service (packet_weight m) f t - service (packet_weight m) g t <=
    Z.max 0 (vtime m g - vtime m f) + packet_weight m + mtu.
Proof.
  intros Hne H0. induction 1 as [Hf Hg|t m1 x m2 t' Hrun IH Hx Hex Hf2 Hg2].
  - pose proof H0 as [Hc _]. destruct (i_mtu _ _ Hc) as (? & ? & ?).
    assert (Hz : forall a, service (packet_weight m) a [] = 0) by done. rewrite !Hz.
    split_and!; try done; lia.
  - destruct IH as (Hinv & Hw & Hf1 & Hg1 & Hv & Hb).
    destruct (wp_run _ _ _ _ _ _ (fq_step mtu m1 x Hinv Hx) Hex) as
      [Hinv2 (Hw2 & (sub & Hsub) & Hpos & Hmin)]. rewrite Hw in *.
    pose proof (Hsub f Hf1 Hf2) as Hvf. pose proof (Hsub g Hg1 Hg2) as Hvg.
    rewrite !service_app. pose proof (Hpos f). pose proof (Hpos g).
    split_and!; try done; try lia.
    destruct (decide (0 < service (packet_weight m) f t')) as [Hs|]; [|lia].
    destruct (Hmin f g mtu Hinv2 Hs Hf1 Hg1 Hg2) as (? & ? & ?); [congruence|]. lia.
Qed.

(** C11: from an initialised queue, whatever the interleaving of flows being
    created, sending and freed with the jobs and the output, no assertion
    fails; all times stay in 64 bits; while something is queued, the output is
    busy or the scheduling job is set, so the queue never stalls; and the
    packet being sent belongs to a flow whose time is least. *)
Theorem fair_queue_correct mtu weight m0 :
  0 <= mtu <= INT_MAX -> 0 < weight <= INT_MAX ->
  PacketPassFairQueue_Init (PacketPassInterface_Init mtu) false weight blank = Some (true, m0, []) ->
  safe m0 /\ forall tr m, reach m0 tr m ->
    (forall a f, flows m !! a = Some f -> 0 <= time f <= FAIRQUEUE_MAX_TIME) /\
    (ot_elems (queued_tree m) <> [] -> pp_state (output m) <> NONE \/ schedule_job m = true) /\
    (forall s a, sending_flow m = Some s -> a ∈ ot_elems (queued_tree m) -> time_of m s <= time_of m a).
Proof.
  intros Hm Hw Hi. destruct (wp_run _ _ _ _ _ _ (fq_Init mtu false weight Hm Hw eq_refl) Hi) as (_ & _ & H0 & _).
  split.
  { eapply (inv_safe (fun _ m => inv mtu m)); [|exact H0]. intros tr m x Hinv Hx.
    eapply wp_mono; [by eapply fq_step|]. by intros ? ? ? []. }
  intros tr m [Hinv _]%(reach_invariant mtu m0 tr m H0). pose proof Hinv as [Hc Hidle].
  destruct (i_output _ _ Hc) as (oph & Hout & Ho). split_and!.
  - intros a f Hf. apply (i_flows _ _ Hc _ _ Hf).
  - intros Hne. destruct (sending_flow m) as [s|] eqn:Hs.
    + left. destruct Ho as (_ & _ & _ & _ & Ho & _). destruct Hout as (_ & _ & -> & _). by destruct oph.
    + right. destruct (schedule_job m) eqn:Hj; [done|]. by destruct (Hidle eq_refl eq_refl).
  - intros s a Hs. rewrite Hs in Ho. destruct Ho as (_ & _ & _ & _ & _ & Ho). apply Ho.
Qed.

(** C12: the handling of overflow of the 64-bit times is exact: when a flow
    that has just sent is charged, all times are moved back by one amount, no
    queued flow by more than its time, and the flow ends up with exactly its
    time plus the charge minus that amount. *)
Theorem increment_sent_flow_exact mtu m s f amount :
  inv mtu m -> sending_flow m = Some s -> flows m !! s = Some f ->
  0 <= amount <= FAIRQUEUE_MAX_TIME ->
  exists F sub, increment_sent_flow s amount (m <| sending_flow := None |>) =
      Some (tt, m <| sending_flow := None |> <| flows := F |>, []) /\
    0 <= sub /\ 0 <= time f + amount - sub <= FAIRQUEUE_MAX_TIME /\
    F !! s = Some (f <| time := time f + amount - sub |>) /\
    (forall a g, a <> s -> flows m !! a = Some g ->
       F !! a = Some (g <| time := Z.max 0 (time g - sub) |>)) /\
    (forall a g, flows m !! a = Some g -> is_queued g = true -> sub <= time g).
Proof.
  intros [Hc _] Hs Hf Ham. destruct (i_tree _ _ Hc) as (Hwf & Hsort & Htree).
  destruct (i_list _ _ Hc) as [Hnd Hlist]. destruct (i_output _ _ Hc) as (oph & Hout & Ho).
  rewrite Hs in Ho. destruct Ho as (_ & _ & _ & _ & _ & Hmin).
  pose proof (i_flows _ _ Hc _ _ Hf) as [Hft Hfq (ph & Hph & Hcase)].
  assert (Hsq : is_queued f = false) by (destruct (is_queued f); [destruct Hcase; congruence|done]).
  pose (P := fun (u : unit) (m' : Q) (t : list event) => t = [] /\ exists F sub,
    m' = m <| sending_flow := None |> <| flows := F |> /\
    0 <= sub /\ 0 <= time f + amount - sub <= FAIRQUEUE_MAX_TIME /\
    (forall x, F !! x = charged s amount sub x <$> flows m !! x) /\
    (forall a, a ∈ ot_elems (queued_tree m) -> sub <= time_of m a)).
  assert (Hwp : wp (increment_sent_flow s amount) P (m <| sending_flow := None |>)).
  { eapply (wp_increment _ s f); sug; try done.
    - intros a g Hg. pose proof (i_flows _ _ Hc _ _ Hg) as [? ? _]. done.
    - intros a Ha. specialize (Hmin a Ha). by rewrite (time_of_Some _ _ _ Hf) in Hmin.
    - intros F sub H1 H2 H3 H4. split; [done|]. exists F, sub. split_and!; try done; lia. }
  destruct (wp_elim _ _ _ Hwp) as ([] & m' & t & Hrun & -> & F & sub & -> & H1 & H2 & H3 & H4).
  exists F, sub. split_and!; try done; try lia.
  - rewrite H3, Hf. cbn. unfold charged. by rewrite Z.eqb_refl.
  - intros a g Hne Hg. rewrite H3, Hg. cbn. unfold charged. by rewrite (proj2 (Z.eqb_neq _ _) Hne).
  - intros a g Hg Hgq. rewrite <- (time_of_Some _ _ _ Hg). apply H4.
    by apply (flow_queued mtu m a g Hc Hg).
Qed.

End correctness.

(** * Examples, with the trees of [BAVL.v] *)

Definition start_example : PacketPassFairQueue tree :=
  match PacketPassFairQueue_Init (PacketPassInterface_Init 1500) false 1 blank with
  | Some (_, m, _) => m
  | None => blank
  end.
Lemma start_init :
  PacketPassFairQueue_Init (PacketPassInterface_Init 1500) false 1 (blank (T:=tree)) = Some (true, start_example, []).
Proof. vm_compute. reflexivity. Qed.
Definition two_flows : list action :=
  [NewFlow 100; NewFlow 200; FlowConnects 100; FlowConnects 200;
   FlowSends 100 7 1000; FlowStarts 100; FlowSends 200 8 10; FlowStarts 200].

Definition mid_example : PacketPassFairQueue tree :=
  match run two_flows start_example with Some (m, _) => m | None => blank end.
Lemma mid_run : exists tr, run two_flows start_example = Some (mid_example, tr).
Proof. vm_compute. eauto. Qed.

Lemma fair_queue_correct_witness :
  safe start_example /\ sending_flow mid_example = Some 100 /\
  (200 ∈ ot_elems (queued_tree mid_example) -> time_of mid_example 100 <= time_of mid_example 200).
Proof.
  assert (H := fair_queue_correct (T:=tree) 1500 1 start_example ltac:(vm_compute; split; congruence)
    ltac:(vm_compute; split; congruence) start_init).
  destruct H as [Hs Hr]. destruct mid_run as [tr Hrun].
  destruct (Hr tr mid_example (run_reach _ _ _ _ Hrun)) as (_ & _ & Hmin).
  split; [exact Hs|]. split; [vm_compute; reflexivity|]. apply Hmin. vm_compute. reflexivity.
Defined.

Lemma mid_inv : inv 1500 mid_example.
Proof.
  destruct mid_run as [tr Hrun].
  destruct (wp_run _ _ _ _ _ _ (fq_Init (T:=tree) 1500 false 1 ltac:(vm_compute; split; congruence)
    ltac:(vm_compute; split; congruence) eq_refl) start_init)
    as (_ & _ & H0 & _).
  by destruct (reach_invariant 1500 start_example tr mid_example H0 (run_reach _ _ _ _ Hrun)).
Qed.

Definition flow_example : Flow :=
  match flows mid_example !! 100 with
  | Some f => f
  | None => mk_fl (PacketPassInterface_Init 0) false 0 false 0 0
  end.

(** The largest charge makes the times overflow. *)
Lemma increment_sent_flow_exact_witness :
  exists F sub f, flows mid_example !! 100 = Some f /\
    increment_sent_flow 100 FAIRQUEUE_MAX_TIME (mid_example <| sending_flow := None |>) =
      Some (tt, mid_example <| sending_flow := None |> <| flows := F |>, []) /\
    F !! 100 = Some (f <| time := time f + FAIRQUEUE_MAX_TIME - sub |>).
Proof.
  assert (Hf : flows mid_example !! 100 = Some flow_example) by (vm_compute; reflexivity).
  destruct (increment_sent_flow_exact 1500 mid_example 100 flow_example
    FAIRQUEUE_MAX_TIME mid_inv ltac:(vm_compute; reflexivity) Hf
    ltac:(vm_compute; split; congruence)) as (F & sub & H1 & _ & _ & H2 & _).
  exists F, sub, flow_example. exact (conj Hf (conj H1 H2)).
Defined.

Definition resend_acts : list action :=
  [OutputStarts; OutputFinishes; OutputDone; FlowDone 100; FlowSends 100 9 1500; FlowStarts 100; ScheduleJob].

End FQ.
