(* ===== verification/ParseNumber.v ===== *)
(** Numeric strings: [misc/parse_number.h].

    A [MemRef] is the list of its characters, a character its code.  A
    [uintmax_t] has 64 bits; the arithmetic of the code wraps, and the theorems
    show that it never does where it matters.  A function with an output
    pointer and a success flag is an option. *)

From S2P Require Import Prelude.

Module Num.

(** * The code *)

Definition decode_decimal_digit (c : Z) : Z :=
  match c with
  | 48 => 0 | 49 => 1 | 50 => 2 | 51 => 3 | 52 => 4
  | 53 => 5 | 54 => 6 | 55 => 7 | 56 => 8 | 57 => 9
  | _ => -1
  end.

Definition decode_hex_digit (c : Z) : Z :=
  match c with
  | 48 => 0 | 49 => 1 | 50 => 2 | 51 => 3 | 52 => 4
  | 53 => 5 | 54 => 6 | 55 => 7 | 56 => 8 | 57 => 9
  | 65 | 97 => 10 | 66 | 98 => 11 | 67 | 99 => 12
  | 68 | 100 => 13 | 69 | 101 => 14 | 70 | 102 => 15
  | _ => -1
  end.

(** ["18446744073709551615"] *)
Definition uintmax_max_str : bytes :=
  [49; 56; 52; 52; 54; 55; 52; 52; 48; 55; 51; 55; 48; 57; 53; 53; 49; 54; 49; 53].

(** [memcmp] of two blocks of the same size. *)
Fixpoint memcmp (a b : bytes) : Z :=
  match a, b with
  | x :: a, y :: b => if x <? y then -1 else if y <? x then 1 else memcmp a b
  | _, _ => 0
  end.

Fixpoint parse__no_overflow_loop (str : bytes) (n : Z) : option Z :=
  match str with
  | [] => Some n
  | c :: str =>
      if (c <? 48) || (57 <? c) then None
      else parse__no_overflow_loop str (u64 (10 * n + (c - 48)))
  end.
Definition parse__no_overflow (str : bytes) : option Z := parse__no_overflow_loop str 0.

Fixpoint remove_zeros (str : bytes) : bytes :=
  match str with
  | c :: str' => if c =? 48 then remove_zeros str' else str
  | [] => []
  end.

Definition parse_unsigned_integer (str : bytes) : option Z :=
  if zlen str =? 0 then None
  else
    let str := remove_zeros str in
    if (zlen uintmax_max_str <? zlen str)
       || ((zlen str =? zlen uintmax_max_str) && (0 <? memcmp str uintmax_max_str)) then None
    else parse__no_overflow str.

Fixpoint parse_hex_loop (str : bytes) (n : Z) : option Z :=
  match str with
  | [] => Some n
  | c :: str =>
      let digit := decode_hex_digit c in
      if digit <? 0 then None
      else if UINT64_MAX / 16 <? n then None
      else
        let n := u64 (n * 16) in
        if UINT64_MAX - n <? digit then None
        else parse_hex_loop str (u64 (n + digit))
  end.
Definition parse_unsigned_hex_integer (str : bytes) : option Z :=
  if zlen str =? 0 then None else parse_hex_loop str 0.

Definition parse_signmag_integer (str : bytes) : option (Z * Z) :=
  let '(sign, str) :=
    match str with
    | c :: str' => if (c =? 43) || (c =? 45) then (1 - 2 * Z.b2z (c =? 45), str') else (1, str)
    | [] => (1, str)
    end in
  match parse_unsigned_integer str with
  | Some mag => Some (sign, mag)
  | None => None
  end.

(** The [do]-[while] loops divide a 64-bit number by ten: twenty rounds. *)
Definition ROUNDS : nat := 20.
Fixpoint compute_decimal_repr_size_loop (fuel : nat) (x size : Z) : option Z :=
  match fuel with
  | O => None
  | S fuel =>
      let size := size + 1 in
      let x := x / 10 in
      if 0 <? x then compute_decimal_repr_size_loop fuel x size else Some size
  end.
Definition compute_decimal_repr_size (x : Z) : option Z := compute_decimal_repr_size_loop ROUNDS x 0.

(** [out] moves down from [out + repr_size]; the characters written so far are
    [acc], which starts at [out]. *)
Fixpoint generate_decimal_repr_loop (fuel : nat) (x : Z) (acc : bytes) : option bytes :=
  match fuel with
  | O => None
  | S fuel =>
      let acc := (48 + x mod 10) :: acc in
      let x := x / 10 in
      if 0 <? x then generate_decimal_repr_loop fuel x acc else Some acc
  end.
(** The characters at [out .. out + repr_size); the [ASSERT] and the start of
    the writing at [out + repr_size] make the length matter. *)
Definition generate_decimal_repr (x repr_size : Z) : option bytes :=
  size ← compute_decimal_repr_size x;
  if repr_size =? size then
    s ← generate_decimal_repr_loop ROUNDS x [];
    if zlen s =? repr_size then Some s else None
  else None.
Definition generate_decimal_repr_string (x : Z) : option (bytes * Z) :=
  repr_size ← compute_decimal_repr_size x;
  s ← generate_decimal_repr x repr_size;
  Some (s ++ [0], repr_size).

(** * The numbers the strings stand for *)

Definition is_digit (c : Z) : bool := (48 <=? c) && (c <=? 57).
Definition is_hex_digit (c : Z) : bool := 0 <=? decode_hex_digit c.
Definition dec_from (n : Z) (str : bytes) : Z := fold_left (fun n c => 10 * n + (c - 48)) str n.
Definition dec_val (str : bytes) : Z := dec_from 0 str.
Definition hex_from (n : Z) (str : bytes) : Z := fold_left (fun n c => 16 * n + decode_hex_digit c) str n.
Definition hex_val (str : bytes) : Z := hex_from 0 str.

Lemma is_digit_spec c : is_digit c = true <-> 48 <= c <= 57.
Proof. unfold is_digit. rewrite andb_true_iff, !Z.leb_le. tauto. Qed.

Lemma pow10_S {A} (c : A) str : 10 ^ zlen (c :: str) = 10 * 10 ^ zlen str.
Proof. rewrite zlen_cons, Z.add_comm, Z.pow_add_r by zlia. lia. Qed.
Lemma pow10_pos {A} (str : list A) : 0 < 10 ^ zlen str.
Proof. apply Z.pow_pos_nonneg; zlia. Qed.

Lemma dec_from_split n str : dec_from n str = n * 10 ^ zlen str + dec_val str.
Proof.
  unfold dec_val. revert n; induction str as [|c str IH]; intros n; [rewrite zlen_nil; cbn; lia|].
  change (dec_from (10 * n + (c - 48)) str = n * 10 ^ zlen (c :: str) + dec_from (10 * 0 + (c - 48)) str).
  rewrite IH, (IH (10 * 0 + (c - 48))), pow10_S. lia.
Qed.
Lemma dec_val_cons c str : dec_val (c :: str) = (c - 48) * 10 ^ zlen str + dec_val str.
Proof. apply (dec_from_split (10 * 0 + (c - 48))). Qed.
Lemma dec_val_bound str : forallb is_digit str = true -> 0 <= dec_val str < 10 ^ zlen str.
Proof.
  induction str as [|c str IH]; [by vm_compute|]. cbn [forallb]. intros [Hc Hs]%andb_true_iff.
  apply is_digit_spec in Hc. specialize (IH Hs). rewrite dec_val_cons, pow10_S. nia.
Qed.

(** ** Decimal parsing *)

Lemma parse_loop_invalid str n : forallb is_digit str = false -> parse__no_overflow_loop str n = None.
Proof.
  revert n; induction str as [|c str IH]; intros n; [done|]. cbn [forallb parse__no_overflow_loop].
  intros [Hc|Hs]%andb_false_iff; destruct (_ || _) eqn:E; try done; [|by apply IH].
  unfold is_digit in Hc. rewrite andb_false_iff in Hc. b2p. destruct Hc; b2p; lia.
Qed.
Lemma parse_loop_valid str n :
  forallb is_digit str = true -> 0 <= n -> dec_from n str <= UINT64_MAX ->
  parse__no_overflow_loop str n = Some (dec_from n str).
Proof.
  revert n; induction str as [|c str IH]; intros n; [done|]. cbn [forallb parse__no_overflow_loop].
  intros [Hc Hs]%andb_true_iff Hn Hmax. apply is_digit_spec in Hc.
  destruct (_ || _) eqn:E; [apply orb_true_iff in E as [?|?]; lia|].
  change (dec_from n (c :: str)) with (dec_from (10 * n + (c - 48)) str) in *.
  pose proof (dec_val_bound str Hs). pose proof (pow10_pos str).
  rewrite dec_from_split in Hmax.
  unfold u64. rewrite Z.mod_small by (unfold UINT64_MAX in *; nia).
  apply IH; [done|lia|]. by rewrite dec_from_split.
Qed.

Lemma remove_zeros_spec str :
  dec_val (remove_zeros str) = dec_val str /\
  forallb is_digit (remove_zeros str) = forallb is_digit str /\
  match remove_zeros str with c :: _ => c <> 48 | [] => True end.
Proof.
  induction str as [|c str IH]; [done|]. cbn [remove_zeros]. destruct (c =? 48) eqn:E; b2p; [|done].
  subst c. rewrite dec_val_cons. cbn [forallb]. destruct IH as (-> & -> & ?). split; [lia|done].
Qed.

Lemma memcmp_dec a b :
  length a = length b -> forallb is_digit a = true -> forallb is_digit b = true ->
  (0 <? memcmp a b) = (dec_val b <? dec_val a).
Proof.
  revert b; induction a as [|x a IH]; intros [|y b] Hl; try discriminate Hl; [done|].
  cbn [forallb memcmp]. intros [Hx Ha]%andb_true_iff [Hy Hb]%andb_true_iff.
  apply is_digit_spec in Hx, Hy. injection Hl as Hl. rewrite !dec_val_cons.
  pose proof (dec_val_bound a Ha). pose proof (dec_val_bound b Hb).
  assert (zlen a = zlen b) as Hz by (unfold zlen; congruence). rewrite Hz in *.
  destruct (x <? y) eqn:E1; b2p.
  { symmetry. apply Z.ltb_ge. nia. }
  destruct (y <? x) eqn:E2; b2p.
  { symmetry. apply Z.ltb_lt. nia. }
  replace y with x by lia. rewrite (IH b Hl Ha Hb).
  destruct (dec_val b <? dec_val a) eqn:E; symmetry; b2p; lia.
Qed.

Lemma parse_unsigned_spec str :
  parse_unsigned_integer str =
  if negb (zlen str =? 0) && forallb is_digit str && (dec_val str <=? UINT64_MAX)
  then Some (dec_val str) else None.
Proof.
  unfold parse_unsigned_integer. destruct (zlen str =? 0); [done|]. cbn [negb andb].
  destruct (remove_zeros_spec str) as (<- & <- & Hhd). set (s := remove_zeros str) in *.
  destruct (forallb is_digit s) eqn:Hd; cbn [andb].
  2: { rewrite (parse_loop_invalid s 0 Hd : parse__no_overflow s = None). by destruct (_ || _). }
  pose proof (dec_val_bound s Hd) as Hb. change (zlen uintmax_max_str) with 20.
  assert (Hover : (20 <? zlen s) || ((zlen s =? 20) && (0 <? memcmp s uintmax_max_str))
                  = negb (dec_val s <=? UINT64_MAX)).
  { destruct (20 <? zlen s) eqn:E1; cbn [orb]; b2p.
    - symmetry. apply negb_true_iff, Z.leb_gt. destruct s as [|c s']; [done|]. cbn [forallb] in Hd.
      apply andb_true_iff in Hd as [Hc Hs]. apply is_digit_spec in Hc. rewrite dec_val_cons.
      rewrite zlen_cons in E1. pose proof (dec_val_bound s' Hs).
      pose proof (Z.pow_le_mono_r 10 20 (zlen s') ltac:(lia) ltac:(lia)).
      assert (UINT64_MAX < 10 ^ 20) by by vm_compute. nia.
    - destruct (zlen s =? 20) eqn:E2; cbn [andb]; b2p.
      + rewrite memcmp_dec; [|unfold zlen in E2; cbn; lia|done|done].
        change (dec_val uintmax_max_str) with UINT64_MAX. by rewrite Z.leb_antisym, negb_involutive.
      + symmetry. apply negb_false_iff, Z.leb_le.
        pose proof (Z.pow_le_mono_r 10 (zlen s) 19 ltac:(lia) ltac:(lia)).
        assert (10 ^ 19 < UINT64_MAX) by by vm_compute. lia. }
  rewrite Hover. destruct (dec_val s <=? UINT64_MAX) eqn:E; cbn [negb]; [|done]. b2p.
  by apply parse_loop_valid.
Qed.

(** ** Hexadecimal parsing *)

Lemma hex_digit_range c : -1 <= decode_hex_digit c <= 15.
Proof. unfold decode_hex_digit. repeat case_match; lia. Qed.
Lemma hex_from_mono n str : forallb is_hex_digit str = true -> 0 <= n -> n <= hex_from n str.
Proof.
  revert n; induction str as [|c str IH]; intros n; [cbn; lia|]. cbn [forallb].
  intros [Hc Hs]%andb_true_iff Hn. unfold is_hex_digit in Hc. b2p.
  cbn [hex_from fold_left]. fold (hex_from (16 * n + decode_hex_digit c) str).
  specialize (IH (16 * n + decode_hex_digit c) Hs ltac:(lia)). lia.
Qed.
Lemma parse_hex_spec_from str : forall n, 0 <= n <= UINT64_MAX ->
  parse_hex_loop str n =
  if forallb is_hex_digit str && (hex_from n str <=? UINT64_MAX) then Some (hex_from n str) else None.
Proof.
  induction str as [|c str IH]; intros n Hn; cbn [parse_hex_loop forallb].
  { cbn. destruct (n <=? UINT64_MAX) eqn:E; [done|b2p; lia]. }
  change (hex_from n (c :: str)) with (hex_from (16 * n + decode_hex_digit c) str).
  unfold is_hex_digit at 1. pose proof (hex_digit_range c).
  destruct (decode_hex_digit c <? 0) eqn:Ec; b2p.
  { by replace (0 <=? decode_hex_digit c) with false by lia. }
  replace (0 <=? decode_hex_digit c) with true by lia. cbn [andb].
  assert (Hbig : UINT64_MAX < 16 * n + decode_hex_digit c ->
    forallb is_hex_digit str && (hex_from (16 * n + decode_hex_digit c) str <=? UINT64_MAX) = false).
  { intros Hlt. destruct (forallb is_hex_digit str) eqn:Hs; [|done]. cbn [andb].
    pose proof (hex_from_mono (16 * n + decode_hex_digit c) str Hs ltac:(lia)). lia. }
  pose proof (Z.mul_div_le UINT64_MAX 16 ltac:(lia)).
  pose proof (Z.mul_succ_div_gt UINT64_MAX 16 ltac:(lia)).
  destruct (UINT64_MAX / 16 <? n) eqn:E1; b2p; [rewrite Hbig by lia; done|].
  assert (Hm : u64 (n * 16) = n * 16)
    by (unfold u64, UINT64_MAX in *; rewrite Z.mod_small; lia).
  rewrite Hm. destruct (UINT64_MAX - n * 16 <? decode_hex_digit c) eqn:E2; b2p; [rewrite Hbig by lia; done|].
  assert (Hm2 : u64 (n * 16 + decode_hex_digit c) = 16 * n + decode_hex_digit c)
    by (unfold u64, UINT64_MAX in *; rewrite Z.mod_small; lia).
  rewrite Hm2. by rewrite IH by lia.
Qed.


(** ** Printing *)

Lemma div10_bound fuel x :
  0 <= x < 10 ^ Z.of_nat (S (S fuel)) -> 0 <= x / 10 < 10 ^ Z.of_nat (S fuel).
Proof.
  intros Hx. rewrite (Nat2Z.inj_succ (S fuel)), Z.pow_succ_r in Hx by lia.
  split; [apply Z.div_pos; lia|apply Z.div_lt_upper_bound; lia].
Qed.

Lemma size_loop_spec fuel : forall x size, 0 <= x < 10 ^ Z.of_nat (S fuel) ->
  exists k, compute_decimal_repr_size_loop (S fuel) x size = Some (size + k) /\
    1 <= k <= Z.of_nat (S fuel).
Proof.
  induction fuel as [|fuel IH]; intros x size Hx; cbn [compute_decimal_repr_size_loop].
  - change (10 ^ Z.of_nat 1) with 10 in Hx. rewrite Z.div_small by lia. exists 1. split; [done|lia].
  - destruct (0 <? x / 10) eqn:E; [|exists 1; split; [done|lia]]. b2p.
    destruct (IH (x / 10) (size + 1)) as (k & Hk & ?).
    { by apply div10_bound. }
    cbn [compute_decimal_repr_size_loop] in Hk. rewrite Hk. exists (1 + k). split; [f_equal; lia|lia].
Qed.

Lemma size_loop_shift f : forall y a b c,
  compute_decimal_repr_size_loop f y a = Some b ->
  compute_decimal_repr_size_loop f y (c + a) = Some (c + b).
Proof.
  induction f as [|f IH]; intros y a b c; [done|]. cbn [compute_decimal_repr_size_loop]. intros Hc.
  destruct (0 <? y / 10); [|by injection Hc as <-; f_equal; lia].
  rewrite <- (IH _ _ _ c Hc). f_equal. lia.
Qed.
Lemma size_loop_S f x a :
  compute_decimal_repr_size_loop (S f) x a =
  if 0 <? x / 10 then compute_decimal_repr_size_loop f (x / 10) (a + 1) else Some (a + 1).
Proof. done. Qed.
Lemma generate_loop_S f x acc :
  generate_decimal_repr_loop (S f) x acc =
  if 0 <? x / 10 then generate_decimal_repr_loop f (x / 10) ((48 + x mod 10) :: acc)
  else Some ((48 + x mod 10) :: acc).
Proof. done. Qed.

(** What the loop writes: the digits of [x]. *)
Definition prints (x : Z) (s : bytes) : Prop :=
  forallb is_digit s = true /\ dec_val s = x /\ (x <> 0 -> head s <> Some 48) /\ s <> [].

Lemma prints_digit x : 0 <= x < 10 -> prints x [48 + x].
Proof.
  intros Hx. unfold prints, dec_val, dec_from. cbn [forallb fold_left head]. rewrite andb_true_r.
  split_and!; [apply is_digit_spec; lia|lia| |done]. intros ? [= ?]. lia.
Qed.
Lemma prints_snoc x s : 0 < x / 10 -> prints (x / 10) s -> prints x (s ++ [48 + x mod 10]).
Proof.
  intros Hx (Hd & Hv & Hh & Hne).
  pose proof (Z.mod_pos_bound x 10 ltac:(lia)). pose proof (Z.div_mod x 10 ltac:(lia)). split_and!.
  - rewrite forallb_app, Hd. cbn. rewrite andb_true_r. apply is_digit_spec. lia.
  - unfold dec_val, dec_from in *. rewrite fold_left_app, Hv. cbn. lia.
  - intros _. specialize (Hh ltac:(lia)). by destruct s.
  - by destruct s.
Qed.

Lemma generate_loop_spec fuel : forall x acc, 0 <= x < 10 ^ Z.of_nat (S fuel) ->
  exists s, generate_decimal_repr_loop (S fuel) x acc = Some (s ++ acc) /\
    compute_decimal_repr_size_loop (S fuel) x 0 = Some (zlen s) /\ prints x s.
Proof.
  induction fuel as [|fuel IH]; intros x acc Hx; rewrite generate_loop_S, size_loop_S.
  - change (10 ^ Z.of_nat 1) with 10 in Hx. rewrite Z.div_small, Z.mod_small by lia.
    exists [48 + x]. split_and!; [done|done|by apply prints_digit].
  - destruct (0 <? x / 10) eqn:E; b2p.
    + destruct (IH (x / 10) ((48 + x mod 10) :: acc)) as (s & Hs & Hk & Hp); [by apply div10_bound|].
      exists (s ++ [48 + x mod 10]). rewrite <- app_assoc, zlen_app, (Z.add_comm (zlen s)).
      split_and!; [done| |by apply prints_snoc]. rewrite (Z.add_comm 0). by apply size_loop_shift.
    + assert (x / 10 = 0) by (pose proof (Z.div_pos x 10); lia).
      pose proof (Z.div_mod x 10 ltac:(lia)). pose proof (Z.mod_pos_bound x 10 ltac:(lia)).
      replace (x mod 10) with x by lia. exists [48 + x]. split_and!; [done|done|apply prints_digit; lia].
Qed.

(** Printing a 64-bit number takes the announced number of characters, at
    most twenty, without a leading zero, and parsing them gives it back. *)
Theorem decimal_roundtrip (x : Z) (Hx : 0 <= x <= UINT64_MAX) :
  exists s, generate_decimal_repr_string x = Some (s ++ [0], zlen s) /\
    compute_decimal_repr_size x = Some (zlen s) /\ 1 <= zlen s <= 20 /\
    (x <> 0 -> head s <> Some 48) /\
    parse_unsigned_integer s = Some x /\
    parse_signmag_integer s = Some (1, x) /\ parse_signmag_integer (45 :: s) = Some (-1, x).
Proof.
  assert (Hb : 0 <= x < 10 ^ Z.of_nat 20).
  { assert (UINT64_MAX < 10 ^ Z.of_nat 20) by by vm_compute. lia. }
  destruct (generate_loop_spec 19 x [] Hb) as (s & Hg & Hk & Hd & Hv & Hh & Hne).
  destruct (size_loop_spec 19 x 0 Hb) as (k & Hk' & Hk2).
  assert (Hlen : 1 <= zlen s <= 20) by (rewrite Hk in Hk'; injection Hk' as ->; lia).
  assert (Hp : parse_unsigned_integer s = Some x).
  { rewrite parse_unsigned_spec, Hd, Hv. replace (zlen s =? 0) with false by lia.
    by replace (x <=? UINT64_MAX) with true by lia. }
  exists s. unfold generate_decimal_repr_string, generate_decimal_repr, compute_decimal_repr_size, ROUNDS.
  rewrite Hk. cbn [mbind option_bind]. rewrite Z.eqb_refl, Hg, app_nil_r. cbn [mbind option_bind].
  rewrite Z.eqb_refl. split_and!; try done; try lia.
  - destruct s as [|c s]; [done|]. unfold parse_signmag_integer.
    cbn [forallb] in Hd. apply andb_true_iff in Hd as [Hc%is_digit_spec _].
    assert ((c =? 43) || (c =? 45) = false) as -> by lia. by rewrite Hp.
  - unfold parse_signmag_integer. change ((45 =? 43) || (45 =? 45)) with true. cbn iota. by rewrite Hp.
Qed.
Lemma decimal_roundtrip_witness :
  exists s, generate_decimal_repr_string 1080 = Some (s ++ [0], zlen s) /\ parse_unsigned_integer s = Some 1080.
Proof.
  assert (Hx : 0 <= 1080 <= UINT64_MAX) by (unfold UINT64_MAX; lia).
  destruct (decimal_roundtrip 1080 Hx) as (s & H1 & _ & _ & _ & H2 & _).
  exists s. exact (conj H1 H2).
Defined.
End Num.
