(* ===== verification/NetInt.v ===== *)
(** Integers in memory: [misc/byteorder.h] and [misc/read_write_int.h].

    The host is little-endian ([BADVPN_LITTLE_ENDIAN]).  A pointer is the list
    of the bytes from it on; reading past its end is [None].  An integer that
    lies in memory is given by [le_bytes]; the byte-swapping functions work on
    that representation, as the code does. *)

From S2P Require Import Prelude.

Module NetInt.

(** * byteorder.h *)

(** The byte at offset [i] of [x] in memory. *)
Definition byte_at (x i : Z) : Z := u8 (Z.shiftr x (8 * i)).

Definition badvpn_reverse16 (x : Z) : Z := le_val [byte_at x 1; byte_at x 0].
Definition badvpn_reverse32 (x : Z) : Z := le_val [byte_at x 3; byte_at x 2; byte_at x 1; byte_at x 0].
Definition badvpn_reverse64 (x : Z) : Z := le_val [byte_at x 7; byte_at x 6; byte_at x 5; byte_at x 4; byte_at x 3; byte_at x 2; byte_at x 1; byte_at x 0].

Definition hton8 (x : Z) : Z := x.
Definition htol8 (x : Z) : Z := x.
Definition hton16 (x : Z) : Z := badvpn_reverse16 x.
Definition hton32 (x : Z) : Z := badvpn_reverse32 x.
Definition hton64 (x : Z) : Z := badvpn_reverse64 x.
Definition htol16 (x : Z) : Z := x.
Definition htol32 (x : Z) : Z := x.
Definition htol64 (x : Z) : Z := x.
Definition ntoh8 (x : Z) : Z := hton8 x.
Definition ntoh16 (x : Z) : Z := hton16 x.
Definition ntoh32 (x : Z) : Z := hton32 x.
Definition ntoh64 (x : Z) : Z := hton64 x.
Definition ltoh8 (x : Z) : Z := htol8 x.
Definition ltoh16 (x : Z) : Z := htol16 x.
Definition ltoh32 (x : Z) : Z := htol32 x.
Definition ltoh64 (x : Z) : Z := htol64 x.

(** * read_write_int.h *)

(** [a ||| b] is the bitwise or, [a ≪ k] the left shift. *)
#[local] Infix "|||" := Z.lor (at level 50, left associativity).

Definition badvpn_read_le8 (ptr : bytes) : option Z :=
  match ptr with
  | p0 :: _ => Some (u8 ((p0 ≪ 0)))
  | _ => None
  end.
Definition badvpn_read_le16 (ptr : bytes) : option Z :=
  match ptr with
  | p0 :: p1 :: _ => Some (u16 ((p1 ≪ 8) ||| (p0 ≪ 0)))
  | _ => None
  end.
Definition badvpn_read_le32 (ptr : bytes) : option Z :=
  match ptr with
  | p0 :: p1 :: p2 :: p3 :: _ => Some (u32 ((p3 ≪ 24) ||| (p2 ≪ 16) ||| (p1 ≪ 8) ||| (p0 ≪ 0)))
  | _ => None
  end.
Definition badvpn_read_le64 (ptr : bytes) : option Z :=
  match ptr with
  | p0 :: p1 :: p2 :: p3 :: p4 :: p5 :: p6 :: p7 :: _ => Some (u64 ((p7 ≪ 56) ||| (p6 ≪ 48) ||| (p5 ≪ 40) ||| (p4 ≪ 32) |||
      (p3 ≪ 24) ||| (p2 ≪ 16) ||| (p1 ≪ 8) ||| (p0 ≪ 0)))
  | _ => None
  end.
Definition badvpn_read_be8 (ptr : bytes) : option Z :=
  match ptr with
  | p0 :: _ => Some (u8 ((p0 ≪ 0)))
  | _ => None
  end.
Definition badvpn_read_be16 (ptr : bytes) : option Z :=
  match ptr with
  | p0 :: p1 :: _ => Some (u16 ((p0 ≪ 8) ||| (p1 ≪ 0)))
  | _ => None
  end.
Definition badvpn_read_be32 (ptr : bytes) : option Z :=
  match ptr with
  | p0 :: p1 :: p2 :: p3 :: _ => Some (u32 ((p0 ≪ 24) ||| (p1 ≪ 16) ||| (p2 ≪ 8) ||| (p3 ≪ 0)))
  | _ => None
  end.
Definition badvpn_read_be64 (ptr : bytes) : option Z :=
  match ptr with
  | p0 :: p1 :: p2 :: p3 :: p4 :: p5 :: p6 :: p7 :: _ => Some (u64 ((p0 ≪ 56) ||| (p1 ≪ 48) ||| (p2 ≪ 40) ||| (p3 ≪ 32) |||
      (p4 ≪ 24) ||| (p5 ≪ 16) ||| (p6 ≪ 8) ||| (p7 ≪ 0)))
  | _ => None
  end.

(** The bytes a writing function stores, from the pointer on. *)
Definition badvpn_write_le8 (x : Z) : bytes := [u8 (x ≫ 0)].
Definition badvpn_write_le16 (x : Z) : bytes := [u8 (x ≫ 0); u8 (x ≫ 8)].
Definition badvpn_write_le32 (x : Z) : bytes := [u8 (x ≫ 0); u8 (x ≫ 8); u8 (x ≫ 16); u8 (x ≫ 24)].
Definition badvpn_write_le64 (x : Z) : bytes := [u8 (x ≫ 0); u8 (x ≫ 8); u8 (x ≫ 16); u8 (x ≫ 24); u8 (x ≫ 32); u8 (x ≫ 40); u8 (x ≫ 48); u8 (x ≫ 56)].
Definition badvpn_write_be8 (x : Z) : bytes := [u8 (x ≫ 0)].
Definition badvpn_write_be16 (x : Z) : bytes := [u8 (x ≫ 8); u8 (x ≫ 0)].
Definition badvpn_write_be32 (x : Z) : bytes := [u8 (x ≫ 24); u8 (x ≫ 16); u8 (x ≫ 8); u8 (x ≫ 0)].
Definition badvpn_write_be64 (x : Z) : bytes := [u8 (x ≫ 56); u8 (x ≫ 48); u8 (x ≫ 40); u8 (x ≫ 32); u8 (x ≫ 24); u8 (x ≫ 16); u8 (x ≫ 8); u8 (x ≫ 0)].

(** * The encodings *)

Lemma byte_at_nat x i : 0 <= i -> byte_at x i = (x / 256 ^ i) mod 256.
Proof.
  intros. unfold byte_at, u8. rewrite Z.shiftr_div_pow2 by lia.
  rewrite Z.mul_comm, Z.mul_comm, Z.pow_mul_r by lia. done.
Qed.

(** The bytes of a number, lowest first, by shifting. *)
Definition shift_bytes (n : nat) (x : Z) : bytes := (fun i => u8 (Z.shiftr x (8 * Z.of_nat i))) <$> seq 0 n.
Lemma shift_bytes_le n x : shift_bytes n x = le_bytes n x.
Proof.
  revert x; induction n as [|n IH]; intros x; [done|].
  unfold shift_bytes. cbn [seq fmap list_fmap]. change (le_bytes (S n) x) with (x mod 256 :: le_bytes n (x / 256)).
  f_equal. rewrite <- IH. unfold shift_bytes. rewrite <- fmap_S_seq, <- list_fmap_compose.
  apply list_fmap_ext. intros _ i _. cbn.
  unfold u8. rewrite !Z.shiftr_div_pow2 by lia.
  replace (8 * Z.of_nat (S i)) with (8 + 8 * Z.of_nat i) by lia.
  rewrite Z.pow_add_r, <- Z.div_div by lia. done.
Qed.

Lemma land_low a b k : 0 <= k -> 0 <= b < 2 ^ k -> Z.land (a ≪ k) b = 0.
Proof.
  intros Hk Hb. apply Z.bits_inj'. intros n Hn. rewrite Z.land_spec, Z.bits_0.
  destruct (decide (n < k)).
  - by rewrite Z.shiftl_spec_low.
  - rewrite <- (Z.mod_small b (2 ^ k)) by done.
    rewrite (Z.mod_pow2_bits_high b) by lia. apply andb_false_r.
Qed.

(** One byte added below a shifted number. *)
Lemma lor_byte a b k :
  0 <= b < 256 -> 0 <= k -> (a ≪ (k + 8)) ||| (b ≪ k) = (256 * a + b) ≪ k.
Proof.
  intros Hb Hk. rewrite (Z.add_comm k), <- Z.shiftl_shiftl, <- Z.shiftl_lor by lia. f_equal.
  pose proof (Z.add_lor_land (a ≪ 8) b) as H. rewrite land_low in H by lia.
  rewrite Z.shiftl_mul_pow2 in * by lia. lia.
Qed.

Ltac or_bytes :=
  repeat match goal with
  | |- context [(?a ≪ ?n) ||| (?b ≪ ?k)] =>
      replace ((a ≪ n) ||| (b ≪ k)) with ((256 * a + b) ≪ k)
        by (symmetry; apply (lor_byte a b k); lia)
  end; rewrite Z.shiftl_0_r.

Lemma le_val_cons b l : le_val (b :: l) = b + 256 * le_val l.
Proof. done. Qed.
Lemma le_val_nil : le_val [] = 0.
Proof. done. Qed.

Ltac read_tac :=
  intros; unfold byte_ok in *; rewrite ?le_val_cons, ?le_val_nil;
  match goal with |- ?f _ = _ => unfold f end; or_bytes;
  unfold u8, u16, u32, u64; rewrite Z.mod_small by lia; f_equal; lia.

Lemma read_le8_val p0 r : byte_ok p0 ->
  badvpn_read_le8 (p0 :: r) = Some (le_val [p0]).
Proof. read_tac. Qed.
Lemma read_be8_val p0 r : byte_ok p0 ->
  badvpn_read_be8 (p0 :: r) = Some (le_val [p0]).
Proof. read_tac. Qed.
Lemma read_le16_val p0 p1 r : byte_ok p0 -> byte_ok p1 ->
  badvpn_read_le16 (p0 :: p1 :: r) = Some (le_val [p0; p1]).
Proof. read_tac. Qed.
Lemma read_be16_val p0 p1 r : byte_ok p0 -> byte_ok p1 ->
  badvpn_read_be16 (p0 :: p1 :: r) = Some (le_val [p1; p0]).
Proof. read_tac. Qed.
Lemma read_le32_val p0 p1 p2 p3 r : byte_ok p0 -> byte_ok p1 -> byte_ok p2 -> byte_ok p3 ->
  badvpn_read_le32 (p0 :: p1 :: p2 :: p3 :: r) = Some (le_val [p0; p1; p2; p3]).
Proof. read_tac. Qed.
Lemma read_be32_val p0 p1 p2 p3 r : byte_ok p0 -> byte_ok p1 -> byte_ok p2 -> byte_ok p3 ->
  badvpn_read_be32 (p0 :: p1 :: p2 :: p3 :: r) = Some (le_val [p3; p2; p1; p0]).
Proof. read_tac. Qed.
Lemma read_le64_val p0 p1 p2 p3 p4 p5 p6 p7 r : byte_ok p0 -> byte_ok p1 -> byte_ok p2 -> byte_ok p3 -> byte_ok p4 -> byte_ok p5 -> byte_ok p6 -> byte_ok p7 ->
  badvpn_read_le64 (p0 :: p1 :: p2 :: p3 :: p4 :: p5 :: p6 :: p7 :: r) = Some (le_val [p0; p1; p2; p3; p4; p5; p6; p7]).
Proof. read_tac. Qed.
Lemma read_be64_val p0 p1 p2 p3 p4 p5 p6 p7 r : byte_ok p0 -> byte_ok p1 -> byte_ok p2 -> byte_ok p3 -> byte_ok p4 -> byte_ok p5 -> byte_ok p6 -> byte_ok p7 ->
  badvpn_read_be64 (p0 :: p1 :: p2 :: p3 :: p4 :: p5 :: p6 :: p7 :: r) = Some (le_val [p7; p6; p5; p4; p3; p2; p1; p0]).
Proof. read_tac. Qed.

Lemma write_le8 x : badvpn_write_le8 x = le_bytes 1 x.
Proof. by rewrite <- shift_bytes_le. Qed.
Lemma write_be8 x : badvpn_write_be8 x = be_bytes 1 x.
Proof. unfold be_bytes. by rewrite <- shift_bytes_le. Qed.
Lemma write_le16 x : badvpn_write_le16 x = le_bytes 2 x.
Proof. by rewrite <- shift_bytes_le. Qed.
Lemma write_be16 x : badvpn_write_be16 x = be_bytes 2 x.
Proof. unfold be_bytes. by rewrite <- shift_bytes_le. Qed.
Lemma write_le32 x : badvpn_write_le32 x = le_bytes 4 x.
Proof. by rewrite <- shift_bytes_le. Qed.
Lemma write_be32 x : badvpn_write_be32 x = be_bytes 4 x.
Proof. unfold be_bytes. by rewrite <- shift_bytes_le. Qed.
Lemma write_le64 x : badvpn_write_le64 x = le_bytes 8 x.
Proof. by rewrite <- shift_bytes_le. Qed.
Lemma write_be64 x : badvpn_write_be64 x = be_bytes 8 x.
Proof. unfold be_bytes. by rewrite <- shift_bytes_le. Qed.

Lemma u8_ok x : byte_ok (u8 x).
Proof. apply Z.mod_pos_bound. lia. Qed.

(** A number of [n] bytes is the value of its bytes. *)
Lemma le_val_bytes_small n x : 0 <= x < 256 ^ Z.of_nat n -> le_val (le_bytes n x) = x.
Proof. intros. by rewrite le_val_bytes, Z.mod_small. Qed.

(** What a conversion to network order leaves in memory. *)
Lemma hton16_bytes x : le_bytes 2 (hton16 x) = be_bytes 2 x.
Proof.
  unfold hton16, badvpn_reverse16, be_bytes. rewrite <- (shift_bytes_le 2 x).
  apply (le_bytes_val [byte_at x 1; byte_at x 0]). repeat constructor; apply u8_ok.
Qed.
Lemma hton32_bytes x : le_bytes 4 (hton32 x) = be_bytes 4 x.
Proof.
  unfold hton32, badvpn_reverse32, be_bytes. rewrite <- (shift_bytes_le 4 x).
  apply (le_bytes_val [byte_at x 3; byte_at x 2; byte_at x 1; byte_at x 0]). repeat constructor; apply u8_ok.
Qed.
Lemma hton64_bytes x : le_bytes 8 (hton64 x) = be_bytes 8 x.
Proof.
  unfold hton64, badvpn_reverse64, be_bytes. rewrite <- (shift_bytes_le 8 x).
  apply (le_bytes_val [byte_at x 7; byte_at x 6; byte_at x 5; byte_at x 4;
                       byte_at x 3; byte_at x 2; byte_at x 1; byte_at x 0]). repeat constructor; apply u8_ok.
Qed.

Lemma hton16_range x : 0 <= hton16 x < 256 ^ 2.
Proof. apply (le_val_bound [byte_at x 1; byte_at x 0]). repeat constructor; apply u8_ok. Qed.
Lemma hton32_range x : 0 <= hton32 x < 256 ^ 4.
Proof.
  apply (le_val_bound [byte_at x 3; byte_at x 2; byte_at x 1; byte_at x 0]).
  repeat constructor; apply u8_ok.
Qed.
Lemma hton64_range x : 0 <= hton64 x < 256 ^ 8.
Proof.
  apply (le_val_bound [byte_at x 7; byte_at x 6; byte_at x 5; byte_at x 4;
                       byte_at x 3; byte_at x 2; byte_at x 1; byte_at x 0]).
  repeat constructor; apply u8_ok.
Qed.

(** Reading back what a conversion stores: a number determined by its bytes. *)
Lemma bytes_inj n x y : 0 <= x < 256 ^ Z.of_nat n -> 0 <= y < 256 ^ Z.of_nat n ->
  le_bytes n x = le_bytes n y -> x = y.
Proof.
  intros Hx Hy He. rewrite <- (le_val_bytes_small n x), <- (le_val_bytes_small n y) by done. congruence.
Qed.
Lemma swap_swap n x y z :
  0 <= x < 256 ^ Z.of_nat n -> 0 <= z < 256 ^ Z.of_nat n ->
  le_bytes n y = be_bytes n x -> le_bytes n z = be_bytes n y -> z = x.
Proof.
  intros Hx Hz Hy He. apply (bytes_inj n); [done..|]. rewrite He. unfold be_bytes. rewrite Hy.
  unfold be_bytes. by rewrite rev_involutive.
Qed.

(** ** Bitwise operations commute with swapping *)

Lemma testbit_le_val_low b l n : 0 <= b < 256 -> 0 <= n < 8 -> Z.testbit (le_val (b :: l)) n = Z.testbit b n.
Proof.
  intros Hb Hn. rewrite le_val_cons, <- (Z.mod_pow2_bits_low (b + 256 * le_val l) 8) by lia.
  change (2 ^ 8) with 256. rewrite (Z.mul_comm 256), Z.mod_add by lia. by rewrite Z.mod_small.
Qed.
Lemma testbit_le_val_high b l n : 0 <= b < 256 -> 8 <= n ->
  Z.testbit (le_val (b :: l)) n = Z.testbit (le_val l) (n - 8).
Proof.
  intros Hb Hn. rewrite le_val_cons. replace n with ((n - 8) + 8) at 1 by lia.
  rewrite <- Z.div_pow2_bits by lia. change (2 ^ 8) with 256.
  rewrite (Z.mul_comm 256), Z.div_add, Z.div_small by lia. done.
Qed.
Lemma land_u8 a b : Z.land (u8 a) (u8 b) = u8 (Z.land a b).
Proof.
  unfold u8. apply Z.bits_inj'. intros n Hn. rewrite Z.land_spec.
  destruct (decide (n < 8)).
  - by rewrite !Z.mod_pow2_bits_low, Z.land_spec by lia.
  - by rewrite !Z.mod_pow2_bits_high by lia.
Qed.
Lemma le_val_land l l' : bytes_ok l -> bytes_ok l' -> length l = length l' ->
  Z.land (le_val l) (le_val l') = le_val (zip_with Z.land l l').
Proof.
  intros Hl. revert l'. induction Hl as [|b l Hb Hl IH]; intros [|b' l'] Hl' Hlen; try discriminate Hlen; [done|].
  apply Forall_cons in Hl' as [Hb' Hl']. injection Hlen as Hlen. cbn [zip_with].
  assert (0 <= Z.land b b' < 256).
  { replace (Z.land b b') with (u8 (Z.land b b')); [apply u8_ok|].
    rewrite <- land_u8. unfold u8, byte_ok in *. by rewrite !Z.mod_small by lia. }
  apply Z.bits_inj'. intros n Hn. rewrite Z.land_spec. destruct (decide (n < 8)).
  - by rewrite !testbit_le_val_low, Z.land_spec by (unfold byte_ok in *; lia).
  - rewrite !testbit_le_val_high by (unfold byte_ok in *; lia). rewrite <- Z.land_spec. by rewrite IH.
Qed.
Lemma byte_at_land a b i : Z.land (byte_at a i) (byte_at b i) = byte_at (Z.land a b) i.
Proof. unfold byte_at. by rewrite land_u8, Z.shiftr_land. Qed.
Lemma hton32_land a b : Z.land (hton32 a) (hton32 b) = hton32 (Z.land a b).
Proof.
  unfold hton32, badvpn_reverse32. rewrite le_val_land; [|repeat constructor; apply u8_ok..|done].
  cbn [zip_with]. by rewrite !byte_at_land.
Qed.
Lemma hton32_involutive x : 0 <= x < 2 ^ 32 -> ntoh32 (hton32 x) = x.
Proof.
  intros Hx. apply (swap_swap 4 x (hton32 x)); [done|apply hton32_range|apply hton32_bytes..].
Qed.
Lemma ntoh32_range x : 0 <= ntoh32 x < 2 ^ 32.
Proof. change (2 ^ 32) with (256 ^ 4). apply hton32_range. Qed.
Lemma land_hton32 a m : 0 <= a < 2 ^ 32 -> 0 <= m < 2 ^ 32 ->
  Z.land a m = hton32 (Z.land (ntoh32 a) (ntoh32 m)).
Proof.
  intros Ha Hm. rewrite <- hton32_land.
  rewrite (hton32_involutive a Ha : hton32 (ntoh32 a) = a).
  by rewrite (hton32_involutive m Hm : hton32 (ntoh32 m) = m).
Qed.
Lemma ntoh16_range x : 0 <= ntoh16 x < 2 ^ 16.
Proof. change (2 ^ 16) with (256 ^ 2). apply hton16_range. Qed.
Lemma ntoh16_hton16 x : 0 <= x < 65536 -> ntoh16 (hton16 x) = x.
Proof. intros Hx. apply (swap_swap 2 x (hton16 x)); [done|apply hton16_range|apply hton16_bytes..]. Qed.
Lemma hton32_inj x y : 0 <= x < 2 ^ 32 -> 0 <= y < 2 ^ 32 -> hton32 x = hton32 y -> x = y.
Proof. intros Hx Hy H. rewrite <- (hton32_involutive x), <- (hton32_involutive y) by done. congruence. Qed.

(** Every integer of the width is read back as it was written, in both
    orders and whatever follows it in memory; the bytes written are those of
    the encoding, and the conversions to network order produce the big-endian
    bytes and are their own inverses. *)
Theorem integers_in_memory (x : Z) (rest : bytes) :
  (0 <= x < 2 ^ 8 ->
    badvpn_read_le8 (badvpn_write_le8 x ++ rest) = Some x /\
    badvpn_read_be8 (badvpn_write_be8 x ++ rest) = Some x /\ ntoh8 (hton8 x) = x) /\
  (0 <= x < 2 ^ 16 ->
    badvpn_read_le16 (badvpn_write_le16 x ++ rest) = Some x /\
    badvpn_read_be16 (badvpn_write_be16 x ++ rest) = Some x /\
    badvpn_write_le16 (hton16 x) = badvpn_write_be16 x /\ ntoh16 (hton16 x) = x) /\
  (0 <= x < 2 ^ 32 ->
    badvpn_read_le32 (badvpn_write_le32 x ++ rest) = Some x /\
    badvpn_read_be32 (badvpn_write_be32 x ++ rest) = Some x /\
    badvpn_write_le32 (hton32 x) = badvpn_write_be32 x /\ ntoh32 (hton32 x) = x) /\
  (0 <= x < 2 ^ 64 ->
    badvpn_read_le64 (badvpn_write_le64 x ++ rest) = Some x /\
    badvpn_read_be64 (badvpn_write_be64 x ++ rest) = Some x /\
    badvpn_write_le64 (hton64 x) = badvpn_write_be64 x /\ ntoh64 (hton64 x) = x).
Proof.
  split_and!; intros Hx; split_and!; try done.
  - change (badvpn_write_le8 x) with (shift_bytes 1 x). cbn [shift_bytes seq fmap list_fmap app]. rewrite read_le8_val by apply u8_ok.
    f_equal. etrans; [|by apply (le_val_bytes_small 1)]. by rewrite <- shift_bytes_le.
  - change (badvpn_write_be8 x) with (rev (shift_bytes 1 x)). cbn [shift_bytes seq fmap list_fmap app rev]. rewrite read_be8_val by apply u8_ok.
    f_equal. etrans; [|by apply (le_val_bytes_small 1)]. by rewrite <- shift_bytes_le.
  - change (badvpn_write_le16 x) with (shift_bytes 2 x). cbn [shift_bytes seq fmap list_fmap app]. rewrite read_le16_val by apply u8_ok.
    f_equal. etrans; [|by apply (le_val_bytes_small 2)]. by rewrite <- shift_bytes_le.
  - change (badvpn_write_be16 x) with (rev (shift_bytes 2 x)). cbn [shift_bytes seq fmap list_fmap app rev]. rewrite read_be16_val by apply u8_ok.
    f_equal. etrans; [|by apply (le_val_bytes_small 2)]. by rewrite <- shift_bytes_le.
  - rewrite write_le16, write_be16. apply hton16_bytes.
  - apply (swap_swap 2 x (hton16 x)); [done|apply hton16_range|apply hton16_bytes..].
  - change (badvpn_write_le32 x) with (shift_bytes 4 x). cbn [shift_bytes seq fmap list_fmap app]. rewrite read_le32_val by apply u8_ok.
    f_equal. etrans; [|by apply (le_val_bytes_small 4)]. by rewrite <- shift_bytes_le.
  - change (badvpn_write_be32 x) with (rev (shift_bytes 4 x)). cbn [shift_bytes seq fmap list_fmap app rev]. rewrite read_be32_val by apply u8_ok.
    f_equal. etrans; [|by apply (le_val_bytes_small 4)]. by rewrite <- shift_bytes_le.
  - rewrite write_le32, write_be32. apply hton32_bytes.
  - apply (swap_swap 4 x (hton32 x)); [done|apply hton32_range|apply hton32_bytes..].
  - change (badvpn_write_le64 x) with (shift_bytes 8 x). cbn [shift_bytes seq fmap list_fmap app]. rewrite read_le64_val by apply u8_ok.
    f_equal. etrans; [|by apply (le_val_bytes_small 8)]. by rewrite <- shift_bytes_le.
  - change (badvpn_write_be64 x) with (rev (shift_bytes 8 x)). cbn [shift_bytes seq fmap list_fmap app rev]. rewrite read_be64_val by apply u8_ok.
    f_equal. etrans; [|by apply (le_val_bytes_small 8)]. by rewrite <- shift_bytes_le.
  - rewrite write_le64, write_be64. apply hton64_bytes.
  - apply (swap_swap 8 x (hton64 x)); [done|apply hton64_range|apply hton64_bytes..].
Qed.
Lemma integers_in_memory_witness :
  badvpn_read_be32 (badvpn_write_be32 3232235777 ++ [7]) = Some 3232235777 /\
  badvpn_write_le16 (hton16 8080) = badvpn_write_be16 8080.
Proof.
  assert (H1 : 0 <= 3232235777 < 2 ^ 32) by lia. assert (H2 : 0 <= 8080 < 2 ^ 16) by lia. split.
  - exact (proj1 (proj2 (proj1 (proj2 (proj2 (integers_in_memory 3232235777 [7]))) H1))).
  - exact (proj1 (proj2 (proj2 (proj1 (proj2 (integers_in_memory 8080 [])) H2)))).
Defined.
End NetInt.
