(* ===== verification/IpAddr.v ===== *)
(** IPv4 addresses: [misc/ipaddr.h].

    An address is the [uint32_t] the program stores, in network order: its
    bytes in memory are the four numbers of the dotted notation.  A string is a
    [MemRef], the list of its characters; [sprintf] prints a byte in decimal. *)

From S2P Require Import Prelude ParseNumber NetInt.
Import Num NetInt.

Module IpAddr.

Record ipv4_ifaddr := mk_ifaddr { addr : Z; prefix : Z }.

(** The position of the first [ch], or the length. *)
Fixpoint find_char (str : bytes) (ch : Z) : Z :=
  match str with
  | [] => 0
  | c :: str => if c =? ch then 0 else 1 + find_char str ch
  end.
Definition MemRef_FindChar (str : bytes) (ch : Z) : option Z :=
  if find_char str ch <? zlen str then Some (find_char str ch) else None.
(** The [ASSERT]s on the range are [None]. *)
Definition MemRef_SubTo (str : bytes) (len : Z) : option bytes :=
  if (0 <=? len) && (len <=? zlen str) then Some (take (Z.to_nat len) str) else None.
Definition MemRef_SubFrom (str : bytes) (off : Z) : option bytes :=
  if (0 <=? off) && (off <=? zlen str) then Some (drop (Z.to_nat off) str) else None.

Definition DOT : Z := 46.
Definition SLASH : Z := 47.

(** [out] holds the bytes of [*out_addr] written so far; [fuel] rounds. *)
Fixpoint parse_ipv4_loop (fuel : nat) (i : Z) (name out : bytes) : option Z :=
  match fuel with
  | O => None
  | S fuel =>
      let j := find_char name DOT in
      if ((j =? zlen name) && (i <? 3)) || ((j <? zlen name) && (i =? 3)) then None
      else if (j <? 1) || (3 <? j) then None
      else
        part ← MemRef_SubTo name j;
        d ← parse_unsigned_integer part;
        if 255 <? d then None
        else
          let out := out ++ [u8 d] in
          if i =? 3 then Some (le_val out)
          else
            rest ← MemRef_SubFrom name (j + 1);
            parse_ipv4_loop fuel (i + 1) rest out
  end.
Definition ipaddr_parse_ipv4_addr (name : bytes) : option Z := parse_ipv4_loop 4 0 name [].

Definition ipaddr_parse_ipv4_prefix (str : bytes) : option Z :=
  d ← parse_unsigned_integer str;
  if 32 <? d then None else Some d.

Definition ipaddr_parse_ipv4_ifaddr (str : bytes) : option ipv4_ifaddr :=
  slash_pos ← MemRef_FindChar str SLASH;
  a ← MemRef_SubTo str slash_pos ≫= ipaddr_parse_ipv4_addr;
  p ← MemRef_SubFrom str (slash_pos + 1) ≫= ipaddr_parse_ipv4_prefix;
  Some (mk_ifaddr a p).

(** The mask of [n] leading ones, bit by bit from bit [32 - i - 1] on. *)
Fixpoint mask_loop (n : nat) (i t : Z) : Z :=
  match n with
  | O => t
  | S n => mask_loop n (i + 1) (u32 (Z.lor t (Z.shiftl 1 (32 - i - 1))))
  end.
Definition ipaddr_ipv4_mask_from_prefix (prefix : Z) : option Z :=
  if (0 <=? prefix) && (prefix <=? 32) then Some (hton32 (mask_loop (Z.to_nat prefix) 0 0)) else None.

Fixpoint prefix_loop (fuel : nat) (i t mask : Z) : option Z :=
  match fuel with
  | O => None
  | S fuel =>
      if ntoh32 mask =? t then Some i
      else prefix_loop fuel (i + 1) (if i <? 32 then u32 (Z.lor t (Z.shiftl 1 (32 - i - 1))) else t) mask
  end.
(** [i] runs from 0 to 32. *)
Definition ipaddr_ipv4_prefix_from_mask (mask : Z) : option Z := prefix_loop 33 0 0 mask.

(** The loop is unfolded last when terms are compared. *)
#[local] Strategy 1000 [prefix_loop].

Definition ipaddr_ipv4_ifaddr_from_addr_mask (addr mask : Z) : option ipv4_ifaddr :=
  prefix ← ipaddr_ipv4_prefix_from_mask mask;
  Some (mk_ifaddr addr prefix).

Definition ipaddr_ipv4_addrs_in_network (addr1 addr2 netprefix : Z) : option bool :=
  mask ← ipaddr_ipv4_mask_from_prefix netprefix;
  Some (Z.land addr1 mask =? Z.land addr2 mask).

(** [%PRIu8] and [%d] of small numbers. *)
Definition print_dec (d : Z) : bytes := default [] (generate_decimal_repr_loop ROUNDS d []).
Definition ipaddr_print_addr (addr : Z) : bytes :=
  match le_bytes 4 addr with
  | [b0; b1; b2; b3] => print_dec b0 ++ DOT :: print_dec b1 ++ DOT :: print_dec b2 ++ DOT :: print_dec b3
  | _ => []
  end.
Definition ipaddr_print_ifaddr (ifaddr : ipv4_ifaddr) : bytes :=
  ipaddr_print_addr (addr ifaddr) ++ SLASH :: print_dec (prefix ifaddr).

(** * Dotted notation *)

Lemma find_char_app s ch rest : ch ∉ s -> find_char (s ++ ch :: rest) ch = zlen s.
Proof.
  induction s as [|c s IH]; cbn [app find_char]; intros Hs.
  - by rewrite Z.eqb_refl.
  - rewrite not_elem_of_cons in Hs. destruct Hs as [Hc Hs]. replace (c =? ch) with false by lia.
    rewrite IH by done. by rewrite zlen_cons.
Qed.
Lemma find_char_none s ch : ch ∉ s -> find_char s ch = zlen s.
Proof.
  induction s as [|c s IH]; [done|]. cbn [find_char]. rewrite not_elem_of_cons. intros [Hc Hs].
  replace (c =? ch) with false by lia. rewrite IH by done. by rewrite zlen_cons.
Qed.
Lemma find_char_range s ch : 0 <= find_char s ch <= zlen s.
Proof.
  induction s as [|c s IH]; cbn [find_char]; [by vm_compute|]. rewrite zlen_cons. destruct (c =? ch); lia.
Qed.
Lemma find_char_split s ch : find_char s ch < zlen s ->
  s = take (Z.to_nat (find_char s ch)) s ++ ch :: drop (Z.to_nat (find_char s ch + 1)) s.
Proof.
  induction s as [|c s IH]; cbn [find_char]; [by intros Hn; vm_compute in Hn|rewrite zlen_cons].
  destruct (c =? ch) eqn:E; b2p; [by subst|]. intros Hlt. pose proof (find_char_range s ch).
  replace (Z.to_nat (1 + find_char s ch)) with (S (Z.to_nat (find_char s ch))) by lia.
  replace (Z.to_nat (1 + find_char s ch + 1)) with (S (Z.to_nat (find_char s ch + 1))) by lia.
  cbn [take drop app]. f_equal. apply IH. lia.
Qed.

Lemma SubTo_app s rest : MemRef_SubTo (s ++ rest) (zlen s) = Some s.
Proof.
  unfold MemRef_SubTo. rewrite zlen_app.
  assert ((0 <=? zlen s) && (zlen s <=? zlen s + zlen rest) = true) as -> by (b2p; zlia).
  unfold zlen. by rewrite Nat2Z.id, take_app_length.
Qed.
Lemma SubFrom_app s c rest : MemRef_SubFrom (s ++ c :: rest) (zlen s + 1) = Some rest.
Proof.
  unfold MemRef_SubFrom. rewrite zlen_app, zlen_cons.
  assert ((0 <=? zlen s + 1) && (zlen s + 1 <=? zlen s + (1 + zlen rest)) = true) as -> by (b2p; zlia).
  replace (s ++ c :: rest) with ((s ++ [c]) ++ rest) by by rewrite <- app_assoc.
  rewrite drop_app_ge; rewrite length_app; unfold zlen; cbn [length]; [|lia].
  by replace (Z.to_nat _ - _)%nat with 0%nat by lia.
Qed.

(** A part of the notation: one to three digits, at most 255. *)
Definition octet (s : bytes) (d : Z) : Prop :=
  1 <= zlen s <= 3 /\ parse_unsigned_integer s = Some d /\ 0 <= d <= 255.

Lemma octet_digits s d : octet s d -> forallb is_digit s = true.
Proof.
  intros (_ & Hp & _). rewrite parse_unsigned_spec in Hp. by destruct (forallb is_digit s), (zlen s =? 0).
Qed.
Lemma digits_no_char s ch : forallb is_digit s = true -> is_digit ch = false -> ch ∉ s.
Proof.
  intros Hs Hc Hin. rewrite forallb_forall in Hs. apply list_elem_of_In in Hin.
  specialize (Hs ch Hin). congruence.
Qed.
Lemma octet_no_dot s d : octet s d -> DOT ∉ s.
Proof. intros H. by eapply digits_no_char; [eapply octet_digits|]. Qed.
Lemma octet_small s d : octet s d -> u8 d = d.
Proof. intros (_ & _ & Hd). unfold u8. rewrite Z.mod_small; lia. Qed.

Lemma parse_part fuel i s d rest out :
  octet s d -> 0 <= i < 3 ->
  parse_ipv4_loop (S fuel) i (s ++ DOT :: rest) out = parse_ipv4_loop fuel (i + 1) rest (out ++ [d]).
Proof.
  intros Ho Hi. pose proof Ho as (Hl & Hp & Hd). cbn [parse_ipv4_loop].
  rewrite (find_char_app s DOT rest) by by eapply octet_no_dot.
  rewrite zlen_app, zlen_cons. pose proof (zlen_nonneg rest).
  replace (zlen s =? zlen s + (1 + zlen rest)) with false by lia.
  replace (i =? 3) with false by lia. rewrite andb_false_r. cbn [orb andb].
  replace ((zlen s <? 1) || (3 <? zlen s)) with false by lia.
  rewrite SubTo_app, SubFrom_app. cbn [mbind option_bind]. rewrite Hp. cbn [mbind option_bind].
  replace (255 <? d) with false by lia. by rewrite (octet_small s d Ho).
Qed.
Lemma parse_last fuel s d out :
  octet s d -> parse_ipv4_loop (S fuel) 3 s out = Some (le_val (out ++ [d])).
Proof.
  intros Ho. pose proof Ho as (Hl & Hp & Hd). cbn [parse_ipv4_loop].
  rewrite (find_char_none s DOT) by by eapply octet_no_dot.
  assert (((zlen s =? zlen s) && (3 <? 3)) || ((zlen s <? zlen s) && (3 =? 3)) = false) as -> by lia.
  replace ((zlen s <? 1) || (3 <? zlen s)) with false by lia.
  pose proof (SubTo_app s []) as Hs. rewrite app_nil_r in Hs. rewrite Hs. cbn [mbind option_bind]. rewrite Hp.
  cbn [mbind option_bind]. replace (255 <? d) with false by lia. by rewrite (octet_small s d Ho).
Qed.

(** What an accepted part is. *)
Lemma SubTo_Some s n p : MemRef_SubTo s n = Some p -> p = take (Z.to_nat n) s /\ 0 <= n <= zlen s.
Proof. unfold MemRef_SubTo. destruct (_ && _) eqn:E; [|done]. intros [= <-]. b2p. done. Qed.
Lemma parse_bound s d : parse_unsigned_integer s = Some d -> 0 <= d.
Proof.
  rewrite parse_unsigned_spec. destruct (_ && _) eqn:E; [|done]. intros [= <-]. b2p.
  by apply dec_val_bound.
Qed.
Lemma parse_loop_inv fuel i name out a :
  parse_ipv4_loop (S fuel) i name out = Some a -> 0 <= i <= 3 ->
  exists s d, octet s d /\
    ((i = 3 /\ name = s /\ a = le_val (out ++ [d])) \/
     (i < 3 /\ exists rest, name = s ++ DOT :: rest /\
        parse_ipv4_loop fuel (i + 1) rest (out ++ [d]) = Some a)).
Proof.
  cbn [parse_ipv4_loop]. set (j := find_char name DOT). intros H Hi.
  destruct (_ || _) eqn:E1 in H; [done|]. destruct ((j <? 1) || (3 <? j)) eqn:E2; [done|].
  destruct (MemRef_SubTo name j) as [part|] eqn:Hpart; [|done]. cbn [mbind option_bind] in H.
  destruct (parse_unsigned_integer part) as [d|] eqn:Hd; [|done]. cbn [mbind option_bind] in H.
  destruct (255 <? d) eqn:E3; [done|]. b2p. apply SubTo_Some in Hpart as [-> Hj].
  pose proof (parse_bound _ _ Hd) as Hd0.
  assert (Ho : octet (take (Z.to_nat j) name) d) by (split; [rewrite zlen_take; lia|split; [done|lia]]).
  exists (take (Z.to_nat j) name), d. split; [done|]. rewrite (octet_small _ _ Ho) in H.
  destruct (i =? 3) eqn:E4; b2p.
  - left. injection H as <-. destruct (j <? zlen name) eqn:E5; [rewrite !andb_true_r in *; done|].
    b2p. split; [done|]. split; [|done]. rewrite take_ge; [done|]. unfold zlen in *. lia.
  - right. split; [lia|]. destruct (j =? zlen name) eqn:E5; [lia|]. b2p.
    assert (j < zlen name) by lia. unfold MemRef_SubFrom in H.
    destruct ((0 <=? j + 1) && (j + 1 <=? zlen name)); [|done]. cbn [mbind option_bind] in H.
    eexists. split; [by apply find_char_split|done].
Qed.

(** [ipaddr_parse_ipv4_addr] accepts exactly four parts of one to three
    digits and at most 255 separated by dots, and returns the address with
    these four bytes. *)
Theorem parse_ipv4_exact (name : bytes) (a : Z) :
  ipaddr_parse_ipv4_addr name = Some a <->
  exists s0 s1 s2 s3 d0 d1 d2 d3,
    octet s0 d0 /\ octet s1 d1 /\ octet s2 d2 /\ octet s3 d3 /\
    name = s0 ++ DOT :: s1 ++ DOT :: s2 ++ DOT :: s3 /\ a = le_val [d0; d1; d2; d3].
Proof.
  unfold ipaddr_parse_ipv4_addr. split.
  - intros H. apply parse_loop_inv in H as (s0 & d0 & ? & [[? _]|(_ & r0 & -> & H)]); [lia| |lia].
    apply parse_loop_inv in H as (s1 & d1 & ? & [[? _]|(_ & r1 & -> & H)]); [lia| |lia].
    apply parse_loop_inv in H as (s2 & d2 & ? & [[? _]|(_ & r2 & -> & H)]); [lia| |lia].
    apply parse_loop_inv in H as (s3 & d3 & ? & [(_ & -> & ->)|[? _]]); [|lia..].
    exists s0, s1, s2, s3, d0, d1, d2, d3. done.
  - intros (s0 & s1 & s2 & s3 & d0 & d1 & d2 & d3 & H0 & H1 & H2 & H3 & -> & ->).
    rewrite (parse_part _ _ s0 d0) by (done || lia). rewrite (parse_part _ _ s1 d1) by (done || lia).
    rewrite (parse_part _ _ s2 d2) by (done || lia). by rewrite (parse_last _ s3 d3).
Qed.

(** * Printing *)

(** A property of finitely many numbers, by computing it for each. *)
Lemma check_range (f : Z -> bool) (a n : Z) :
  forallb f (seqZ a n) = true -> forall x, a <= x < a + n -> f x = true.
Proof.
  intros Hf x Hx. rewrite forallb_forall in Hf. apply Hf, list_elem_of_In, elem_of_seqZ. lia.
Qed.

Definition octet_b (s : bytes) (d : Z) : bool :=
  (1 <=? zlen s) && (zlen s <=? 3) && bool_decide (parse_unsigned_integer s = Some d).
Lemma print_octet d : 0 <= d < 256 -> octet (print_dec d) d.
Proof.
  intros Hd. assert (H : octet_b (print_dec d) d = true).
  { revert d Hd. apply (check_range (fun d => octet_b (print_dec d) d) 0 256). by vm_compute. }
  unfold octet_b in H. b2p. split; [lia|]. split; [done|lia].
Qed.
Lemma print_prefix p : 0 <= p <= 32 ->
  ipaddr_parse_ipv4_prefix (print_dec p) = Some p /\ SLASH ∉ print_dec p.
Proof.
  intros Hp. split.
  - enough (bool_decide (ipaddr_parse_ipv4_prefix (print_dec p) = Some p) = true) by by b2p.
    assert (Hp' : 0 <= p < 0 + 33) by lia. clear Hp. revert p Hp'.
    apply (check_range (fun p => bool_decide (ipaddr_parse_ipv4_prefix (print_dec p) = Some p)) 0 33).
    by vm_compute.
  - eapply digits_no_char; [eapply octet_digits, print_octet; lia|done].
Qed.

Lemma print_addr_parts a : 0 <= a < 2 ^ 32 ->
  exists d0 d1 d2 d3, le_bytes 4 a = [d0; d1; d2; d3] /\ a = le_val [d0; d1; d2; d3] /\
    Forall (fun d => 0 <= d < 256) [d0; d1; d2; d3] /\
    ipaddr_print_addr a = print_dec d0 ++ DOT :: print_dec d1 ++ DOT :: print_dec d2 ++ DOT :: print_dec d3.
Proof.
  intros Ha. unfold ipaddr_print_addr. pose proof (le_bytes_ok 4 a) as Hb.
  pose proof (le_val_bytes_small 4 a Ha) as Hv. pose proof (length_le_bytes 4 a) as Hl.
  destruct (le_bytes 4 a) as [|d0 [|d1 [|d2 [|d3 [|]]]]]; try discriminate Hl.
  exists d0, d1, d2, d3. done.
Qed.

(** Printing an address and parsing the result gives the address back, and
    so does printing and parsing an address with a prefix. *)
Theorem ipv4_print_parse (i : ipv4_ifaddr) (Ha : 0 <= addr i < 2 ^ 32) (Hp : 0 <= prefix i <= 32) :
  ipaddr_parse_ipv4_addr (ipaddr_print_addr (addr i)) = Some (addr i) /\
  ipaddr_parse_ipv4_ifaddr (ipaddr_print_ifaddr i) = Some i.
Proof.
  destruct (print_addr_parts _ Ha) as (d0 & d1 & d2 & d3 & _ & Hv & Hd & Hpr).
  rewrite !Forall_cons in Hd. destruct Hd as (H0 & H1 & H2 & H3 & _).
  assert (Hparse : ipaddr_parse_ipv4_addr (ipaddr_print_addr (addr i)) = Some (addr i)).
  { apply parse_ipv4_exact. exists (print_dec d0), (print_dec d1), (print_dec d2), (print_dec d3), d0, d1, d2, d3.
    split_and!; try by apply print_octet. all: done. }
  split; [done|]. unfold ipaddr_parse_ipv4_ifaddr, ipaddr_print_ifaddr.
  destruct (print_prefix _ Hp) as [Hpp _].
  assert (Hs : SLASH ∉ ipaddr_print_addr (addr i)).
  { rewrite Hpr, !not_elem_of_app, !not_elem_of_cons, !not_elem_of_app, !not_elem_of_cons, not_elem_of_app, not_elem_of_cons.
    split_and!; try done; eapply digits_no_char; try (eapply octet_digits, print_octet; done); done. }
  unfold MemRef_FindChar. rewrite (find_char_app _ SLASH _ Hs), zlen_app, zlen_cons.
  replace (_ <? _) with true by (symmetry; apply Z.ltb_lt; zlia). cbn [mbind option_bind].
  rewrite SubTo_app, SubFrom_app. cbn [mbind option_bind]. rewrite Hparse. cbn [mbind option_bind].
  rewrite Hpp. by destruct i.
Qed.
Lemma ipv4_print_parse_witness :
  ipaddr_parse_ipv4_ifaddr (ipaddr_print_ifaddr (mk_ifaddr 16885952 24)) = Some (mk_ifaddr 16885952 24).
Proof.
  assert (H1 : 0 <= 16885952 < 2 ^ 32) by lia. assert (H2 : 0 <= 24 <= 32) by lia.
  exact (proj2 (ipv4_print_parse (mk_ifaddr 16885952 24) H1 H2)).
Defined.

(** * Masks *)

(** The mask as a number in host order. *)
Definition mask_value (p : Z) : Z := 2 ^ 32 - 2 ^ (32 - p).

Lemma mask_exact p : 0 <= p <= 32 ->
  exists m, ipaddr_ipv4_mask_from_prefix p = Some m /\ ntoh32 m = mask_value p /\ 0 <= m < 2 ^ 32 /\
    ipaddr_ipv4_prefix_from_mask m = Some p.
Proof.
  intros Hp. set (chk p := match ipaddr_ipv4_mask_from_prefix p with
    | Some m => (ntoh32 m =? mask_value p) && ((0 <=? m) && (m <? 2 ^ 32)) &&
                bool_decide (ipaddr_ipv4_prefix_from_mask m = Some p)
    | None => false end).
  assert (H : chk p = true).
  { assert (Hp' : 0 <= p < 0 + 33) by lia. clear Hp. revert p Hp'. apply (check_range chk). by vm_compute. }
  unfold chk in H. destruct (ipaddr_ipv4_mask_from_prefix p) as [m|]; [|done]. exists m. b2p. done.
Qed.

Lemma prefix_loop_Some fuel : forall i t mask p,
  prefix_loop fuel i t mask = Some p -> 0 <= i -> i + Z.of_nat fuel <= 33 -> t = mask_value i ->
  ntoh32 mask = mask_value p /\ i <= p <= 32.
Proof.
  induction fuel as [|fuel IH]; intros i t mask p; [done|]. cbn [prefix_loop].
  destruct (ntoh32 mask =? t) eqn:E; b2p.
  { intros [= <-] ? ? ->. split; [done|lia]. }
  intros H Hi Hf ->. destruct fuel as [|fuel']; [done|].
  apply IH in H; [|lia|lia|]; [destruct H; split; [done|lia]|].
  replace (i <? 32) with true by lia.
  set (chk i := u32 (Z.lor (mask_value i) (Z.shiftl 1 (32 - i - 1))) =? mask_value (i + 1)).
  enough (chk i = true) by (unfold chk in *; b2p; done).
  assert (Hi' : 0 <= i < 0 + 32) by lia. clear E H Hi Hf. revert i Hi'. apply (check_range chk). by vm_compute.
Qed.

(** Both sides restricted to the leading bits. *)
Lemma land_mask a p : 0 <= a < 2 ^ 32 -> 0 <= p <= 32 ->
  Z.land a (mask_value p) = a / 2 ^ (32 - p) * 2 ^ (32 - p).
Proof.
  intros Ha Hp. unfold mask_value.
  replace (2 ^ 32 - 2 ^ (32 - p)) with (Z.shiftl (Z.ones p) (32 - p)).
  2: { rewrite Z.shiftl_mul_pow2, Z.ones_equiv by lia.
       replace 32 with (p + (32 - p)) at 2 by lia. rewrite Z.pow_add_r by lia. lia. }
  rewrite <- Z.shiftl_mul_pow2, <- Z.shiftr_div_pow2 by lia.
  apply Z.bits_inj'. intros n Hn. rewrite Z.land_spec.
  destruct (decide (n < 32 - p)).
  - rewrite !Z.shiftl_spec_low by lia. apply andb_false_r.
  - rewrite !Z.shiftl_spec, Z.shiftr_spec by lia. replace (n - (32 - p) + (32 - p)) with n by lia.
    destruct (decide (n < 32)).
    + rewrite Z.ones_spec_low by lia. apply andb_true_r.
    + rewrite <- (Z.mod_small a (2 ^ 32)) by done. by rewrite Z.mod_pow2_bits_high by lia.
Qed.

Lemma prefix_from_mask_inv p m m' : 0 <= p <= 32 -> 0 <= m < 2 ^ 32 -> 0 <= m' < 2 ^ 32 ->
  ntoh32 m = mask_value p -> ipaddr_ipv4_prefix_from_mask m' = Some p -> m' = m.
Proof.
  intros Hp Hm Hm' Hv H. apply prefix_loop_Some in H as [H _]; [|lia..|done].
  apply hton32_inj; [done..|]. fold (ntoh32 m') (ntoh32 m). congruence.
Qed.

Lemma leading_bits b1 b2 k : 0 < k -> (b1 / k * k =? b2 / k * k) = (b1 / k =? b2 / k).
Proof.
  intros Hk. destruct (b1 / k =? b2 / k) eqn:E; b2p; [by rewrite E|]. intros H. apply E. nia.
Qed.

Lemma addrs_in_network_spec p m a1 a2 :
  0 <= p <= 32 -> ipaddr_ipv4_mask_from_prefix p = Some m -> ntoh32 m = mask_value p ->
  0 <= m < 2 ^ 32 -> 0 <= a1 < 2 ^ 32 -> 0 <= a2 < 2 ^ 32 ->
  ipaddr_ipv4_addrs_in_network a1 a2 p = Some (ntoh32 a1 / 2 ^ (32 - p) =? ntoh32 a2 / 2 ^ (32 - p)).
Proof.
  intros Hp Hm Hv Hr H1 H2. unfold ipaddr_ipv4_addrs_in_network. rewrite Hm. cbn [mbind option_bind].
  f_equal. rewrite !(land_hton32 _ m) by done. rewrite Hv.
  pose proof (ntoh32_range a1) as Hr1. pose proof (ntoh32_range a2) as Hr2.
  pose proof (Z.pow_pos_nonneg 2 (32 - p) ltac:(lia) ltac:(lia)) as Hk.
  rewrite !land_mask by done. rewrite <- leading_bits by done.
  assert (Hb : forall b, 0 <= b < 2 ^ 32 -> 0 <= b / 2 ^ (32 - p) * 2 ^ (32 - p) < 2 ^ 32).
  { intros b Hb. pose proof (Z.mul_div_le b (2 ^ (32 - p)) Hk).
    pose proof (Z.div_pos b (2 ^ (32 - p)) ltac:(lia) Hk). nia. }
  specialize (Hb _ Hr1) as Hb1. specialize (Hb _ Hr2) as Hb2.
  destruct (_ * _ =? _ * _) eqn:E; b2p; [by rewrite E|].
  intros He. apply E. by apply hton32_inj.
Qed.

(** For every prefix length the mask is the one with that many leading
    ones; [ipaddr_ipv4_prefix_from_mask] is its exact inverse and refuses every
    other mask; two addresses are in one network exactly when their leading
    bits, in host order, agree. *)
Theorem masks_exact (p : Z) (Hp : 0 <= p <= 32) :
  exists m, ipaddr_ipv4_mask_from_prefix p = Some m /\ ntoh32 m = mask_value p /\
    (forall m', 0 <= m' < 2 ^ 32 -> ipaddr_ipv4_prefix_from_mask m' = Some p <-> m' = m) /\
    (forall a1 a2, 0 <= a1 < 2 ^ 32 -> 0 <= a2 < 2 ^ 32 ->
       ipaddr_ipv4_addrs_in_network a1 a2 p =
       Some (ntoh32 a1 / 2 ^ (32 - p) =? ntoh32 a2 / 2 ^ (32 - p))).
Proof.
  destruct (mask_exact p Hp) as (m & Hm & Hv & Hr & Hi). exists m. split; [done|]. split; [done|]. split.
  - intros m' Hm'. split; [by apply prefix_from_mask_inv|by intros ->].
  - intros a1 a2 H1 H2. by apply (addrs_in_network_spec p m).
Qed.
Lemma masks_exact_witness :
  exists m, ipaddr_ipv4_mask_from_prefix 24 = Some m /\ ntoh32 m = 4294967040.
Proof.
  assert (H : 0 <= 24 <= 32) by lia. destruct (masks_exact 24 H) as (m & H1 & H2 & _).
  exists m. exact (conj H1 H2).
Defined.
End IpAddr.
