(* ===== verification/IpProto.v ===== *)
(** The packet formats the program reads and writes: [misc/ipv4_proto.h],
    [misc/udp_proto.h] and [misc/ipv6_proto.h].

    A packed header struct is the list of its bytes; a field is read at its
    offset, as the number the host sees (little-endian).  A packet is the list
    of its [data_len] bytes.  Sums are [uint32_t], reads are bounds-checked. *)

From S2P Require Import Prelude NetInt.
Import NetInt.

Module IpProto.

Definition IPV4_PROTOCOL_IGMP : Z := 2.
Definition IPV4_PROTOCOL_UDP : Z := 17.
Definition IPV6_NEXT_UDP : Z := 17.

(** Sizes of the structs. *)
Definition IPV4_HEADER : Z := 20.
Definition UDP_HEADER : Z := 8.
Definition IPV6_HEADER : Z := 40.

(** A field of [n] bytes at an offset. *)
Definition field (off n : Z) (h : bytes) : Z := le_val (slice off n h).

Record ipv4_header := mk_ip4 {
  version4_ihl4 : Z; ds : Z; total_length : Z; identification : Z; flags3_fragmentoffset13 : Z;
  ttl : Z; protocol : Z; checksum : Z; source_address : Z; destination_address : Z
}.
#[export] Instance eta_ip4 : Eta ipv4_header := fun h =>
  mk_ip4 (version4_ihl4 h) (ds h) (total_length h) (identification h) (flags3_fragmentoffset13 h)
    (ttl h) (protocol h) (checksum h) (source_address h) (destination_address h).
Definition ipv4_of_bytes (b : bytes) : ipv4_header :=
  mk_ip4 (field 0 1 b) (field 1 1 b) (field 2 2 b) (field 4 2 b) (field 6 2 b)
    (field 8 1 b) (field 9 1 b) (field 10 2 b) (field 12 4 b) (field 16 4 b).
Definition ipv4_bytes (h : ipv4_header) : bytes :=
  le_bytes 1 (version4_ihl4 h) ++ le_bytes 1 (ds h) ++ le_bytes 2 (total_length h) ++
  le_bytes 2 (identification h) ++ le_bytes 2 (flags3_fragmentoffset13 h) ++ le_bytes 1 (ttl h) ++
  le_bytes 1 (protocol h) ++ le_bytes 2 (checksum h) ++ le_bytes 4 (source_address h) ++
  le_bytes 4 (destination_address h).

Definition IPV4_GET_VERSION (h : ipv4_header) : Z := Z.shiftr (Z.land (version4_ihl4 h) 240) 4.
Definition IPV4_GET_IHL (h : ipv4_header) : Z := Z.shiftr (Z.land (version4_ihl4 h) 15) 0.
Definition IPV4_MAKE_VERSION_IHL (size : Z) : Z := size / 4 + Z.shiftl 4 4.

Record udp_header := mk_udp { source_port : Z; dest_port : Z; udp_len : Z; udp_sum : Z }.
#[export] Instance eta_udp : Eta udp_header := fun h =>
  mk_udp (source_port h) (dest_port h) (udp_len h) (udp_sum h).
Definition udp_of_bytes (b : bytes) : udp_header :=
  mk_udp (field 0 2 b) (field 2 2 b) (field 4 2 b) (field 6 2 b).
Definition udp_bytes (h : udp_header) : bytes :=
  le_bytes 2 (source_port h) ++ le_bytes 2 (dest_port h) ++ le_bytes 2 (udp_len h) ++ le_bytes 2 (udp_sum h).

Record ipv6_header := mk_ip6 {
  version4_tc4 : Z; tc4_fl4 : Z; fl : Z; payload_length : Z; next_header : Z; hop_limit : Z;
  source_address6 : bytes; destination_address6 : bytes
}.
Definition ipv6_of_bytes (b : bytes) : ipv6_header :=
  mk_ip6 (field 0 1 b) (field 1 1 b) (field 2 2 b) (field 4 2 b) (field 6 1 b) (field 7 1 b)
    (slice 8 16 b) (slice 24 16 b).

Definition ipv6_bytes (h : ipv6_header) : bytes :=
  le_bytes 1 (version4_tc4 h) ++ le_bytes 1 (tc4_fl4 h) ++ le_bytes 2 (fl h) ++ le_bytes 2 (payload_length h) ++
  le_bytes 1 (next_header h) ++ le_bytes 1 (hop_limit h) ++ source_address6 h ++ destination_address6 h.

(** * Checksums *)

(** [n] words from [data] on are added to [t]. *)
Fixpoint add_words (n : nat) (data : bytes) (t : Z) : option Z :=
  match n with
  | O => Some t
  | S n => w ← badvpn_read_be16 data; add_words n (drop 2 data) (u32 (t + w))
  end.

(** [while (t >> 16) ...]; two rounds are enough for 32 bits. *)
Fixpoint fold_carries (fuel : nat) (t : Z) : option Z :=
  if Z.shiftr t 16 =? 0 then Some t
  else match fuel with
       | O => None
       | S fuel => fold_carries fuel (u32 (Z.land t 65535 + Z.shiftr t 16))
       end.
Definition ROUNDS : nat := 2.

(** [~t] of a [uint32_t]. *)
Definition lnot32 (t : Z) : Z := u32 (Z.lnot t).

Definition ipv4_checksum (header : ipv4_header) (extra : bytes) (extra_len : Z) : option Z :=
  if negb (extra_len mod 2 =? 0) then None
  else
    t ← add_words 10 (ipv4_bytes header) 0;
    t ← add_words (Z.to_nat (extra_len / 2)) extra t;
    t ← fold_carries ROUNDS t;
    Some (hton16 (u16 (lnot32 t))).

Definition udp_checksum_summer (data : bytes) (len : Z) : option Z :=
  if len mod 2 =? 0 then add_words (Z.to_nat (len / 2)) data 0 else None.

(** The tail of both UDP checksums, from the header on. *)
Definition udp_checksum_tail (t : Z) (header : udp_header) (payload : bytes) (payload_len : Z) : option Z :=
  s ← udp_checksum_summer (udp_bytes header) UDP_HEADER;
  let t := u32 (t + s) in
  t ← (if payload_len mod 2 =? 0 then
         s ← udp_checksum_summer payload payload_len;
         Some (u32 (t + s))
       else
         s ← udp_checksum_summer payload (payload_len - 1);
         let t := u32 (t + s) in
         b ← payload !! Z.to_nat (payload_len - 1);
         let x := hton16 (u16 (Z.shiftl b 8)) in
         s ← udp_checksum_summer (le_bytes 2 x) 2;
         Some (u32 (t + s)));
  t ← fold_carries ROUNDS t;
  let t := lnot32 t in
  let t := if t =? 0 then UINT16_MAX else t in
  Some (hton16 (u16 t)).

Definition udp_checksum (header : udp_header) (payload : bytes) (payload_len source_addr dest_addr : Z)
  : option Z :=
  s ← udp_checksum_summer (le_bytes 4 source_addr) 4;
  let t := u32 (0 + s) in
  s ← udp_checksum_summer (le_bytes 4 dest_addr) 4;
  let t := u32 (t + s) in
  s ← udp_checksum_summer (le_bytes 2 (hton16 IPV4_PROTOCOL_UDP)) 2;
  let t := u32 (t + s) in
  s ← udp_checksum_summer (le_bytes 2 (hton16 (u16 (UDP_HEADER + payload_len)))) 2;
  let t := u32 (t + s) in
  udp_checksum_tail t header payload payload_len.

Definition udp_ip6_checksum (header : udp_header) (payload : bytes) (payload_len : Z)
    (source_addr dest_addr : bytes) : option Z :=
  s ← udp_checksum_summer source_addr 16;
  let t := u32 (0 + s) in
  s ← udp_checksum_summer dest_addr 16;
  let t := u32 (t + s) in
  s ← udp_checksum_summer (le_bytes 4 (hton32 (u32 (UDP_HEADER + payload_len)))) 4;
  let t := u32 (t + s) in
  s ← udp_checksum_summer (le_bytes 4 (hton32 IPV6_NEXT_UDP)) 4;
  let t := u32 (t + s) in
  udp_checksum_tail t header payload payload_len.

(** * Checking packets

    The outcome: an access outside the packet ([None]), refused, or the header
    with the payload's offset and length. *)

Definition ipv4_check (data : bytes) : option (option (ipv4_header * Z * Z)) :=
  let data_len := zlen data in
  if data_len <? IPV4_HEADER then Some None
  else
    h ← ipv4_of_bytes <$> mem_read 0 IPV4_HEADER data;
    if negb (IPV4_GET_VERSION h =? 4) then Some None
    else
      let header_len := u16 (IPV4_GET_IHL h * 4) in
      if header_len <? IPV4_HEADER then Some None
      else if data_len <? header_len then Some None
      else
        let total_length := ntoh16 (total_length h) in
        if total_length <? header_len then Some None
        else if data_len <? total_length then Some None
        else
          let checksum_in_packet := checksum h in
          computed ← ipv4_checksum (h <| checksum := hton16 0 |>)
                       (drop (Z.to_nat IPV4_HEADER) data) (header_len - IPV4_HEADER);
          if negb (checksum_in_packet =? computed) then Some None
          else Some (Some (h, header_len, total_length - header_len)).

Definition udp_check (data : bytes) : option (option (udp_header * Z * Z)) :=
  let data_len := zlen data in
  if data_len <? UDP_HEADER then Some None
  else
    h ← udp_of_bytes <$> mem_read 0 UDP_HEADER data;
    let data_len := data_len - UDP_HEADER in
    let udp_length := ntoh16 (udp_len h) in
    if udp_length <? UDP_HEADER then Some None
    else if UDP_HEADER + data_len <? udp_length then Some None
    else Some (Some (h, UDP_HEADER, udp_length - UDP_HEADER)).

Definition ipv6_check (data : bytes) : option (option (ipv6_header * Z * Z)) :=
  let data_len := zlen data in
  if data_len <? IPV6_HEADER then Some None
  else
    h ← ipv6_of_bytes <$> mem_read 0 IPV6_HEADER data;
    if negb (Z.shiftr (ntoh8 (version4_tc4 h)) 4 =? 6) then Some None
    else
      let payload_length := ntoh16 (payload_length h) in
      if data_len - IPV6_HEADER <? payload_length then Some None
      else Some (Some (h, IPV6_HEADER, payload_length)).

(** * Sums of words *)

(** The exact sum of the 16-bit big-endian words of a string of even length. *)
Fixpoint words_sum (l : bytes) : Z :=
  match l with
  | a :: b :: l => 256 * a + b + words_sum l
  | _ => 0
  end.

Lemma bytes_pair_ind (P : bytes -> Prop) :
  P [] -> (forall a, P [a]) -> (forall a b l, P l -> P (a :: b :: l)) -> forall l, P l.
Proof.
  intros H0 H1 H2 l. enough (P l /\ forall a, P (a :: l)) by tauto.
  induction l as [|b l [IH1 IH2]]; [done|]. split; [apply IH2|]. intros a. by apply H2.
Qed.
Lemma words_sum_bound l : bytes_ok l -> 0 <= words_sum l /\ 2 * words_sum l <= 65535 * zlen l.
Proof.
  induction l as [| |a b l IH] using bytes_pair_ind; intros Hl; [by vm_compute|by vm_compute|].
  apply Forall_cons in Hl as [Ha Hl]. apply Forall_cons in Hl as [Hb Hl]. specialize (IH Hl).
  unfold byte_ok in *. cbn [words_sum]. rewrite !zlen_cons. lia.
Qed.
Lemma words_sum_app l1 l2 : zlen l1 mod 2 = 0 -> words_sum (l1 ++ l2) = words_sum l1 + words_sum l2.
Proof.
  induction l1 as [| |a b l1 IH] using bytes_pair_ind; cbn [words_sum app]; intros Hl.
  - done.
  - by vm_compute in Hl.
  - rewrite IH; [lia|]. rewrite !zlen_cons in Hl.
    replace (1 + (1 + zlen l1)) with (zlen l1 + 1 * 2) in Hl by lia. by rewrite Z.mod_add in Hl.
Qed.
Lemma words_sum_even l c : zlen l mod 2 = 0 -> words_sum (l ++ [c]) = words_sum l.
Proof. intros H. rewrite words_sum_app by done. cbn. lia. Qed.

Lemma read_be16_word a b l : byte_ok a -> byte_ok b -> badvpn_read_be16 (a :: b :: l) = Some (256 * a + b).
Proof. intros Ha Hb. rewrite read_be16_val by done. rewrite !le_val_cons, le_val_nil. f_equal. lia. Qed.

Lemma add_words_spec l rest t :
  bytes_ok l -> zlen l mod 2 = 0 -> 0 <= t -> t + words_sum l < 2 ^ 32 ->
  add_words (Z.to_nat (zlen l / 2)) (l ++ rest) t = Some (t + words_sum l).
Proof.
  revert t; induction l as [|a|a b l IH] using bytes_pair_ind; intros t Hl He Ht Hlt.
  - cbn. f_equal. lia.
  - by vm_compute in He.
  - rewrite !zlen_cons in *. replace (1 + (1 + zlen l)) with (zlen l + 1 * 2) in * by lia.
    rewrite Z.div_add, Z.add_comm, Z2Nat.inj_add by (pose proof (zlen_nonneg l); try apply Z.div_pos; lia).
    rewrite Z.mod_add in He by lia. change (Z.to_nat 1) with 1%nat. cbn [Nat.add add_words app].
    apply Forall_cons in Hl as [Ha Hl]. apply Forall_cons in Hl as [Hb Hl].
    rewrite read_be16_word by done. cbn [mbind option_bind drop words_sum] in *.
    pose proof (words_sum_bound l Hl). unfold byte_ok in *.
    assert (Hu : u32 (t + (256 * a + b)) = t + (256 * a + b)) by (unfold u32; rewrite Z.mod_small; lia).
    rewrite Hu, IH by (done || lia). f_equal. lia.
Qed.
Lemma summer_spec l rest : bytes_ok l -> zlen l mod 2 = 0 -> zlen l <= 65536 ->
  udp_checksum_summer (l ++ rest) (zlen l) = Some (words_sum l).
Proof.
  intros Hl He Hlen. unfold udp_checksum_summer. rewrite He, Z.eqb_refl.
  pose proof (words_sum_bound l Hl). rewrite add_words_spec; [done|done|done|lia|lia].
Qed.

(** The folded sum: the same modulo 65535, in 16 bits, zero only for zero. *)
Definition folds (t f : Z) : Prop := 0 <= f <= 65535 /\ f mod 65535 = t mod 65535 /\ (f = 0 -> t = 0).

Lemma fold_step t : 0 <= t -> 
  Z.land t 65535 + Z.shiftr t 16 = t - 65535 * (t / 65536).
Proof.
  intros Ht. change 65535 with (Z.ones 16) at 1. rewrite Z.land_ones, Z.shiftr_div_pow2 by lia.
  change (2 ^ 16) with 65536. pose proof (Z.div_mod t 65536 ltac:(lia)). lia.
Qed.
Lemma folds_step t f : 65536 <= t -> folds (t - 65535 * (t / 65536)) f -> folds t f.
Proof.
  intros Ht (Hr & Hm & Hz). split; [done|]. split.
  - rewrite Hm. replace (t - 65535 * (t / 65536)) with (t + (- (t / 65536)) * 65535) by lia.
    by apply Z.mod_add.
  - intros Hf. specialize (Hz Hf). pose proof (Z.mul_div_le t 65536). lia.
Qed.
Lemma fold_carries_S fuel t : 0 <= t < 2 ^ 32 ->
  fold_carries (S fuel) t =
  if t <? 65536 then Some t else fold_carries fuel (t - 65535 * (t / 65536)).
Proof.
  intros Ht. cbn [fold_carries]. pose proof (Z.mul_div_le t 65536 ltac:(lia)).
  pose proof (Z.div_pos t 65536 ltac:(lia) ltac:(lia)).
  rewrite fold_step by lia. rewrite Z.shiftr_div_pow2 by lia. change (2 ^ 16) with 65536.
  destruct (t <? 65536) eqn:E; b2p.
  - by rewrite Z.div_small by lia.
  - pose proof (Z.div_le_lower_bound t 65536 1 ltac:(lia) ltac:(lia)).
    replace (t / 65536 =? 0) with false by lia. f_equal. unfold u32. rewrite Z.mod_small; lia.
Qed.
Lemma fold_carries_small fuel t : 0 <= t < 65536 -> fold_carries fuel t = Some t.
Proof.
  intros Ht. destruct fuel; cbn [fold_carries]; rewrite Z.shiftr_div_pow2, Z.div_small by lia; done.
Qed.
Lemma fold_carries_spec t : 0 <= t < 2 ^ 32 -> exists f, fold_carries ROUNDS t = Some f /\ folds t f.
Proof.
  intros Ht. unfold ROUNDS. rewrite fold_carries_S by done.
  destruct (t <? 65536) eqn:E; b2p; [exists t; split; [done|split; [lia|done]]|].
  pose proof (Z.mul_div_le t 65536 ltac:(lia)). pose proof (Z.mul_succ_div_gt t 65536 ltac:(lia)).
  set (t1 := t - 65535 * (t / 65536)). assert (Ht1 : 0 <= t1 <= 131070) by lia.
  rewrite fold_carries_S by lia. destruct (t1 <? 65536) eqn:E1; b2p.
  - exists t1. split; [done|]. apply folds_step; [lia|]. fold t1. split; [lia|done].
  - assert (t1 / 65536 = 1) as Hq by (symmetry; apply (Z.div_unique t1 65536 1 (t1 - 65536)); lia).
    rewrite Hq. rewrite fold_carries_small by lia. eexists. split; [done|].
    apply folds_step; [lia|]. fold t1. apply folds_step; [lia|]. rewrite Hq. split; [lia|done].
Qed.

Lemma lnot_folded f : 0 <= f <= 65535 -> lnot32 f = 2 ^ 32 - 1 - f /\ u16 (lnot32 f) = 65535 - f.
Proof.
  intros Hf. assert (H : lnot32 f = 2 ^ 32 - 1 - f).
  { unfold lnot32, u32, Z.lnot, Z.pred.
    replace (- f + -1) with ((2 ^ 32 - 1 - f) + (-1) * 2 ^ 32) by lia.
    rewrite Z.mod_add by lia. rewrite Z.mod_small; lia. }
  split; [done|]. rewrite H. unfold u16. replace (2 ^ 32 - 1 - f) with ((65535 - f) + 65535 * 2 ^ 16) by lia.
  rewrite Z.mod_add by lia. rewrite Z.mod_small; lia.
Qed.

(** * Headers and their bytes *)

Record ip4_ok (h : ipv4_header) : Prop := {
  ok_v : 0 <= version4_ihl4 h < 2 ^ 8; ok_ds : 0 <= ds h < 2 ^ 8;
  ok_tl : 0 <= total_length h < 2 ^ 16; ok_id : 0 <= identification h < 2 ^ 16;
  ok_fl : 0 <= flags3_fragmentoffset13 h < 2 ^ 16; ok_ttl : 0 <= ttl h < 2 ^ 8;
  ok_pr : 0 <= protocol h < 2 ^ 8; ok_ck : 0 <= checksum h < 2 ^ 16;
  ok_src : 0 <= source_address h < 2 ^ 32; ok_dst : 0 <= destination_address h < 2 ^ 32
}.
Record udp_ok (h : udp_header) : Prop := {
  ok_sp : 0 <= source_port h < 2 ^ 16; ok_dp : 0 <= dest_port h < 2 ^ 16;
  ok_len : 0 <= udp_len h < 2 ^ 16; ok_sum : 0 <= udp_sum h < 2 ^ 16
}.

Lemma le_bytes_2 x : le_bytes 2 x = [x mod 256; x / 256 mod 256].
Proof. done. Qed.
Lemma le_bytes_1 x : le_bytes 1 x = [x mod 256].
Proof. done. Qed.
Lemma le_bytes_4 x :
  le_bytes 4 x = [x mod 256; x / 256 mod 256; x / 256 / 256 mod 256; x / 256 / 256 / 256 mod 256].
Proof. done. Qed.
Lemma ipv4_bytes_len h : zlen (ipv4_bytes h) = IPV4_HEADER.
Proof. done. Qed.
Lemma ipv4_bytes_ok h : bytes_ok (ipv4_bytes h).
Proof. unfold ipv4_bytes, bytes_ok. rewrite !Forall_app. split_and!; apply le_bytes_ok. Qed.
Lemma udp_bytes_len h : zlen (udp_bytes h) = UDP_HEADER.
Proof. done. Qed.
Lemma udp_bytes_ok h : bytes_ok (udp_bytes h).
Proof. unfold udp_bytes, bytes_ok. rewrite !Forall_app. split_and!; apply le_bytes_ok. Qed.

Lemma ipv4_of_ipv4_bytes h : ip4_ok h -> ipv4_of_bytes (ipv4_bytes h) = h.
Proof.
  intros []. change (ipv4_of_bytes (ipv4_bytes h)) with
    (mk_ip4 (le_val (le_bytes 1 (version4_ihl4 h))) (le_val (le_bytes 1 (ds h)))
      (le_val (le_bytes 2 (total_length h))) (le_val (le_bytes 2 (identification h)))
      (le_val (le_bytes 2 (flags3_fragmentoffset13 h))) (le_val (le_bytes 1 (ttl h)))
      (le_val (le_bytes 1 (protocol h))) (le_val (le_bytes 2 (checksum h)))
      (le_val (le_bytes 4 (source_address h))) (le_val (le_bytes 4 (destination_address h)))).
  rewrite !le_val_bytes_small by done. by destruct h.
Qed.
Lemma udp_of_udp_bytes h : udp_ok h -> udp_of_bytes (udp_bytes h) = h.
Proof.
  intros []. change (udp_of_bytes (udp_bytes h)) with
    (mk_udp (le_val (le_bytes 2 (source_port h))) (le_val (le_bytes 2 (dest_port h)))
      (le_val (le_bytes 2 (udp_len h))) (le_val (le_bytes 2 (udp_sum h)))).
  rewrite !le_val_bytes_small by done. by destruct h.
Qed.
Lemma le_bytes_field off n b :
  bytes_ok b -> 0 <= off -> off + Z.of_nat n <= zlen b ->
  le_bytes n (field off (Z.of_nat n) b) = slice off (Z.of_nat n) b.
Proof.
  intros Hb Ho Hl. unfold field.
  replace n with (List.length (slice off (Z.of_nat n) b)) at 1.
  - apply le_bytes_val. unfold slice. apply Forall_take, Forall_drop, Hb.
  - pose proof (zlen_slice off (Z.of_nat n) b ltac:(lia) ltac:(lia) Hl). unfold zlen in *. lia.
Qed.
Lemma ipv4_bytes_of b : bytes_ok b -> zlen b = IPV4_HEADER -> ipv4_bytes (ipv4_of_bytes b) = b.
Proof.
  intros Hb Hl. unfold IPV4_HEADER in Hl. unfold ipv4_bytes, ipv4_of_bytes. cbn [version4_ihl4 ds total_length
    identification flags3_fragmentoffset13 ttl protocol checksum source_address destination_address].
  rewrite (le_bytes_field 0 1), (le_bytes_field 1 1), (le_bytes_field 2 2), (le_bytes_field 4 2),
    (le_bytes_field 6 2), (le_bytes_field 8 1), (le_bytes_field 9 1), (le_bytes_field 10 2),
    (le_bytes_field 12 4), (le_bytes_field 16 4) by (done || lia).
  cbn [Z.of_nat Pos.of_succ_nat Pos.succ].
  rewrite <- (slice_split 12 4 4), <- (slice_split 10 2 8), <- (slice_split 9 1 10), <- (slice_split 8 1 11),
    <- (slice_split 6 2 12), <- (slice_split 4 2 14), <- (slice_split 2 2 16), <- (slice_split 1 1 18),
    <- (slice_split 0 1 19) by lia.
  change (1 + 19) with 20. rewrite <- Hl. apply slice_all.
Qed.

(** The checksum field as a big-endian word, and the rest of the header. *)
Definition word (x : Z) : Z := words_sum (le_bytes 2 x).
Lemma word_hton16 v : 0 <= v < 65536 -> word (hton16 v) = v.
Proof.
  intros Hv. unfold word. rewrite hton16_bytes. unfold be_bytes. rewrite le_bytes_2. cbn [rev app words_sum].
  pose proof (Z.div_mod v 256 ltac:(lia)). rewrite (Z.mod_small (v / 256)); [lia|].
  split; [apply Z.div_pos; lia|apply Z.div_lt_upper_bound; lia].
Qed.
Lemma ipv4_sum_split h :
  words_sum (ipv4_bytes h) = words_sum (ipv4_bytes (h <| checksum := 0 |>)) + word (checksum h).
Proof.
  unfold ipv4_bytes, word, upd. cbn [version4_ihl4 ds total_length
    identification flags3_fragmentoffset13 ttl protocol checksum source_address destination_address].
  rewrite !le_bytes_2, !le_bytes_1, !le_bytes_4. cbn [app words_sum].
  change (0 mod 256) with 0. change (0 / 256 mod 256) with 0. lia.
Qed.

Lemma mod_complement S f : f mod 65535 = S mod 65535 -> (S + (65535 - f)) mod 65535 = 0.
Proof.
  intros H. replace (S + (65535 - f)) with ((S - f) + 1 * 65535) by lia. rewrite Z.mod_add by lia.
  rewrite Zminus_mod, H. by rewrite Z.sub_diag.
Qed.

Lemma ipv4_checksum_spec h extra rest :
  bytes_ok extra -> zlen extra mod 2 = 0 -> zlen extra <= 65535 ->
  exists v, ipv4_checksum h (extra ++ rest) (zlen extra) = Some (hton16 v) /\ 0 <= v < 65536 /\
    (words_sum (ipv4_bytes h) + words_sum extra + v) mod 65535 = 0.
Proof.
  intros He Hev Hlen. unfold ipv4_checksum. rewrite Hev. cbn [Z.eqb negb].
  pose proof (words_sum_bound _ (ipv4_bytes_ok h)) as Hb. rewrite ipv4_bytes_len in Hb. unfold IPV4_HEADER in Hb.
  pose proof (words_sum_bound _ He).
  pose proof (add_words_spec (ipv4_bytes h) [] 0 (ipv4_bytes_ok h) ltac:(done) ltac:(lia) ltac:(lia)) as Ha.
  rewrite app_nil_r in Ha. change (Z.to_nat (zlen (ipv4_bytes h) / 2)) with 10%nat in Ha.
  rewrite Ha. cbn [mbind option_bind].
  rewrite add_words_spec by (done || lia). cbn [mbind option_bind].
  destruct (fold_carries_spec (0 + words_sum (ipv4_bytes h) + words_sum extra)) as (f & -> & Hf & Hm & _); [lia|].
  cbn [mbind option_bind]. exists (65535 - f).
  destruct (lnot_folded f Hf) as [_ ->]. split; [done|]. split; [lia|]. by apply mod_complement.
Qed.

(** * IPv4 *)

(** A received header whose checksum is that of the packet. *)
Lemma ipv4_checksum_valid h extra rest v :
  bytes_ok extra -> zlen extra mod 2 = 0 -> zlen extra <= 65535 -> 0 <= v < 65536 ->
  checksum h = hton16 v -> ipv4_checksum (h <| checksum := 0 |>) (extra ++ rest) (zlen extra) = Some (hton16 v) ->
  (words_sum (ipv4_bytes h) + words_sum extra) mod 65535 = 0.
Proof.
  intros He Hev Hlen Hv Hc Hcs.
  destruct (ipv4_checksum_spec (h <| checksum := 0 |>) extra rest He Hev Hlen) as (v' & Hcs' & Hv' & Hm).
  rewrite Hcs in Hcs'. injection Hcs' as Heq.
  assert (v = v') as <-.
  { rewrite <- (word_hton16 v), <- (word_hton16 v') by done. by rewrite Heq. }
  rewrite ipv4_sum_split, Hc, word_hton16 by done. etrans; [|exact Hm]. f_equal. lia.
Qed.

Lemma ihl_range b : 0 <= b < 256 -> 0 <= u16 (Z.shiftr (Z.land b 15) 0 * 4) <= 60 /\
  u16 (Z.shiftr (Z.land b 15) 0 * 4) mod 2 = 0.
Proof.
  intros Hb. rewrite Z.shiftr_0_r. change 15 with (Z.ones 4). rewrite Z.land_ones by lia.
  pose proof (Z.mod_pos_bound b (2 ^ 4) ltac:(lia)). change (2 ^ 4) with 16 in *.
  unfold u16. rewrite (Z.mod_small (b mod 16 * 4)) by lia. split; [lia|].
  replace (b mod 16 * 4) with (b mod 16 * 2 * 2) by lia. by apply Z.mod_mul.
Qed.

Lemma slice_bytes_ok off n b : bytes_ok b -> bytes_ok (slice off n b).
Proof. intros. unfold slice. by apply Forall_take, Forall_drop. Qed.
Lemma field_range off n b : bytes_ok b -> 0 <= n -> 0 <= field off n b < 256 ^ n.
Proof.
  intros Hb Hn. unfold field. pose proof (le_val_bound _ (slice_bytes_ok off n b Hb)) as H.
  assert (zlen (slice off n b) <= n) as Hl by (unfold zlen, slice; rewrite length_take; lia).
  pose proof (Z.pow_le_mono_r 256 (zlen (slice off n b)) n ltac:(lia) Hl). lia.
Qed.
Lemma field_1_range off b : bytes_ok b -> 0 <= field off 1 b < 256.
Proof.
  intros Hb. unfold field. pose proof (le_val_bound _ (slice_bytes_ok off 1 b Hb)) as H.
  assert (zlen (slice off 1 b) <= 1) as Hl by (unfold zlen, slice; rewrite length_take; lia).
  pose proof (Z.pow_le_mono_r 256 _ 1 ltac:(lia) Hl) as Hp. change (256 ^ 1) with 256 in Hp. lia.
Qed.

(** What [ipv4_check] accepts lies inside the packet and has a correct checksum. *)
Lemma ipv4_check_inside (data : bytes) (Hdata : bytes_ok data) :
  exists r, ipv4_check data = Some r /\
    forall h off len, r = Some (h, off, len) ->
      IPV4_GET_VERSION h = 4 /\ IPV4_HEADER <= off <= 60 /\ 0 <= len /\ off + len <= zlen data /\
      slice 0 IPV4_HEADER data = ipv4_bytes h /\ ntoh16 (total_length h) = off + len /\
      words_sum (slice 0 off data) mod 65535 = 0 /\ h = ipv4_of_bytes (slice 0 IPV4_HEADER data).
Proof.
  unfold ipv4_check. destruct (zlen data <? IPV4_HEADER) eqn:E0; [by exists None|]. b2p.
  rewrite (mem_read_Some 0 IPV4_HEADER) by (unfold IPV4_HEADER in *; lia). cbn [fmap option_fmap option_map].
  cbn [mbind option_bind]. set (hb := slice 0 IPV4_HEADER data) in *. set (h := ipv4_of_bytes hb).
  assert (Hhb : bytes_ok hb) by by apply slice_bytes_ok.
  assert (Hhl : zlen hb = IPV4_HEADER) by (apply zlen_slice; unfold IPV4_HEADER in *; lia).
  assert (Hbytes : ipv4_bytes h = hb) by by apply ipv4_bytes_of.
  destruct (negb (IPV4_GET_VERSION h =? 4)) eqn:E1; [by exists None|].
  pose proof (ihl_range (version4_ihl4 h) (field_1_range 0 hb Hhb)) as [Hr Hev].
  fold (IPV4_GET_IHL h) in Hr, Hev. set (hl := u16 (IPV4_GET_IHL h * 4)) in *.
  destruct (hl <? IPV4_HEADER) eqn:E2; [by exists None|].
  destruct (zlen data <? hl) eqn:E3; [by exists None|].
  destruct (ntoh16 (total_length h) <? hl) eqn:E4; [by exists None|].
  destruct (zlen data <? ntoh16 (total_length h)) eqn:E5; [by exists None|]. b2p.
  set (opts := slice IPV4_HEADER (hl - IPV4_HEADER) data).
  assert (Hol : zlen opts = hl - IPV4_HEADER) by (apply zlen_slice; unfold IPV4_HEADER in *; lia).
  assert (Hdrop : drop (Z.to_nat IPV4_HEADER) data = opts ++ drop (Z.to_nat hl) data).
  { unfold opts, slice. rewrite <- (take_drop (Z.to_nat (hl - IPV4_HEADER)) (drop _ data)) at 1.
    rewrite drop_drop. f_equal. f_equal. unfold IPV4_HEADER in *. lia. }
  assert (Hoe : zlen opts mod 2 = 0).
  { rewrite Hol. unfold IPV4_HEADER. replace (hl - 20) with (hl + (-10) * 2) by lia. by rewrite Z.mod_add. }
  assert (Hob : bytes_ok opts) by by apply slice_bytes_ok.
  change (hton16 0) with 0. rewrite Hdrop, <- Hol.
  destruct (ipv4_checksum_spec (h <| checksum := 0 |>) opts (drop (Z.to_nat hl) data) Hob Hoe) as (v & Hcs & Hv & _);
    [unfold IPV4_HEADER in *; lia|].
  rewrite Hcs. cbn [mbind option_bind]. destruct (negb (checksum h =? hton16 v)) eqn:E6; [by exists None|].
  eexists. split; [done|]. intros ? ? ? [= <- <- <-]. b2p.
  assert (Hsum : words_sum (slice 0 hl data) mod 65535 = 0).
  { replace hl with (IPV4_HEADER + (hl - IPV4_HEADER)) at 1 by lia.
    rewrite slice_split by (unfold IPV4_HEADER in *; lia). change (0 + IPV4_HEADER) with IPV4_HEADER.
    fold hb opts. rewrite words_sum_app by (rewrite Hhl; done). rewrite <- Hbytes.
    apply (ipv4_checksum_valid h opts (drop (Z.to_nat hl) data) v); try done.
    unfold IPV4_HEADER in *; lia. }
  change (field 2 2 hb) with (total_length h). unfold IPV4_HEADER in *.
  clearbody hl. split_and!; try done; try (by symmetry); try (lia).
Qed.
Definition ipv4_example : bytes :=
  [69; 0; 0; 24; 0; 0; 0; 0; 64; 17; 102; 211; 10; 0; 0; 1; 10; 0; 0; 2; 1; 2; 3; 4].
Lemma even_of_4 n : n mod 4 = 0 -> n mod 2 = 0.
Proof.
  intros H. apply Z.mod_divide in H as [q ->]; [|done]. replace (q * 4) with (q * 2 * 2) by lia.
  by apply Z.mod_mul.
Qed.
Lemma add_words_prefix l r n t : (2 * n <= List.length l)%nat -> add_words n (l ++ r) t = add_words n l t.
Proof.
  revert l t. induction n as [|n IH]; intros l t Hn; [done|]. cbn [add_words].
  destruct l as [|a [|b l]]; cbn [List.length] in Hn; try lia. cbn [app].
  change (badvpn_read_be16 (a :: b :: l ++ r)) with (badvpn_read_be16 (a :: b :: l)).
  destruct (badvpn_read_be16 _); [|done]. cbn [mbind option_bind drop]. apply (IH l). lia.
Qed.
(** The checksum only reads the options it is told of. *)
Lemma ipv4_checksum_prefix h opts rest :
  ipv4_checksum h (opts ++ rest) (zlen opts) = ipv4_checksum h opts (zlen opts).
Proof.
  unfold ipv4_checksum. destruct (negb _); [done|].
  destruct (add_words 10 _ _) as [t|]; [|done]. cbn [mbind option_bind].
  rewrite add_words_prefix; [done|].
  pose proof (Z.mul_div_le (zlen opts) 2 ltac:(lia)). pose proof (zlen_nonneg opts). unfold zlen in *. lia.
Qed.
Lemma make_version_ihl h n :
  version4_ihl4 h = IPV4_MAKE_VERSION_IHL n -> n mod 4 = 0 -> 20 <= n <= 60 ->
  IPV4_GET_VERSION h = 4 /\ u16 (IPV4_GET_IHL h * 4) = n.
Proof.
  intros Hv Hn Hr. unfold IPV4_GET_VERSION, IPV4_GET_IHL. rewrite Hv. unfold IPV4_MAKE_VERSION_IHL.
  apply Z.mod_divide in Hn as [q ->]; [|done]. rewrite Z.div_mul by done.
  assert (q = 5 \/ q = 6 \/ q = 7 \/ q = 8 \/ q = 9 \/ q = 10 \/ q = 11 \/ q = 12 \/ q = 13 \/ q = 14 \/ q = 15)
    as Hq by lia.
  destruct_or! Hq; subst q; done.
Qed.

(** A header with the computed checksum, options, a payload and anything after
    it are accepted. *)
Lemma ipv4_check_built (h : ipv4_header) (opts payload stray : bytes) (c : Z)
  (Hh : ip4_ok h) (Ho : bytes_ok opts) (Hol : zlen opts mod 4 = 0) (Ho40 : zlen opts <= 40)
  (Hlen : IPV4_HEADER + zlen opts + zlen payload <= UINT16_MAX)
  (Hv : version4_ihl4 h = IPV4_MAKE_VERSION_IHL (IPV4_HEADER + zlen opts))
  (Htl : total_length h = hton16 (IPV4_HEADER + zlen opts + zlen payload))
  (Hc : ipv4_checksum (h <| checksum := hton16 0 |>) opts (zlen opts) = Some c) :
  ipv4_check (ipv4_bytes (h <| checksum := c |>) ++ opts ++ payload ++ stray) =
    Some (Some (h <| checksum := c |>, IPV4_HEADER + zlen opts, zlen payload)).
Proof.
  set (h' := h <| checksum := c |>).
  pose proof (ipv4_checksum_spec (h <| checksum := hton16 0 |>) opts [] Ho (even_of_4 _ Hol) ltac:(lia)) as Hcs.
  rewrite app_nil_r, Hc in Hcs. destruct Hcs as (v & [= ->] & Hv16 & _).
  assert (Hok : ip4_ok h').
  { destruct Hh. constructor; try done. exact (hton16_range v). }
  pose proof (zlen_nonneg opts). pose proof (zlen_nonneg payload). pose proof (zlen_nonneg stray).
  unfold ipv4_check. rewrite !zlen_app, ipv4_bytes_len.
  unfold IPV4_HEADER, UINT16_MAX in *. replace (20 + _ <? 20) with false by lia.
  rewrite (mem_read_Some 0 20) by (rewrite ?zlen_app, ?ipv4_bytes_len; unfold IPV4_HEADER; lia).
  rewrite slice_app_l by by rewrite ipv4_bytes_len. cbn [fmap option_fmap option_map mbind option_bind].
  rewrite (ipv4_of_ipv4_bytes h' Hok).
  destruct (make_version_ihl h' (20 + zlen opts)) as [-> ->]; [done| |lia|].
  { change 20 with (5 * 4). rewrite Z.add_comm. by rewrite Z.mod_add. }
  cbn [negb Z.eqb Pos.eqb].
  replace (20 + zlen opts <? 20) with false by lia.
  replace (20 + (zlen opts + (zlen payload + zlen stray)) <? 20 + zlen opts) with false by lia.
  change (total_length h') with (total_length h). rewrite Htl, ntoh16_hton16 by lia.
  replace (20 + zlen opts + zlen payload <? 20 + zlen opts) with false by lia.
  replace (20 + (zlen opts + (zlen payload + zlen stray)) <? 20 + zlen opts + zlen payload) with false by lia.
  change (drop (Z.to_nat 20) (ipv4_bytes h' ++ opts ++ payload ++ stray)) with (opts ++ payload ++ stray).
  change (h' <| checksum := hton16 0 |>) with (h <| checksum := hton16 0 |>).
  replace (20 + zlen opts - 20) with (zlen opts) by lia. rewrite ipv4_checksum_prefix, Hc.
  cbn [mbind option_bind]. change (checksum h') with (hton16 v). rewrite Z.eqb_refl. cbn [negb].
  do 3 f_equal. lia.
Qed.

(** * UDP *)

(** The payload as words, a zero byte appended to an odd one. *)
Definition padded_sum (payload : bytes) : Z :=
  words_sum (if zlen payload mod 2 =? 0 then payload else payload ++ [0]).

Lemma u32_small x : 0 <= x < 2 ^ 32 -> u32 x = x.
Proof. apply Z.mod_small. Qed.

Lemma u32_add_l a b : u32 (u32 a + b) = u32 (a + b).
Proof. apply Zplus_mod_idemp_l. Qed.

(** [udp_checksum_tail] on an exact sum [t]: the complement of the folded sum,
    never replaced by [UINT16_MAX]: [~t] has its upper half set. *)
Lemma udp_tail_spec t h payload rest :
  0 <= t <= 20 * 65535 -> bytes_ok payload -> zlen payload <= 65535 ->
  exists f, udp_checksum_tail t h (payload ++ rest) (zlen payload) = Some (hton16 (65535 - f)) /\
    folds (t + words_sum (udp_bytes h) + padded_sum payload) f.
Proof.
  intros Ht Hp Hlen. unfold udp_checksum_tail.
  pose proof (summer_spec (udp_bytes h) [] (udp_bytes_ok h) ltac:(done) ltac:(vm_compute; congruence)) as Hs.
  rewrite app_nil_r in Hs. change (zlen (udp_bytes h)) with UDP_HEADER in Hs. rewrite Hs.
  cbn [mbind option_bind].
  pose proof (words_sum_bound _ (udp_bytes_ok h)) as Hb. change (zlen (udp_bytes h)) with 8 in Hb.
  rewrite u32_small by lia. set (t1 := t + words_sum (udp_bytes h)) in *.
  pose proof (words_sum_bound _ Hp) as Hpb.
  assert (Hfin : forall s, 0 <= s <= 65536 * 32768 -> exists f,
    (t ← fold_carries ROUNDS (t1 + s);
     let t := lnot32 t in let t := if t =? 0 then UINT16_MAX else t in Some (hton16 (u16 t)))
    = Some (hton16 (65535 - f)) /\ folds (t1 + s) f).
  { intros s Hs1. destruct (fold_carries_spec (t1 + s)) as (f & -> & Hf); [lia|]. exists f. split; [|done].
    cbn [mbind option_bind]. destruct Hf as (Hr & _). destruct (lnot_folded f Hr) as [H1 H2].
    cbv zeta. replace (lnot32 f =? 0) with false by lia. by rewrite H2. }
  unfold padded_sum. destruct (zlen payload mod 2 =? 0) eqn:Ev; b2p.
  - rewrite summer_spec by (done || lia). cbn [mbind option_bind]. rewrite u32_small by lia.
    apply Hfin. lia.
  - destruct (exists_last (l:=payload)) as (q & b & ->); [by intros ->|].
    rewrite zlen_app in *. change (zlen [b]) with 1 in *. replace (zlen q + 1 - 1) with (zlen q) by lia.
    pose proof (zlen_nonneg q).
    assert (Hq : zlen q mod 2 = 0).
    { pose proof (Z.mod_pos_bound (zlen q) 2 ltac:(lia)). pose proof (Z.mod_pos_bound (zlen q + 1) 2 ltac:(lia)).
      pose proof (Z.div_mod (zlen q) 2 ltac:(lia)). pose proof (Z.div_mod (zlen q + 1) 2 ltac:(lia)). lia. }
    apply Forall_app in Hp as [Hpq Hpb'%Forall_inv].
    rewrite <- app_assoc. rewrite summer_spec by (done || lia). cbn [mbind option_bind].
    pose proof (words_sum_bound _ Hpq). rewrite u32_small by lia.
    assert (Hlk : (q ++ [b] ++ rest) !! Z.to_nat (zlen q) = Some b).
    { rewrite lookup_app_r by (unfold zlen; lia). unfold zlen. by rewrite Nat2Z.id, Nat.sub_diag. }
    rewrite Hlk. cbn [mbind option_bind].
    assert (Hw : udp_checksum_summer (le_bytes 2 (hton16 (u16 (b ≪ 8)))) 2 = Some (256 * b)).
    { unfold byte_ok in *. assert (Hu : u16 (b ≪ 8) = 256 * b).
      { rewrite Z.shiftl_mul_pow2 by lia. unfold u16. rewrite Z.mod_small; lia. }
      rewrite Hu. pose proof (summer_spec (le_bytes 2 (hton16 (256 * b))) [] (le_bytes_ok _ _) ltac:(done)
        ltac:(vm_compute; congruence)) as Hsw.
      rewrite app_nil_r in Hsw. change (zlen (le_bytes 2 (hton16 (256 * b)))) with 2 in Hsw. rewrite Hsw.
      fold (word (hton16 (256 * b))). rewrite word_hton16 by lia. done. }
    rewrite Hw. cbn [mbind option_bind]. unfold byte_ok in *. rewrite u32_small by lia.
    rewrite <- app_assoc. rewrite words_sum_app by done. cbn [app words_sum].
    replace (t1 + words_sum q + 256 * b) with (t1 + (words_sum q + (256 * b + 0 + 0))) by lia.
    apply Hfin. lia.
Qed.

(** The pseudo-header sums. *)
Definition pseudo4 (source_addr dest_addr payload_len : Z) : Z :=
  words_sum (le_bytes 4 source_addr) + words_sum (le_bytes 4 dest_addr) + IPV4_PROTOCOL_UDP +
  (UDP_HEADER + payload_len).

Lemma words_sum_4 x : 0 <= words_sum (le_bytes 4 x) <= 131070.
Proof.
  pose proof (words_sum_bound _ (le_bytes_ok 4 x)) as H. change (zlen (le_bytes 4 x)) with 4 in H. lia.
Qed.
Lemma summer_4 x : udp_checksum_summer (le_bytes 4 x) 4 = Some (words_sum (le_bytes 4 x)).
Proof.
  pose proof (summer_spec (le_bytes 4 x) [] (le_bytes_ok _ _) ltac:(done) ltac:(vm_compute; congruence)) as H.
  by rewrite app_nil_r in H.
Qed.
Lemma summer_2 v : 0 <= v < 65536 -> udp_checksum_summer (le_bytes 2 (hton16 v)) 2 = Some v.
Proof.
  intros Hv. pose proof (summer_spec (le_bytes 2 (hton16 v)) [] (le_bytes_ok _ _) ltac:(done)
    ltac:(vm_compute; congruence)) as H.
  rewrite app_nil_r in H. rewrite <- (word_hton16 v Hv) at 2. exact H.
Qed.

Lemma udp_checksum_spec h payload rest source_addr dest_addr :
  bytes_ok payload -> UDP_HEADER + zlen payload <= 65535 ->
  exists f, udp_checksum h (payload ++ rest) (zlen payload) source_addr dest_addr = Some (hton16 (65535 - f)) /\
    folds (pseudo4 source_addr dest_addr (zlen payload) + words_sum (udp_bytes h) + padded_sum payload) f.
Proof.
  intros Hp Hlen. unfold udp_checksum, UDP_HEADER in *. pose proof (zlen_nonneg payload).
  rewrite !summer_4. cbn [mbind option_bind]. cbv zeta.
  pose proof (words_sum_4 source_addr). pose proof (words_sum_4 dest_addr).
  rewrite (summer_2 IPV4_PROTOCOL_UDP) by (unfold IPV4_PROTOCOL_UDP; lia). cbn [mbind option_bind].
  assert (Hu : u16 (8 + zlen payload) = 8 + zlen payload) by (unfold u16; rewrite Z.mod_small; lia).
  rewrite Hu, summer_2 by lia. cbn [mbind option_bind].
  assert (Ht : u32 (u32 (u32 (u32 (0 + words_sum (le_bytes 4 source_addr)) + words_sum (le_bytes 4 dest_addr)) +
    IPV4_PROTOCOL_UDP) + (8 + zlen payload)) = pseudo4 source_addr dest_addr (zlen payload)).
  { unfold pseudo4, IPV4_PROTOCOL_UDP, UDP_HEADER. rewrite !u32_add_l, <- !Z.add_assoc, !u32_add_l, u32_small by lia. lia. }
  rewrite Ht. apply udp_tail_spec; [|done|lia].
  unfold pseudo4, IPV4_PROTOCOL_UDP, UDP_HEADER. lia.
Qed.

Definition pseudo6 (source_addr dest_addr : bytes) (payload_len : Z) : Z :=
  words_sum source_addr + words_sum dest_addr + words_sum (le_bytes 4 (hton32 (UDP_HEADER + payload_len))) +
  words_sum (le_bytes 4 (hton32 IPV6_NEXT_UDP)).

Lemma udp_ip6_checksum_spec h payload rest source_addr dest_addr :
  bytes_ok payload -> UDP_HEADER + zlen payload <= 65535 ->
  bytes_ok source_addr -> zlen source_addr = 16 -> bytes_ok dest_addr -> zlen dest_addr = 16 ->
  exists f, udp_ip6_checksum h (payload ++ rest) (zlen payload) source_addr dest_addr = Some (hton16 (65535 - f)) /\
    folds (pseudo6 source_addr dest_addr (zlen payload) + words_sum (udp_bytes h) + padded_sum payload) f.
Proof.
  intros Hp Hlen Hs Hsl Hd Hdl. unfold udp_ip6_checksum, UDP_HEADER in *. pose proof (zlen_nonneg payload).
  assert (Hsum : forall a, bytes_ok a -> zlen a = 16 -> udp_checksum_summer a 16 = Some (words_sum a)).
  { intros a Ha Hal. pose proof (summer_spec a [] Ha ltac:(rewrite Hal; done) ltac:(lia)) as H1.
    by rewrite app_nil_r, Hal in H1. }
  rewrite (Hsum source_addr Hs Hsl), (Hsum dest_addr Hd Hdl). rewrite !summer_4. cbn [mbind option_bind]. cbv zeta.
  rewrite (u32_small (8 + zlen payload)) by lia.
  pose proof (words_sum_bound _ Hs). pose proof (words_sum_bound _ Hd).
  pose proof (words_sum_4 (hton32 (8 + zlen payload))). pose proof (words_sum_4 (hton32 IPV6_NEXT_UDP)).
  rewrite !u32_add_l, <- !Z.add_assoc, !u32_add_l, u32_small by lia.
  replace (0 + _ + _) with (pseudo6 source_addr dest_addr (zlen payload)) by (unfold pseudo6, UDP_HEADER; lia).
  rewrite Z.add_assoc. apply udp_tail_spec; [|done|lia]. unfold pseudo6, UDP_HEADER. lia.
Qed.

Lemma udp_sum_split h :
  words_sum (udp_bytes h) = words_sum (udp_bytes (h <| udp_sum := 0 |>)) + word (udp_sum h).
Proof.
  unfold udp_bytes, word, upd. cbn [source_port dest_port udp_len udp_sum].
  rewrite !le_bytes_2. cbn [app words_sum]. change (0 mod 256) with 0. change (0 / 256 mod 256) with 0. lia.
Qed.

(** Filling in the complement of the folded sum makes the sum zero. *)
Lemma filled_in t h p f : udp_sum h = 0 -> folds (t + words_sum (udp_bytes h) + p) f ->
  (t + words_sum (udp_bytes (h <| udp_sum := hton16 (65535 - f) |>)) + p) mod 65535 = 0.
Proof.
  intros Hz (Hr & Hm & _).
  rewrite udp_sum_split. change (udp_sum (h <| udp_sum := hton16 (65535 - f) |>)) with (hton16 (65535 - f)).
  rewrite word_hton16 by lia.
  replace ((h <| udp_sum := hton16 (65535 - f) |>) <| udp_sum := 0 |>) with h
    by (destruct h; cbn in Hz; subst; done).
  apply mod_complement in Hm. etrans; [|exact Hm]. f_equal. lia.
Qed.

(** C21: the UDP checksums are the ones' complement ones: the sum of the
    pseudo-header, the header with the checksum filled in, and the payload,
    padded if it is odd, is zero modulo 65535, for every payload. *)
Theorem udp_checksum_correct (h : udp_header) (payload : bytes)
  (Hp : bytes_ok payload) (Hlen : UDP_HEADER + zlen payload <= UINT16_MAX) (Hz : udp_sum h = 0) :
  (forall source_addr dest_addr : Z,
     exists c, udp_checksum h payload (zlen payload) source_addr dest_addr = Some c /\ 0 <= c < 2 ^ 16 /\
       (pseudo4 source_addr dest_addr (zlen payload) + words_sum (udp_bytes (h <| udp_sum := c |>)) +
        padded_sum payload) mod 65535 = 0) /\
  (forall source_addr dest_addr : bytes, bytes_ok source_addr -> zlen source_addr = 16 ->
     bytes_ok dest_addr -> zlen dest_addr = 16 ->
     exists c, udp_ip6_checksum h payload (zlen payload) source_addr dest_addr = Some c /\ 0 <= c < 2 ^ 16 /\
       (pseudo6 source_addr dest_addr (zlen payload) + words_sum (udp_bytes (h <| udp_sum := c |>)) +
        padded_sum payload) mod 65535 = 0).
Proof.
  split.
  - intros s d. destruct (udp_checksum_spec h payload [] s d Hp Hlen) as (f & Hc & Hf). rewrite app_nil_r in Hc.
    exists (hton16 (65535 - f)). split; [done|]. split; [exact (hton16_range (65535 - f))|]. by apply filled_in.
  - intros s d Hs Hsl Hd Hdl. destruct (udp_ip6_checksum_spec h payload [] s d Hp Hlen Hs Hsl Hd Hdl) as (f & Hc & Hf).
    rewrite app_nil_r in Hc. exists (hton16 (65535 - f)). split; [done|]. split; [exact (hton16_range (65535 - f))|].
    by apply filled_in.
Qed.
Lemma udp_checksum_correct_witness :
  (exists c, udp_checksum (mk_udp 13568 13568 2816 0) [1; 2; 3] 3 16777226 33554442 = Some c /\ 0 <= c < 2 ^ 16) /\
  exists c, udp_ip6_checksum (mk_udp 13568 13568 2816 0) [1; 2; 3] 3 (repeat 1 16) (repeat 2 16) = Some c.
Proof.
  assert (H1 : bytes_ok [1; 2; 3]) by (repeat constructor; unfold byte_ok; lia).
  assert (H2 : UDP_HEADER + zlen [1; 2; 3] <= UINT16_MAX) by (vm_compute; discriminate).
  destruct (udp_checksum_correct (mk_udp 13568 13568 2816 0) [1; 2; 3] H1 H2 eq_refl) as [H4 H6]. split.
  - destruct (H4 16777226 33554442) as (c & Hc & Hr & _). exists c. exact (conj Hc Hr).
  - assert (A1 : bytes_ok (repeat 1 16)) by (repeat constructor; unfold byte_ok; lia).
    assert (A2 : bytes_ok (repeat 2 16)) by (repeat constructor; unfold byte_ok; lia).
    destruct (H6 (repeat 1 16) (repeat 2 16) A1 eq_refl A2 eq_refl) as (c & Hc & _). exists c. exact Hc.
Defined.

(** The replacement of a zero checksum by [UINT16_MAX] never takes effect,
    because the complement is taken of 32 bits: whenever the sum is a multiple
    of 65535 the function returns zero, which in UDP means that there is no
    checksum. *)
Theorem udp_checksum_zero (h : udp_header) (payload : bytes) (source_addr dest_addr : Z)
  (Hp : bytes_ok payload) (Hlen : UDP_HEADER + zlen payload <= UINT16_MAX)
  (Hsum : (pseudo4 source_addr dest_addr (zlen payload) + words_sum (udp_bytes h) + padded_sum payload) mod 65535 = 0) :
  udp_checksum h payload (zlen payload) source_addr dest_addr = Some 0.
Proof.
  destruct (udp_checksum_spec h payload [] source_addr dest_addr Hp Hlen) as (f & Hc & (Hr & Hm & Hz)).
  rewrite app_nil_r in Hc. rewrite Hc. rewrite Hsum in Hm.
  assert (f = 0 \/ f = 65535) as [->| ->].
  { apply Z.mod_divide in Hm as [q Hq]; [|done]. assert (q = 0 \/ q = 1) as [-> | ->] by nia; lia. }
  - exfalso. specialize (Hz eq_refl). unfold pseudo4, IPV4_PROTOCOL_UDP, UDP_HEADER in Hz.
    pose proof (words_sum_4 source_addr). pose proof (words_sum_4 dest_addr).
    pose proof (words_sum_bound _ (udp_bytes_ok h)). pose proof (zlen_nonneg payload).
    assert (0 <= padded_sum payload); [|lia]. unfold padded_sum.
    destruct (_ =? 0); apply words_sum_bound; [done|]. apply Forall_app. split; [done|]. repeat constructor; lia.
  - done.
Qed.
Lemma udp_checksum_zero_witness :
  udp_checksum (mk_udp 0 0 2560 0) [255; 218] 2 0 0 = Some 0.
Proof.
  assert (H1 : bytes_ok [255; 218]) by (repeat constructor; unfold byte_ok; lia).
  assert (H2 : UDP_HEADER + zlen [255; 218] <= UINT16_MAX) by (vm_compute; discriminate).
  exact (udp_checksum_zero (mk_udp 0 0 2560 0) [255; 218] 0 0 H1 H2 eq_refl).
Defined.

(** * The checks of the other headers *)

Lemma udp_check_inside (data : bytes) :
  exists r, udp_check data = Some r /\
    forall h off len, r = Some (h, off, len) ->
      off = UDP_HEADER /\ 0 <= len /\ off + len <= zlen data /\ ntoh16 (udp_len h) = off + len /\
      h = udp_of_bytes (slice 0 UDP_HEADER data).
Proof.
  unfold udp_check. destruct (zlen data <? UDP_HEADER) eqn:E0; [by exists None|]. b2p.
  rewrite mem_read_Some by (unfold UDP_HEADER in *; lia). cbn [fmap option_fmap option_map mbind option_bind].
  remember (udp_of_bytes (slice 0 UDP_HEADER data)) as h eqn:Hh. cbv zeta.
  destruct (ntoh16 (udp_len h) <? UDP_HEADER) eqn:E1; [by exists None|].
  destruct (UDP_HEADER + (zlen data - UDP_HEADER) <? ntoh16 (udp_len h)) eqn:E2; [by exists None|].
  eexists. split; [done|]. intros h' off len Heq. injection Heq as <- <- <-. b2p.
  unfold UDP_HEADER in *. split_and!; try lia; done.
Qed.

Lemma ipv6_check_inside (data : bytes) :
  exists r, ipv6_check data = Some r /\
    forall h off len, r = Some (h, off, len) ->
      off = IPV6_HEADER /\ 0 <= len /\ off + len <= zlen data /\ len = ntoh16 (payload_length h) /\
      Z.shiftr (version4_tc4 h) 4 = 6 /\ h = ipv6_of_bytes (slice 0 IPV6_HEADER data).
Proof.
  unfold ipv6_check. destruct (zlen data <? IPV6_HEADER) eqn:E0; [by exists None|]. b2p.
  rewrite mem_read_Some by (unfold IPV6_HEADER in *; lia). cbn [fmap option_fmap option_map mbind option_bind].
  remember (ipv6_of_bytes (slice 0 IPV6_HEADER data)) as h eqn:Hh. cbv zeta.
  destruct (negb (Z.shiftr (ntoh8 (version4_tc4 h)) 4 =? 6)) eqn:E1; [by exists None|].
  destruct (zlen data - IPV6_HEADER <? ntoh16 (payload_length h)) eqn:E2; [by exists None|].
  eexists. split; [done|]. intros h' off len Heq. injection Heq as <- <- <-. b2p.
  pose proof (ntoh16_range (payload_length h)). split_and!; [done|lia|lia|done|exact E1|done].
Qed.

Lemma udp_check_built h payload stray :
  udp_ok h -> UDP_HEADER + zlen payload <= UINT16_MAX -> udp_len h = hton16 (UDP_HEADER + zlen payload) ->
  udp_check (udp_bytes h ++ payload ++ stray) = Some (Some (h, UDP_HEADER, zlen payload)).
Proof.
  intros Hok Hlen Hl. pose proof (zlen_nonneg payload). pose proof (zlen_nonneg stray).
  unfold udp_check. rewrite !zlen_app, udp_bytes_len. unfold UDP_HEADER, UINT16_MAX in *.
  replace (8 + (zlen payload + zlen stray) <? 8) with false by lia.
  rewrite (mem_read_Some 0 8) by (rewrite ?zlen_app, ?udp_bytes_len; unfold UDP_HEADER; lia).
  rewrite slice_app_l by by rewrite udp_bytes_len. cbn [fmap option_fmap option_map mbind option_bind].
  rewrite (udp_of_udp_bytes h Hok), Hl, ntoh16_hton16 by lia. cbv zeta.
  replace (8 + zlen payload <? 8) with false by lia.
  replace (8 + (8 + (zlen payload + zlen stray) - 8) <? 8 + zlen payload) with false by lia.
  do 3 f_equal. lia.
Qed.

Record ip6_ok (h : ipv6_header) : Prop := {
  ok6_version : 0 <= version4_tc4 h < 2 ^ 8; ok6_tc : 0 <= tc4_fl4 h < 2 ^ 8; ok6_fl : 0 <= fl h < 2 ^ 16;
  ok6_plen : 0 <= payload_length h < 2 ^ 16; ok6_next : 0 <= next_header h < 2 ^ 8; ok6_hop : 0 <= hop_limit h < 2 ^ 8;
  ok6_src : zlen (source_address6 h) = 16; ok6_dst : zlen (destination_address6 h) = 16
}.

Lemma ipv6_bytes_len h : ip6_ok h -> zlen (ipv6_bytes h) = IPV6_HEADER.
Proof. intros []. unfold ipv6_bytes. rewrite !zlen_app, !zlen_le_bytes, ok6_src0, ok6_dst0. done. Qed.

Lemma ipv6_of_ipv6_bytes h : ip6_ok h -> ipv6_of_bytes (ipv6_bytes h) = h.
Proof.
  intros []. set (l := ipv6_bytes h).
  assert (Hl : l = (le_bytes 1 (version4_tc4 h) ++ le_bytes 1 (tc4_fl4 h) ++ le_bytes 2 (fl h) ++
    le_bytes 2 (payload_length h) ++ le_bytes 1 (next_header h) ++ le_bytes 1 (hop_limit h)) ++
    source_address6 h ++ destination_address6 h) by done.
  assert (H1 : slice 8 16 l = source_address6 h).
  { rewrite Hl, slice_app_shift by done. apply slice_app_l. by rewrite ok6_src0. }
  assert (H2 : slice 24 16 l = destination_address6 h).
  { rewrite Hl, slice_app_shift by done. apply slice_app_r; [by rewrite ok6_src0|by rewrite ok6_dst0]. }
  unfold ipv6_of_bytes. rewrite H1, H2.
  change (field 0 1 l) with (le_val (le_bytes 1 (version4_tc4 h))).
  change (field 1 1 l) with (le_val (le_bytes 1 (tc4_fl4 h))).
  change (field 2 2 l) with (le_val (le_bytes 2 (fl h))).
  change (field 4 2 l) with (le_val (le_bytes 2 (payload_length h))).
  change (field 6 1 l) with (le_val (le_bytes 1 (next_header h))).
  change (field 7 1 l) with (le_val (le_bytes 1 (hop_limit h))).
  rewrite !le_val_bytes. change (256 ^ Z.of_nat 1) with (2 ^ 8). change (256 ^ Z.of_nat 2) with (2 ^ 16).
  rewrite !Z.mod_small by done. by destruct h.
Qed.

Lemma ipv6_check_built h payload stray :
  ip6_ok h -> Z.shiftr (version4_tc4 h) 4 = 6 -> zlen payload <= UINT16_MAX ->
  payload_length h = hton16 (zlen payload) ->
  ipv6_check (ipv6_bytes h ++ payload ++ stray) = Some (Some (h, IPV6_HEADER, zlen payload)).
Proof.
  intros Hok Hv Hlen Hl. pose proof (zlen_nonneg payload). pose proof (zlen_nonneg stray).
  pose proof (ipv6_bytes_len h Hok) as Hh.
  unfold ipv6_check. rewrite !zlen_app, Hh. unfold IPV6_HEADER, UINT16_MAX in *.
  replace (40 + (zlen payload + zlen stray) <? 40) with false by lia.
  rewrite (mem_read_Some 0 40) by (rewrite ?zlen_app, ?Hh; lia).
  rewrite slice_app_l by by rewrite Hh. cbn [fmap option_fmap option_map mbind option_bind].
  rewrite (ipv6_of_ipv6_bytes h Hok). unfold ntoh8, hton8. rewrite Hv, Hl, ntoh16_hton16 by lia. cbn [negb Z.eqb Pos.eqb].
  replace (40 + (zlen payload + zlen stray) - 40 <? zlen payload) with false by lia. done.
Qed.

(** C20: the checks never read outside the packet, whatever its bytes; what they
    accept lies inside it, with the version and the lengths its header announces;
    and for IPv4 the header bytes are those returned and the ones' complement sum
    of the whole header, options included, is zero. *)
Theorem packet_checks_sound (data : bytes) (Hdata : bytes_ok data) :
  (exists r, ipv4_check data = Some r /\
     forall h off len, r = Some (h, off, len) ->
       IPV4_GET_VERSION h = 4 /\ IPV4_HEADER <= off <= 60 /\ 0 <= len /\ off + len <= zlen data /\
       slice 0 IPV4_HEADER data = ipv4_bytes h /\ ntoh16 (total_length h) = off + len /\
       words_sum (slice 0 off data) mod 65535 = 0 /\ h = ipv4_of_bytes (slice 0 IPV4_HEADER data)) /\
  (exists r, udp_check data = Some r /\
     forall h off len, r = Some (h, off, len) ->
       off = UDP_HEADER /\ 0 <= len /\ off + len <= zlen data /\ ntoh16 (udp_len h) = off + len /\
       h = udp_of_bytes (slice 0 UDP_HEADER data)) /\
  (exists r, ipv6_check data = Some r /\
     forall h off len, r = Some (h, off, len) ->
       off = IPV6_HEADER /\ 0 <= len /\ off + len <= zlen data /\ len = ntoh16 (payload_length h) /\
       Z.shiftr (version4_tc4 h) 4 = 6 /\ h = ipv6_of_bytes (slice 0 IPV6_HEADER data)).
Proof. split; [by apply ipv4_check_inside|]. split; [apply udp_check_inside|apply ipv6_check_inside]. Qed.
Lemma packet_checks_sound_witness :
  match ipv4_check ipv4_example with Some (Some (_, 20, 4)) => True | _ => False end /\
  (exists r, ipv4_check ipv4_example = Some r).
Proof.
  split; [vm_compute; exact I|].
  assert (H : bytes_ok ipv4_example).
  { apply Forall_forall. intros x Hx. unfold ipv4_example in Hx. rewrite !elem_of_cons in Hx. unfold byte_ok.
    destruct_or! Hx; subst; try lia. by apply not_elem_of_nil in Hx. }
  destruct (packet_checks_sound ipv4_example H) as [(r & Hr & _) _]. exists r. exact Hr.
Defined.
End IpProto.
