(* ===== verification/StreamSender.v ===== *)
(** Packets onto a stream: [flow/PacketStreamSender.c].

    The sender sits between the [PacketPassInterface] its user sends to and the
    [StreamPassInterface] of a connection.  Its pointers are pairs of a memory
    block and an offset, so that a block that was moved by a reallocation is
    not the block a transfer was started with. *)

From S2P Require Import Prelude Interfaces CArith.

(** A pointer: a block and an offset in it. *)
Abbreviation ptr := (Z * Z)%type.
Definition padd (p : ptr) (n : Z) : ptr := (p.1, p.2 + n).

Lemma padd_0 p : padd p 0 = p.
Proof. destruct p as [b o]. unfold padd. cbn. by rewrite Z.add_0_r. Qed.
Lemma padd_padd p m n : padd (padd p m) n = padd p (m + n).
Proof. unfold padd. cbn. by rewrite Z.add_assoc. Qed.

Module PSS.

Record PacketStreamSender := mk_pss {
  input : PacketPassInterface ptr;
  output : StreamPassInterface ptr;
  in_len : Z;
  in_data : ptr;
  in_used : Z
}.
#[export] Instance eta_pss : Eta PacketStreamSender := fun s =>
  mk_pss (input s) (output s) (in_len s) (in_data s) (in_used s).

Section sender.
Context {E : Type}.
Local Abbreviation M := (M PacketStreamSender E).

Definition send_data : M unit :=
  s ← get;
  assert (0 <=? in_len s);;
  if in_used s <? in_len s then
    zoom output (StreamPassInterface_Sender_Send (padd (in_data s) (in_used s)) (in_len s - in_used s))
  else
    in_len ::= -1;;
    zoom input PacketPassInterface_Done.

Definition input_handler_send (data : ptr) (data_len : Z) : M unit :=
  s ← get;
  assert (in_len s =? -1);;
  assert (0 <=? data_len);;
  in_len ::= data_len;;
  in_data ::= data;;
  in_used ::= 0;;
  send_data.

Definition output_handler_done (data_len : Z) : M unit :=
  s ← get;
  assert (0 <=? in_len s);;
  assert (0 <? data_len);;
  assert (data_len <=? in_len s - in_used s);;
  in_used ::= in_used s + data_len;;
  send_data.

(** [output] is a new interface of the connection. *)
Definition PacketStreamSender_Init (mtu : Z) : M unit :=
  assert (0 <=? mtu);;
  input ::= PacketPassInterface_Init mtu;;
  zoom output StreamPassInterface_Sender_Init;;
  in_len ::= -1.

(** The jobs of the two interfaces that belong to the sender. *)
Definition job_send : M unit :=
  dn ← zoom input PacketPassInterface_job_operation;
  input_handler_send dn.1 dn.2.
Definition job_output_start : M unit :=
  _ ← zoom output StreamPassInterface_job_operation; mret tt.
Definition job_output_done : M unit :=
  k ← zoom output StreamPassInterface_job_done;
  output_handler_done k.

(** ** Progress of a packet

    No packet; a packet [d], [n] scheduled; [used] of its bytes sent and the
    others with the stream; the packet sent and its completion scheduled. *)

Inductive progress :=
  | SIdle
  | SStart (d : ptr) (n : Z)
  | SData (d : ptr) (n used : Z) (sph : phase ptr)
  | SDone (d : ptr) (n : Z).

Definition pss_is (mtu : Z) (pr : progress) (s : PacketStreamSender) : Prop :=
  match pr with
  | SIdle => pp_is mtu Idle (input s) /\ sp_is Idle (output s) /\ in_len s = -1
  | SStart d n => pp_is mtu (Op d n) (input s) /\ sp_is Idle (output s) /\ in_len s = -1
  | SData d n used sph =>
      pp_is mtu (Busy d n) (input s) /\ sp_is sph (output s) /\
      in_len s = n /\ in_data s = d /\ in_used s = used /\ 0 <= used < n /\
      match sph with
      | Idle => False
      | Op d' n' | Busy d' n' | Done d' n' _ => d' = padd d used /\ n' = n - used
      end
  | SDone d n => pp_is mtu (Done d n 0) (input s) /\ sp_is Idle (output s) /\ in_len s = -1
  end.

Implicit Types Q : unit -> PacketStreamSender -> list E -> Prop.

Lemma wp_init mtu s Q :
  0 <= mtu -> output s = StreamPassInterface_Init ->
  (forall s', in_len s' = -1 -> pp_mtu (input s') = mtu ->
     input s' = PacketPassInterface_Init mtu -> sp_is Idle (output s') -> Q tt s' []) ->
  wp (PacketStreamSender_Init mtu) Q s.
Proof.
  intros Hm Ho HQ. unfold PacketStreamSender_Init. mgo. sug. rewrite Ho.
  apply wp_sp_connect. intros o Hsp. mgo. apply HQ; done.
Qed.

Lemma wp_send mtu d n s Q :
  pss_is mtu SIdle s -> 0 <= n <= mtu ->
  (forall i, pss_is mtu (SStart d n) (s <| input := i |>) -> Q tt (s <| input := i |>) []) ->
  wp (zoom input (PacketPassInterface_Sender_Send d n)) Q s.
Proof.
  intros (Hi & Ho & Hl) Hn HQ. mstep. eapply wp_pp_send; [exact Hi|exact Hn|].
  intros i' Hi'. apply HQ. done.
Qed.

Lemma wp_job_send mtu d n s Q :
  pss_is mtu (SStart d n) s -> 0 < n ->
  (forall s' d', d' = padd d 0 -> pss_is mtu (SData d n 0 (Op d' (n - 0))) s' -> Q tt s' []) ->
  wp job_send Q s.
Proof.
  intros (Hi & Ho & Hl) Hn HQ. unfold job_send, input_handler_send, send_data.
  mstep. mstep. eapply wp_pp_job_op; [exact Hi|]. intros i' Hi'. mgo.
  mstep; [|exfalso; b2p; sua; lia]. mstep. eapply wp_sp_send; [exact Ho|sug; lia|].
  intros o' Ho'. eapply HQ; [done|]. split_and!; try done; lia.
Qed.

Lemma wp_job_output_start mtu d n used d' n' s Q :
  pss_is mtu (SData d n used (Op d' n')) s ->
  (forall s', pss_is mtu (SData d n used (Busy d' n')) s' -> Q tt s' []) ->
  wp job_output_start Q s.
Proof.
  intros (Hi & Ho & Hl & Hd & Hu & Hr & Hdn) HQ. unfold job_output_start.
  mstep. mstep. eapply wp_sp_job_op; [exact Ho|]. intros o' Ho'. mgo. apply HQ. done.
Qed.

Lemma wp_output_finish mtu d n used d' n' k s Q :
  pss_is mtu (SData d n used (Busy d' n')) s -> 0 < k <= n' ->
  (forall o, pss_is mtu (SData d n used (Done d' n' k)) (s <| output := o |>) -> Q tt (s <| output := o |>) []) ->
  wp (zoom output (StreamPassInterface_Done k)) Q s.
Proof.
  intros (Hi & Ho & Hl & Hd & Hu & Hr & Hdn) Hk HQ. mstep.
  eapply wp_sp_done; [exact Ho|exact Hk|]. intros o' Ho'. apply HQ. done.
Qed.

(** The stream took [k] bytes: the rest is sent, or the packet is done. *)
Lemma wp_job_output_done mtu d n used d' n' k s Q :
  pss_is mtu (SData d n used (Done d' n' k)) s ->
  (used + k < n -> forall s', pss_is mtu (SData d n (used + k) (Op (padd d (used + k)) (n - (used + k)))) s' -> Q tt s' []) ->
  (used + k = n -> forall s', pss_is mtu (SDone d n) s' -> Q tt s' []) ->
  wp job_output_done Q s.
Proof.
  intros (Hi & Ho & Hl & Hd & Hu & Hr & Hdn) HQ1 HQ2. unfold job_output_done, output_handler_done, send_data.
  mstep. mstep. eapply wp_sp_job_done; [exact Ho|]. intros Hk o' Ho'. destruct Hdn as [-> ->]. mgo.
  apply wp_if; intros Hc; b2p; unfold upd in Hc; cbn in Hc.
  - mstep. eapply wp_sp_send; [exact Ho'|sug; lia|]. intros o2 Ho2. apply HQ1; [lia|].
    sua. rewrite Hd, Hu, Hl in Ho2. split; [exact Hi|]. split; [exact Ho2|]. split_and!; try done; try lia.
  - mgo. eapply wp_pp_done; [exact Hi|]. intros i' Hi'. apply HQ2; [lia|]. done.
Qed.

Lemma wp_job_done mtu d n s Q :
  pss_is mtu (SDone d n) s ->
  (forall i, pss_is mtu SIdle (s <| input := i |>) -> Q tt (s <| input := i |>) []) ->
  wp (zoom input PacketPassInterface_job_done) Q s.
Proof.
  intros (Hi & Ho & Hl) HQ. mstep. eapply wp_pp_job_done; [exact Hi|]. intros i' Hi'. apply HQ. done.
Qed.
End sender.
End PSS.
