(* ===== verification/SocksClient.v ===== *)
(** The SOCKS5 client: [socksclient/BSocksClient.c] over
    [flow/PacketStreamSender.c] and a connection.

    The connector, the connection and the allocator are the environment's: it
    decides how the connection attempt ends, how many bytes each transfer
    moves, what the server sends, when the connection fails, and whether
    [realloc] succeeds and what the new memory holds.  [dialogue] is the
    reference: what a client that has received some bytes has to say. *)

From S2P Require Import Prelude System Interfaces CArith NetInt StreamSender.

Module Socks.
Import NetInt.NetInt PSS.

(** [misc/socks_proto.h] *)
Definition SOCKS_VERSION : Z := 5.
Definition SOCKS_METHOD_NO_AUTHENTICATION_REQUIRED : Z := 0.
Definition SOCKS_METHOD_USERNAME_PASSWORD : Z := 2.
Definition SOCKS_CMD_CONNECT : Z := 1.
Definition SOCKS_ATYP_IPV4 : Z := 1.
Definition SOCKS_ATYP_IPV6 : Z := 4.
Definition SOCKS_REP_SUCCEEDED : Z := 0.

(** The sizes of the packed structs. *)
Definition CLIENT_HELLO_HEADER : Z := 2.
Definition CLIENT_HELLO_METHOD : Z := 1.
Definition SERVER_HELLO : Z := 2.
Definition REQUEST_HEADER : Z := 4.
Definition REPLY_HEADER : Z := 4.
Definition ADDR_IPV4 : Z := 6.
Definition ADDR_IPV6 : Z := 18.

Inductive socks_state :=
  | CONNECTING | SENDING_HELLO | SENT_HELLO | SENDING_PASSWORD | SENT_PASSWORD
  | SENDING_REQUEST | SENT_REQUEST | RECEIVED_REPLY_HEADER | UP.
#[export] Instance socks_state_eq : EqDecision socks_state.
Proof. solve_decision. Defined.
Definition is_state (a b : socks_state) : bool := bool_decide (a = b).

Inductive socks_event := EVENT_ERROR | EVENT_UP | EVENT_ERROR_CLOSED.
#[export] Instance socks_event_eq : EqDecision socks_event.
Proof. solve_decision. Defined.

Record BSocksClient_auth_info := mk_auth { auth_type : Z; username : bytes; password : bytes }.

(** An address, its integers in network byte order as the code keeps them. *)
Inductive dest :=
  | IPv4 (ip port : Z)
  | IPv6 (ip : bytes) (port : Z).

(** [connector], [con], [control_io] and [up_io] tell which of the parts of the
    object are initialised; [block] counts the reallocations of [buffer];
    [reported] is set by an error report. *)
Record BSocksClient := mk_socks {
  auth_info : list BSocksClient_auth_info;
  dest_addr : dest;
  state : socks_state;
  buffer : option bytes;
  block : Z;
  connector : bool;
  con : bool;
  control_io : bool;
  up_io : bool;
  send_sender : PacketStreamSender;
  recv_if : StreamRecvInterface ptr;
  recv_dest : ptr;
  recv_len : Z;
  recv_total : Z;
  reported : bool
}.
#[export] Instance eta_socks : Eta BSocksClient := fun o =>
  mk_socks (auth_info o) (dest_addr o) (state o) (buffer o) (block o) (connector o) (con o)
    (control_io o) (up_io o) (send_sender o) (recv_if o) (recv_dest o) (recv_len o) (recv_total o)
    (reported o).

Inductive event :=
  | Wire (l : bytes)        (* the connection took bytes to send *)
  | Got (l : bytes)         (* the client was notified of received bytes *)
  | Handler (e : socks_event).

Local Abbreviation M := (M BSocksClient event).

(** What [realloc] returns: NULL, or memory whose new part holds anything. *)
Abbreviation heap := (option (Z -> Z)).
Definition BRealloc (h : heap) (m : option bytes) (size : Z) : option bytes :=
  junk ← h;
  let size := if size =? 0 then 1 else size in
  Some ((fun i => default (u8 (junk (Z.of_nat i))) (default [] m !! i)) <$> seq 0 (Z.to_nat size)).

Definition report_error (e : socks_event) : M unit :=
  o ← get;
  assert (negb (reported o));;
  reported ::= true;;
  emit (Handler e).

Definition init_control_io : M unit :=
  o ← get;
  assert (negb (control_io o || up_io o));;
  recv_if ::= StreamRecvInterface_Init;;
  zoom recv_if StreamRecvInterface_Receiver_Init;;
  zoom send_sender (output ::= StreamPassInterface_Init;; PacketStreamSender_Init INT_MAX);;
  zoom send_sender (zoom input PacketPassInterface_Sender_Init);;
  control_io ::= true.

Definition free_control_io : M unit :=
  o ← get;
  assert (control_io o);;
  control_io ::= false.

Definition init_up_io : M unit :=
  o ← get;
  assert (negb (control_io o || up_io o));;
  up_io ::= true.

Definition free_up_io : M unit :=
  o ← get;
  assert (up_io o);;
  up_io ::= false.

Definition reserve_buffer (h : heap) (size : bsize_t) : M bool :=
  o ← get;
  if is_overflow size then mret false else
  match BRealloc h (buffer o) (value size) with
  | None => mret false
  | Some b => buffer ::= Some b;; block ::= block o + 1;; mret true
  end.

(** Accesses to [o->buffer], with their bounds. *)
Definition read_buffer (off len : Z) : M bytes :=
  o ← get; b ← must (buffer o); must (mem_read off len b).
Definition write_buffer (off : Z) (data : bytes) : M unit :=
  o ← get;
  b ← must (buffer o);
  b ← must (mem_write off data b);
  buffer ::= Some b.
Definition buffer_ptr (off : Z) : M ptr := o ← get; mret (block o, off).

Definition Sender_Send (data : ptr) (len : Z) : M unit :=
  o ← get;
  assert (control_io o);;
  zoom send_sender (zoom input (PacketPassInterface_Sender_Send data len)).

Definition do_receive : M unit :=
  o ← get;
  assert (recv_len o <? recv_total o);;
  assert (control_io o);;
  zoom recv_if (StreamRecvInterface_Receiver_Recv (padd (recv_dest o) (recv_len o)) (recv_total o - recv_len o)).

Definition start_receive (d : ptr) (total : Z) : M unit :=
  assert (0 <? total);;
  recv_dest ::= d;;
  recv_len ::= 0;;
  recv_total ::= total;;
  do_receive.

(** [memcpy(o->buffer + sizeof(header) + i * sizeof(method), &method, ...)] for
    each of the methods from [i] on. *)
Fixpoint write_methods (i : Z) (l : list BSocksClient_auth_info) : M unit :=
  match l with
  | [] => mret tt
  | ai :: l =>
      write_buffer (CLIENT_HELLO_HEADER + i * CLIENT_HELLO_METHOD) [hton8 (u8 (auth_type ai))];;
      write_methods (i + 1) l
  end.

(** [init_ok] is the result of [BConnection_Init]. *)
Definition connector_handler (is_error init_ok : bool) (h : heap) : M unit :=
  o ← get;
  assert (is_state (state o) CONNECTING);;
  if is_error then report_error EVENT_ERROR
  else if negb init_ok then report_error EVENT_ERROR
  else
    assert (negb (con o));;
    con ::= true;;
    init_control_io;;
    let num_auth_info := zlen (auth_info o) in
    let size := bsize_add (bsize_fromsize CLIENT_HELLO_HEADER)
                  (bsize_mul (bsize_fromsize num_auth_info) (bsize_fromsize CLIENT_HELLO_METHOD)) in
    ok ← (if (num_auth_info =? 0) || (255 <? num_auth_info) then mret false
          else reserve_buffer h size);
    if ok : bool then
      write_buffer 0 [hton8 SOCKS_VERSION; hton8 (u8 num_auth_info)];;
      write_methods 0 (auth_info o);;
      p ← buffer_ptr 0;
      Sender_Send p (value size);;
      state ::= SENDING_HELLO
    else
      free_control_io;;
      con ::= false;;
      report_error EVENT_ERROR.

Definition connection_handler (recvclosed : bool) : M unit :=
  o ← get;
  assert (negb (is_state (state o) CONNECTING));;
  if is_state (state o) UP && recvclosed then report_error EVENT_ERROR_CLOSED
  else report_error EVENT_ERROR.

Definition auth_finished (h : heap) : M unit :=
  o ← get;
  let size := bsize_add (bsize_fromsize REQUEST_HEADER)
    (bsize_fromsize (match dest_addr o with IPv4 _ _ => ADDR_IPV4 | IPv6 _ _ => ADDR_IPV6 end)) in
  ok ← reserve_buffer h size;
  if negb ok then report_error EVENT_ERROR
  else
    atyp ← (match dest_addr o with
            | IPv4 ip port =>
                write_buffer REQUEST_HEADER (le_bytes 4 ip ++ le_bytes 2 port);;
                mret (hton8 SOCKS_ATYP_IPV4)
            | IPv6 ip port =>
                write_buffer REQUEST_HEADER (ip ++ le_bytes 2 port);;
                mret (hton8 SOCKS_ATYP_IPV6)
            end);
    write_buffer 0 [hton8 SOCKS_VERSION; hton8 SOCKS_CMD_CONNECT; hton8 0; atyp];;
    p ← buffer_ptr 0;
    Sender_Send p (value size);;
    state ::= SENDING_REQUEST.

(** The first method of [auth_info] of the type the server chose. *)
Fixpoint find_auth (l : list BSocksClient_auth_info) (method : Z) : option BSocksClient_auth_info :=
  match l with
  | [] => None
  | ai :: l => if auth_type ai =? method then Some ai else find_auth l method
  end.

Definition bad_length (s : bytes) : bool := (zlen s =? 0) || (255 <? zlen s).

(** The cases of [recv_handler_done]; [false] is [goto fail]. *)
Definition received_hello (h : heap) : M bool :=
  o ← get;
  imsg ← read_buffer 0 SERVER_HELLO;
  ver ← must (imsg !! 0%nat);
  method ← must (imsg !! 1%nat);
  if negb (ntoh8 ver =? SOCKS_VERSION) then mret false
  else
    match find_auth (auth_info o) (ntoh8 method) with
    | None => mret false
    | Some ai =>
        if auth_type ai =? SOCKS_METHOD_NO_AUTHENTICATION_REQUIRED then
          auth_finished h;; mret true
        else if auth_type ai =? SOCKS_METHOD_USERNAME_PASSWORD then
          if bad_length (username ai) || bad_length (password ai) then mret false
          else
            let size := bsize_fromsize (1 + 1 + zlen (username ai) + 1 + zlen (password ai)) in
            ok ← reserve_buffer h size;
            if negb ok then mret false
            else
              write_buffer 0 [1];;
              write_buffer 1 [u8 (zlen (username ai))];;
              write_buffer 2 (username ai);;
              write_buffer (2 + zlen (username ai)) [u8 (zlen (password ai))];;
              write_buffer (3 + zlen (username ai)) (password ai);;
              p ← buffer_ptr 0;
              Sender_Send p (value size);;
              state ::= SENDING_PASSWORD;;
              mret true
        else ub
    end.

Definition received_reply_header : M bool :=
  imsg ← read_buffer 0 REPLY_HEADER;
  ver ← must (imsg !! 0%nat);
  rep ← must (imsg !! 1%nat);
  atyp ← must (imsg !! 3%nat);
  if negb (ntoh8 ver =? SOCKS_VERSION) then mret false
  else if negb (ntoh8 rep =? SOCKS_REP_SUCCEEDED) then mret false
  else
    match (if ntoh8 atyp =? SOCKS_ATYP_IPV4 then Some ADDR_IPV4
           else if ntoh8 atyp =? SOCKS_ATYP_IPV6 then Some ADDR_IPV6 else None) with
    | None => mret false
    | Some addr_len =>
        p ← buffer_ptr REPLY_HEADER;
        start_receive p addr_len;;
        state ::= RECEIVED_REPLY_HEADER;;
        mret true
    end.

Definition received_password_reply (h : heap) : M bool :=
  b0 ← read_buffer 0 1;
  if negb (bool_decide (b0 = [1])) then mret false
  else
    b1 ← read_buffer 1 1;
    if negb (bool_decide (b1 = [0])) then mret false
    else auth_finished h;; mret true.

Definition received_reply : M unit :=
  buffer ::= None;;
  free_control_io;;
  init_up_io;;
  state ::= UP;;
  emit (Handler EVENT_UP).

Definition recv_handler_done (h : heap) (data_len : Z) : M unit :=
  o ← get;
  assert (0 <=? data_len);;
  assert (data_len <=? recv_total o - recv_len o);;
  recv_len ::= recv_len o + data_len;;
  if recv_len o + data_len <? recv_total o then do_receive
  else
    ok ← (match state o with
          | SENT_HELLO => received_hello h
          | SENT_REQUEST => received_reply_header
          | SENT_PASSWORD => received_password_reply h
          | RECEIVED_REPLY_HEADER => received_reply;; mret true
          | _ => ub
          end);
    if negb ok then report_error EVENT_ERROR else mret tt.

Definition send_handler_done (h : heap) : M unit :=
  o ← get;
  _ ← must (buffer o);
  let receive size first next :=
    (ok ← reserve_buffer h size;
     if negb ok then report_error EVENT_ERROR
     else
       p ← buffer_ptr 0;
       start_receive p first;;
       state ::= next) in
  match state o with
  | SENDING_HELLO => receive (bsize_fromsize SERVER_HELLO) SERVER_HELLO SENT_HELLO
  | SENDING_REQUEST =>
      receive (bsize_add (bsize_fromsize REPLY_HEADER)
                 (bsize_max (bsize_fromsize ADDR_IPV4) (bsize_fromsize ADDR_IPV6))) REPLY_HEADER SENT_REQUEST
  | SENDING_PASSWORD => receive (bsize_fromsize 2) 2 SENT_PASSWORD
  | _ => ub
  end.

Definition BSocksClient_auth_none : BSocksClient_auth_info :=
  mk_auth SOCKS_METHOD_NO_AUTHENTICATION_REQUIRED [] [].
Definition BSocksClient_auth_password (username password : bytes) : BSocksClient_auth_info :=
  mk_auth SOCKS_METHOD_USERNAME_PASSWORD username password.

Definition known_auth (ai : BSocksClient_auth_info) : bool :=
  (auth_type ai =? SOCKS_METHOD_NO_AUTHENTICATION_REQUIRED) || (auth_type ai =? SOCKS_METHOD_USERNAME_PASSWORD).

(** [connector_ok] is the result of [BConnector_Init]. *)
Definition BSocksClient_Init (auth : list BSocksClient_auth_info) (d : dest) (connector_ok : bool) : M bool :=
  assert (forallb known_auth auth);;
  auth_info ::= auth;;
  dest_addr ::= d;;
  buffer ::= None;;
  if negb connector_ok then mret false
  else
    connector ::= true;;
    state ::= CONNECTING;;
    reported ::= false;;
    mret true.

Definition BSocksClient_Free : M unit :=
  o ← get;
  when (negb (is_state (state o) CONNECTING)) (
    (if is_state (state o) UP then free_up_io else free_control_io);;
    assert (con o);;
    con ::= false);;
  assert (connector o);;
  connector ::= false;;
  buffer ::= None.

(** The interfaces of the connection are handed out in the up state only. *)
Definition BSocksClient_GetSendInterface : M unit := o ← get; assert (is_state (state o) UP);; assert (up_io o).
Definition BSocksClient_GetRecvInterface : M unit := o ← get; assert (is_state (state o) UP);; assert (up_io o).

(** ** The environment *)

Inductive action :=
  | Connected (is_error init_ok : bool) (h : heap)
  | ConnectionEvent (recvclosed : bool)
  | SendStarts                       (* jobs of the sender's interfaces *)
  | StreamStarts
  | StreamTakes (k : Z)              (* the connection sent [k] bytes *)
  | StreamDone
  | SendDone (h : heap)
  | RecvStarts
  | RecvGives (data : bytes)         (* the connection received bytes *)
  | RecvDone (h : heap)
  | GetInterfaces
  | Free.

(** An access of the connection to memory it was given. *)
Definition at_ptr (o : BSocksClient) (p : ptr) : option bytes :=
  if p.1 =? block o then buffer o else None.

Definition exec_action (a : action) : M unit :=
  match a with
  | Connected is_error init_ok h => connector_handler is_error init_ok h
  | ConnectionEvent recvclosed => connection_handler recvclosed
  | SendStarts => zoom send_sender job_send
  | StreamStarts => zoom send_sender job_output_start
  | StreamTakes k =>
      o ← get;
      p ← must (sp_job_operation_data (output (send_sender o)));
      b ← must (at_ptr o p);
      l ← must (mem_read p.2 k b);
      emit (Wire l);;
      zoom send_sender (zoom output (StreamPassInterface_Done k))
  | StreamDone => zoom send_sender job_output_done
  | SendDone h => zoom send_sender (zoom input PacketPassInterface_job_done);; send_handler_done h
  | RecvStarts => _ ← zoom recv_if StreamRecvInterface_job_operation; mret tt
  | RecvGives data =>
      o ← get;
      p ← must (sr_job_operation_data (recv_if o));
      b ← must (at_ptr o p);
      b ← must (mem_write p.2 data b);
      buffer ::= Some b;;
      zoom recv_if (StreamRecvInterface_Done (zlen data))
  | RecvDone h =>
      o ← get;
      p ← must (sr_job_operation_data (recv_if o));
      n ← zoom recv_if StreamRecvInterface_job_done;
      l ← read_buffer p.2 n;
      emit (Got l);;
      recv_handler_done h n
  | GetInterfaces => BSocksClient_GetSendInterface;; BSocksClient_GetRecvInterface
  | Free => BSocksClient_Free
  end.

Definition action_enabled (o : BSocksClient) (a : action) : bool :=
  let live := connector o && negb (reported o) in
  let control := live && control_io o in
  match a with
  | Connected _ _ _ => live && negb (con o)
  | ConnectionEvent _ => live && con o
  | SendStarts => control && st_eq (pp_state (input (send_sender o))) OPERATION_PENDING
  | StreamStarts => control && st_eq (sp_state (output (send_sender o))) OPERATION_PENDING
  | StreamTakes k => control && st_eq (sp_state (output (send_sender o))) BUSY && (0 <? k)
                     && (k <=? sp_job_operation_len (output (send_sender o)))
  | StreamDone => control && st_eq (sp_state (output (send_sender o))) DONE_PENDING
  | SendDone _ => control && st_eq (pp_state (input (send_sender o))) DONE_PENDING
  | RecvStarts => control && st_eq (sr_state (recv_if o)) OPERATION_PENDING
  | RecvGives data => control && st_eq (sr_state (recv_if o)) BUSY && (0 <? zlen data)
                      && (zlen data <=? sr_job_operation_len (recv_if o))
  | RecvDone _ => control && st_eq (sr_state (recv_if o)) DONE_PENDING
  | GetInterfaces => live && is_state (state o) UP
  | Free => connector o
  end.
#[export] Instance socks_system : System BSocksClient action event :=
  {| enabled := action_enabled; exec := exec_action |}.

(** ** The reference dialogue

    What a client with the methods [auth] and the destination [d] has to have
    said after it received [rcv], and whether the server is still to answer,
    has refused, or has accepted the connection. *)

Section dialogue.
Context (auth : list BSocksClient_auth_info) (d : dest).

Inductive verdict := Waiting | Refused | Accepted.

Definition hello : bytes := SOCKS_VERSION :: zlen auth :: (auth_type <$> auth).
Definition password_message (ai : BSocksClient_auth_info) : bytes :=
  1 :: zlen (username ai) :: username ai ++ zlen (password ai) :: password ai.
Definition request_address : bytes :=
  match d with IPv4 ip port => le_bytes 4 ip ++ le_bytes 2 port | IPv6 ip port => ip ++ le_bytes 2 port end.
Definition request : bytes :=
  [SOCKS_VERSION; SOCKS_CMD_CONNECT; 0; match d with IPv4 _ _ => SOCKS_ATYP_IPV4 | IPv6 _ _ => SOCKS_ATYP_IPV6 end]
  ++ request_address.

Definition at_reply (need : Z) (said rcv : bytes) : bytes * verdict :=
  (said, if zlen rcv <? need then Waiting else if zlen rcv =? need then Accepted else Refused).
Definition at_request (said rcv : bytes) : bytes * verdict :=
  match rcv with
  | ver :: rep :: _ :: atyp :: rcv =>
      if negb (ver =? SOCKS_VERSION) || negb (rep =? SOCKS_REP_SUCCEEDED) then (said, Refused)
      else if atyp =? SOCKS_ATYP_IPV4 then at_reply ADDR_IPV4 said rcv
      else if atyp =? SOCKS_ATYP_IPV6 then at_reply ADDR_IPV6 said rcv
      else (said, Refused)
  | _ => (said, Waiting)
  end.
Definition at_password (said rcv : bytes) : bytes * verdict :=
  match rcv with
  | ver :: status :: rcv =>
      if negb (ver =? 1) || negb (status =? 0) then (said, Refused)
      else at_request (said ++ request) rcv
  | _ => (said, Waiting)
  end.
Definition at_hello (said rcv : bytes) : bytes * verdict :=
  match rcv with
  | ver :: method :: rcv =>
      if negb (ver =? SOCKS_VERSION) then (said, Refused)
      else match find_auth auth method with
           | None => (said, Refused)
           | Some ai =>
               if auth_type ai =? SOCKS_METHOD_NO_AUTHENTICATION_REQUIRED then at_request (said ++ request) rcv
               else if bad_length (username ai) || bad_length (password ai) then (said, Refused)
               else at_password (said ++ password_message ai) rcv
           end
  | _ => (said, Waiting)
  end.
Definition dialogue (rcv : bytes) : bytes * verdict := at_hello hello rcv.

(** What a state sent or sends the message of is waiting for: how it goes on,
    and where the next [total] bytes go. *)
Inductive awaits : socks_state -> socks_state -> (bytes -> bytes -> bytes * verdict) -> Z -> Z -> Z -> Prop :=
  | await_hello : awaits SENDING_HELLO SENT_HELLO at_hello 0 2 2
  | await_password : awaits SENDING_PASSWORD SENT_PASSWORD at_password 0 2 2
  | await_request : awaits SENDING_REQUEST SENT_REQUEST at_request 0 4 22
  | await_reply need : need = ADDR_IPV4 \/ need = ADDR_IPV6 ->
      awaits UP RECEIVED_REPLY_HEADER (at_reply need) 4 need 22.

Lemma awaits_short st st' k off total size said rcv :
  awaits st st' k off total size -> zlen rcv < total -> k said rcv = (said, Waiting).
Proof.
  destruct 1; intros Hl; unfold zlen in *;
    try (destruct rcv as [|? [|? [|? [|? ?]]]]; cbn in *; try done; lia).
  unfold at_reply, zlen. assert ((Z.of_nat (length rcv) <? need) = true) as -> by (b2p; lia). done.
Qed.
Lemma awaits_size st st' k off total size : awaits st st' k off total size ->
  0 <= off /\ 0 < total /\ off + total <= size.
Proof. destruct 1 as [| | |? [->| ->]]; unfold ADDR_IPV4, ADDR_IPV6; lia. Qed.
End dialogue.

(** The parts of the history. *)
Definition sent (tr : list event) : bytes := concat (omap (fun e => match e with Wire l => Some l | _ => None end) tr).
Definition rcvd (tr : list event) : bytes := concat (omap (fun e => match e with Got l => Some l | _ => None end) tr).
Definition told (tr : list event) : list socks_event := omap (fun e => match e with Handler e => Some e | _ => None end) tr.

Lemma sent_app t1 t2 : sent (t1 ++ t2) = sent t1 ++ sent t2.
Proof. unfold sent. by rewrite omap_app, concat_app. Qed.
Lemma rcvd_app t1 t2 : rcvd (t1 ++ t2) = rcvd t1 ++ rcvd t2.
Proof. unfold rcvd. by rewrite omap_app, concat_app. Qed.
Lemma told_app t1 t2 : told (t1 ++ t2) = told t1 ++ told t2.
Proof. apply omap_app. Qed.

(** ** The invariant *)

Lemma write_request (dst : dest) :
  (match dst with
   | IPv4 ip port => write_buffer REQUEST_HEADER (le_bytes 4 ip ++ le_bytes 2 port);; mret (hton8 SOCKS_ATYP_IPV4)
   | IPv6 ip port => write_buffer REQUEST_HEADER (ip ++ le_bytes 2 port);; mret (hton8 SOCKS_ATYP_IPV6)
   end) =
  (write_buffer REQUEST_HEADER (request_address dst);;
   mret (match dst with IPv4 _ _ => SOCKS_ATYP_IPV4 | IPv6 _ _ => SOCKS_ATYP_IPV6 end)).
Proof. by destruct dst. Qed.

Section proof.
Context (auth : list BSocksClient_auth_info) (d : dest).
Context (Hauth : forallb known_auth auth = true).
Context (Hdest : match d with IPv4 _ _ => True | IPv6 ip _ => zlen ip = 16 end).

Local Abbreviation dialogue := (dialogue auth d).

(** What is initialised in each state. *)
Definition resources (o : BSocksClient) : Prop :=
  if connector o then
    match state o with
    | CONNECTING => con o = false /\ control_io o = false /\ up_io o = false
    | UP => con o = true /\ control_io o = false /\ up_io o = true
    | _ => con o = true /\ control_io o = true /\ up_io o = false
    end
  else con o = false /\ control_io o = false /\ up_io o = false /\ buffer o = None.

Definition history (tr : list event) (o : BSocksClient) : Prop :=
  sent tr `prefix_of` (dialogue (rcvd tr)).1 /\
  (state o = UP -> dialogue (rcvd tr) = (sent tr, Accepted)) /\
  exists errs, told tr = (if is_state (state o) UP then [EVENT_UP] else []) ++ errs /\
    if reported o then errs = [EVENT_ERROR] \/ (errs = [EVENT_ERROR_CLOSED] /\ state o = UP) else errs = [].

(** The bytes of the message that the stream has taken. *)
Definition taken (pr : progress) : Z :=
  match pr with
  | SData _ _ used (Done _ _ k) => used + k
  | SData _ _ used _ => used
  | SDone _ n => n
  | _ => 0
  end.
Definition carries (pr : progress) (p : ptr) (n : Z) : Prop :=
  match pr with
  | SIdle => False
  | SStart d m | SData d m _ _ | SDone d m => d = p /\ m = n
  end.

Definition sending (tr : list event) (o : BSocksClient) : Prop :=
  exists st' k off total size msg pr said,
    awaits auth d (state o) st' k off total size /\ state o <> UP /\
    buffer o = Some msg /\ 0 < zlen msg <= INT_MAX /\ sr_is Idle (recv_if o) /\
    pss_is INT_MAX pr (send_sender o) /\ carries pr (block o, 0) (zlen msg) /\
    sent tr ++ drop (Z.to_nat (taken pr)) msg = said /\
    forall r, dialogue (rcvd tr ++ r) = k said r.

Definition receiving (tr : list event) (o : BSocksClient) : Prop :=
  exists st0 k off total size b ph rcv0,
    awaits auth d st0 (state o) k off total size /\ state o <> UP /\
    buffer o = Some b /\ zlen b = size /\ sr_is ph (recv_if o) /\
    pss_is INT_MAX SIdle (send_sender o) /\
    recv_dest o = (block o, off) /\ recv_total o = total /\ 0 <= recv_len o < total /\
    match ph with
    | Idle => False
    | Op p n | Busy p n | Done p n _ => p = padd (recv_dest o) (recv_len o) /\ n = total - recv_len o
    end /\
    rcvd tr = rcv0 ++ slice off (recv_len o) b /\
    forall r, dialogue (rcv0 ++ r) = k (sent tr) r.

Definition stage (tr : list event) (o : BSocksClient) : Prop :=
  (state o = CONNECTING /\ sent tr = [] /\ rcvd tr = []) \/ state o = UP \/ sending tr o \/ receiving tr o.

Definition inv (tr : list event) (o : BSocksClient) : Prop :=
  auth_info o = auth /\ dest_addr o = d /\ resources o /\ history tr o /\
  (connector o = true -> reported o = false -> stage tr o).

(** Between two operations, with nothing in transfer. *)
Record ready (tr : list event) (o : BSocksClient) : Prop := {
  r_auth : auth_info o = auth;
  r_dest : dest_addr o = d;
  r_connector : connector o = true;
  r_con : con o = true;
  r_control : control_io o = true;
  r_up : up_io o = false;
  r_reported : reported o = false;
  r_told : told tr = [];
  r_state : state o <> UP;
  r_sender : pss_is INT_MAX SIdle (send_sender o);
  r_recv : sr_is Idle (recv_if o)
}.

Implicit Types (tr : list event) (o : BSocksClient).

(** ** Errors *)

Lemma wp_report e tr o (Q : unit -> BSocksClient -> list event -> Prop) :
  auth_info o = auth -> dest_addr o = d -> resources o -> history tr o -> reported o = false ->
  e = EVENT_ERROR \/ (e = EVENT_ERROR_CLOSED /\ state o = UP) ->
  (forall o', inv (tr ++ [Handler e]) o' -> Q tt o' [Handler e]) ->
  wp (report_error e) Q o.
Proof.
  intros Ha Hd Hr (Hp & Hup & errs & Ht & He) Hrep Hev HQ. unfold report_error.
  rewrite Hrep in He. subst errs. rewrite app_nil_r in Ht. mgo.
  apply HQ. split_and!; try done.
  split_and!; rewrite ?sent_app, ?rcvd_app, ?app_nil_r; try done.
  exists [e]. rewrite told_app, Ht. split; [done|]. unfold upd; cbn. destruct Hev as [->|[-> ?]]; auto.
Qed.

(** ** The buffer *)

Lemma bsize_fits s n : bsize_rep s n -> n <= SIZE_MAX -> is_overflow s = false /\ value s = n.
Proof. intros (_ & _ & Ho & Hv) Hn. destruct (is_overflow s); [specialize (Ho eq_refl); lia|auto]. Qed.

Lemma BRealloc_len h m n b : 0 < n -> BRealloc h m n = Some b -> zlen b = n.
Proof.
  intros Hn. unfold BRealloc. destruct h; [|done]. cbn [mbind option_bind].
  replace (n =? 0) with false by lia. intros [= <-]. unfold zlen. rewrite length_fmap, length_seq. lia.
Qed.

Lemma wp_reserve h s n o (Q : bool -> BSocksClient -> list event -> Prop) :
  bsize_rep s n -> 0 < n <= INT_MAX ->
  Q false o [] ->
  (forall b, zlen b = n -> Q true (o <| buffer := Some b |> <| block := block o + 1 |>) []) ->
  wp (reserve_buffer h s) Q o.
Proof.
  intros Hs Hn HF HT. destruct (bsize_fits s n Hs ltac:(unfold INT_MAX, SIZE_MAX in *; lia)) as [Ho Hv].
  unfold reserve_buffer. mgo. rewrite Ho. destruct (BRealloc h (buffer o) (value s)) as [b|] eqn:Hb; [|by mgo].
  mgo. apply HT. rewrite Hv in Hb. eapply BRealloc_len; [|exact Hb]. lia.
Qed.

Lemma wp_write_buffer off data b o (Q : unit -> BSocksClient -> list event -> Prop) :
  buffer o = Some b -> 0 <= off -> off + zlen data <= zlen b ->
  Q tt (o <| buffer := Some (splice off data b) |>) [] ->
  wp (write_buffer off data) Q o.
Proof.
  intros Hb Ho Hl HQ. unfold write_buffer. mstep. mstep. mstep. eapply wp_must; [exact Hb|].
  mstep. eapply wp_must; [by apply mem_write_Some|]. mgo. exact HQ.
Qed.

Lemma splice_extend {A} off (data b w : list A) :
  off = zlen w -> slice 0 off b = w -> off + zlen data <= zlen b ->
  slice 0 (off + zlen data) (splice off data b) = w ++ data.
Proof.
  intros -> Hw Hl. pose proof (zlen_nonneg w). pose proof (zlen_nonneg data).
  rewrite slice_split by (rewrite ?zlen_splice; lia).
  rewrite slice_splice_before by lia. rewrite Hw, slice_splice_same by (done || lia). done.
Qed.

Lemma wp_write_methods l i b w o (Q : unit -> BSocksClient -> list event -> Prop) :
  forallb known_auth l = true -> buffer o = Some b -> 0 <= i ->
  CLIENT_HELLO_HEADER + i = zlen w -> slice 0 (CLIENT_HELLO_HEADER + i) b = w ->
  CLIENT_HELLO_HEADER + i + zlen l <= zlen b ->
  (forall b', zlen b' = zlen b -> slice 0 (CLIENT_HELLO_HEADER + i + zlen l) b' = w ++ (auth_type <$> l) ->
     Q tt (o <| buffer := Some b' |>) []) ->
  wp (write_methods i l) Q o.
Proof.
  revert i b w o Q. induction l as [|ai l IH]; intros i b w o Q Hl Hb Hi Hw Hs Hz HQ.
  - apply wp_ret. replace o with (o <| buffer := Some b |>) by (destruct o; cbn in Hb; by rewrite Hb).
    apply HQ; [done|]. change (zlen (@nil BSocksClient_auth_info)) with 0. by rewrite Z.add_0_r, app_nil_r.
  - cbn [forallb] in Hl. apply andb_true_iff in Hl as [Hai Hl].
    assert (Hu : hton8 (u8 (auth_type ai)) = auth_type ai).
    { unfold hton8, u8. apply Z.mod_small. unfold known_auth, SOCKS_METHOD_NO_AUTHENTICATION_REQUIRED,
        SOCKS_METHOD_USERNAME_PASSWORD in Hai. apply orb_true_iff in Hai as [Hai|Hai]; b2p; lia. }
    rewrite zlen_cons in *. unfold CLIENT_HELLO_METHOD, CLIENT_HELLO_HEADER in *.
    pose proof (zlen_nonneg l). cbn [write_methods]. rewrite Hu. mstep.
    unfold CLIENT_HELLO_METHOD, CLIENT_HELLO_HEADER. rewrite Z.mul_1_r.
    assert (Hz1 : zlen [auth_type ai] = 1) by done.
    eapply wp_write_buffer; [exact Hb|lia|lia|].
    eapply (IH _ (splice (2 + i) [auth_type ai] b) (w ++ [auth_type ai])); [done|done|lia| | | |].
    + rewrite zlen_app, Hz1. lia.
    + pose proof (splice_extend (2 + i) [auth_type ai] b w Hw Hs) as Hx. rewrite Hz1 in Hx.
      replace (2 + (i + 1)) with (2 + i + 1) by lia. apply Hx. lia.
    + rewrite zlen_splice by (rewrite ?Hz1; lia). lia.
    + intros b' Hb' Hs'. rewrite zlen_splice in Hb' by (rewrite ?Hz1; lia).
      apply HQ; [done|]. cbn [fmap list_fmap]. rewrite <- app_assoc in Hs'.
      replace (2 + i + (1 + zlen l)) with (2 + (i + 1) + zlen l) by lia. exact Hs'.
Qed.

(** ** Starting to send *)

Lemma wp_Sender_Send p n o (Q : unit -> BSocksClient -> list event -> Prop) :
  control_io o = true -> pss_is INT_MAX SIdle (send_sender o) -> 0 <= n <= INT_MAX ->
  (forall s', pss_is INT_MAX (SStart p n) s' -> Q tt (o <| send_sender := s' |>) []) ->
  wp (Sender_Send p n) Q o.
Proof.
  intros Hc Hs Hn HQ. unfold Sender_Send. do 4 mstep; [exact Hc|]. mstep. eapply wp_send; [exact Hs|exact Hn|].
  intros i Hi. by apply HQ.
Qed.

(** A state whose message is handed to the sender satisfies the invariant. *)
Lemma inv_sending tr o st st' k off total size msg s' :
  ready tr o -> buffer o = Some msg -> 0 < zlen msg <= INT_MAX ->
  awaits auth d st st' k off total size -> st <> UP ->
  pss_is INT_MAX (SStart (block o, 0) (zlen msg)) s' ->
  (forall r, dialogue (rcvd tr ++ r) = k (sent tr ++ msg) r) ->
  inv tr (o <| send_sender := s' |> <| state := st |>).
Proof.
  intros R Hb Hm Haw Hst Hs Hk. destruct R.
  assert (Hnil : dialogue (rcvd tr) = (sent tr ++ msg, Waiting)).
  { pose proof (Hk []) as H. rewrite app_nil_r in H. rewrite H.
    eapply awaits_short; [exact Haw|]. destruct (awaits_size _ _ _ _ _ _ _ _ Haw) as (_ & Ht & _). done. }
  split; [done|]. split; [done|]. split; [|split].
  - unfold resources, upd. cbn. rewrite r_connector0. destruct Haw; done.
  - split_and!.
    + rewrite Hnil. apply prefix_app_r. done.
    + done.
    + exists []. unfold upd; cbn. rewrite r_told0, r_reported0, app_nil_r. unfold is_state.
      by rewrite bool_decide_false.
  - intros _ _. right. right. left.
    exists st', k, off, total, size, msg, (SStart (block o, 0) (zlen msg)), (sent tr ++ msg).
    unfold upd; cbn. split_and!; try done; try lia; apply Hs.
Qed.

(** The parts that a handler leaves alone between its steps. *)
Lemma ready_buffer tr o b : ready tr o -> ready tr (o <| buffer := b |>).
Proof. by intros []. Qed.
Lemma ready_block tr o b : ready tr o -> ready tr (o <| block := b |>).
Proof. by intros []. Qed.
Lemma ready_base tr o : ready tr o -> state o <> CONNECTING -> 
  (sent tr `prefix_of` (dialogue (rcvd tr)).1) -> resources o /\ history tr o.
Proof.
  intros [] Hs Hp. unfold resources. rewrite r_connector0. split; [by destruct (state o)|].
  split_and!; [done|done|]. exists []. rewrite r_told0, r_reported0, app_nil_r. unfold is_state.
  by rewrite bool_decide_false.
Qed.

Lemma splice_header_body (hdr body b : bytes) :
  zlen b = zlen hdr + zlen body -> splice 0 hdr (splice (zlen hdr) body b) = hdr ++ body.
Proof.
  intros Hb. pose proof (zlen_nonneg hdr). pose proof (zlen_nonneg body).
  set (b' := splice (zlen hdr) body b). assert (Hb' : zlen b' = zlen hdr + zlen body).
  { unfold b'. rewrite zlen_splice by lia. done. }
  rewrite <- (slice_all (splice 0 hdr b')), zlen_splice by lia. rewrite Hb'.
  rewrite slice_split by (rewrite ?zlen_splice; lia).
  rewrite slice_splice_same by lia. f_equal.
  rewrite slice_splice_after by lia. unfold b'. by rewrite slice_splice_same by lia.
Qed.

Lemma zlen_request_address : zlen (request_address d) = match d with IPv4 _ _ => ADDR_IPV4 | IPv6 _ _ => ADDR_IPV6 end.
Proof.
  unfold request_address, ADDR_IPV4, ADDR_IPV6. destruct d; rewrite zlen_app, !zlen_le_bytes; lia.
Qed.

Lemma request_len : zlen (request d) = 4 + zlen (request_address d).
Proof. unfold request. by rewrite zlen_app. Qed.

Lemma small_sizes (a b : Z) : 0 <= a <= SIZE_MAX -> 0 <= b <= SIZE_MAX ->
  bsize_rep (bsize_add (bsize_fromsize a) (bsize_fromsize b)) (a + b).
Proof. intros. apply bsize_add_rep; by apply bsize_fromsize_rep. Qed.

Lemma wp_auth_finished h tr o (Q : unit -> BSocksClient -> list event -> Prop) :
  ready tr o -> state o <> CONNECTING ->
  (forall r, dialogue (rcvd tr ++ r) = at_request (sent tr ++ request d) r) ->
  (forall o' t, inv (tr ++ t) o' -> Q tt o' t) ->
  wp (auth_finished h) Q o.
Proof.
  intros R Hst Hk HQ. unfold auth_finished. mstep. mstep. rewrite (r_dest tr o R), write_request, <- zlen_request_address.
  assert (Ha : zlen (request_address d) = 6 \/ zlen (request_address d) = 18).
  { rewrite zlen_request_address. unfold ADDR_IPV4, ADDR_IPV6. destruct d; auto. }
  assert (Hsz : bsize_rep (bsize_add (bsize_fromsize REQUEST_HEADER) (bsize_fromsize (zlen (request_address d))))
                  (REQUEST_HEADER + zlen (request_address d))).
  { unfold REQUEST_HEADER. apply small_sizes; unfold SIZE_MAX; lia. }
  unfold REQUEST_HEADER in *. mstep. eapply wp_reserve; [exact Hsz|unfold INT_MAX; lia| |].
  - cbn [negb]. destruct (ready_base tr o R Hst) as [Hr Hh].
    { specialize (Hk []). rewrite app_nil_r in Hk. rewrite Hk. apply prefix_app_r. done. }
    eapply wp_report; [apply R..|exact Hr|exact Hh|apply R|by left|]. intros o' Ho'. by apply HQ.
  - intros b Hb. cbn [negb]. destruct (bsize_fits _ _ Hsz ltac:(unfold SIZE_MAX; lia)) as [_ Hv]. rewrite Hv.
    set (o1 := o <| buffer := Some b |> <| block := block o + 1 |>).
    assert (R1 : ready tr o1) by by apply ready_block, ready_buffer.
    assert (Hb1 : buffer o1 = Some b) by done. clearbody o1.
    mstep. mstep. eapply wp_write_buffer; [exact Hb1|unfold REQUEST_HEADER; lia|unfold REQUEST_HEADER; lia|].
    mstep. mstep. set (hdr := [_; _; _; _]). assert (Hh : zlen hdr = 4) by done.
    eapply wp_write_buffer; [done|lia|rewrite zlen_splice; unfold REQUEST_HEADER; lia|].
    replace (splice 0 hdr _) with (request d)
      by (symmetry; apply (splice_header_body hdr (request_address d) b); lia).
    unfold buffer_ptr. mgo. pose proof request_len. eapply wp_Sender_Send; [apply R1|apply R1|unfold INT_MAX; lia|].
    intros s' Hs'. mgo. apply HQ. rewrite app_nil_r. rewrite <- request_len in Hs'. 
    eapply inv_sending; [by do 2 apply ready_buffer|done|unfold INT_MAX; lia|constructor|done|exact Hs'|exact Hk].
Qed.

(** ** Connecting *)

Lemma wp_init_control_io o (Q : unit -> BSocksClient -> list event -> Prop) :
  control_io o = false -> up_io o = false ->
  (forall s r, pss_is INT_MAX SIdle s -> sr_is Idle r ->
     Q tt (o <| recv_if := r |> <| send_sender := s |> <| control_io := true |>) []) ->
  wp init_control_io Q o.
Proof.
  intros Hc Hu HQ. unfold init_control_io. do 4 mstep; [by rewrite Hc, Hu|]. do 4 mstep.
  eapply wp_sr_connect. intros r Hr. do 4 mstep. eapply wp_init; [done|done|].
  intros s Hl Hm Hi Ho. do 3 mstep. match goal with |- wp _ _ ?st => change st with (input s) end. rewrite Hi. apply wp_pp_connect. intros i Hpi. mstep.
  by apply (HQ (s <| input := i |>)).
Qed.

Lemma state_connecting o : resources o -> connector o = true -> con o = false ->
  state o = CONNECTING /\ control_io o = false /\ up_io o = false.
Proof. unfold resources. intros H Hcn Hc. rewrite Hcn in H. destruct (state o), H as (? & ? & ?); try congruence; auto. Qed.

Lemma resources_connecting o : connector o = true -> state o = CONNECTING ->
  con o = false -> control_io o = false -> up_io o = false -> resources o.
Proof. unfold resources. by intros -> ->. Qed.
Lemma resources_control o : connector o = true -> state o <> CONNECTING -> state o <> UP ->
  con o = true -> control_io o = true -> up_io o = false -> resources o.
Proof. unfold resources. intros ->. by destruct (state o). Qed.

(** The connection is given up. *)
Lemma wp_give_up tr o (Q : unit -> BSocksClient -> list event -> Prop) :
  ready tr o -> resources (o <| control_io := false |> <| con := false |>) ->
  history tr (o <| control_io := false |> <| con := false |>) ->
  (forall o' t, inv (tr ++ t) o' -> Q tt o' t) ->
  wp (free_control_io;; con ::= false;; report_error EVENT_ERROR) Q o.
Proof.
  intros R Hres Hh HQ. unfold free_control_io. do 5 mstep; [apply R|]. do 3 mstep.
  eapply wp_report; [apply R|apply R|exact Hres|exact Hh|apply R|by left|]. intros o' Ho'. by apply HQ.
Qed.

(** The hello is written into the new buffer and sent. *)
Lemma wp_send_hello tr o b n (Q : unit -> BSocksClient -> list event -> Prop) :
  ready tr o -> buffer o = Some b -> zlen b = 2 + zlen auth -> zlen auth <= 255 -> n = 2 + zlen auth ->
  sent tr = [] -> rcvd tr = [] ->
  (forall o', inv tr o' -> Q tt o' []) ->
  wp (write_buffer 0 [hton8 SOCKS_VERSION; hton8 (u8 (zlen auth))];;
      write_methods 0 auth;;
      p ← buffer_ptr 0;
      Sender_Send p n;;
      state ::= SENDING_HELLO) Q o.
Proof.
  intros R Hbuf Hb E1 -> Hsent Hrcvd HQ. pose proof (zlen_nonneg auth). unfold CLIENT_HELLO_HEADER, CLIENT_HELLO_METHOD.
  set (hdr := [_; _]). assert (Hh2 : zlen hdr = 2) by done.
  mstep. eapply wp_write_buffer; [exact Hbuf|lia|lia|].
  mstep. eapply (wp_write_methods auth 0 _ hdr); [exact Hauth|done|lia|done| |rewrite zlen_splice; unfold CLIENT_HELLO_HEADER; lia|].
  { change (CLIENT_HELLO_HEADER + 0) with (0 + 2). rewrite <- Hh2. rewrite (splice_extend 0 hdr b []); [done|done|done|lia]. }
  unfold CLIENT_HELLO_HEADER. rewrite zlen_splice by lia. intros b' Hb' Hsl.
  assert (Hbh : b' = hello auth).
  { rewrite <- (slice_all b'), Hb', Hb. replace (2 + zlen auth) with (2 + 0 + zlen auth) by lia. rewrite Hsl.
    unfold hdr, hello, hton8, u8. rewrite Z.mod_small by lia. done. }
  unfold buffer_ptr. do 5 mstep.
  eapply wp_Sender_Send; [apply R|apply R|unfold INT_MAX; lia|]. intros s' Hs'. mgo. apply HQ.
  assert (Hlen : zlen (hello auth) = 2 + zlen auth) by (rewrite <- Hbh; lia). rewrite <- Hlen in Hs'.
  eapply inv_sending; [by do 2 apply ready_buffer|cbn; by rewrite Hbh|unfold INT_MAX; lia|constructor|done|exact Hs'|].
  intros r'. rewrite Hsent, Hrcvd. done.
Qed.

Lemma wp_connector_handler is_error init_ok h tr o (Q : unit -> BSocksClient -> list event -> Prop) :
  inv tr o -> connector o = true -> reported o = false -> con o = false ->
  (forall o' t, inv (tr ++ t) o' -> Q tt o' t) ->
  wp (connector_handler is_error init_ok h) Q o.
Proof.
  intros (Ha & Hd & Hr & Hh & Hst) Hc Hrep Hcon HQ.
  destruct (state_connecting o Hr Hc Hcon) as (Hs & Hctl & Hup).
  assert (sent tr = [] /\ rcvd tr = [] /\ told tr = []) as (Hsent & Hrcvd & Htold).
  { destruct (Hst Hc Hrep) as [(_ & ? & ?)|[H|[H|H]]].
    - destruct Hh as (_ & _ & errs & Ht & He). rewrite Hrep in He. subst. rewrite Hs in Ht. done.
    - congruence.
    - destruct H as (? & ? & ? & ? & ? & ? & ? & ? & H & _). rewrite Hs in H. inversion H.
    - destruct H as (? & ? & ? & ? & ? & ? & ? & ? & H & _). rewrite Hs in H. inversion H. }
  assert (Herr : wp (report_error EVENT_ERROR) Q o).
  { eapply wp_report; try done; [by left|]. intros o' Ho'. by apply HQ. }
  unfold connector_handler. do 4 mstep; [by rewrite Hs|].
  destruct is_error; [exact Herr|]. destruct init_ok; cbn [negb]; [|exact Herr].
  do 2 mstep; [by rewrite Hcon|]. do 3 mstep. eapply wp_init_control_io; [done|done|]. intros s r Hss Hrr.
  set (o1 := _ <| control_io := true |>).
  assert (R1 : ready tr o1).
  { split; try done. change (state o <> UP). by rewrite Hs. }
  assert (Hres : resources (o1 <| control_io := false |> <| con := false |>)).
  { by apply resources_connecting. }
  assert (Hhist : history tr (o1 <| control_io := false |> <| con := false |>)) by exact Hh.
  assert (Hs1 : state o1 = CONNECTING) by exact Hs. assert (Hau : auth_info o = auth_info o1) by done.
  rewrite Hau, (r_auth tr o1 R1). clearbody o1.
  assert (Hfail : forall o2, ready tr o2 -> resources (o2 <| control_io := false |> <| con := false |>) ->
    history tr (o2 <| control_io := false |> <| con := false |>) ->
    wp (free_control_io;; con ::= false;; report_error EVENT_ERROR) Q o2).
  { intros. by eapply wp_give_up. }
  mstep. destruct (zlen auth =? 0) eqn:E0; cbn [orb].
  { apply wp_ret. by apply Hfail. }
  destruct (255 <? zlen auth) eqn:E1; [apply wp_ret; by apply Hfail|]. b2p. pose proof (zlen_nonneg auth).
  unfold CLIENT_HELLO_HEADER, CLIENT_HELLO_METHOD.
  assert (Hsz : bsize_rep (bsize_add (bsize_fromsize 2) (bsize_mul (bsize_fromsize (zlen auth)) (bsize_fromsize 1)))
                  (2 + zlen auth * 1)).
  { apply bsize_add_rep; [by apply bsize_fromsize_rep|]. apply bsize_mul_rep; [lia|lia|..];
      apply bsize_fromsize_rep; unfold SIZE_MAX; lia. }
  rewrite Z.mul_1_r in Hsz. destruct (bsize_fits _ _ Hsz ltac:(unfold SIZE_MAX; lia)) as [_ Hv]. rewrite Hv.
  eapply wp_reserve; [exact Hsz|unfold INT_MAX; lia|by apply Hfail|].
  intros b Hb. set (o2 := _ <| block := _ |>). assert (R2 : ready tr o2) by by apply ready_block, ready_buffer.
  assert (Hb2 : buffer o2 = Some b) by done. clearbody o2.
  eapply (wp_send_hello tr o2 b); [exact R2|exact Hb2|exact Hb|done|done|done|done|].
  intros o' Ho'. apply HQ. by rewrite app_nil_r.
Qed.

(** ** Starting to receive *)

Lemma wp_start_receive p n o (Q : unit -> BSocksClient -> list event -> Prop) :
  control_io o = true -> sr_is Idle (recv_if o) -> 0 < n ->
  (forall r, sr_is (Op p n) r ->
     Q tt (o <| recv_dest := p |> <| recv_len := 0 |> <| recv_total := n |> <| recv_if := r |>) []) ->
  wp (start_receive p n) Q o.
Proof.
  intros Hc Hr Hn HQ. unfold start_receive, do_receive. mstep; mstep; [by b2p|]. do 6 mstep.
  do 2 mstep. do 2 mstep; [by b2p|]. do 2 mstep; [exact Hc|]. mstep.
  eapply wp_sr_recv; [exact Hr|change (0 < n - 0); lia|]. intros r Hr'.
  change (sr_is (Op (padd p 0) (n - 0)) r) in Hr'. rewrite padd_0, Z.sub_0_r in Hr'.
  by apply HQ.
Qed.

Lemma inv_receiving tr o st0 st' k off total size b r :
  ready tr o -> buffer o = Some b -> zlen b = size -> awaits auth d st0 st' k off total size ->
  sr_is (Op (block o, off) total) r ->
  (forall r, dialogue (rcvd tr ++ r) = k (sent tr) r) ->
  inv tr (o <| recv_dest := (block o, off) |> <| recv_len := 0 |> <| recv_total := total |>
            <| recv_if := r |> <| state := st' |>).
Proof.
  intros R Hb Hz Haw Hr Hk. destruct R.
  destruct (awaits_size _ _ _ _ _ _ _ _ Haw) as (Hoff & Htot & Hsz).
  assert (Hnil : dialogue (rcvd tr) = (sent tr, Waiting)).
  { pose proof (Hk []) as H. rewrite app_nil_r in H. rewrite H. eapply awaits_short; [exact Haw|done]. }
  assert (Hst : st' <> CONNECTING /\ st' <> UP) by by destruct Haw. destruct Hst as [Hst1 Hst2].
  split; [done|]. split; [done|]. split; [by apply resources_control|]. split.
  - split; [by rewrite Hnil|]. split; [done|]. exists [].
    change (told tr = (if is_state st' UP then [EVENT_UP] else []) ++ [] /\ if reported o then [] = [EVENT_ERROR] \/ ([] = [EVENT_ERROR_CLOSED] /\ st' = UP) else [] = ([] : list socks_event)).
    rewrite r_told0, r_reported0. unfold is_state. by rewrite bool_decide_false.
  - intros _ _. right. right. right.
    exists st0, k, off, total, size, b, (Op (block o, off) total), (rcvd tr).
    split; [exact Haw|]. split; [exact Hst2|]. split; [exact Hb|]. split; [exact Hz|]. split; [exact Hr|].
    split; [exact r_sender0|]. split; [done|]. split; [done|]. split; [change (0 <= 0 < total); lia|].
    split; [change ((block o, off) = padd (block o, off) 0 /\ total = total - 0); rewrite padd_0; split; [done|lia]|]. split; [|exact Hk].
    change (rcvd tr = rcvd tr ++ slice off 0 b). unfold slice. by rewrite app_nil_r.
Qed.

(** ** The completion of a message *)

Lemma wp_sent h st st' k off total size tr o (Q : unit -> BSocksClient -> list event -> Prop) :
  ready tr o -> buffer o <> None -> state o = st -> awaits auth d st st' k off total size -> st <> UP ->
  (forall r, dialogue (rcvd tr ++ r) = k (sent tr) r) ->
  (forall o' t, inv (tr ++ t) o' -> Q tt o' t) ->
  wp (send_handler_done h) Q o.
Proof.
  intros R Hb Hst Haw Hup Hk HQ. unfold send_handler_done.
  destruct (buffer o) as [b0|] eqn:Hb0; [|done]. mstep. mstep. mstep. eapply wp_must; [exact Hb0|].
  assert (Hrecv : forall s st2 k2 off2 total2 size2, bsize_rep s size2 -> awaits auth d st st2 k2 off2 total2 size2 ->
    off2 = 0 -> size2 <= 22 -> (forall r, dialogue (rcvd tr ++ r) = k2 (sent tr) r) ->
    wp (ok ← reserve_buffer h s;
        if negb ok then report_error EVENT_ERROR
        else p ← buffer_ptr 0; start_receive p total2;; state ::= st2) Q o).
  { intros s st2 k2 off2 total2 size2 Hs Haw2 -> Hsz Hk2.
    destruct (awaits_size _ _ _ _ _ _ _ _ Haw2) as (_ & Htot & Hle).
    mstep. eapply wp_reserve; [exact Hs|unfold INT_MAX; lia| |].
    - cbn [negb]. destruct (ready_base tr o R) as [Hr Hh].
      { rewrite Hst. by destruct Haw. }
      { specialize (Hk []). rewrite app_nil_r in Hk. rewrite Hk.
        erewrite awaits_short; [|exact Haw|]; [done|]. by destruct (awaits_size _ _ _ _ _ _ _ _ Haw) as (_ & ? & _). }
      eapply wp_report; [apply R..|exact Hr|exact Hh|apply R|by left|]. intros o' Ho'. by apply HQ.
    - intros b Hbl. cbn [negb]. set (o1 := _ <| block := _ |>).
      assert (R1 : ready tr o1) by by apply ready_block, ready_buffer.
      assert (Hb1 : buffer o1 = Some b) by done. clearbody o1. unfold buffer_ptr. do 5 mstep.
      eapply wp_start_receive; [apply R1|apply R1|done|]. intros r Hr. mstep. apply HQ. rewrite app_nil_r.
      eapply inv_receiving; [exact R1|exact Hb1|exact Hbl|exact Haw2|exact Hr|exact Hk2]. }
  rewrite Hst. destruct Haw; try done.
  - eapply (Hrecv _ _ _ 0 2 2); [by apply bsize_fromsize_rep|constructor|done|lia|exact Hk].
  - eapply (Hrecv _ _ _ 0 2 2); [by apply bsize_fromsize_rep|constructor|done|lia|exact Hk].
  - eapply (Hrecv _ _ _ 0 4 22); [|constructor|done|lia|exact Hk].
    apply (bsize_add_rep _ _ 4 18); [by apply bsize_fromsize_rep|].
    apply (bsize_max_rep _ _ 6 18); by apply bsize_fromsize_rep.
Qed.

(** ** The answers of the server *)

Lemma awaits_prefix st st' k off total size said rcv :
  awaits auth d st st' k off total size -> said `prefix_of` (k said rcv).1.
Proof.
  assert (Hreq : forall said rcv, said `prefix_of` (at_request said rcv).1).
  { intros s r. unfold at_request, at_reply. repeat case_match; done. }
  assert (Hpw : forall said rcv, said `prefix_of` (at_password d said rcv).1).
  { intros s r. unfold at_password. repeat case_match; try done; (etrans; [|apply Hreq]); by apply prefix_app_r. }
  assert (Hhello : forall said rcv, said `prefix_of` (at_hello auth d said rcv).1).
  { intros s r. unfold at_hello. repeat case_match; try done; (etrans; [|first [apply Hreq|apply Hpw]]); by apply prefix_app_r. }
  destruct 1; auto.
Qed.

Lemma find_auth_known l m ai : forallb known_auth l = true -> find_auth l m = Some ai ->
  auth_type ai = m /\ known_auth ai = true.
Proof.
  induction l as [|x l IH]; [done|]. cbn. intros [Hx Hl]%andb_true_iff.
  destruct (auth_type x =? m) eqn:E; [|by apply IH]. intros [= <-]. b2p. done.
Qed.

Lemma two_bytes (b : bytes) : zlen b = 2 -> exists x y, b = [x; y].
Proof. destruct b as [|x [|y [|z b]]]; rewrite ?zlen_cons, ?zlen_nil; try lia; eauto. pose proof (zlen_nonneg b). lia. Qed.

Lemma wp_read_buffer off n b o (Q : bytes -> BSocksClient -> list event -> Prop) :
  buffer o = Some b -> 0 <= off -> 0 <= n -> off + n <= zlen b -> Q (slice off n b) o [] ->
  wp (read_buffer off n) Q o.
Proof.
  intros Hb Ho Hn Hl HQ. unfold read_buffer. do 3 mstep. eapply wp_must; [exact Hb|].
  eapply wp_must; [by apply mem_read_Some|]. exact HQ.
Qed.

(** Writing pieces one after the other. *)
Lemma wp_write_next data b w o (Q : unit -> BSocksClient -> list event -> Prop) off :
  buffer o = Some b -> off = zlen w -> slice 0 off b = w -> off + zlen data <= zlen b ->
  (forall b', zlen b' = zlen b -> slice 0 (off + zlen data) b' = w ++ data -> Q tt (o <| buffer := Some b' |>) []) ->
  wp (write_buffer off data) Q o.
Proof.
  intros Hb Ho Hs Hl HQ. pose proof (zlen_nonneg w). pose proof (zlen_nonneg data).
  eapply wp_write_buffer; [exact Hb|lia|lia|]. apply HQ; [apply zlen_splice; lia|]. by apply splice_extend.
Qed.

Lemma good_length s : bad_length s = false -> 0 < zlen s <= 255.
Proof. unfold bad_length. intros [H1 H2]%orb_false_iff. pose proof (zlen_nonneg s). b2p. lia. Qed.

Lemma wp_password_message ai h tr o (Q : bool -> BSocksClient -> list event -> Prop) :
  ready tr o -> bad_length (username ai) = false -> bad_length (password ai) = false ->
  (forall r, dialogue (rcvd tr ++ r) = at_password d (sent tr ++ password_message ai) r) ->
  (forall o' t, inv (tr ++ t) o' -> Q true o' t) -> Q false o [] ->
  wp (ok ← reserve_buffer h (bsize_fromsize (1 + 1 + zlen (username ai) + 1 + zlen (password ai)));
      if negb ok then mret false
      else
        write_buffer 0 [1];;
        write_buffer 1 [u8 (zlen (username ai))];;
        write_buffer 2 (username ai);;
        write_buffer (2 + zlen (username ai)) [u8 (zlen (password ai))];;
        write_buffer (3 + zlen (username ai)) (password ai);;
        p ← buffer_ptr 0;
        Sender_Send p (1 + 1 + zlen (username ai) + 1 + zlen (password ai));;
        state ::= SENDING_PASSWORD;;
        mret true) Q o.
Proof.
  intros R Hu%good_length Hp%good_length Hk HT HF.
  assert (Hsz : bsize_rep (bsize_fromsize (1 + 1 + zlen (username ai) + 1 + zlen (password ai)))
                  (1 + 1 + zlen (username ai) + 1 + zlen (password ai)))
    by (apply bsize_fromsize_rep; unfold SIZE_MAX; lia).
  unfold u8. rewrite !Z.mod_small by lia.
  mstep. eapply wp_reserve; [exact Hsz|unfold INT_MAX; lia|by apply wp_ret|]. intros b Hb. cbn [negb].
  set (o1 := _ <| block := _ |>). assert (R1 : ready tr o1) by by apply ready_block, ready_buffer.
  assert (Hb1 : buffer o1 = Some b) by done. clearbody o1.
  assert (One : forall x : Z, zlen [x] = 1) by done.
  mstep. eapply (wp_write_next _ b []); [done|done|done|rewrite One; lia|]. intros b1 Hb1' S1.
  mstep. eapply (wp_write_next _ b1 [1]); [done|done|exact S1|rewrite One; lia|]. intros b2 Hb2 S2.
  mstep. eapply (wp_write_next _ b2 ([1] ++ [zlen (username ai)])); [done|done|exact S2|lia|]. intros b3 Hb3 S3.
  mstep. eapply (wp_write_next _ b3 (([1] ++ [zlen (username ai)]) ++ username ai));
    [done|rewrite !zlen_app, !One; lia|exact S3|rewrite One; lia|]. intros b4 Hb4 S4.
  mstep. eapply (wp_write_next _ b4 ((([1] ++ [zlen (username ai)]) ++ username ai) ++ [zlen (password ai)]));
    [done|rewrite !zlen_app, !One; lia| |lia|].
  { rewrite One in S4. replace (3 + zlen (username ai)) with (2 + zlen (username ai) + 1) by lia. exact S4. }
  intros b5 Hb5 S5.
  assert (Hmsg : b5 = password_message ai).
  { rewrite <- (slice_all b5). replace (zlen b5) with (3 + zlen (username ai) + zlen (password ai)) by lia.
    rewrite S5. unfold password_message. cbn [app]. by rewrite <- app_assoc. }
  assert (Hml : zlen (password_message ai) = 1 + 1 + zlen (username ai) + 1 + zlen (password ai)) by (rewrite <- Hmsg; lia).
  unfold buffer_ptr. do 5 mstep. rewrite <- Hml.
  eapply wp_Sender_Send; [apply R1|apply R1|unfold INT_MAX; lia|]. intros s' Hs'. mgo. apply HT. rewrite app_nil_r.
  eapply (inv_sending _ _ _ _ _ _ _ _ (password_message ai));
    [by do 5 apply ready_buffer|by rewrite <- Hmsg|unfold INT_MAX; lia|constructor|done|exact Hs'|exact Hk].
Qed.

Lemma wp_received_hello h b tr o (Q : bool -> BSocksClient -> list event -> Prop) :
  ready tr o -> state o <> CONNECTING -> buffer o = Some b -> zlen b = 2 ->
  (forall r, dialogue (rcvd tr ++ r) = at_hello auth d (sent tr) (b ++ r)) ->
  (forall o' t, inv (tr ++ t) o' -> Q true o' t) -> Q false o [] ->
  wp (received_hello h) Q o.
Proof.
  intros R Hst Hb Hl Hk HT HF. destruct (two_bytes b Hl) as (v & m & ->). unfold received_hello.
  do 3 mstep. eapply wp_read_buffer; [exact Hb|done|done|by rewrite Hl|]. change (slice 0 SERVER_HELLO [v; m]) with [v; m].
  mstep. eapply wp_must; [done|]. mstep. eapply wp_must; [done|]. unfold ntoh8, hton8.
  cbn [app at_hello] in Hk. destruct (v =? SOCKS_VERSION); cbn [negb] in *; [|by apply wp_ret].
  rewrite (r_auth tr o R). destruct (find_auth auth m) as [ai|] eqn:Hf; [|by apply wp_ret].
  destruct (find_auth_known _ _ _ Hauth Hf) as [_ Hai].
  destruct (auth_type ai =? SOCKS_METHOD_NO_AUTHENTICATION_REQUIRED) eqn:E0.
  - mstep. eapply wp_auth_finished; [exact R|exact Hst|exact Hk|]. intros o' t Ho'. mgo. apply HT. by rewrite app_nil_r.
  - unfold known_auth in Hai. rewrite E0 in Hai. cbn [orb] in Hai. rewrite Hai.
    destruct (bad_length (username ai)) eqn:Eu; cbn [orb] in *; [by apply wp_ret|].
    destruct (bad_length (password ai)) eqn:Ep; cbn [orb] in *; [by apply wp_ret|].
    eapply (wp_password_message ai h tr o); done.
Qed.

Lemma wp_received_password_reply h b tr o (Q : bool -> BSocksClient -> list event -> Prop) :
  ready tr o -> state o <> CONNECTING -> buffer o = Some b -> zlen b = 2 ->
  (forall r, dialogue (rcvd tr ++ r) = at_password d (sent tr) (b ++ r)) ->
  (forall o' t, inv (tr ++ t) o' -> Q true o' t) -> Q false o [] ->
  wp (received_password_reply h) Q o.
Proof.
  intros R Hst Hb Hl Hk HT HF. destruct (two_bytes b Hl) as (v & m & ->). unfold received_password_reply.
  mstep. eapply wp_read_buffer; [exact Hb|done|done|rewrite Hl; lia|]. change (slice 0 1 [v; m]) with [v].
  cbn [app at_password] in Hk. case_bool_decide as E1; cbn [negb]; [|by apply wp_ret]. injection E1 as ->.
  mstep. eapply wp_read_buffer; [exact Hb|done|done|rewrite Hl; lia|]. change (slice 1 1 [1; m]) with [m].
  case_bool_decide as E2; cbn [negb]; [|by apply wp_ret]. injection E2 as ->.
  mstep. eapply wp_auth_finished; [exact R|exact Hst|exact Hk|]. intros o' t Ho'. mgo. apply HT. by rewrite app_nil_r.
Qed.

Lemma wp_received_reply_header b tr o (Q : bool -> BSocksClient -> list event -> Prop) :
  ready tr o -> buffer o = Some b -> zlen b = 22 ->
  (forall r, dialogue (rcvd tr ++ r) = at_request (sent tr) (slice 0 4 b ++ r)) ->
  (forall o', inv tr o' -> Q true o' []) -> Q false o [] ->
  wp received_reply_header Q o.
Proof.
  intros R Hb Hl Hk HT HF. unfold received_reply_header.
  mstep. eapply wp_read_buffer; [exact Hb|done|done|rewrite Hl; unfold REPLY_HEADER; lia|].
  destruct b as [|v [|rep [|rsv [|atyp b]]]]; try (exfalso; vm_compute in Hl; discriminate Hl).
  change (slice 0 REPLY_HEADER _) with [v; rep; rsv; atyp]. change (slice 0 4 _) with [v; rep; rsv; atyp] in Hk.
  mstep. eapply wp_must; [done|]. mstep. eapply wp_must; [done|]. mstep. eapply wp_must; [done|].
  unfold ntoh8, hton8. cbn [app at_request] in Hk.
  destruct (v =? SOCKS_VERSION); cbn [negb orb] in *; [|by apply wp_ret].
  destruct (rep =? SOCKS_REP_SUCCEEDED); cbn [negb] in *; [|by apply wp_ret].
  assert (Hgo : forall need, need = ADDR_IPV4 \/ need = ADDR_IPV6 ->
    (forall r, dialogue (rcvd tr ++ r) = at_reply need (sent tr) r) ->
    wp (p ← buffer_ptr REPLY_HEADER; start_receive p need;; state ::= RECEIVED_REPLY_HEADER;; mret true) Q o).
  { intros need Hn Hk'. unfold buffer_ptr. do 5 mstep.
    eapply wp_start_receive; [apply R|apply R|unfold ADDR_IPV4, ADDR_IPV6 in *; lia|]. intros r Hr. do 3 mstep.
    apply HT. eapply inv_receiving; [exact R|exact Hb|exact Hl|constructor; exact Hn|exact Hr|exact Hk']. }
  destruct (atyp =? SOCKS_ATYP_IPV4); [apply Hgo; auto|].
  destruct (atyp =? SOCKS_ATYP_IPV6); [apply Hgo; auto|by apply wp_ret].
Qed.

Lemma wp_received_reply tr o (Q : unit -> BSocksClient -> list event -> Prop) :
  ready tr o -> dialogue (rcvd tr) = (sent tr, Accepted) ->
  (forall o', inv (tr ++ [Handler EVENT_UP]) o' -> Q tt o' [Handler EVENT_UP]) ->
  wp received_reply Q o.
Proof.
  intros R Hk HQ. destruct R. unfold received_reply, free_control_io, init_up_io.
  do 7 mstep; [done|]. mstep. do 5 mstep; [change (negb (false || up_io o) = true); by rewrite r_up0|]. mgo. apply HQ.
  set (o' := _ <| state := UP |>).
  split; [done|]. split; [done|]. split; [|split].
  - unfold resources. change (connector o') with (connector o). by rewrite r_connector0.
  - split_and!; rewrite ?sent_app, ?rcvd_app, ?app_nil_r; [by rewrite Hk|done|].
    exists []. rewrite told_app, r_told0. split; [done|]. change (reported o') with (reported o). by rewrite r_reported0.
  - intros _ _. right. by left.
Qed.

(** ** Transfers in progress *)

Record core (tr : list event) (o : BSocksClient) : Prop := {
  k_auth : auth_info o = auth;
  k_dest : dest_addr o = d;
  k_connector : connector o = true;
  k_con : con o = true;
  k_control : control_io o = true;
  k_up : up_io o = false;
  k_reported : reported o = false;
  k_told : told tr = [];
  k_state1 : state o <> UP;
  k_state2 : state o <> CONNECTING
}.

Lemma core_inv tr o : core tr o -> sending tr o \/ receiving tr o -> inv tr o.
Proof.
  intros [] Hs. split; [done|]. split; [done|]. split; [by apply resources_control|]. split.
  - split_and!; [|done|].
    + destruct Hs as [H|H].
      * destruct H as (st' & k & off & total & size & msg & pr & said & Haw & _ & _ & _ & _ & _ & _ & Hsaid & Hk).
        specialize (Hk []). rewrite app_nil_r in Hk. rewrite Hk.
        etrans; [|eapply awaits_prefix; exact Haw]. rewrite <- Hsaid. by apply prefix_app_r.
      * destruct H as (st0 & k & off & total & size & b & ph & rcv0 & Haw & _ & _ & _ & _ & _ & _ & _ & _ & _ & Hr & Hk).
        rewrite Hr, Hk. eapply awaits_prefix. exact Haw.
    + exists []. rewrite k_told0, k_reported0. unfold is_state. by rewrite bool_decide_false.
  - intros _ _. right. right. exact Hs.
Qed.

Lemma inv_core tr o : inv tr o -> connector o = true -> reported o = false -> control_io o = true ->
  core tr o /\ (sending tr o \/ receiving tr o).
Proof.
  intros (Ha & Hd & Hr & Hh & Hst) Hc Hrep Hctl. specialize (Hst Hc Hrep).
  assert (Hs : state o <> CONNECTING /\ state o <> UP /\ con o = true /\ up_io o = false).
  { unfold resources in Hr. rewrite Hc in Hr. destruct (state o), Hr as (? & ? & ?); split_and!; congruence. }
  destruct Hs as (H1 & H2 & H3 & H4). split; [|by destruct Hst as [[? _]|[?|?]]].
  destruct Hh as (_ & _ & errs & Ht & He). rewrite Hrep in He. subst.
  unfold is_state in Ht. rewrite bool_decide_false in Ht by done. by split.
Qed.

Lemma sending_ready tr o : core tr o -> sr_is Idle (recv_if o) -> pss_is INT_MAX SIdle (send_sender o) -> ready tr o.
Proof. by intros []. Qed.

Lemma pp_not mtu ph (i : PacketPassInterface ptr) s : pp_is mtu ph i -> phase_state ph <> s -> st_eq (pp_state i) s = false.
Proof. intros (_ & _ & -> & _) H. unfold st_eq. by rewrite bool_decide_false. Qed.

(** The stage that an enabled transfer belongs to. *)
Lemma idle_sender mtu s : pss_is mtu SIdle s ->
  pp_state (input s) = NONE /\ sp_state (output s) = NONE.
Proof. intros ((_ & _ & H1 & _) & (_ & H2 & _) & _). done. Qed.
Lemma receiving_sender tr o : receiving tr o ->
  pp_state (input (send_sender o)) = NONE /\ sp_state (output (send_sender o)) = NONE.
Proof. intros (? & ? & ? & ? & ? & ? & ? & ? & _ & _ & _ & _ & _ & Hs & _). by eapply idle_sender. Qed.
Lemma sending_recv tr o : sending tr o -> sr_state (recv_if o) = NONE.
Proof. intros (? & ? & ? & ? & ? & ? & ? & ? & _ & _ & _ & _ & (_ & H & _) & _). done. Qed.

(** The message in transfer after a step of the sender. *)
Lemma sending_next tr t o s' st' k off total size msg pr pr' :
  core tr o -> told t = [] -> rcvd t = [] ->
  awaits auth d (state o) st' k off total size ->
  buffer o = Some msg -> 0 < zlen msg <= INT_MAX -> sr_is Idle (recv_if o) ->
  (forall r, dialogue (rcvd tr ++ r) = k (sent tr ++ drop (Z.to_nat (taken pr)) msg) r) ->
  pss_is INT_MAX pr' s' -> carries pr' (block o, 0) (zlen msg) ->
  sent t ++ drop (Z.to_nat (taken pr')) msg = drop (Z.to_nat (taken pr)) msg ->
  inv (tr ++ t) (o <| send_sender := s' |>).
Proof.
  intros K Ht Hr Haw Hb Hm Hri Hk Hs' Hc' Hd'.
  apply core_inv; [destruct K; split; try done; rewrite told_app, Ht, app_nil_r; done|].
  left. exists st', k, off, total, size, msg, pr', (sent tr ++ drop (Z.to_nat (taken pr)) msg).
  split; [exact Haw|]. split; [apply K|]. split; [exact Hb|]. split; [exact Hm|]. split; [exact Hri|].
  split; [exact Hs'|]. split; [exact Hc'|]. rewrite sent_app, rcvd_app, Hr, app_nil_r.
  split; [|exact Hk]. by rewrite <- app_assoc, Hd'.
Qed.

Lemma wp_step_sender (m : Prelude.M PacketStreamSender event unit) tr o :
  core tr o -> sending tr o ->
  (forall pr n, pss_is INT_MAX pr (send_sender o) -> carries pr (block o, 0) n -> 0 < n ->
     wp m (fun _ s' t => t = [] /\ exists pr', pss_is INT_MAX pr' s' /\ carries pr' (block o, 0) n /\
       taken pr' = taken pr) (send_sender o)) ->
  wp (zoom send_sender m) (fun _ o' t => inv (tr ++ t) o') o.
Proof.
  intros K (st' & k & off & total & size & msg & pr0 & said & Haw & Hup & Hb & Hm & Hri & Hs & Hc & <- & Hk) Hstep.
  mstep. eapply wp_mono; [apply (Hstep pr0 (zlen msg)); [done|done|lia]|].
  intros [] s' t (-> & pr' & Hs' & Hc' & Ht).
  eapply sending_next; try done. by rewrite Ht.
Qed.

Ltac sender_phase Hs Hen :=
  first [ pose proof (pp_phase _ _ _ _ (proj1 Hs) Hen) | pose proof (sp_phase _ _ _ (proj1 (proj2 Hs)) Hen) ].

Lemma step_SendStarts tr o : core tr o -> sending tr o ->
  st_eq (pp_state (input (send_sender o))) OPERATION_PENDING = true ->
  wp (zoom send_sender job_send) (fun _ o' t => inv (tr ++ t) o') o.
Proof.
  intros K S Hen. apply wp_step_sender; [done|done|]. intros pr n Hs Hc Hn.
  destruct pr as [|p m|p m u ph|p m]; [done| | |].
  - destruct Hc as [-> ->]. eapply wp_job_send; [exact Hs|done|]. intros s' d' -> Hs'. split; [done|].
    eexists. split; [exact Hs'|done].
  - pose proof (pp_phase _ _ _ _ (proj1 Hs) Hen). done.
  - pose proof (pp_phase _ _ _ _ (proj1 Hs) Hen). done.
Qed.

Lemma step_StreamStarts tr o : core tr o -> sending tr o ->
  st_eq (sp_state (output (send_sender o))) OPERATION_PENDING = true ->
  wp (zoom send_sender job_output_start) (fun _ o' t => inv (tr ++ t) o') o.
Proof.
  intros K S Hen. apply wp_step_sender; [done|done|]. intros pr n Hs Hc Hn.
  destruct pr as [|p m|p m u ph|p m]; [done| | |].
  - pose proof (sp_phase _ _ _ (proj1 (proj2 Hs)) Hen). done.
  - pose proof (sp_phase _ _ _ (proj1 (proj2 Hs)) Hen). destruct ph as [|d' n'| |]; try done.
    eapply wp_job_output_start; [exact Hs|]. intros s' Hs'. split; [done|]. eexists. split; [exact Hs'|done].
  - pose proof (sp_phase _ _ _ (proj1 (proj2 Hs)) Hen). done.
Qed.

Lemma step_StreamDone tr o : core tr o -> sending tr o ->
  st_eq (sp_state (output (send_sender o))) DONE_PENDING = true ->
  wp (zoom send_sender job_output_done) (fun _ o' t => inv (tr ++ t) o') o.
Proof.
  intros K S Hen. apply wp_step_sender; [done|done|]. intros pr n Hs Hc Hn.
  destruct pr as [|p m|p m u ph|p m]; [done| | |].
  - pose proof (sp_phase _ _ _ (proj1 (proj2 Hs)) Hen). done.
  - pose proof (sp_phase _ _ _ (proj1 (proj2 Hs)) Hen). destruct ph as [| | |d' n' k]; try done.
    eapply wp_job_output_done; [exact Hs| |].
    + intros Hu s' Hs'. split; [done|]. eexists. split; [exact Hs'|done].
    + intros Hu s' Hs'. split; [done|]. eexists. split; [exact Hs'|]. split; [done|]. cbn. congruence.
  - pose proof (sp_phase _ _ _ (proj1 (proj2 Hs)) Hen). done.
Qed.

Lemma step_StreamTakes k tr o : core tr o -> sending tr o ->
  st_eq (sp_state (output (send_sender o))) BUSY = true ->
  0 < k -> k <= sp_job_operation_len (output (send_sender o)) ->
  wp (exec_action (StreamTakes k)) (fun _ o' t => inv (tr ++ t) o') o.
Proof.
  intros K (st' & kk & off & total & size & msg & pr & said & Haw & Hup & Hb & Hm & Hri & Hs & Hc & <- & Hk) Hen Hk0 Hkl.
  destruct pr as [|p m|p m u ph|p m]; [done| | |].
  - pose proof (sp_phase _ _ _ (proj1 (proj2 Hs)) Hen). done.
  - pose proof (sp_phase _ _ _ (proj1 (proj2 Hs)) Hen). destruct ph as [| |d' n'|]; try done.
    destruct Hs as (Hpp & Hsp & Hil & Hid & Hiu & Hur & -> & ->). destruct Hc as [-> ->].
    destruct (sp_is_data _ _ _ Hsp) as (Hdata & Hlen & _). rewrite Hlen in Hkl.
    cbn [exec_action]. do 3 mstep. eapply wp_must; [exact Hdata|]. mstep.
    eapply wp_must; [unfold at_ptr, padd; cbn [fst]; rewrite Z.eqb_refl; exact Hb|].
    mstep. unfold padd; cbn [fst snd]. rewrite Z.add_0_l. eapply wp_must; [apply mem_read_Some; lia|].
    do 3 mstep. eapply (wp_output_finish INT_MAX (block o, 0) (zlen msg) u _ (zlen msg - u));
      [exact (conj Hpp (conj Hsp (conj Hil (conj Hid (conj Hiu (conj Hur (conj eq_refl eq_refl)))))))|lia|].
    intros s' Hs'. cbn [app].
    eapply sending_next; [exact K|done|done|exact Haw|exact Hb|exact Hm|exact Hri|exact Hk|exact Hs'|done|].
    unfold sent. cbn [omap concat taken]. cbn. rewrite app_nil_r.
    unfold slice. rewrite <- (take_drop (Z.to_nat k) (drop (Z.to_nat u) msg)) at 2. f_equal.
    rewrite drop_drop. f_equal. lia.
  - pose proof (sp_phase _ _ _ (proj1 (proj2 Hs)) Hen). done.
Qed.

Lemma step_SendDone h tr o : core tr o -> sending tr o ->
  st_eq (pp_state (input (send_sender o))) DONE_PENDING = true ->
  wp (exec_action (SendDone h)) (fun _ o' t => inv (tr ++ t) o') o.
Proof.
  intros K (st' & kk & off & total & size & msg & pr & said & Haw & Hup & Hb & Hm & Hri & Hs & Hc & <- & Hk) Hen.
  destruct pr as [|p m|p m u ph|p m]; [done| | |].
  1, 2: pose proof (pp_phase _ _ _ _ (proj1 Hs) Hen); done.
  destruct Hc as [-> ->]. cbn [exec_action]. do 2 mstep. eapply wp_job_done; [exact Hs|]. intros i Hi.
  cbn [taken] in Hk. rewrite drop_ge in Hk by (unfold zlen; lia). rewrite app_nil_r in Hk.
  eapply wp_sent; [| |done|exact Haw|exact Hup|exact Hk|].
  - apply sending_ready; [by destruct K|exact Hri|exact Hi].
  - change (buffer o <> None). by rewrite Hb.
  - intros o' t Ho'. exact Ho'.
Qed.

Lemma core_recv tr o r : core tr o -> core tr (o <| recv_if := r |>).
Proof. by intros []. Qed.

Lemma step_RecvStarts tr o : core tr o -> receiving tr o ->
  st_eq (sr_state (recv_if o)) OPERATION_PENDING = true ->
  wp (exec_action RecvStarts) (fun _ o' t => inv (tr ++ t) o') o.
Proof.
  intros K (st0 & k & off & total & size & b & ph & rcv0 & Haw & Hup & Hb & Hz & Hri & Hs & Hrd & Hrt & Hrl & Hph & Hr & Hk) Hen.
  pose proof (sr_phase _ _ _ Hri Hen). destruct ph as [|p n| |]; try done.
  cbn [exec_action]. do 2 mstep. eapply wp_sr_job_op; [exact Hri|]. intros r' Hr'. mstep. rewrite !app_nil_r.
  apply core_inv; [by apply core_recv|]. right.
  exists st0, k, off, total, size, b, (Busy p n), rcv0. by repeat (split; [done|]).
Qed.

Lemma step_RecvGives data tr o : core tr o -> receiving tr o ->
  st_eq (sr_state (recv_if o)) BUSY = true -> 0 < zlen data -> zlen data <= sr_job_operation_len (recv_if o) ->
  wp (exec_action (RecvGives data)) (fun _ o' t => inv (tr ++ t) o') o.
Proof.
  intros K (st0 & k & off & total & size & b & ph & rcv0 & Haw & Hup & Hb & Hz & Hri & Hs & Hrd & Hrt & Hrl & Hph & Hr & Hk) Hen Hd0 Hdl.
  pose proof (sr_phase _ _ _ Hri Hen). destruct ph as [| |p n|]; try done. destruct Hph as [-> ->].
  destruct (awaits_size _ _ _ _ _ _ _ _ Haw) as (Ho0 & Ht0 & Hsz).
  destruct (sr_is_data _ _ _ Hri) as (Hdata & Hlen & _). rewrite Hlen in Hdl. rewrite Hrd in Hdata.
  cbn [exec_action]. do 3 mstep. eapply wp_must; [exact Hdata|]. mstep.
  eapply wp_must; [unfold at_ptr, padd; cbn [fst]; rewrite Z.eqb_refl; exact Hb|].
  mstep. unfold padd; cbn [fst snd]. eapply wp_must; [apply mem_write_Some; lia|].
  do 3 mstep. eapply wp_sr_done; [exact Hri|lia|]. intros r' Hr'. cbn [app]. rewrite app_nil_r.
  apply core_inv; [by destruct K|]. right.
  exists st0, k, off, total, size, (splice (off + recv_len o) data b), (Done (padd (recv_dest o) (recv_len o)) (total - recv_len o) (zlen data)), rcv0.
  split; [exact Haw|]. split; [exact Hup|]. split; [done|]. split; [rewrite zlen_splice; lia|].
  split; [exact Hr'|]. split; [exact Hs|]. split; [exact Hrd|]. split; [exact Hrt|]. split; [exact Hrl|].
  split; [done|]. split; [|exact Hk].
  change (rcvd tr = rcv0 ++ slice off (recv_len o) (splice (off + recv_len o) data b)).
  rewrite slice_splice_before by lia. exact Hr.
Qed.

(** More is needed: the next part is received behind what there is. *)
Lemma wp_receive_more tr1 o st0 k off total size b rcv0 (Q : unit -> BSocksClient -> list event -> Prop) :
  core tr1 o -> awaits auth d st0 (state o) k off total size -> buffer o = Some b -> zlen b = size ->
  pss_is INT_MAX SIdle (send_sender o) -> sr_is Idle (recv_if o) ->
  recv_dest o = (block o, off) -> recv_total o = total -> 0 <= recv_len o < total ->
  rcvd tr1 = rcv0 ++ slice off (recv_len o) b -> (forall r, dialogue (rcv0 ++ r) = k (sent tr1) r) ->
  (forall o', inv tr1 o' -> Q tt o' []) ->
  wp do_receive Q o.
Proof.
  intros K Haw Hb Hz Hs Hri Hrd Hrt Hrl Hr Hk HQ. unfold do_receive.
  do 4 mstep; [b2p; lia|]. do 2 mstep; [apply K|]. mstep.
  eapply wp_sr_recv; [exact Hri|lia|]. intros r' Hr'. apply HQ.
  apply core_inv; [by apply core_recv|]. right.
  exists st0, k, off, total, size, b, (Op (padd (recv_dest o) (recv_len o)) (recv_total o - recv_len o)), rcv0.
  split; [done|]. split; [apply K|]. do 7 (split; [done|]). split; [|by split]. split; [done|]. change (recv_total o - recv_len o = total - recv_len o). by rewrite Hrt.
Qed.

(** The last octet of a part arrived: what the rest of [recv_handler_done] does
    keeps the invariant. *)
Lemma wp_part_received h tr1 o st0 st1 k off total size b (Q : unit -> BSocksClient -> list event -> Prop) :
  state o <> CONNECTING -> awaits auth d st0 st1 k off total size -> state o = st1 -> ready tr1 o ->
  buffer o = Some b -> zlen b = size ->
  (forall r, dialogue (rcvd tr1 ++ r) = k (sent tr1) (slice off total b ++ r)) ->
  (forall o' t, inv (tr1 ++ t) o' -> Q tt o' t) ->
  wp (ok ← (match st1 with
            | SENT_HELLO => received_hello h
            | SENT_REQUEST => received_reply_header
            | SENT_PASSWORD => received_password_reply h
            | RECEIVED_REPLY_HEADER => received_reply;; mret true
            | _ => ub
            end);
      if negb ok then report_error EVENT_ERROR else mret tt) Q o.
Proof.
  intros Hs2 Haw Est R Hb Hz Hk' HQ. destruct (awaits_size _ _ _ _ _ _ _ _ Haw) as (Ho0 & Ht0 & Hsz).
  assert (Hfail : wp (if negb false then report_error EVENT_ERROR else mret tt) Q o).
  { destruct (ready_base tr1 o R Hs2) as [Hres Hh].
    { specialize (Hk' []). rewrite app_nil_r in Hk'. rewrite Hk'. eapply awaits_prefix. exact Haw. }
    cbn [negb]. eapply wp_report; [apply R|apply R|exact Hres|exact Hh|apply R|by left|]. intros o' Ho'. by apply HQ. }
  assert (Htrue : forall o' t, inv (tr1 ++ t) o' ->
    wp (if negb true then report_error EVENT_ERROR else mret tt) (fun _ o'' t' => Q tt o'' (t ++ t')) o').
  { intros o' t Ho'. cbn [negb]. apply wp_ret. rewrite app_nil_r. by apply HQ. }
  mstep. destruct Haw as [| | |need Hneed].
  - assert (Hsl : slice 0 2 b = b) by (rewrite <- Hz; apply slice_all). rewrite Hsl in Hk'.
    eapply (wp_received_hello h b tr1); [done..|exact Htrue|exact Hfail].
  - assert (Hsl : slice 0 2 b = b) by (rewrite <- Hz; apply slice_all). rewrite Hsl in Hk'.
    eapply (wp_received_password_reply h b tr1); [done..|exact Htrue|exact Hfail].
  - eapply (wp_received_reply_header b tr1); [done..| |exact Hfail].
    intros o' Ho'. apply (Htrue o' []). by rewrite app_nil_r.
  - mstep. eapply (wp_received_reply tr1); [exact R| |].
    + specialize (Hk' []). rewrite !app_nil_r in Hk'. rewrite Hk'. unfold at_reply.
      rewrite zlen_slice by lia. replace (need <? need) with false by lia. by rewrite Z.eqb_refl.
    + intros o' Ho'. mstep. apply (Htrue o' [Handler EVENT_UP] Ho').
Qed.

Lemma step_RecvDone h tr o : core tr o -> receiving tr o ->
  st_eq (sr_state (recv_if o)) DONE_PENDING = true ->
  wp (exec_action (RecvDone h)) (fun _ o' t => inv (tr ++ t) o') o.
Proof.
  intros K (st0 & k & off & total & size & b & ph & rcv0 & Haw & Hup & Hb & Hz & Hri & Hs & Hrd & Hrt & Hrl & Hph & Hr & Hk) Hen.
  pose proof (sr_phase _ _ _ Hri Hen). destruct ph as [| | |p n kk]; try done. destruct Hph as [-> ->].
  destruct (awaits_size _ _ _ _ _ _ _ _ Haw) as (Ho0 & Ht0 & Hsz).
  assert (Hdata : sr_job_operation_data (recv_if o) = Some (block o, off + recv_len o)).
  { destruct Hri as (_ & _ & _ & _ & Hd & _). by rewrite Hd, Hrd. }
  cbn [exec_action]. do 3 mstep. eapply wp_must; [exact Hdata|]. do 2 mstep.
  eapply wp_sr_job_done; [exact Hri|]. intros Hkk r' Hr'. set (o1 := o <| recv_if := r' |>).
  assert (K1 : core tr o1) by by apply core_recv.
  mstep. cbn [snd]. eapply (wp_read_buffer _ _ b); [exact Hb|lia|lia|lia|]. set (l := slice _ kk b).
  do 2 mstep. cbn [app].
  assert (K2 : core (tr ++ [Got l]) o1).
  { destruct K1; split; try done. by rewrite told_app, k_told0. }
  assert (Hl : rcvd (tr ++ [Got l]) = rcv0 ++ slice off (recv_len o + kk) b).
  { rewrite rcvd_app, Hr. unfold rcvd. cbn. rewrite app_nil_r, <- app_assoc. f_equal. symmetry. apply slice_split; lia. }
  assert (Hsent : sent (tr ++ [Got l]) = sent tr) by by rewrite sent_app, app_nil_r.
  assert (HQ : forall o' t, inv ((tr ++ [Got l]) ++ t) o' -> inv (tr ++ Got l :: t) o').
  { intros o' t. by rewrite <- app_assoc. }
  set (tr1 := tr ++ [Got l]) in *. clearbody l.
  unfold recv_handler_done. do 4 mstep; [b2p; lia|]. do 2 mstep; [change (recv_total o1) with (recv_total o); change (recv_len o1) with (recv_len o); b2p; lia|].
  do 2 mstep. change (recv_total o1) with (recv_total o). change (recv_len o1) with (recv_len o). change (state o1) with (state o).
  set (o2 := o1 <| recv_len := recv_len o + kk |>).
  assert (K3 : core tr1 o2) by by destruct K2.
  rewrite <- Hsent in Hk. destruct (recv_len o + kk <? recv_total o) eqn:El; b2p.
  - eapply (wp_receive_more tr1); [exact K3|exact Haw|exact Hb|exact Hz|exact Hs|exact Hr'|exact Hrd|exact Hrt| |exact Hl|exact Hk|].
    + change (0 <= recv_len o + kk < total). lia.
    + intros o' Ho'. apply HQ. by rewrite app_nil_r.
  - assert (Hfull : recv_len o + kk = total) by lia. rewrite Hfull in Hl.
    assert (Hk' : forall r, dialogue (rcvd tr1 ++ r) = k (sent tr1) (slice off total b ++ r)).
    { intros r. rewrite Hl, <- app_assoc. apply Hk. }
    assert (R : ready tr1 o2) by by apply sending_ready.
    eapply (wp_part_received h tr1 o2); [apply K3|exact Haw|done|exact R|exact Hb|exact Hz|exact Hk'|exact HQ].
Qed.

(** ** Every step *)

Ltac eval_states :=
  repeat match goal with
  | |- context [is_state ?a ?b] => let v := eval vm_compute in (is_state a b) in change (is_state a b) with v
  end.

Lemma wp_free tr o : inv tr o -> connector o = true ->
  wp BSocksClient_Free (fun _ o' t => inv (tr ++ t) o') o.
Proof.
  intros (Ha & Hd & Hr & (Hp & Hup & errs & Ht & He) & _) Hen.
  assert (Hfin : forall o', auth_info o' = auth -> dest_addr o' = d -> connector o' = false -> con o' = false ->
    control_io o' = false -> up_io o' = false -> buffer o' = None -> state o' = state o -> reported o' = reported o ->
    inv tr o').
  { intros o' H1 H2 H3 H4 H5 H6 H7 H8 H9. split; [done|]. split; [done|]. split; [unfold resources; by rewrite H3|].
    split; [|congruence]. split; [done|]. rewrite H8, H9. split; [done|]. by exists errs. }
  unfold resources in Hr. rewrite Hen in Hr.
  unfold BSocksClient_Free, free_up_io, free_control_io.
  do 2 mstep. destruct (state o) eqn:Est; eval_states; cbn [negb when]; destruct Hr as (H1 & H2 & H3); mgo;
    rewrite !app_nil_r; by apply Hfin.
Qed.

Lemma wp_connection_handler recvclosed tr o : inv tr o -> connector o = true -> reported o = false ->
  con o = true -> wp (connection_handler recvclosed) (fun _ o' t => inv (tr ++ t) o') o.
Proof.
  intros (Ha & Hd & Hr & Hh & _) Hconn Hrep Hcon.
  assert (Hst : is_state (state o) CONNECTING = false).
  { unfold is_state. apply bool_decide_false. intros Hst. unfold resources in Hr. rewrite Hst in Hr.
    destruct (connector o); destruct Hr; congruence. }
  unfold connection_handler. do 4 mstep; [by rewrite Hst|].
  destruct (is_state (state o) UP && recvclosed) eqn:Eu; (eapply wp_report; [done..| |]); auto.
  right. b2p. split; [done|]. unfold is_state in *. by b2p.
Qed.

Lemma socks_step tr o a : inv tr o -> action_enabled o a = true ->
  wp (exec_action a) (fun _ o' t => inv (tr ++ t) o') o.
Proof.
  intros I Hen.
  assert (Hcore : connector o && negb (reported o) && control_io o = true ->
    core tr o /\ (sending tr o \/ receiving tr o)) by (intros; b2p; by apply inv_core).
  assert (HcoreS : connector o && negb (reported o) && control_io o = true ->
    pp_state (input (send_sender o)) <> NONE \/ sp_state (output (send_sender o)) <> NONE ->
    core tr o /\ sending tr o).
  { intros Hc Hn. destruct (Hcore Hc) as [K [S|R]]; [done|]. destruct (receiving_sender _ _ R). by destruct Hn as [Hn|Hn]; destruct Hn. }
  assert (HcoreR : connector o && negb (reported o) && control_io o = true ->
    sr_state (recv_if o) <> NONE -> core tr o /\ receiving tr o).
  { intros Hc Hn. destruct (Hcore Hc) as [K [S|R]]; [|done]. by destruct (Hn (sending_recv _ _ S)). }
  destruct a; cbn [action_enabled] in Hen; cbv zeta in Hen.
  - b2p. cbn [exec_action]. by eapply wp_connector_handler.
  - b2p. cbn [exec_action]. by apply wp_connection_handler.
  - apply andb_true_iff in Hen as [Hc Hen]. destruct (HcoreS Hc) as [K S]; [left; unfold st_eq in Hen; b2p; congruence|].
    by apply step_SendStarts.
  - apply andb_true_iff in Hen as [Hc Hen]. destruct (HcoreS Hc) as [K S]; [right; unfold st_eq in Hen; b2p; congruence|].
    by apply step_StreamStarts.
  - apply andb_true_iff in Hen as [[[Hc Hen]%andb_true_iff Hk0]%andb_true_iff Hk1].
    destruct (HcoreS Hc) as [K S]; [right; unfold st_eq in Hen; b2p; congruence|]. b2p. by apply step_StreamTakes.
  - apply andb_true_iff in Hen as [Hc Hen]. destruct (HcoreS Hc) as [K S]; [right; unfold st_eq in Hen; b2p; congruence|].
    by apply step_StreamDone.
  - apply andb_true_iff in Hen as [Hc Hen]. destruct (HcoreS Hc) as [K S]; [left; unfold st_eq in Hen; b2p; congruence|].
    by apply step_SendDone.
  - apply andb_true_iff in Hen as [Hc Hen]. destruct (HcoreR Hc) as [K S]; [unfold st_eq in Hen; b2p; congruence|].
    by apply step_RecvStarts.
  - apply andb_true_iff in Hen as [[[Hc Hen]%andb_true_iff Hk0]%andb_true_iff Hk1].
    destruct (HcoreR Hc) as [K S]; [unfold st_eq in Hen; b2p; congruence|]. b2p. by apply step_RecvGives.
  - apply andb_true_iff in Hen as [Hc Hen]. destruct (HcoreR Hc) as [K S]; [unfold st_eq in Hen; b2p; congruence|].
    by apply step_RecvDone.
  - b2p. cbn [exec_action]. unfold BSocksClient_GetSendInterface, BSocksClient_GetRecvInterface.
    assert (Hup : up_io o = true).
    { destruct I as (_ & _ & Hr & _). unfold resources in Hr. unfold is_state in *. b2p.
      rewrite H, H0 in Hr. apply Hr. }
    mgo. rewrite !app_nil_r. exact I.
  - by apply wp_free.
Qed.

Lemma stage_verdict tr o : inv tr o -> connector o = true -> reported o = false -> state o <> UP ->
  (dialogue (rcvd tr)).2 = Waiting /\
  (con o = true -> pp_state (input (send_sender o)) <> NONE \/ sr_state (recv_if o) <> NONE).
Proof.
  intros (_ & _ & Hres & _ & Hst) Hc Hr Hup. destruct (Hst Hc Hr) as [(Hs & _ & Hrc)|[?|[S|R]]]; [|done| |].
  - rewrite Hrc. split; [done|]. unfold resources in Hres. rewrite Hc, Hs in Hres. intros. destruct Hres; congruence.
  - destruct S as (st' & k & off & total & size & msg & pr & said & Haw & _ & _ & _ & _ & Hs & Hcar & _ & Hk).
    split.
    + specialize (Hk []). rewrite app_nil_r in Hk. rewrite Hk.
      erewrite awaits_short; [done|exact Haw|]. by destruct (awaits_size _ _ _ _ _ _ _ _ Haw) as (_ & ? & _).
    + intros _. left. destruct pr; [done|..]; destruct Hs as ((_ & _ & -> & _) & _); done.
  - destruct R as (st0 & k & off & total & size & b & ph & rcv0 & Haw & _ & _ & Hz & Hri & _ & _ & _ & Hrl & Hph & Hr' & Hk).
    destruct (awaits_size _ _ _ _ _ _ _ _ Haw) as (Ho0 & _ & Hsz). split.
    + rewrite Hr', Hk. erewrite awaits_short; [done|exact Haw|]. rewrite zlen_slice; lia.
    + intros _. right. destruct Hri as (_ & -> & _). by destruct ph.
Qed.

Definition blank : BSocksClient :=
  mk_socks [] (IPv4 0 0) CONNECTING None 0 false false false false
    (mk_pss (PacketPassInterface_Init 0) StreamPassInterface_Init 0 (0, 0) 0) StreamRecvInterface_Init (0, 0) 0 0 false.

Lemma socks_init_inv o0 : BSocksClient_Init auth d true blank = Some (true, o0, []) -> inv [] o0.
Proof.
  assert (H : wp (BSocksClient_Init auth d true) (fun _ o _ => inv [] o) blank).
  { unfold BSocksClient_Init. mgo. split; [done|]. split; [done|]. split; [done|]. split.
    - split; [apply prefix_nil|]. split; [done|]. by exists [].
    - intros _ _. by left. }
  intros Hi. exact (wp_run _ _ _ _ _ _ H Hi).
Qed.
End proof.

(** ** Correctness *)

(** C23: a SOCKS client with known methods never violates an assertion or
    touches memory outside the block it currently has, whatever the server, the
    network and the allocator do; it says the beginning of what the reference
    dialogue prescribes for the bytes it received, never more; it reports that it is
    up exactly when the server accepted, everything was said and not a byte more
    was consumed; it reports an error as soon as the server refused; it never
    waits with nothing in transfer; and once freed it holds nothing. *)
Theorem socks_client_correct (auth : list BSocksClient_auth_info) (d : dest) (o0 : BSocksClient)
  (Hauth : forallb known_auth auth = true)
  (Hdest : match d with IPv4 _ _ => True | IPv6 ip _ => zlen ip = 16 end)
  (Hinit : BSocksClient_Init auth d true blank = Some (true, o0, [])) :
  safe o0 /\ forall tr o, reach o0 tr o ->
    sent tr `prefix_of` (dialogue auth d (rcvd tr)).1 /\
    (EVENT_UP ∈ told tr -> dialogue auth d (rcvd tr) = (sent tr, Accepted)) /\
    told tr ∈ [[]; [EVENT_UP]; [EVENT_ERROR]; [EVENT_UP; EVENT_ERROR]; [EVENT_UP; EVENT_ERROR_CLOSED]] /\
    (connector o = true -> reported o = false ->
       match (dialogue auth d (rcvd tr)).2 with
       | Waiting => con o = true -> pp_state (input (send_sender o)) <> NONE \/ sr_state (recv_if o) <> NONE
       | Refused => False
       | Accepted => told tr = [EVENT_UP] /\ up_io o = true
       end) /\
    (connector o = false -> con o = false /\ control_io o = false /\ up_io o = false /\ buffer o = None).
Proof.
  pose proof (socks_init_inv auth d Hauth o0 Hinit) as H0.
  pose proof (socks_step auth d Hauth Hdest) as Hstep.
  split; [eapply (inv_safe (inv auth d)); [exact Hstep|exact H0]|]. intros tr o Hr.
  pose proof (reach_inv (inv auth d) Hstep o0 tr o H0 Hr) as I.
  pose proof I as (_ & _ & Hres & (Hp & Hup & errs & Ht & He) & _).
  assert (Hstate : EVENT_UP ∈ told tr -> state o = UP).
  { rewrite Ht. unfold is_state. case_bool_decide; [done|]. cbn [app]. intros Hin.
    destruct (reported o); [|by subst errs; apply not_elem_of_nil in Hin].
    destruct He as [->|[-> _]]; apply list_elem_of_singleton in Hin; discriminate Hin. }
  split; [exact Hp|]. split; [auto|]. split; [|split].
  - rewrite Ht. unfold is_state. destruct (reported o).
    + case_bool_decide; destruct He as [->|[-> Hs]]; try congruence; set_solver.
    + subst errs. case_bool_decide; set_solver.
  - intros Hc Hrep. destruct (decide (state o = UP)) as [Hs|Hs].
    + rewrite (Hup Hs). cbn [snd]. rewrite Hrep in He. subst errs. rewrite Ht, Hs. split; [done|].
      unfold resources in Hres. rewrite Hc, Hs in Hres. apply Hres.
    + destruct (stage_verdict auth d tr o I Hc Hrep Hs) as [-> Hw]. exact Hw.
  - intros Hc. unfold resources in Hres. by rewrite Hc in Hres.
Qed.

(** A server that asks for the password and accepts, and whose bytes arrive in
    pieces. *)
Definition auth_example : list BSocksClient_auth_info :=
  [BSocksClient_auth_none; BSocksClient_auth_password [117; 115] [112]].
Definition dest_example : dest := IPv4 16777226 47873.
Definition start_example : BSocksClient :=
  match BSocksClient_Init auth_example dest_example true blank with Some (_, o, _) => o | None => blank end.
Definition send_all (n : Z) : list action := [SendStarts; StreamStarts; StreamTakes n; StreamDone].
Definition memory_example : heap := Some (fun _ => 170).

Lemma socks_client_correct_witness :
  safe start_example /\
  match run (sys:=socks_system)
          ([Connected false true memory_example; SendStarts; StreamStarts; StreamTakes 3; StreamDone; StreamStarts;
            StreamTakes 1; StreamDone; SendDone memory_example;
            RecvStarts; RecvGives [5]; RecvDone memory_example; RecvStarts; RecvGives [2]; RecvDone memory_example]
           ++ send_all 6 ++ [SendDone memory_example; RecvStarts; RecvGives [1; 0]; RecvDone memory_example]
           ++ send_all 10 ++ [SendDone memory_example; RecvStarts; RecvGives [5; 0; 0; 1]; RecvDone memory_example;
            RecvStarts; RecvGives [0; 0; 0; 0; 0; 0]; RecvDone memory_example]) start_example with
  | Some (o, tr) => told tr = [EVENT_UP] /\ dialogue auth_example dest_example (rcvd tr) = (sent tr, Accepted)
  | None => False
  end.
Proof.
  destruct (socks_client_correct auth_example dest_example start_example eq_refl I eq_refl) as [Hs Hr].
  split; [exact Hs|].
  destruct (run _ start_example) as [[o tr]|] eqn:Hrun.
  - destruct (Hr tr o (run_reach (sys:=socks_system) _ _ _ _ Hrun)) as (_ & Hup & _).
    vm_compute in Hrun. injection Hrun as <- <-. split; [reflexivity|]. apply Hup. vm_compute. left.
  - vm_compute in Hrun. discriminate Hrun.
Defined.
End Socks.
