(* ===== verification/BAddr.v ===== *)
(** Socket addresses: [system/BAddr.h].

    Addresses and ports keep their fields in network byte order, as the code
    does; an IPv6 address is its 16 bytes. *)

From S2P Require Import Prelude CArith OrdTree NetInt.

Module Addr.
Import NetInt.NetInt.

Inductive BIPAddr :=
  | IP_NONE
  | IP_V4 (ipv4 : Z)
  | IP_V6 (ipv6 : bytes).

Inductive BAddr :=
  | NONE
  | IPV4 (ip port : Z)
  | IPV6 (ip : bytes) (port : Z)
  | PACKET (phys_proto interface_index header_type packet_type : Z) (phys_addr : bytes).
#[export] Instance BAddr_eq : EqDecision BAddr.
Proof. solve_decision. Defined.
#[export] Instance BIPAddr_eq : EqDecision BIPAddr.
Proof. solve_decision. Defined.

Definition addr_type (a : BAddr) : Z :=
  match a with NONE => 0 | IPV4 _ _ => 1 | IPV6 _ _ => 2 | PACKET _ _ _ _ _ => 5 end.

(** [memcmp(a, b, n)] on arrays of at least [n] bytes. *)
Fixpoint memcmp (n : nat) (a b : bytes) : Z :=
  match n with
  | O => 0
  | S n => let x := hd 0 a in let y := hd 0 b in
           if x <? y then -1 else if y <? x then 1 else memcmp n (tl a) (tl b)
  end.

Definition BIPAddr_IsInvalid (a : BIPAddr) : bool := match a with IP_NONE => true | _ => false end.
Definition BIPAddr_Compare (a b : BIPAddr) : bool :=
  match a, b with
  | IP_V4 x, IP_V4 y => x =? y
  | IP_V6 x, IP_V6 y => memcmp 16 x y =? 0
  | _, _ => false
  end.

Definition BAddr_MakeNone : BAddr := NONE.
Definition BAddr_MakeIPv4 (ip port : Z) : BAddr := IPV4 ip port.
Definition BAddr_MakeIPv6 (ip : bytes) (port : Z) : BAddr := IPV6 ip port.
Definition BAddr_MakeFromIpaddrAndPort (ipaddr : BIPAddr) (port : Z) : BAddr :=
  match ipaddr with
  | IP_NONE => BAddr_MakeNone
  | IP_V4 ip => BAddr_MakeIPv4 ip port
  | IP_V6 ip => BAddr_MakeIPv6 ip port
  end.
Definition BAddr_IsInvalid (a : BAddr) : bool := match a with NONE => true | _ => false end.

(** [None] is the failed [ASSERT] of an address that is not an IP address. *)
Definition BAddr_GetPort (a : BAddr) : option Z :=
  match a with IPV4 _ port | IPV6 _ port => Some port | _ => None end.
Definition BAddr_GetIPAddr (a : BAddr) : BIPAddr :=
  match a with IPV4 ip _ => IP_V4 ip | IPV6 ip _ => IP_V6 ip | _ => IP_NONE end.
Definition BAddr_SetPort (a : BAddr) (port : Z) : option BAddr :=
  match a with IPV4 ip _ => Some (IPV4 ip port) | IPV6 ip _ => Some (IPV6 ip port) | _ => None end.

Definition BAddr_Compare (a b : BAddr) : bool :=
  match a, b with
  | IPV4 ip1 port1, IPV4 ip2 port2 => (ip1 =? ip2) && (port1 =? port2)
  | IPV6 ip1 port1, IPV6 ip2 port2 => (memcmp 16 ip1 ip2 =? 0) && (port1 =? port2)
  | _, _ => false
  end.

Definition BAddr_CompareOrder (a b : BAddr) : Z :=
  let cmp := B_COMPARE (addr_type a) (addr_type b) in
  if negb (cmp =? 0) then cmp
  else match a, b with
       | IPV4 ip1 port1, IPV4 ip2 port2 =>
           let cmp := B_COMPARE (ntoh32 ip1) (ntoh32 ip2) in
           if negb (cmp =? 0) then cmp
           else B_COMPARE (ntoh16 port1) (ntoh16 port2)
       | IPV6 ip1 port1, IPV6 ip2 port2 =>
           let cmp := memcmp 16 ip1 ip2 in
           if negb (cmp =? 0) then B_COMPARE cmp 0
           else B_COMPARE (ntoh16 port1) (ntoh16 port2)
       | _, _ => 0
       end.

(** * Comparators

    Keys compared one after the other: every comparator of the program is built
    from comparisons of integers in this way. *)

Definition lex (c d : Z) : Z := if negb (c =? 0) then c else d.

Lemma B_COMPARE_cases a b :
  (B_COMPARE a b = -1 /\ a < b) \/ (B_COMPARE a b = 0 /\ a = b) \/ (B_COMPARE a b = 1 /\ b < a).
Proof. rewrite B_COMPARE_spec. destruct (Z.compare_spec a b); lia. Qed.

Lemma B_COMPARE_refl a : B_COMPARE a a = 0.
Proof. destruct (B_COMPARE_cases a a) as [[_ ?]|[[? _]|[_ ?]]]; [lia|done|lia]. Qed.

#[export] Instance compare_Z : Comparator B_COMPARE.
Proof.
  split.
  - intros a b. pose proof (B_COMPARE_cases a b). lia.
  - intros a b. pose proof (B_COMPARE_cases a b). pose proof (B_COMPARE_cases b a). lia.
  - intros a b c. pose proof (B_COMPARE_cases a b). pose proof (B_COMPARE_cases b c). pose proof (B_COMPARE_cases a c). lia.
  - intros a b c. pose proof (B_COMPARE_cases a b). pose proof (B_COMPARE_cases b c). pose proof (B_COMPARE_cases a c). lia.
Qed.

Section comparators.
Context {V : Type}.

(** Comparing the images under a function. *)
Lemma comparator_on {W} (cmp : W -> W -> Z) `{!Comparator cmp} (f : V -> W) :
  Comparator (fun a b => cmp (f a) (f b)).
Proof.
  split; intros.
  - apply cmp_range.
  - apply cmp_anti.
  - by eapply cmp_trans.
  - by apply cmp_eq_l.
Qed.

Lemma cmp_eq_r (cmp : V -> V -> Z) `{!Comparator cmp} a b c : cmp b c = 0 -> cmp a b = cmp a c.
Proof.
  intros H. pose proof (cmp_eq_l b c a H) as He. rewrite (cmp_anti b a), (cmp_anti c a). lia.
Qed.

Lemma comparator_lex (c1 c2 : V -> V -> Z) `{!Comparator c1, !Comparator c2} :
  Comparator (fun a b => lex (c1 a b) (c2 a b)).
Proof.
  unfold lex. split.
  - intros a b. destruct (c1 a b =? 0) eqn:E; cbn [negb]; apply cmp_range.
  - intros a b. pose proof (cmp_anti (cmp:=c1) a b). pose proof (cmp_anti (cmp:=c2) a b).
    destruct (c1 a b =? 0) eqn:E, (c1 b a =? 0) eqn:E'; cbn [negb]; b2p; lia.
  - intros a b c. destruct (c1 a b =? 0) eqn:E; b2p; cbn [negb]; destruct (c1 b c =? 0) eqn:E'; b2p; cbn [negb]; intros H1 H2.
    + rewrite (cmp_eq_l a b c E), E'. cbn. by eapply cmp_trans.
    + rewrite (cmp_eq_l a b c E), H2. done.
    + pose proof (cmp_eq_r c1 a b c E'). rewrite <- H, H1. done.
    + rewrite (cmp_trans a b c H1 H2). done.
  - intros a b c. destruct (c1 a b =? 0) eqn:E; b2p; cbn [negb]; intros H; [|done].
    rewrite (cmp_eq_l a b c E). by rewrite (cmp_eq_l (cmp:=c2) a b c H).
Qed.
End comparators.

Lemma Comparator_ext {V} (c1 c2 : V -> V -> Z) :
  (forall a b, c1 a b = c2 a b) -> Comparator c1 -> Comparator c2.
Proof.
  intros He [H1 H2 H3 H4]. split; intros *; rewrite <- !He; auto. apply H3.
Qed.

(** [memcmp] compares the bytes one after the other. *)
Lemma memcmp_comparator n : Comparator (memcmp n).
Proof.
  induction n as [|n IH]; [split; cbn; try lia; by right; left|].
  eapply (Comparator_ext (fun a b => lex (B_COMPARE (hd 0 a) (hd 0 b)) (memcmp n (tl a) (tl b)))).
  - intros a b. unfold lex, B_COMPARE. cbn [memcmp].
    destruct (hd 0 b <? hd 0 a) eqn:E1, (hd 0 a <? hd 0 b) eqn:E2; b2p; try done; lia.
  - pose proof (comparator_on B_COMPARE (hd 0)). pose proof (comparator_on (memcmp n) (tl (A:=Z))).
    by apply comparator_lex.
Qed.

(** The sort keys of an address. *)
Definition v4_of (a : BAddr) : Z := match a with IPV4 ip _ => ntoh32 ip | _ => 0 end.
Definition v6_of (a : BAddr) : bytes := match a with IPV6 ip _ => ip | _ => [] end.
Definition port_of (a : BAddr) : Z := match a with IPV4 _ port | IPV6 _ port => ntoh16 port | _ => 0 end.

Lemma compare_order_keys a b : BAddr_CompareOrder a b =
  lex (B_COMPARE (addr_type a) (addr_type b))
    (lex (B_COMPARE (v4_of a) (v4_of b))
      (lex (memcmp 16 (v6_of a) (v6_of b)) (B_COMPARE (port_of a) (port_of b)))).
Proof.
  unfold BAddr_CompareOrder, lex. destruct a, b; try reflexivity;
    cbn [addr_type v4_of v6_of port_of]; rewrite ?B_COMPARE_refl; cbn [Z.eqb negb]; try reflexivity.
  - destruct (cmp_range (cmp:=memcmp 16) (Comparator:=memcmp_comparator 16) ip ip0) as [-> | [-> | ->]]; reflexivity.
Qed.

#[export] Instance BAddr_comparator : Comparator BAddr_CompareOrder.
Proof.
  eapply Comparator_ext; [intros; symmetry; apply compare_order_keys|].
  pose proof (comparator_on B_COMPARE addr_type). pose proof (comparator_on B_COMPARE v4_of).
  pose proof (memcmp_comparator 16). pose proof (comparator_on (memcmp 16) v6_of).
  pose proof (comparator_on B_COMPARE port_of).
  apply comparator_lex; [done|]. apply comparator_lex; [done|]. by apply comparator_lex.
Qed.

Lemma memcmp_eq n a b : length a = n -> length b = n -> memcmp n a b = 0 -> a = b.
Proof.
  revert a b; induction n as [|n IH]; intros [|x a] [|y b] Ha Hb; try discriminate; [done|].
  cbn [memcmp hd tl]. destruct (x <? y) eqn:E1; [done|]. destruct (y <? x) eqn:E2; [done|]. b2p.
  intros H. f_equal; [lia|]. apply IH; [by injection Ha|by injection Hb|done].
Qed.

(** What an initialised IP address holds. *)
Definition ip_ok (a : BAddr) : Prop :=
  match a with
  | IPV4 ip port => 0 <= ip < 2 ^ 32 /\ 0 <= port < 2 ^ 16
  | IPV6 ip port => length ip = 16%nat /\ 0 <= port < 2 ^ 16
  | _ => False
  end.

Lemma hton16_inj x y : 0 <= x < 2 ^ 16 -> 0 <= y < 2 ^ 16 -> ntoh16 x = ntoh16 y -> x = y.
Proof.
  intros Hx Hy H. rewrite <- (ntoh16_hton16 x Hx), <- (ntoh16_hton16 y Hy). unfold ntoh16 in *. by rewrite H.
Qed.

Lemma compare_order_eq a b : ip_ok a -> ip_ok b -> BAddr_CompareOrder a b = 0 -> a = b.
Proof.
  intros Ha Hb. unfold BAddr_CompareOrder. destruct a, b; try done; cbn [addr_type];
    rewrite ?B_COMPARE_refl; cbn [Z.eqb negb].
  - destruct Ha as [Hi Hp], Hb as [Hi' Hp']. destruct (B_COMPARE _ _ =? 0) eqn:E; b2p; cbn [negb]; intros H; [|done].
    pose proof (B_COMPARE_cases (ntoh32 ip) (ntoh32 ip0)). pose proof (B_COMPARE_cases (ntoh16 port) (ntoh16 port0)).
    f_equal; [|apply hton16_inj; lia]. apply hton32_inj; [done|done|]. unfold ntoh32 in *. lia.
  - destruct Ha as [Hi Hp], Hb as [Hi' Hp']. destruct (memcmp 16 ip ip0 =? 0) eqn:E; b2p; cbn [negb]; intros H.
    + pose proof (B_COMPARE_cases (ntoh16 port) (ntoh16 port0)).
      f_equal; [by apply (memcmp_eq 16)|apply hton16_inj; lia].
    + pose proof (B_COMPARE_cases (memcmp 16 ip ip0) 0). lia.
Qed.

(** [BAddr_CompareOrder] is a total order usable by the trees: its values
    are -1, 0 and 1, it is antisymmetric and transitive, and equal addresses
    compare alike; on IP addresses it is 0 exactly for equal ones, as
    [BAddr_Compare] is true, and it orders IPv4 addresses by their value and then
    by port; an address is rebuilt from its IP address and port. *)
Theorem compare_order_correct (a b c : BAddr) :
  (BAddr_CompareOrder a b = -1 \/ BAddr_CompareOrder a b = 0 \/ BAddr_CompareOrder a b = 1) /\
  BAddr_CompareOrder b a = - BAddr_CompareOrder a b /\
  (BAddr_CompareOrder a b = -1 -> BAddr_CompareOrder b c = -1 -> BAddr_CompareOrder a c = -1) /\
  (BAddr_CompareOrder a b = 0 -> BAddr_CompareOrder a c = BAddr_CompareOrder b c) /\
  (ip_ok a -> ip_ok b ->
     (BAddr_CompareOrder a b = 0 <-> a = b) /\ (BAddr_Compare a b = true <-> a = b)) /\
  (forall ip1 ip2 port1 port2, 0 <= ip1 < 2 ^ 32 -> 0 <= ip2 < 2 ^ 32 -> 0 <= port1 < 2 ^ 16 -> 0 <= port2 < 2 ^ 16 ->
     (BAddr_CompareOrder (IPV4 (hton32 ip1) (hton16 port1)) (IPV4 (hton32 ip2) (hton16 port2)) = -1 <->
      ip1 < ip2 \/ (ip1 = ip2 /\ port1 < port2))) /\
  (ip_ok a -> forall port, BAddr_GetPort a = Some port -> BAddr_MakeFromIpaddrAndPort (BAddr_GetIPAddr a) port = a).
Proof.
  split; [apply cmp_range|]. split; [apply cmp_anti|]. split; [apply cmp_trans|]. split; [apply cmp_eq_l|].
  split; [|split].
  - intros Ha Hb. split; [split; [by apply compare_order_eq|intros ->; exact (cmp_refl BAddr_CompareOrder b)]|].
    destruct a, b; try done; cbn [BAddr_Compare]; (split; [|intros [= -> ->]; rewrite Z.eqb_refl]).
    + intros [H1 H2]%andb_true_iff. b2p. by subst.
    + by rewrite Z.eqb_refl.
    + intros [H1 H2]%andb_true_iff. b2p. subst. f_equal. apply (memcmp_eq 16); [apply Ha|apply Hb|done].
    + by rewrite (cmp_refl (memcmp 16) (Comparator0:=memcmp_comparator 16) ip0).
  - intros ip1 ip2 port1 port2 H1 H2 H3 H4. unfold BAddr_CompareOrder. cbn [addr_type].
    rewrite B_COMPARE_refl. cbn [Z.eqb negb]. unfold ntoh32. rewrite !hton32_involutive, !ntoh16_hton16 by done.
    pose proof (B_COMPARE_cases ip1 ip2). pose proof (B_COMPARE_cases port1 port2).
    destruct (B_COMPARE ip1 ip2 =? 0) eqn:E; b2p; cbn [negb]; lia.
  - intros Ha p. destruct a; try done; cbn; by intros [= ->].
Qed.
Lemma compare_order_correct_witness :
  BAddr_CompareOrder (IPV4 (hton32 167772161) (hton16 80)) (IPV4 (hton32 167772161) (hton16 443)) = -1 /\
  (BAddr_Compare (IPV4 1 2) (IPV4 1 2) = true <-> IPV4 1 2 = IPV4 1 2).
Proof.
  destruct (compare_order_correct (IPV4 1 2) (IPV4 1 2) NONE) as (_ & _ & _ & _ & He & Ho & _).
  split.
  - apply Ho; [lia|lia|lia|lia|]. right. split; [reflexivity|lia].
  - apply He; cbn; lia.
Defined.
End Addr.
