(* ===== verification/TunUdp.v ===== *)
(** The UDP path between the TUN device and the UDP relay, and the output of
    packets to the device: [tun2socks/tun2socks.c].

    [process_device_udp_packet] cuts a datagram out of an IP packet read from
    the device and submits it to the relay; [udpgw_client_handler_received] wraps
    a datagram from the relay into an IP packet and sends it to the device.
    lwIP, which takes all other packets, is outside. *)

From S2P Require Import Prelude CArith NetInt IpProto BAddr.

Module TunUdp.
Import NetInt.NetInt IpProto.IpProto Addr.

(** The settings the functions read. *)
Record options := mk_options {
  udpgw_remote_server_addr : bool;
  netif_ip6addr : bool;
  dnsgw : bool
}.

(** What is passed to [SocksUdpGwClient_SubmitPacket]. *)
Record submission := mk_sub { s_local : BAddr; s_remote : BAddr; s_dns : bool; s_data : bytes }.

(** The bit fields of [DnsHeader] that are read, with its size. *)
Definition DNS_HEADER : Z := 12.
Definition dns_qr (h : bytes) : Z := Z.land (Z.shiftr (field 2 1 h) 7) 1.
Definition dns_rcode (h : bytes) : Z := Z.land (field 3 1 h) 15.
Definition dns_ans_count (h : bytes) : Z := field 6 2 h.
Definition dns_auth_count (h : bytes) : Z := field 8 2 h.

Definition is_dns_query (o : options) (dest_port : Z) (data : bytes) : bool :=
  let is_dns := dnsgw o && (dest_port =? hton16 53) in
  if is_dns then
    if zlen data <? DNS_HEADER then false
    else (dns_qr data =? 0) && (dns_rcode data =? 0) && (dns_ans_count data =? 0) && (dns_auth_count data =? 0)
  else is_dns.

(** [None]: an access outside the packet. [Some None]: 0 is returned. *)
Definition process_device_udp_packet (o : options) (udp_mtu : Z) (data : bytes) : option (option submission) :=
  if negb (udpgw_remote_server_addr o) then Some None
  else
    ip_version ← (if 0 <? zlen data then b ← data !! 0%nat; Some (Z.shiftr b 4) else Some 0);
    sub ←
      (if ip_version =? 4 then
         if zlen data <? IPV4_HEADER then Some None
         else
           proto ← data !! 9%nat;
           if negb (proto =? IPV4_PROTOCOL_UDP) then Some None
           else
             r ← ipv4_check data;
             match r with
             | None => Some None
             | Some (iph, off, len) =>
                 let data := slice off len data in
                 r ← udp_check data;
                 match r with
                 | None => Some None
                 | Some (udph, off, len) =>
                     let data := slice off len data in
                     let checksum_in_packet := udp_sum udph in
                     computed ← udp_checksum (udph <| udp_sum := 0 |>) data (zlen data)
                                  (source_address iph) (destination_address iph);
                     if negb (checksum_in_packet =? computed) then Some None
                     else
                       Some (Some (mk_sub (BAddr_MakeIPv4 (source_address iph) (source_port udph))
                                     (BAddr_MakeIPv4 (destination_address iph) (dest_port udph))
                                     (is_dns_query o (dest_port udph) data) data))
                 end
             end
       else if ip_version =? 6 then
         if negb (netif_ip6addr o) then Some None
         else if zlen data <? IPV6_HEADER then Some None
         else
           next ← data !! 6%nat;
           if negb (next =? IPV6_NEXT_UDP) then Some None
           else
             r ← ipv6_check data;
             match r with
             | None => Some None
             | Some (iph, off, len) =>
                 let data := slice off len data in
                 r ← udp_check data;
                 match r with
                 | None => Some None
                 | Some (udph, off, len) =>
                     let data := slice off len data in
                     let checksum_in_packet := udp_sum udph in
                     computed ← udp_ip6_checksum (udph <| udp_sum := 0 |>) data (zlen data)
                                  (source_address6 iph) (destination_address6 iph);
                     if negb (checksum_in_packet =? computed) then Some None
                     else
                       Some (Some (mk_sub (BAddr_MakeIPv6 (source_address6 iph) (source_port udph))
                                     (BAddr_MakeIPv6 (destination_address6 iph) (dest_port udph)) false data))
                 end
             end
       else Some None);
    match sub with
    | None => Some None
    | Some s => if udp_mtu <? zlen (s_data s) then Some None else Some (Some s)
    end.

(** The device write buffer, of [BTap_GetMTU] bytes; the result is the buffer
    and what is sent to the device, if anything. *)
Definition write_all (buf : bytes) (parts : list (Z * bytes)) : option bytes :=
  foldl (fun buf p => b ← buf; mem_write p.1 p.2 b) (Some buf) parts.

Definition udpgw_client_handler_received (o : options) (device_mtu : Z) (device_write_buf : bytes)
    (local_addr remote_addr : BAddr) (data : bytes) : option (bytes * option bytes) :=
  let data_len := zlen data in
  if negb (udpgw_remote_server_addr o) then None
  else
    match local_addr, remote_addr with
    | IPV4 local_ip local_port, IPV4 remote_ip remote_port =>
        if (UINT16_MAX - (IPV4_HEADER + UDP_HEADER) <? data_len)
           || (device_mtu - (IPV4_HEADER + UDP_HEADER) <? data_len) then Some (device_write_buf, None)
        else
          let iph := mk_ip4 (u8 (IPV4_MAKE_VERSION_IHL IPV4_HEADER)) (hton8 0)
                       (hton16 (IPV4_HEADER + UDP_HEADER + data_len)) (hton16 0) (hton16 0) (hton8 64)
                       (hton8 IPV4_PROTOCOL_UDP) (hton16 0) remote_ip local_ip in
          c ← ipv4_checksum iph [] 0;
          let iph := iph <| checksum := c |> in
          let udph := mk_udp remote_port local_port (hton16 (UDP_HEADER + data_len)) (hton16 0) in
          c ← udp_checksum udph data data_len (source_address iph) (destination_address iph);
          let udph := udph <| udp_sum := c |> in
          buf ← write_all device_write_buf
                  [(0, ipv4_bytes iph); (IPV4_HEADER, udp_bytes udph); (IPV4_HEADER + UDP_HEADER, data)];
          Some (buf, Some (take (Z.to_nat (IPV4_HEADER + UDP_HEADER + data_len)) buf))
    | IPV6 local_ip local_port, IPV6 remote_ip remote_port =>
        if negb (netif_ip6addr o) then Some (device_write_buf, None)
        else if (UINT16_MAX - UDP_HEADER <? data_len)
                || (device_mtu - (IPV6_HEADER + UDP_HEADER) <? data_len) then Some (device_write_buf, None)
        else
          let iph := mk_ip6 (hton8 (Z.shiftl 6 4)) (hton8 0) (hton16 0) (hton16 (UDP_HEADER + data_len))
                       (hton8 IPV6_NEXT_UDP) (hton8 64) (take 16 remote_ip) (take 16 local_ip) in
          let udph := mk_udp remote_port local_port (hton16 (UDP_HEADER + data_len)) (hton16 0) in
          c ← udp_ip6_checksum udph data data_len (source_address6 iph) (destination_address6 iph);
          let udph := udph <| udp_sum := c |> in
          buf ← write_all device_write_buf
                  [(0, ipv6_bytes iph); (IPV6_HEADER, udp_bytes udph); (IPV6_HEADER + UDP_HEADER, data)];
          Some (buf, Some (take (Z.to_nat (IPV6_HEADER + UDP_HEADER + data_len)) buf))
    | _, _ => None
    end.

(** Where a packet read from the device goes. *)
Inductive destination :=
  | ToRelay (s : submission)
  | ToIp4 (p : bytes)       (* [ip_input] of lwIP *)
  | ToIp6 (p : bytes)       (* [ip6_input] of lwIP *)
  | Dropped.

Definition netif_input_func (o : options) (p : bytes) : destination :=
  let ip_version := if 0 <? zlen p then Z.shiftr (hd 0 p) 4 else 0 in
  if ip_version =? 4 then ToIp4 p
  else if (ip_version =? 6) && netif_ip6addr o then ToIp6 p
  else Dropped.

(** [pbuf_ok] tells whether lwIP has a buffer for the packet. *)
Definition device_read_handler_send (o : options) (udp_mtu : Z) (pbuf_ok : bool) (data : bytes) : option destination :=
  r ← process_device_udp_packet o udp_mtu data;
  match r with
  | Some s => Some (ToRelay s)
  | None => if UINT16_MAX <? zlen data then Some Dropped
            else if negb pbuf_ok then Some Dropped
            else Some (netif_input_func o data)
  end.

(** The loop over the chunks of a packet; [None] inside is "no space left". *)
Fixpoint copy_chunks (device_mtu len : Z) (buf : bytes) (chunks : list bytes) : option (bytes * option Z) :=
  match chunks with
  | [] => Some (buf, Some len)
  | c :: chunks =>
      if device_mtu - len <? zlen c then Some (buf, None)
      else buf ← mem_write len c buf; copy_chunks device_mtu (len + zlen c) buf chunks
  end.

Definition common_netif_output (quitting : bool) (device_mtu : Z) (device_write_buf : bytes) (p : list bytes)
  : option (bytes * option bytes) :=
  if quitting then Some (device_write_buf, None)
  else match p with
       | [] => None
       | [c] => if device_mtu <? zlen c then Some (device_write_buf, None) else Some (device_write_buf, Some c)
       | _ =>
           match copy_chunks device_mtu 0 device_write_buf p with
           | None => None
           | Some (buf, None) => Some (buf, None)
           | Some (buf, Some len) => Some (buf, Some (take (Z.to_nat len) buf))
           end
       end.

(** * Writing packets *)

Lemma splice_append {A} (w c b : list A) n :
  n = zlen w -> n + zlen c <= zlen b -> take (Z.to_nat n) b = w ->
  take (Z.to_nat (n + zlen c)) (splice n c b) = w ++ c.
Proof.
  intros -> Hl Hw. pose proof (zlen_nonneg w). pose proof (zlen_nonneg c). unfold splice. rewrite Hw.
  rewrite app_assoc. apply take_app_length'. rewrite length_app. unfold zlen. lia.
Qed.

Lemma write_append (w c b : bytes) n : n = zlen w -> n + zlen c <= zlen b -> take (Z.to_nat n) b = w ->
  exists b', mem_write n c b = Some b' /\ zlen b' = zlen b /\ take (Z.to_nat (n + zlen c)) b' = w ++ c.
Proof.
  intros Hn Hl Hw. pose proof (zlen_nonneg w). pose proof (zlen_nonneg c).
  exists (splice n c b). rewrite mem_write_Some by lia. split; [done|]. split; [apply zlen_splice; lia|].
  by apply splice_append.
Qed.

Lemma write_all_3 (h1 h2 data b : bytes) n1 n2 :
  n1 = zlen h1 -> n2 = n1 + zlen h2 -> n2 + zlen data <= zlen b ->
  exists b', write_all b [(0, h1); (n1, h2); (n2, data)] = Some b' /\ zlen b' = zlen b /\
    take (Z.to_nat (n2 + zlen data)) b' = h1 ++ h2 ++ data.
Proof.
  intros H1 H2 Hl. pose proof (zlen_nonneg h1). pose proof (zlen_nonneg h2). pose proof (zlen_nonneg data).
  destruct (write_append [] h1 b 0) as (b1 & W1 & L1 & T1); [done|lia|done|].
  destruct (write_append h1 h2 b1 n1) as (b2 & W2 & L2 & T2); [done|lia|by rewrite H1|].
  destruct (write_append (h1 ++ h2) data b2 n2) as (b3 & W3 & L3 & T3); [rewrite zlen_app; lia|lia|by rewrite H2|].
  exists b3. unfold write_all. cbn [foldl fst snd mbind option_bind]. rewrite W1. cbn [mbind option_bind].
  rewrite W2. cbn [mbind option_bind]. rewrite W3. split; [done|]. split; [lia|]. by rewrite T3, app_assoc.
Qed.

(** Copying the chunks of a packet gives their concatenation, if it fits. *)
Lemma copy_chunks_spec mtu chunks w buf :
  zlen buf = mtu -> zlen w <= mtu -> take (Z.to_nat (zlen w)) buf = w ->
  exists buf' r, copy_chunks mtu (zlen w) buf chunks = Some (buf', r) /\ zlen buf' = mtu /\
    if zlen w + zlen (concat chunks) <=? mtu
    then r = Some (zlen (w ++ concat chunks)) /\ take (Z.to_nat (zlen (w ++ concat chunks))) buf' = w ++ concat chunks
    else r = None.
Proof.
  revert w buf. induction chunks as [|c chunks IH]; intros w buf Hb Hw Ht; cbn [copy_chunks concat].
  - exists buf, (Some (zlen w)). rewrite app_nil_r. split; [done|]. split; [done|].
    rewrite zlen_nil. replace (zlen w + 0 <=? mtu) with true by lia. done.
  - pose proof (zlen_nonneg w). pose proof (zlen_nonneg c). pose proof (zlen_nonneg (concat chunks)).
    rewrite zlen_app. destruct (mtu - zlen w <? zlen c) eqn:E; b2p.
    + exists buf, None. split; [done|]. split; [done|].
      replace (zlen w + (zlen c + zlen (concat chunks)) <=? mtu) with false by lia. done.
    + destruct (write_append w c buf (zlen w)) as (b1 & W1 & L1 & T1); [done|lia|done|].
      rewrite W1. cbn [mbind option_bind]. rewrite <- zlen_app in T1 |- *.
      destruct (IH (w ++ c) b1) as (b2 & r & Hc & Hl & Hr); [lia|rewrite zlen_app; lia|done|].
      exists b2, r. split; [done|]. split; [done|]. rewrite zlen_app in Hr.
      replace (zlen w + (zlen c + zlen (concat chunks))) with (zlen w + zlen c + zlen (concat chunks)) by lia.
      by rewrite <- app_assoc in Hr.
Qed.

(** * Datagrams from the device *)

Definition same_family (a b : BAddr) : Prop := addr_type a = addr_type b.

(** What holds of a submission cut out of the packet [data]. *)
Record submitted (o : options) (udp_mtu : Z) (data : bytes) (s : submission) : Prop := {
  sub_enabled : udpgw_remote_server_addr o = true;
  sub_size : zlen (s_data s) <= udp_mtu;
  sub_inside : exists off, 0 <= off /\ off + zlen (s_data s) <= zlen data /\
                 s_data s = slice off (zlen (s_data s)) data;
  sub_local : ip_ok (s_local s);
  sub_remote : ip_ok (s_remote s);
  sub_family : same_family (s_local s) (s_remote s);
  sub_dns : s_dns s = true -> dnsgw o = true /\ BAddr_GetPort (s_remote s) = Some (hton16 53) /\
              DNS_HEADER <= zlen (s_data s)
}.

Lemma is_dns_query_true o p data : is_dns_query o p data = true ->
  dnsgw o = true /\ p = hton16 53 /\ DNS_HEADER <= zlen data.
Proof.
  unfold is_dns_query. destruct (dnsgw o && _) eqn:E; [|done]. destruct (_ <? _) eqn:E2; [done|].
  intros _. b2p. done.
Qed.

(** The part common to both families: the datagram inside the payload. *)
Lemma datagram_inside data off len :
  bytes_ok data -> 0 <= off -> 0 <= len -> off + len <= zlen data ->
  exists r, udp_check (slice off len data) = Some r /\
    forall udph off2 len2, r = Some (udph, off2, len2) ->
      0 <= off + off2 /\ off + off2 + len2 <= zlen data /\ 0 <= len2 /\ UDP_HEADER + len2 <= 65535 /\
      slice off2 len2 (slice off len data) = slice (off + off2) len2 data /\
      zlen (slice off2 len2 (slice off len data)) = len2 /\
      bytes_ok (slice off2 len2 (slice off len data)) /\
      0 <= source_port udph < 2 ^ 16 /\ 0 <= dest_port udph < 2 ^ 16.
Proof.
  intros Hb Ho Hl Hin. destruct (udp_check_inside (slice off len data)) as (r & Hr & Hs). exists r. split; [done|].
  intros udph off2 len2 ->. destruct (Hs _ _ _ eq_refl) as (-> & Hl2 & Hi & Hn & Hu).
  rewrite zlen_slice in Hi by lia. pose proof (ntoh16_range (udp_len udph)). unfold UDP_HEADER in *.
  split; [lia|]. split; [lia|]. split; [lia|]. split; [lia|].
  split; [by apply slice_slice; lia|]. split; [apply zlen_slice; [lia|lia|rewrite zlen_slice; lia]|].
  assert (Hbs : bytes_ok (slice 0 8 (slice off len data))) by by do 2 apply slice_bytes_ok.
  split; [by do 2 apply slice_bytes_ok|]. rewrite Hu.
  change (2 ^ 16) with (256 ^ 2). split; by apply field_range.
Qed.

(** The version of a packet. *)
Definition version_of (data : bytes) : option Z :=
  if 0 <? zlen data then b ← data !! 0%nat; Some (b ≫ 4) else Some 0.
Lemma byte_at (data : bytes) i : 0 <= i < zlen data -> exists b, data !! Z.to_nat i = Some b.
Proof. intros Hi. apply lookup_lt_is_Some. unfold zlen in Hi. lia. Qed.

Definition device_result (o : options) (udp_mtu : Z) (data : bytes) : Prop :=
  exists r, process_device_udp_packet o udp_mtu data = Some r /\ forall s, r = Some s -> submitted o udp_mtu data s.

Lemma device_v4 o udp_mtu data v : bytes_ok data -> udpgw_remote_server_addr o = true ->
  version_of data = Some v -> (v =? 4) = true -> device_result o udp_mtu data.
Proof.
  intros Hb Eo Hver H4v. unfold device_result, process_device_udp_packet. rewrite Eo. cbn [negb].
  unfold version_of in Hver. rewrite Hver. cbn [mbind option_bind]. rewrite H4v.
  destruct (zlen data <? IPV4_HEADER) eqn:E1; [by exists None|]. b2p. unfold IPV4_HEADER in E1.
  destruct (byte_at data 9 ltac:(lia)) as [pr Hpr]. change (Z.to_nat 9) with 9%nat in Hpr. rewrite Hpr. cbn [mbind option_bind].
  destruct (pr =? IPV4_PROTOCOL_UDP); cbn [negb]; [|by exists None].
  destruct (ipv4_check_inside data Hb) as (r & Hr & Hin). rewrite Hr. cbn [mbind option_bind].
  destruct r as [[[iph off] len]|]; [|by exists None].
  destruct (Hin _ _ _ eq_refl) as (_ & Hoff & Hlen & Hsum & _ & _ & _ & Hih).
  destruct (datagram_inside data off len Hb) as (r & Hu & Hd); [unfold IPV4_HEADER in *; lia|lia|lia|].
  rewrite Hu. cbn [mbind option_bind]. destruct r as [[[udph off2] len2]|]; [|by exists None].
  destruct (Hd _ _ _ eq_refl) as (H1 & H2 & H3 & H4 & H5 & H6 & H7 & H8 & H9).
  set (pay := slice off2 len2 _) in *.
  destruct (udp_checksum_spec (udph <| udp_sum := 0 |>) pay [] (source_address iph) (destination_address iph) H7) as (f & Hc & _); [by rewrite H6|].
  rewrite app_nil_r in Hc. rewrite Hc. cbn [mbind option_bind].
  destruct (_ =? hton16 _); cbn [negb mbind option_bind]; [|by exists None]. cbn [s_data].
  destruct (udp_mtu <? zlen pay) eqn:Em; [by exists None|]. eexists. split; [done|]. intros s [= <-]. b2p.
  assert (Hbs : bytes_ok (slice 0 IPV4_HEADER data)) by by apply slice_bytes_ok.
  assert (Hips : 0 <= source_address iph < 2 ^ 32 /\ 0 <= destination_address iph < 2 ^ 32).
  { rewrite Hih. change (2 ^ 32) with (256 ^ 4). split; by apply field_range. }
  split; cbn [s_local s_remote s_dns s_data]; try done.
  - exists (off + off2). rewrite H6. done.
  - cbn. split; [apply Hips|done].
  - cbn. split; [apply Hips|done].
  - intros (Hg & Hp & Hl)%is_dns_query_true. cbn. by rewrite Hp.
Qed.

Lemma device_v6 o udp_mtu data v : bytes_ok data -> udpgw_remote_server_addr o = true ->
  version_of data = Some v -> (v =? 4) = false -> (v =? 6) = true -> device_result o udp_mtu data.
Proof.
  intros Hb Eo Hver H4v H6v. unfold device_result, process_device_udp_packet. rewrite Eo. cbn [negb].
  unfold version_of in Hver. rewrite Hver. cbn [mbind option_bind]. rewrite H4v, H6v.
  destruct (netif_ip6addr o); cbn [negb]; [|by exists None].
  destruct (zlen data <? IPV6_HEADER) eqn:E1; [by exists None|]. b2p. unfold IPV6_HEADER in E1.
  destruct (byte_at data 6 ltac:(lia)) as [pr Hpr]. change (Z.to_nat 6) with 6%nat in Hpr. rewrite Hpr. cbn [mbind option_bind].
  destruct (pr =? IPV6_NEXT_UDP); cbn [negb]; [|by exists None].
  destruct (ipv6_check_inside data) as (r & Hr & Hin). rewrite Hr. cbn [mbind option_bind].
  destruct r as [[[iph off] len]|]; [|by exists None].
  destruct (Hin _ _ _ eq_refl) as (Hoff & Hlen & Hsum & _ & _ & Hih).
  destruct (datagram_inside data off len Hb) as (r & Hu & Hd); [unfold IPV6_HEADER in *; lia|lia|lia|].
  rewrite Hu. cbn [mbind option_bind]. destruct r as [[[udph off2] len2]|]; [|by exists None].
  destruct (Hd _ _ _ eq_refl) as (H1 & H2 & H3 & H4 & H5 & H6 & H7 & H8 & H9).
  set (pay := slice off2 len2 _) in *.
  assert (Hs6 : bytes_ok (source_address6 iph) /\ zlen (source_address6 iph) = 16 /\
                bytes_ok (destination_address6 iph) /\ zlen (destination_address6 iph) = 16).
  { rewrite Hih. cbn [source_address6 destination_address6 ipv6_of_bytes].
    assert (zlen (slice 0 IPV6_HEADER data) = 40) by (apply zlen_slice; unfold IPV6_HEADER; lia).
    split; [by do 2 apply slice_bytes_ok|]. split; [apply zlen_slice; lia|].
    split; [by do 2 apply slice_bytes_ok|]. apply zlen_slice; lia. }
  destruct Hs6 as (Hb1 & Hl1 & Hb2 & Hl2).
  destruct (udp_ip6_checksum_spec (udph <| udp_sum := 0 |>) pay [] (source_address6 iph) (destination_address6 iph) H7) as (f & Hc & _); [by rewrite H6|done..|].
  rewrite app_nil_r in Hc. rewrite Hc. cbn [mbind option_bind].
  destruct (_ =? hton16 _); cbn [negb mbind option_bind]; [|by exists None]. cbn [s_data].
  destruct (udp_mtu <? zlen pay) eqn:Em; [by exists None|]. eexists. split; [done|]. intros s [= <-]. b2p.
  split; cbn [s_local s_remote s_dns s_data]; try done.
  - exists (off + off2). rewrite H6. done.
  - cbn. split; [unfold zlen in Hl1; lia|done].
  - cbn. split; [unfold zlen in Hl2; lia|done].
Qed.

Lemma process_device_udp_spec o udp_mtu data : bytes_ok data -> device_result o udp_mtu data.
Proof.
  intros Hb. destruct (udpgw_remote_server_addr o) eqn:Eo.
  2:{ unfold device_result, process_device_udp_packet. rewrite Eo. by exists None. }
  assert (Hver : exists v, version_of data = Some v).
  { unfold version_of. destruct data as [|b data]; [by exists 0|]. rewrite zlen_cons. pose proof (zlen_nonneg data).
    replace (0 <? 1 + zlen data) with true by lia. by exists (b ≫ 4). }
  destruct Hver as [v Hver]. destruct (v =? 4) eqn:H4; [by eapply device_v4|].
  destruct (v =? 6) eqn:H6; [by eapply device_v6|].
  unfold device_result, process_device_udp_packet. rewrite Eo. cbn [negb].
  unfold version_of in Hver. rewrite Hver. cbn [mbind option_bind]. rewrite H4, H6. by exists None.
Qed.

(** * Datagrams from the relay *)

Definition addr_bytes_ok (a : BAddr) : Prop := match a with IPV6 ip _ => bytes_ok ip | _ => True end.

(** The room a packet of this family leaves for the payload. *)
Definition overhead (a : BAddr) : Z := match a with IPV6 _ _ => IPV6_HEADER + UDP_HEADER | _ => IPV4_HEADER + UDP_HEADER end.
Definition max_payload (a : BAddr) : Z :=
  match a with IPV6 _ _ => UINT16_MAX - UDP_HEADER | _ => UINT16_MAX - (IPV4_HEADER + UDP_HEADER) end.
Definition family_enabled (o : options) (a : BAddr) : bool := match a with IPV6 _ _ => netif_ip6addr o | _ => true end.

Lemma take_prefix (b w : bytes) n : take (Z.to_nat n) b = w -> 0 <= n <= zlen b -> zlen w = n.
Proof. intros <- Hn. by apply zlen_take. Qed.

Lemma slice_drop_prefix (w l : bytes) n : n = zlen l -> slice (zlen w) n (w ++ l) = l.
Proof. intros ->. by apply slice_app_r. Qed.

(** A packet of IPv4 header, UDP header and data is accepted. *)
Lemma process_built_v4 o udp_mtu iph udph data c cu :
  udpgw_remote_server_addr o = true -> zlen data <= udp_mtu ->
  ip4_ok iph -> udp_ok udph -> bytes_ok data -> IPV4_HEADER + UDP_HEADER + zlen data <= UINT16_MAX ->
  version4_ihl4 iph = IPV4_MAKE_VERSION_IHL IPV4_HEADER -> protocol iph = IPV4_PROTOCOL_UDP ->
  total_length iph = hton16 (IPV4_HEADER + UDP_HEADER + zlen data) ->
  udp_len udph = hton16 (UDP_HEADER + zlen data) -> checksum iph = 0 -> udp_sum udph = 0 ->
  ipv4_checksum iph [] 0 = Some c ->
  udp_checksum udph data (zlen data) (source_address iph) (destination_address iph) = Some cu ->
  process_device_udp_packet o udp_mtu (ipv4_bytes (iph <| checksum := c |>) ++ udp_bytes (udph <| udp_sum := cu |>) ++ data) =
  Some (Some (mk_sub (IPV4 (source_address iph) (source_port udph)) (IPV4 (destination_address iph) (dest_port udph))
                (is_dns_query o (dest_port udph) data) data)).
Proof.
  intros Ho Hmtu Hi Hu Hb Hlen Hv Hp Htl Hul Hci Hcu Hc Hcs. pose proof (zlen_nonneg data).
  set (iph' := iph <| checksum := c |>). set (udph' := udph <| udp_sum := cu |>).
  unfold process_device_udp_packet. rewrite Ho. cbn [negb].
  assert (Hlen1 : zlen (ipv4_bytes iph' ++ udp_bytes udph' ++ data) = 28 + zlen data).
  { rewrite !zlen_app, ipv4_bytes_len, udp_bytes_len. unfold IPV4_HEADER, UDP_HEADER. lia. }
  rewrite Hlen1. replace (0 <? 28 + zlen data) with true by lia.
  assert (Hb0 : (ipv4_bytes iph' ++ udp_bytes udph' ++ data) !! 0%nat = Some 69).
  { change (Some (version4_ihl4 iph mod 256) = Some 69). by rewrite Hv. }
  assert (Hb9 : (ipv4_bytes iph' ++ udp_bytes udph' ++ data) !! 9%nat = Some 17).
  { change (Some (protocol iph mod 256) = Some 17). by rewrite Hp. }
  rewrite Hb0. cbn [mbind option_bind]. change (69 ≫ 4 =? 4) with true. cbn iota.
  unfold IPV4_HEADER at 1. replace (28 + zlen data <? 20) with false by lia. rewrite Hb9. cbn [mbind option_bind].
  change (17 =? IPV4_PROTOCOL_UDP) with true. cbn [negb].
  pose proof (ipv4_check_built iph [] (udp_bytes udph' ++ data) [] c Hi) as Hchk.
  change (zlen (@nil Z)) with 0 in Hchk. rewrite app_nil_r, zlen_app, udp_bytes_len in Hchk.
  cbn [app] in Hchk. fold iph' in Hchk. rewrite !Z.add_0_r in Hchk. rewrite Hchk.
  2: constructor. 2: done. 2: lia. 2: lia. 2: done. 2: { rewrite Htl. f_equal. lia. }
  2: { replace (iph <| checksum := hton16 0 |>) with iph by (destruct iph; cbn in Hci; by subst). exact Hc. }
  cbn [mbind option_bind].
  rewrite (slice_app_r IPV4_HEADER) by (rewrite ?ipv4_bytes_len, ?zlen_app, ?udp_bytes_len; done).
  pose proof (udp_check_built udph' data []) as Hchk2. rewrite app_nil_r in Hchk2. rewrite Hchk2; cycle 1.
  { destruct Hu; split; try done. cbn.
    destruct (udp_checksum_spec udph data [] (source_address iph) (destination_address iph) Hb) as (f & Hf & _).
    { unfold IPV4_HEADER, UDP_HEADER, UINT16_MAX in *. lia. }
    rewrite app_nil_r, Hcs in Hf. injection Hf as ->. exact (hton16_range _). }
  { unfold IPV4_HEADER, UDP_HEADER, UINT16_MAX in *. lia. }
  { done. }
  cbn [mbind option_bind]. rewrite (slice_app_r UDP_HEADER) by (rewrite ?udp_bytes_len; done).
  replace (udph' <| udp_sum := 0 |>) with udph by (destruct udph; cbn in Hcu; by subst).
  change (source_address iph') with (source_address iph). change (destination_address iph') with (destination_address iph).
  rewrite Hcs. cbn [mbind option_bind]. change (udp_sum udph') with cu. rewrite Z.eqb_refl. cbn [negb mbind option_bind s_data].
  replace (udp_mtu <? zlen data) with false by lia. done.
Qed.

Lemma process_built_v6 o udp_mtu iph udph data cu :
  udpgw_remote_server_addr o = true -> netif_ip6addr o = true -> zlen data <= udp_mtu ->
  ip6_ok iph -> bytes_ok (source_address6 iph) -> bytes_ok (destination_address6 iph) ->
  udp_ok udph -> bytes_ok data -> UDP_HEADER + zlen data <= UINT16_MAX ->
  version4_tc4 iph = 96 -> next_header iph = IPV6_NEXT_UDP ->
  payload_length iph = hton16 (UDP_HEADER + zlen data) ->
  udp_len udph = hton16 (UDP_HEADER + zlen data) -> udp_sum udph = 0 ->
  udp_ip6_checksum udph data (zlen data) (source_address6 iph) (destination_address6 iph) = Some cu ->
  process_device_udp_packet o udp_mtu (ipv6_bytes iph ++ udp_bytes (udph <| udp_sum := cu |>) ++ data) =
  Some (Some (mk_sub (IPV6 (source_address6 iph) (source_port udph)) (IPV6 (destination_address6 iph) (dest_port udph))
                false data)).
Proof.
  intros Ho Ho6 Hmtu Hi Hbs Hbd Hu Hb Hlen Hv Hp Hpl Hul Hcu Hcs. pose proof (zlen_nonneg data).
  set (udph' := udph <| udp_sum := cu |>). pose proof (ipv6_bytes_len iph Hi) as Hil.
  unfold process_device_udp_packet. rewrite Ho. cbn [negb].
  assert (Hlen1 : zlen (ipv6_bytes iph ++ udp_bytes udph' ++ data) = 48 + zlen data).
  { rewrite !zlen_app, Hil, udp_bytes_len. unfold IPV6_HEADER, UDP_HEADER. lia. }
  rewrite Hlen1. replace (0 <? 48 + zlen data) with true by lia.
  assert (Hb0 : (ipv6_bytes iph ++ udp_bytes udph' ++ data) !! 0%nat = Some 96).
  { change (Some (version4_tc4 iph mod 256) = Some 96). by rewrite Hv. }
  assert (Hb6 : (ipv6_bytes iph ++ udp_bytes udph' ++ data) !! 6%nat = Some 17).
  { change (Some (next_header iph mod 256) = Some 17). by rewrite Hp. }
  rewrite Hb0. cbn [mbind option_bind]. change (96 ≫ 4 =? 4) with false. change (96 ≫ 4 =? 6) with true. cbn iota.
  rewrite Ho6. cbn [negb].
  unfold IPV6_HEADER at 1. replace (48 + zlen data <? 40) with false by lia. rewrite Hb6. cbn [mbind option_bind].
  change (17 =? IPV6_NEXT_UDP) with true. cbn [negb].
  pose proof (ipv6_check_built iph (udp_bytes udph' ++ data) [] Hi) as Hchk.
  rewrite app_nil_r, zlen_app, udp_bytes_len in Hchk. rewrite Hchk; [|by rewrite Hv|done|done].
  cbn [mbind option_bind].
  rewrite (slice_app_r IPV6_HEADER) by (rewrite ?Hil, ?zlen_app, ?udp_bytes_len; done).
  pose proof (udp_check_built udph' data []) as Hchk2. rewrite app_nil_r in Hchk2. rewrite Hchk2; cycle 1.
  { destruct Hu; split; try done. cbn.
    destruct (udp_ip6_checksum_spec udph data [] (source_address6 iph) (destination_address6 iph) Hb) as (f & Hf & _);
      [done|done|apply Hi|done|apply Hi|].
    rewrite app_nil_r, Hcs in Hf. injection Hf as ->. exact (hton16_range _). }
  { done. }
  { done. }
  cbn [mbind option_bind]. rewrite (slice_app_r UDP_HEADER) by (rewrite ?udp_bytes_len; done).
  replace (udph' <| udp_sum := 0 |>) with udph by (destruct udph; cbn in Hcu; by subst).
  rewrite Hcs. cbn [mbind option_bind]. change (udp_sum udph') with cu. rewrite Z.eqb_refl. cbn [negb mbind option_bind s_data].
  replace (udp_mtu <? zlen data) with false by lia. done.
Qed.

(** The packet that is built for a datagram, which the program parses back. *)
Definition built (o : options) (udp_mtu device_mtu : Z) (buf : bytes) (local remote : BAddr) (data : bytes) : Prop :=
  exists buf' p s, udpgw_client_handler_received o device_mtu buf local remote data = Some (buf', Some p) /\
    zlen buf' = device_mtu /\ zlen p = overhead local + zlen data /\
    process_device_udp_packet o udp_mtu p = Some (Some s) /\
    s_local s = remote /\ s_remote s = local /\ s_data s = data.

Lemma built_v4 o udp_mtu device_mtu buf lip lport rip rport data :
  udpgw_remote_server_addr o = true -> ip_ok (IPV4 lip lport) -> ip_ok (IPV4 rip rport) ->
  bytes_ok data -> zlen buf = device_mtu -> zlen data <= udp_mtu ->
  IPV4_HEADER + UDP_HEADER + zlen data <= device_mtu -> zlen data <= UINT16_MAX - (IPV4_HEADER + UDP_HEADER) ->
  built o udp_mtu device_mtu buf (IPV4 lip lport) (IPV4 rip rport) data.
Proof.
  intros Ho Hl Hr Hb Hbuf Hmtu Hdev Hmax. pose proof (zlen_nonneg data).
  unfold built, udpgw_client_handler_received. rewrite Ho. cbn [negb overhead].
  unfold IPV4_HEADER, UDP_HEADER, UINT16_MAX in Hdev, Hmax.
  unfold IPV4_HEADER at 1 2, UDP_HEADER at 1 2, UINT16_MAX.
  replace (_ || _) with false by (symmetry; apply orb_false_iff; split; b2p; lia).
  set (iph := mk_ip4 _ _ _ _ _ _ _ _ _ _). set (udph := mk_udp _ _ _ _).
  destruct (ipv4_checksum_spec iph [] []) as (v & Hc & Hv & _); [constructor|done|done|]. change (zlen []) with 0 in Hc.
  cbn [app] in Hc. rewrite Hc. cbn [mbind option_bind].
  change (source_address (iph <| checksum := hton16 v |>)) with rip.
  change (destination_address (iph <| checksum := hton16 v |>)) with lip.
  destruct (udp_checksum_spec udph data [] rip lip Hb) as (f & Hcu & _); [unfold UDP_HEADER; lia|].
  rewrite app_nil_r in Hcu. rewrite Hcu. cbn [mbind option_bind].
  destruct (write_all_3 (ipv4_bytes (iph <| checksum := hton16 v |>)) (udp_bytes (udph <| udp_sum := hton16 (65535 - f) |>))
    data buf IPV4_HEADER (IPV4_HEADER + UDP_HEADER)) as (b' & Hw & Hlb & Ht);
    [by rewrite ipv4_bytes_len|by rewrite udp_bytes_len|unfold IPV4_HEADER, UDP_HEADER; lia|].
  rewrite Hw. cbn [mbind option_bind]. rewrite Ht.
  eexists b', _, _. split; [done|]. split; [lia|].
  split; [by rewrite !zlen_app, ipv4_bytes_len, udp_bytes_len, Z.add_assoc|].
  destruct Hl as [Hli Hlp], Hr as [Hri Hrp].
  split; [|split; [|split]]; [apply (process_built_v4 o udp_mtu iph udph data)| | |]; try done.
  - split; cbn; try done; apply hton16_range.
  - split; cbn; try done; apply hton16_range.
  - unfold IPV4_HEADER, UDP_HEADER, UINT16_MAX. lia.
Qed.

Lemma built_v6 o udp_mtu device_mtu buf lip lport rip rport data :
  udpgw_remote_server_addr o = true -> ip_ok (IPV6 lip lport) -> ip_ok (IPV6 rip rport) ->
  bytes_ok lip -> bytes_ok rip -> netif_ip6addr o = true ->
  bytes_ok data -> zlen buf = device_mtu -> zlen data <= udp_mtu ->
  IPV6_HEADER + UDP_HEADER + zlen data <= device_mtu -> zlen data <= UINT16_MAX - UDP_HEADER ->
  built o udp_mtu device_mtu buf (IPV6 lip lport) (IPV6 rip rport) data.
Proof.
  intros Ho Hl Hr Hbl Hbr Hfe Hb Hbuf Hmtu Hdev Hmax. pose proof (zlen_nonneg data).
  unfold built, udpgw_client_handler_received. rewrite Ho. cbn [negb overhead].
  unfold IPV6_HEADER, UDP_HEADER, UINT16_MAX in Hdev, Hmax. rewrite Hfe. cbn [negb].
  unfold IPV6_HEADER at 1, UDP_HEADER at 1 2, UINT16_MAX.
  replace (_ || _) with false by (symmetry; apply orb_false_iff; split; b2p; lia).
  destruct Hl as [Hli Hlp], Hr as [Hri Hrp]. rewrite (take_ge lip), (take_ge rip) by lia.
  set (iph := mk_ip6 _ _ _ _ _ _ _ _). set (udph := mk_udp _ _ _ _).
  change (source_address6 iph) with rip. change (destination_address6 iph) with lip.
  assert (Hz1 : zlen rip = 16) by (unfold zlen; lia). assert (Hz2 : zlen lip = 16) by (unfold zlen; lia).
  destruct (udp_ip6_checksum_spec udph data [] rip lip Hb) as (f & Hcu & _); [unfold UDP_HEADER; lia|done..|].
  rewrite app_nil_r in Hcu. rewrite Hcu. cbn [mbind option_bind].
  assert (Hok : ip6_ok iph) by (split; cbn; try done; apply hton16_range).
  destruct (write_all_3 (ipv6_bytes iph) (udp_bytes (udph <| udp_sum := hton16 (65535 - f) |>))
    data buf IPV6_HEADER (IPV6_HEADER + UDP_HEADER)) as (b' & Hw & Hlb & Ht);
    [by rewrite ipv6_bytes_len|by rewrite udp_bytes_len|unfold IPV6_HEADER, UDP_HEADER; lia|].
  rewrite Hw. cbn [mbind option_bind]. rewrite Ht.
  eexists b', _, _. split; [done|]. split; [lia|].
  split; [by rewrite !zlen_app, ipv6_bytes_len, udp_bytes_len, Z.add_assoc|].
  split; [|split; [|split]]; [apply (process_built_v6 o udp_mtu iph udph data)| | |]; try done.
  - split; cbn; try done; apply hton16_range.
  - unfold UDP_HEADER, UINT16_MAX. lia.
Qed.

Lemma received_built o udp_mtu device_mtu buf local remote data :
  udpgw_remote_server_addr o = true -> ip_ok local -> ip_ok remote -> same_family local remote ->
  addr_bytes_ok local -> addr_bytes_ok remote -> family_enabled o local = true ->
  bytes_ok data -> zlen buf = device_mtu -> zlen data <= udp_mtu ->
  overhead local + zlen data <= device_mtu -> zlen data <= max_payload local ->
  built o udp_mtu device_mtu buf local remote data.
Proof.
  intros Ho Hl Hr Hf Hbl Hbr Hfe Hb Hbuf Hmtu Hdev Hmax.
  destruct local as [|lip lport|lip lport|], remote as [|rip rport|rip rport|]; try done;
    [by apply built_v4|by apply built_v6].
Qed.

(** ** Correctness *)

(** C25: a datagram from the relay that fits is written, inside the device write
    buffer, as one IP packet that the program's own parser takes for a datagram
    from [remote] to [local] with exactly that payload; one that does not fit, or
    of a family that is disabled, changes nothing and sends nothing. *)
Theorem udp_relay_roundtrip (o : options) (udp_mtu device_mtu : Z) (buf : bytes) (local remote : BAddr) (data : bytes)
  (Ho : udpgw_remote_server_addr o = true) (Hl : ip_ok local) (Hr : ip_ok remote) (Hf : same_family local remote)
  (Hbl : addr_bytes_ok local) (Hbr : addr_bytes_ok remote)
  (Hb : bytes_ok data) (Hbuf : zlen buf = device_mtu) (Hmtu : zlen data <= udp_mtu) :
  if family_enabled o local && (zlen data <=? max_payload local) && (overhead local + zlen data <=? device_mtu)
  then exists buf' p s, udpgw_client_handler_received o device_mtu buf local remote data = Some (buf', Some p) /\
    zlen buf' = device_mtu /\ zlen p = overhead local + zlen data /\
    process_device_udp_packet o udp_mtu p = Some (Some s) /\
    s_local s = remote /\ s_remote s = local /\ s_data s = data
  else udpgw_client_handler_received o device_mtu buf local remote data = Some (buf, None).
Proof.
  destruct (_ && _) eqn:E.
  - b2p. by apply received_built.
  - unfold udpgw_client_handler_received. rewrite Ho. cbn [negb].
    destruct local as [|lip lport|lip lport|], remote as [|rip rport|rip rport|]; try done;
      cbn [overhead max_payload family_enabled] in E.
    + cbn [andb] in E. destruct (_ || _) eqn:E2; [done|]. exfalso. b2p. apply andb_false_iff in E as [E|E]; b2p; lia.
    + destruct (netif_ip6addr o); cbn [negb andb] in *; [|done].
      destruct (_ || _) eqn:E2; [done|]. exfalso. b2p. apply andb_false_iff in E as [E|E]; b2p; lia.
Qed.

Definition options_example : options := mk_options true true true.

Lemma udp_relay_roundtrip_witness :
  (exists buf' p s, udpgw_client_handler_received options_example 100 (repeat 0 100)
     (IPV4 16777226 13568) (IPV4 33554442 20480) [1; 2; 3] = Some (buf', Some p) /\ zlen buf' = 100 /\ zlen p = 31 /\
     process_device_udp_packet options_example 72 p = Some (Some s) /\
     s_local s = IPV4 33554442 20480 /\ s_remote s = IPV4 16777226 13568 /\ s_data s = [1; 2; 3]) /\
  udpgw_client_handler_received options_example 30 (repeat 0 30)
     (IPV4 16777226 13568) (IPV4 33554442 20480) [1; 2; 3] = Some (repeat 0 30, None).
Proof.
  assert (Hb : bytes_ok [1; 2; 3]) by (repeat constructor; unfold byte_ok; lia).
  assert (H1 : ip_ok (IPV4 16777226 13568)) by (cbn; lia).
  assert (H2 : ip_ok (IPV4 33554442 20480)) by (cbn; lia).
  assert (Hm : zlen [1; 2; 3] <= 72) by (vm_compute; discriminate).
  split.
  - exact (udp_relay_roundtrip options_example 72 100 (repeat 0 100) (IPV4 16777226 13568) (IPV4 33554442 20480)
      [1; 2; 3] eq_refl H1 H2 eq_refl I I Hb eq_refl Hm).
  - exact (udp_relay_roundtrip options_example 72 30 (repeat 0 30) (IPV4 16777226 13568) (IPV4 33554442 20480)
      [1; 2; 3] eq_refl H1 H2 eq_refl I I Hb eq_refl Hm).
Defined.

End TunUdp.
