(* ===== verification/TcpRelay.v ===== *)
(** The relay of a TCP connection between lwIP and the SOCKS client: [struct
    tcp_client] and the [client_*] functions of [tun2socks/tun2socks.c].

    lwIP and the SOCKS connection are the environment.  Of the control block of
    lwIP the model keeps what its interface fixes: whether it still exists,
    which callbacks are set, and the receive window.  The results of lwIP
    calls ([tcp_close], [tcp_sndbuf], [tcp_write], [tcp_output]) are arguments
    of the actions.  Where a callback ends in [SYNC_COMMIT], any job of the
    client may run before it returns; the return is an action of its own.  Freed
    clients and dangling [dead_t] pointers are visible: using one is an error. *)

From S2P Require Import Prelude System Interfaces.

Module TcpRelay.

Definition TCP_WND : Z := 5840. (* 4 * TCP_MSS *)
Definition CLIENT_SOCKS_RECV_BUF_SIZE : Z := 8192.

(** The frame of a callback: its identity and its [badvpn__dead]. *)
Record frame := mk_frame { f_id : Z; f_dead : Z }.

Record tcp_client := mk_client {
  aborted : bool;
  dead_aborted : option Z;             (* the frame it points into *)
  client_closed : bool;
  buf : bytes;
  buf_used : Z;
  socks_up : bool;
  socks_closed : bool;
  socks_send_if : StreamPassInterface Z;
  socks_recv_if : StreamRecvInterface Z;
  socks_recv_buf : bytes;
  socks_recv_buf_used : Z;
  socks_recv_buf_sent : Z;
  socks_recv_waiting : bool;
  socks_recv_tcp_pending : Z;
  (* the memory of the client, and its place in tcp_clients and num_clients *)
  allocated : bool;
  listed : bool;
  (* lwIP: the control block, its callbacks and window *)
  pcb : bool;
  cb_err : bool;
  cb_recv : bool;
  cb_sent : bool;
  rcv_wnd : Z;
  (* BSocksClient is initialised *)
  socks_client : bool;
  (* the callback that is running, and the number of callbacks *)
  running : option frame;
  frames : Z
}.
#[export] Instance eta_client : Eta tcp_client := fun c =>
  mk_client (aborted c) (dead_aborted c) (client_closed c) (buf c) (buf_used c) (socks_up c) (socks_closed c)
    (socks_send_if c) (socks_recv_if c) (socks_recv_buf c) (socks_recv_buf_used c) (socks_recv_buf_sent c)
    (socks_recv_waiting c) (socks_recv_tcp_pending c) (allocated c) (listed c) (pcb c) (cb_err c) (cb_recv c)
    (cb_sent c) (rcv_wnd c) (socks_client c) (running c) (frames c).

Inductive write_result := WRITE_OK | WRITE_MEM | WRITE_ERR.

(** The results of the lwIP calls of a handler: of [tcp_close], of the rounds of
    [tcp_sndbuf] and [tcp_write] (no room when there are no more), and of
    [tcp_output]. *)
Record lwip := mk_lwip { close_ok : bool; writes : list (N * write_result); output_ok : bool }.

Inductive return_value := ERR_OK | ERR_ABRT | ERR_MEM.

Inductive event :=
  | FromClient (l : bytes)      (* data of the client that was accepted *)
  | ToSocks (l : bytes)         (* data the SOCKS connection took *)
  | FromSocks (l : bytes)       (* data the SOCKS connection delivered *)
  | ToClient (l : bytes)        (* data given to tcp_write *)
  | ClientEnd                   (* the client closed or failed *)
  | SocksEnd                    (* the SOCKS connection failed or was closed *)
  | Murder
  | Closed                      (* tcp_close *)
  | Aborted                     (* tcp_abort *)
  | Acked (n : Z)               (* the client confirmed data *)
  | Call                        (* lwIP calls a callback *)
  | Return (r : return_value)
  | Freed.

Local Abbreviation M := (M tcp_client event).

(** Access to the structure, which must not have been freed. *)
Definition client : M tcp_client := c ← get; assert (allocated c);; mret c.

(** ** lwIP *)

Definition tcp_err (on : bool) : M unit := c ← client; assert (pcb c);; cb_err ::= on.
Definition tcp_recv (on : bool) : M unit := c ← client; assert (pcb c);; cb_recv ::= on.
Definition tcp_sent (on : bool) : M unit := c ← client; assert (pcb c);; cb_sent ::= on.
Definition tcp_abort : M unit := c ← client; assert (pcb c);; pcb ::= false;; emit Aborted.
Definition tcp_close (ok : bool) : M bool :=
  c ← client; assert (pcb c);; when ok (pcb ::= false;; emit Closed);; mret ok.
Definition tcp_recved (n : Z) : M unit :=
  c ← client; assert (pcb c);; assert (rcv_wnd c + n <=? TCP_WND);; rcv_wnd ::= rcv_wnd c + n.

(** [misc/dead.h]: writing through the pointer needs the frame to be running. *)
Definition DEAD_KILL_WITH (v : Z) : M unit :=
  c ← client;
  match dead_aborted c with
  | None => mret tt
  | Some id =>
      f ← must (running c);
      assert (f_id f =? id);;
      running ::= Some (mk_frame (f_id f) v)
  end.
Definition DEAD_ENTER : M unit :=
  c ← client;
  assert (negb (bool_decide (is_Some (running c))));;
  running ::= Some (mk_frame (frames c) 0);;
  frames ::= frames c + 1;;
  dead_aborted ::= Some (frames c);;
  emit Call.
(** [DEAD_LEAVE2]: the client is used only if it was not killed. *)
Definition DEAD_LEAVE2 : M Z :=
  c ← get;
  f ← must (running c);
  when (f_dead f =? 0) (client;; dead_aborted ::= None);;
  running ::= None;;
  mret (f_dead f).

(** ** Teardown *)

Definition client_dealloc : M unit :=
  c ← client;
  assert (client_closed c);;
  assert (socks_closed c);;
  assert (listed c);;
  listed ::= false;;
  when (negb (aborted c)) (DEAD_KILL_WITH (-1));;
  allocated ::= false;;
  emit Freed.

Definition client_abort_pcb : M unit :=
  c ← client;
  assert (negb (aborted c));;
  tcp_abort;;
  aborted ::= true;;
  DEAD_KILL_WITH 1.

Definition BSocksClient_Free : M unit :=
  c ← client; assert (socks_client c);; socks_client ::= false.

Definition remove_callbacks : M unit := tcp_err false;; tcp_recv false;; tcp_sent false.

(** The three functions that call each other, with the depth of the calls. *)
Fixpoint client_handle_freed_client (n : nat) (w : lwip) : M unit :=
  match n with
  | O => ub
  | S n =>
      c ← client;
      assert (negb (client_closed c));;
      client_closed ::= true;;
      if (0 <? buf_used c) && negb (socks_closed c) then mret tt
      else if negb (socks_closed c) then client_free_socks n w
      else client_dealloc
  end
with client_free_client (n : nat) (w : lwip) : M unit :=
  match n with
  | O => ub
  | S n =>
      c ← client;
      assert (negb (client_closed c));;
      remove_callbacks;;
      ok ← tcp_close (close_ok w);
      when (negb ok) client_abort_pcb;;
      client_handle_freed_client n w
  end
with client_free_socks (n : nat) (w : lwip) : M unit :=
  match n with
  | O => ub
  | S n =>
      c ← client;
      assert (negb (socks_closed c));;
      when (socks_up c && negb (client_closed c)) (tcp_recv false);;
      BSocksClient_Free;;
      socks_closed ::= true;;
      if socks_up c && ((0 <=? socks_recv_buf_used c) || (0 <? socks_recv_tcp_pending c)) && negb (client_closed c)
      then mret tt
      else if negb (client_closed c) then client_free_client n w
      else client_dealloc
  end.
Definition DEPTH : nat := 4.

Definition client_abort_client (w : lwip) : M unit :=
  c ← client;
  assert (negb (client_closed c));;
  remove_callbacks;;
  client_abort_pcb;;
  client_handle_freed_client DEPTH w.

Definition client_murder : M unit :=
  c ← client;
  when (negb (client_closed c)) (
    remove_callbacks;;
    client_abort_pcb;;
    client_closed ::= true);;
  when (negb (socks_closed c)) (
    BSocksClient_Free;;
    socks_closed ::= true);;
  client_dealloc.

Definition client_err_func (w : lwip) : M unit :=
  c ← client;
  assert (negb (client_closed c));;
  client_handle_freed_client DEPTH w.

(** ** From the client to SOCKS *)

Definition client_send_to_socks : M unit :=
  c ← client;
  assert (negb (socks_closed c));;
  assert (socks_up c);;
  assert (0 <? buf_used c);;
  zoom socks_send_if (StreamPassInterface_Sender_Send 0 (buf_used c)).

(** [p] is the data, or NULL when the client closed. *)
Definition client_recv_func (w : lwip) (p : option bytes) : M unit :=
  c ← client;
  assert (negb (client_closed c));;
  DEAD_ENTER;;
  match p with
  | None => emit ClientEnd;; client_free_client DEPTH w
  | Some p =>
      assert (0 <? zlen p);;
      if TCP_WND - buf_used c <? zlen p then
        DEAD_LEAVE2;;
        emit (Return ERR_MEM)
      else
        b ← must (mem_write (buf_used c) p (buf c));
        buf ::= b;;
        buf_used ::= buf_used c + zlen p;;
        emit (FromClient p);;
        rcv_wnd ::= rcv_wnd c - zlen p;;
        when ((buf_used c + zlen p =? zlen p) && socks_up c) (
          assert (negb (socks_closed c));;
          client_send_to_socks)
  end.

Definition client_socks_send_handler_done (w : lwip) (data_len : Z) : M unit :=
  c ← client;
  assert (negb (socks_closed c));;
  assert (socks_up c);;
  assert (0 <? buf_used c);;
  assert (0 <? data_len);;
  assert (data_len <=? buf_used c);;
  l ← must (mem_read data_len (buf_used c - data_len) (buf c));
  b ← must (mem_write 0 l (buf c));
  buf ::= b;;
  buf_used ::= buf_used c - data_len;;
  when (negb (client_closed c)) (tcp_recved data_len);;
  if 0 <? buf_used c - data_len then
    zoom socks_send_if (StreamPassInterface_Sender_Send 0 (buf_used c - data_len))
  else when (client_closed c) (client_free_socks DEPTH w).

(** ** From SOCKS to the client *)

Definition client_socks_recv_initiate : M unit :=
  c ← client;
  assert (negb (client_closed c));;
  assert (negb (socks_closed c));;
  assert (socks_up c);;
  assert (socks_recv_buf_used c =? -1);;
  zoom socks_recv_if (StreamRecvInterface_Receiver_Recv 0 CLIENT_SOCKS_RECV_BUF_SIZE).

(** The loop that queues data; [false] is the end by [client_abort_client]. *)
Fixpoint send_loop (w : lwip) (rounds : list (N * write_result)) : M bool :=
  c ← client;
  let (sndbuf, res) := match rounds with [] => (0%N, WRITE_MEM) | r :: _ => r end in
  let to_write := Z.min (socks_recv_buf_used c - socks_recv_buf_sent c) (Z.of_N sndbuf) in
  if to_write =? 0 then mret true
  else
    l ← must (mem_read (socks_recv_buf_sent c) to_write (socks_recv_buf c));
    assert (pcb c);;
    match res with
    | WRITE_MEM => mret true
    | WRITE_ERR => client_abort_client w;; mret false
    | WRITE_OK =>
        emit (ToClient l);;
        socks_recv_buf_sent ::= socks_recv_buf_sent c + to_write;;
        socks_recv_tcp_pending ::= socks_recv_tcp_pending c + to_write;;
        if socks_recv_buf_sent c + to_write <? socks_recv_buf_used c then
          match rounds with [] => mret true | _ :: rounds => send_loop w rounds end
        else mret true
    end.

Definition client_socks_recv_send_out (w : lwip) : M bool :=
  c ← client;
  assert (negb (client_closed c));;
  assert (socks_up c);;
  assert (0 <? socks_recv_buf_used c);;
  assert (socks_recv_buf_sent c <? socks_recv_buf_used c);;
  assert (negb (socks_recv_waiting c));;
  ok ← send_loop w (writes w);
  if negb ok then mret false
  else
    c ← client;
    assert (pcb c);;
    if negb (output_ok w) then client_abort_client w;; mret false
    else if socks_recv_buf_sent c <? socks_recv_buf_used c then
      if socks_recv_tcp_pending c =? 0 then client_abort_client w;; mret false
      else socks_recv_waiting ::= true;; mret true
    else socks_recv_buf_used ::= -1;; mret true.

Definition client_socks_recv_handler_done (w : lwip) (data_len : Z) : M unit :=
  c ← client;
  assert (0 <? data_len);;
  assert (data_len <=? CLIENT_SOCKS_RECV_BUF_SIZE);;
  assert (negb (socks_closed c));;
  assert (socks_up c);;
  assert (socks_recv_buf_used c =? -1);;
  if client_closed c then mret tt
  else
    l ← must (mem_read 0 data_len (socks_recv_buf c));
    emit (FromSocks l);;
    socks_recv_buf_used ::= data_len;;
    socks_recv_buf_sent ::= 0;;
    socks_recv_waiting ::= false;;
    ok ← client_socks_recv_send_out w;
    if negb ok then mret tt
    else
      c ← client;
      when (socks_recv_buf_used c =? -1) client_socks_recv_initiate.

Definition client_sent_func (w : lwip) (len : Z) : M unit :=
  c ← client;
  assert (negb (client_closed c));;
  assert (socks_up c);;
  assert (0 <? len);;
  assert (len <=? socks_recv_tcp_pending c);;
  DEAD_ENTER;;
  socks_recv_tcp_pending ::= socks_recv_tcp_pending c - len;;
  emit (Acked len);;
  if 0 <? socks_recv_buf_used c then
    assert (socks_recv_waiting c);;
    assert (socks_recv_buf_sent c <? socks_recv_buf_used c);;
    socks_recv_waiting ::= false;;
    ok ← client_socks_recv_send_out w;
    if negb ok then mret tt
    else
      c ← client;
      assert (0 <? socks_recv_tcp_pending c);;
      when ((socks_recv_buf_used c =? -1) && negb (socks_closed c)) client_socks_recv_initiate
  else
    when (socks_closed c && (socks_recv_tcp_pending c - len =? 0)) (client_free_client DEPTH w).

(** ** SOCKS events *)

Inductive socks_event := SOCKS_ERROR | SOCKS_UP | SOCKS_ERROR_CLOSED.

Definition client_socks_handler (w : lwip) (e : socks_event) : M unit :=
  c ← client;
  assert (negb (socks_closed c));;
  match e with
  | SOCKS_ERROR => emit SocksEnd;; client_free_socks DEPTH w
  | SOCKS_UP =>
      assert (negb (socks_up c));;
      socks_send_if ::= StreamPassInterface_Init;;
      zoom socks_send_if StreamPassInterface_Sender_Init;;
      socks_recv_if ::= StreamRecvInterface_Init;;
      zoom socks_recv_if StreamRecvInterface_Receiver_Init;;
      socks_recv_buf_used ::= -1;;
      socks_recv_tcp_pending ::= 0;;
      when (negb (client_closed c)) (tcp_sent true);;
      socks_up ::= true;;
      when (0 <? buf_used c) client_send_to_socks;;
      when (negb (client_closed c)) client_socks_recv_initiate
  | SOCKS_ERROR_CLOSED => assert (socks_up c);; emit SocksEnd;; client_free_socks DEPTH w
  end.

(** ** Accepting a connection

    [mem] is the memory [malloc] returned: its contents are arbitrary.
    [socks_ok] is the result of [BSocksClient_Init]; [false] is [ERR_MEM].
    The connection is accepted inside a callback of its own. *)
Definition listener_accept_func (mem : option tcp_client) (socks_ok : bool) : option (tcp_client * bool) :=
  match mem with
  | None => None
  | Some c =>
      if negb socks_ok then Some (c <| allocated := false |>, false)
      else
        Some (mk_client false (Some 0) false (buf c) 0 false false (socks_send_if c) (socks_recv_if c)
                (socks_recv_buf c) (socks_recv_buf_used c) (socks_recv_buf_sent c) (socks_recv_waiting c)
                (socks_recv_tcp_pending c) true true true true true false TCP_WND true
                (Some (mk_frame 0 0)) 1, true)
  end.

(** ** The environment *)

Inductive action :=
  | RecvCallback (w : lwip) (p : option bytes)
  | SentCallback (w : lwip) (len : Z)
  | ErrCallback (w : lwip)
  | CallbackReturns
  | SocksEvent (w : lwip) (e : socks_event)
  | SendStarts
  | SendTakes (k : Z)
  | SendDone (w : lwip)
  | RecvStarts
  | RecvGives (data : bytes)
  | RecvDone (w : lwip)
  | Murdered.

Definition exec_action (a : action) : M unit :=
  match a with
  | RecvCallback w p => client_recv_func w p
  | SentCallback w len => client_sent_func w len
  | ErrCallback w => pcb ::= false;; emit ClientEnd;; client_err_func w
  | CallbackReturns =>
      killed ← DEAD_LEAVE2;
      emit (Return (if 0 <? killed then ERR_ABRT else ERR_OK))
  | SocksEvent w e => client_socks_handler w e
  | SendStarts => _ ← zoom socks_send_if StreamPassInterface_job_operation; mret tt
  | SendTakes k =>
      c ← client;
      p ← must (sp_job_operation_data (socks_send_if c));
      l ← must (mem_read p k (buf c));
      emit (ToSocks l);;
      zoom socks_send_if (StreamPassInterface_Done k)
  | SendDone w => k ← zoom socks_send_if StreamPassInterface_job_done; client_socks_send_handler_done w k
  | RecvStarts => _ ← zoom socks_recv_if StreamRecvInterface_job_operation; mret tt
  | RecvGives data =>
      c ← client;
      p ← must (sr_job_operation_data (socks_recv_if c));
      b ← must (mem_write p data (socks_recv_buf c));
      socks_recv_buf ::= b;;
      zoom socks_recv_if (StreamRecvInterface_Done (zlen data))
  | RecvDone w => k ← zoom socks_recv_if StreamRecvInterface_job_done; client_socks_recv_handler_done w k
  | Murdered => emit Murder;; client_murder
  end.

Definition action_enabled (c : tcp_client) (a : action) : bool :=
  let callback := pcb c && negb (bool_decide (is_Some (running c))) in
  let socks := socks_client c && socks_up c in
  match a with
  | RecvCallback _ (Some p) => callback && cb_recv c && (0 <? zlen p)
  | RecvCallback _ None => callback && cb_recv c
  | SentCallback _ len => callback && cb_sent c && (0 <? len) && (len <=? socks_recv_tcp_pending c)
  | ErrCallback _ => callback && cb_err c
  | CallbackReturns => bool_decide (is_Some (running c))
  | SocksEvent _ SOCKS_UP => socks_client c && negb (socks_up c)
  | SocksEvent _ SOCKS_ERROR => socks_client c
  | SocksEvent _ SOCKS_ERROR_CLOSED => socks
  | SendStarts => socks && st_eq (sp_state (socks_send_if c)) OPERATION_PENDING
  | SendTakes k => socks && st_eq (sp_state (socks_send_if c)) BUSY && (0 <? k)
                   && (k <=? sp_job_operation_len (socks_send_if c))
  | SendDone _ => socks && st_eq (sp_state (socks_send_if c)) DONE_PENDING
  | RecvStarts => socks && st_eq (sr_state (socks_recv_if c)) OPERATION_PENDING
  | RecvGives data => socks && st_eq (sr_state (socks_recv_if c)) BUSY && (0 <? zlen data)
                      && (zlen data <=? sr_job_operation_len (socks_recv_if c))
  | RecvDone _ => socks && st_eq (sr_state (socks_recv_if c)) DONE_PENDING
  | Murdered => allocated c && negb (bool_decide (is_Some (running c)))
  end.
#[export] Instance relay_system : System tcp_client action event :=
  {| enabled := action_enabled; exec := exec_action |}.

(** ** What the environment sees

    The history of a connection, kept by a monitor of the events. *)

Record history := mk_history {
  from_client : bytes;    (* accepted from the client *)
  to_socks : bytes;       (* taken by the SOCKS connection *)
  from_socks : bytes;     (* delivered by the SOCKS connection *)
  to_client : bytes;      (* given to tcp_write *)
  acked : Z;              (* confirmed by the client *)
  client_end : bool;      (* the client closed or failed first *)
  cut : bool;             (* the SOCKS connection ended, or a murder *)
  closed : bool;          (* tcp_close was done *)
  freed : bool;
  call_aborted : bool;    (* tcp_abort in the last callback or after it *)
  returns_ok : bool       (* ERR_ABRT was returned exactly after tcp_abort *)
}.
#[export] Instance eta_history : Eta history := fun h =>
  mk_history (from_client h) (to_socks h) (from_socks h) (to_client h) (acked h) (client_end h) (cut h)
    (closed h) (freed h) (call_aborted h) (returns_ok h).

Definition no_history : history := mk_history [] [] [] [] 0 false false false false false true.

Definition note (h : history) (e : event) : history :=
  match e with
  | FromClient l => h <| from_client := from_client h ++ l |>
  | ToSocks l => h <| to_socks := to_socks h ++ l |>
  | FromSocks l => h <| from_socks := from_socks h ++ l |>
  | ToClient l => h <| to_client := to_client h ++ l |>
  | Acked n => h <| acked := acked h + n |>
  | ClientEnd => h <| client_end := true |>
  | SocksEnd => h <| cut := true |>
  | Murder => h <| cut := true |> <| client_end := true |>
  | Closed => h <| closed := true |>
  | Freed => h <| freed := true |>
  | Call => h <| call_aborted := false |>
  | Aborted => h <| call_aborted := true |>
  | Return r =>
      h <| returns_ok := returns_ok h
             && Bool.eqb (match r with ERR_ABRT => true | _ => false end) (call_aborted h) |>
  end.
Definition history_of (tr : list event) : history := foldl note no_history tr.

(** ** The invariant *)

(** Nothing more will be sent to the client, and it has confirmed everything. *)
Definition all_to_client (h : history) : Prop :=
  to_client h = from_socks h /\ acked h = zlen (to_client h).

Record history_ok (h : history) : Prop := {
  h_socks : to_socks h `prefix_of` from_client h;
  h_client : to_client h `prefix_of` from_socks h;
  h_closed : closed h = true -> client_end h = true \/ all_to_client h;
  h_returns : returns_ok h = true
}.

Definition dead_ok (h : history) (c : tcp_client) : Prop :=
  match running c with
  | Some f => dead_aborted c = Some (f_id f) /\ f_dead f = (if aborted c then 1 else 0) /\ call_aborted h = aborted c
  | None => dead_aborted c = None \/ aborted c = true
  end.

Record core (h : history) (c : tcp_client) : Prop := {
  c_alloc : allocated c = true;
  c_listed : listed c = true;
  c_socks : socks_client c = negb (socks_closed c);
  c_buf : zlen (buf c) = TCP_WND;
  c_rbuf : zlen (socks_recv_buf c) = CLIENT_SOCKS_RECV_BUF_SIZE;
  c_used : 0 <= buf_used c <= TCP_WND;
  c_dead : dead_ok h c;
  c_freed : freed h = false;
  c_hist : history_ok h
}.

(** The bytes for SOCKS: taken already, or the first [buf_used] of the buffer,
    less the ones of a completed operation. *)
Definition sending (h : history) (c : tcp_client) (ph : phase Z) : Prop :=
  match ph with
  | Idle => buf_used c = 0 /\ from_client h = to_socks h
  | Op d n | Busy d n =>
      d = 0 /\ 0 < n <= buf_used c /\ from_client h = to_socks h ++ slice 0 (buf_used c) (buf c)
  | Done d n k =>
      d = 0 /\ 0 < k <= n /\ n <= buf_used c /\
      from_client h = to_socks h ++ slice k (buf_used c - k) (buf c)
  end.
Definition send_ok (h : history) (c : tcp_client) : Prop :=
  if socks_closed c then cut h = true \/ to_socks h = from_client h
  else if socks_up c then exists ph, sp_is ph (socks_send_if c) /\ sending h c ph
  else to_socks h = [] /\ from_client h = slice 0 (buf_used c) (buf c).

(** The bytes for the client: given to [tcp_write] already, or those between
    [socks_recv_buf_sent] and [socks_recv_buf_used].  [mid] is the state while
    they are being queued. *)
Definition receiving (mid : bool) (c : tcp_client) (ph : phase Z) : Prop :=
  match ph with
  | Idle => socks_recv_buf_used c = -1 -> client_closed c = true \/ mid = true
  | Op d n | Busy d n | Done d n _ =>
      socks_recv_buf_used c = -1 /\ d = 0 /\ n = CLIENT_SOCKS_RECV_BUF_SIZE /\ mid = false
  end.
Definition recv_buf_ok (mid : bool) (h : history) (c : tcp_client) : Prop :=
  (socks_recv_buf_used c = -1 /\ from_socks h = to_client h) \/
  (0 <= socks_recv_buf_sent c <= socks_recv_buf_used c /\
   (mid = false -> client_closed c = false -> socks_recv_buf_sent c < socks_recv_buf_used c) /\
   0 < socks_recv_buf_used c <= CLIENT_SOCKS_RECV_BUF_SIZE /\
   from_socks h = to_client h ++
     slice (socks_recv_buf_sent c) (socks_recv_buf_used c - socks_recv_buf_sent c) (socks_recv_buf c)).
Definition recv_ok (mid : bool) (h : history) (c : tcp_client) : Prop :=
  if socks_up c then
    recv_buf_ok mid h c /\
    (socks_closed c = false -> exists ph, sr_is ph (socks_recv_if c) /\ receiving mid c ph)
  else from_socks h = [] /\ to_client h = [] /\ acked h = 0.

(** While the client is connected: its callbacks, its window, and what it
    still has to confirm. *)
Record connected (mid : bool) (h : history) (c : tcp_client) : Prop := {
  n_pcb : pcb c = true;
  n_aborted : aborted c = false;
  n_err : cb_err c = true;
  n_recv : cb_recv c = negb (socks_closed c);
  n_sent : cb_sent c = socks_up c;
  n_wnd : rcv_wnd c + buf_used c = TCP_WND;
  n_closed : closed h = false;
  n_pending : socks_up c = true ->
    zlen (to_client h) = acked h + socks_recv_tcp_pending c /\ 0 <= socks_recv_tcp_pending c;
  n_waiting : socks_up c = true -> mid = false -> 0 <= socks_recv_buf_used c ->
    socks_recv_waiting c = true /\ 0 < socks_recv_tcp_pending c;
  n_last : mid = false -> socks_closed c = true -> socks_up c = true /\ 0 < socks_recv_tcp_pending c
}.

Record alive (mid : bool) (h : history) (c : tcp_client) : Prop := {
  a_core : core h c;
  a_send : send_ok h c;
  a_recv : recv_ok mid h c;
  a_conn : if client_closed c then pcb c = false /\ socks_closed c = false /\ 0 < buf_used c
           else connected mid h c
}.

Record gone (h : history) (c : tcp_client) : Prop := {
  g_pcb : pcb c = false;
  g_socks : socks_client c = false;
  g_listed : listed c = false;
  g_frame : match running c with Some f => f_dead f = (if call_aborted h then 1 else -1) | None => True end;
  g_freed : freed h = true;
  g_hist : history_ok h;
  g_end : cut h = true \/ to_socks h = from_client h
}.

Definition inv (h : history) (c : tcp_client) : Prop :=
  if allocated c then alive false h c else gone h c.

(** ** Teardown *)

#[local] Arguments sp_is : simpl never.
#[local] Arguments sr_is : simpl never.
#[local] Arguments prefix : simpl never.

(** The state and the history taken apart, and the code run up to the next
    branch. *)
Ltac fields :=
  cbn [aborted dead_aborted client_closed buf buf_used socks_up socks_closed socks_send_if socks_recv_if
    socks_recv_buf socks_recv_buf_used socks_recv_buf_sent socks_recv_waiting socks_recv_tcp_pending allocated
    listed pcb cb_err cb_recv cb_sent rcv_wnd socks_client running frames from_client to_socks from_socks to_client
    acked client_end cut closed freed call_aborted returns_ok f_id f_dead negb andb orb] in *.
Ltac norm := cbn [note]; unfold upd; fields; cbn beta iota.
Ltac hgo :=
  repeat (lazymatch goal with
  | |- wph _ (assert _) _ _ _ => apply wph_assert; [solve [mside]|]
  | |- wph _ (must _) _ _ _ =>
      eapply wph_must; [solve [mside | apply mem_write_Some; zlia | apply mem_read_Some; zlia]|]
  | |- wph _ client _ _ _ => unfold client
  | |- wph _ (when true _) _ _ _ => cbn [when]
  | |- wph _ (when false _) _ _ _ => cbn [when]
  | |- wph _ (when _ _) _ _ _ => fail
  | |- wph _ (if true then _ else _) _ _ _ => cbn iota
  | |- wph _ (if false then _ else _) _ _ _ => cbn iota
  | |- wph _ (if _ then _ else _) _ _ _ => fail
  | |- wph _ (zoom _ _) _ _ _ => fail
  | |- wph _ _ _ _ _ => hstep
  end; norm).

Lemma client_dealloc_ok h c :
  core h c -> client_closed c = true -> socks_closed c = true -> pcb c = false ->
  cut h = true \/ to_socks h = from_client h ->
  wph note client_dealloc (fun _ => inv) h c.
Proof.
  intros [? ? Hs _ _ _ Hd _ [? ? ? ?]] Hc Hsc Hp He. destruct c, h. fields. subst.
  unfold client_dealloc, DEAD_KILL_WITH, dead_ok in *. fields. hgo.
  destruct running0 as [[f d]|]; fields.
  - destruct Hd as (-> & -> & ->). destruct aborted0; cbn [negb]; hgo; constructor; fields; done.
  - destruct Hd as [->| ->]; [destruct aborted0|]; cbn [negb]; hgo; constructor; fields; done.
Qed.

Lemma client_free_socks_closed_ok n w h c :
  core h c -> client_closed c = true -> socks_closed c = false -> pcb c = false ->
  cut h = true \/ to_socks h = from_client h ->
  wph note (client_free_socks (S n) w) (fun _ => inv) h c.
Proof.
  intros [? ? Hs ? ? ? Hd ? ?] Hc Hsc Hp He. destruct c, h. fields. subst.
  cbn [client_free_socks]. unfold BSocksClient_Free. hgo. rewrite andb_false_r. hgo.
  rewrite andb_false_r. hgo. apply client_dealloc_ok; fields; try done.
Qed.

Lemma send_ok_empty h c : send_ok h c -> buf_used c <= 0 -> socks_closed c = false -> to_socks h = from_client h.
Proof.
  unfold send_ok, sending. intros H Hu Hs. rewrite Hs in H. destruct (socks_up c).
  - destruct H as (ph & _ & H). destruct ph; [by destruct H|lia..].
  - destruct H as [-> ->]. unfold slice. by replace (Z.to_nat (buf_used c)) with 0%nat by lia.
Qed.

(** The relay may close the client, or the client is lost. *)
Lemma client_handle_freed_client_ok mid n w h c :
  core h c -> client_closed c = false -> pcb c = false -> send_ok h c -> recv_ok mid h c ->
  wph note (client_handle_freed_client (S (S n)) w) (fun _ => inv) h c.
Proof.
  intros Hcore Hc Hp Hsend Hrecv. destruct c, h. fields. subst.
  assert (Hcore' := Hcore). destruct Hcore' as [? ? Hs ? ? ? Hd ? ?]. fields. subst.
  cbn [client_handle_freed_client]. hgo. hstep.
  { b2p. destruct socks_closed0; [done|]. hgo. unfold inv. fields.
    constructor; fields; [by destruct Hcore; constructor|done| |done].
    unfold recv_ok, recv_buf_ok in *. fields. destruct socks_up0; [|done].
    destruct Hrecv as [H1 H2]. split.
    { destruct H1 as [?|(? & ? & ? & ?)]; [by left|right]. done. }
    intros _. destruct (H2 eq_refl) as (ph & ? & Hr). exists ph. split; [done|].
    destruct ph; [intros _; by left|by destruct Hr as (? & ? & ? & _)..]. }
  destruct socks_closed0; fields; hgo.
  - by apply client_dealloc_ok.
  - rewrite andb_true_r in *. b2p.
    apply client_free_socks_closed_ok; fields; try done.
    right. by apply (send_ok_empty _ _ Hsend).
Qed.

(** The control block is given up, before the client is marked closed. *)
Definition detached (mid : bool) (h : history) (c : tcp_client) : Prop :=
  core h c /\ client_closed c = false /\ pcb c = false /\ send_ok h c /\ recv_ok mid h c.

Lemma client_abort_pcb_ok mid h c (Q : unit -> history -> tcp_client -> Prop) :
  core h c -> client_closed c = false -> pcb c = true -> aborted c = false ->
  send_ok h c -> recv_ok mid h c ->
  (forall h' c', detached mid h' c' -> Q tt h' c') ->
  wph note client_abort_pcb Q h c.
Proof.
  intros Hcore Hc Hp Ha Hsend Hrecv HQ. destruct c, h. fields. subst.
  destruct Hcore as [? ? Hs ? ? ? Hd ? [? ? ? ?]]. fields. subst.
  unfold client_abort_pcb, tcp_abort, DEAD_KILL_WITH, dead_ok in *. fields. hgo.
  destruct running0 as [[f d]|]; fields.
  - destruct Hd as (-> & -> & ->). hgo. apply HQ. split; [constructor; fields; done|done].
  - destruct Hd as [->|?]; [|done]. hgo.
    apply HQ. split; [constructor; fields; try done; by right|done].
Qed.

Lemma client_free_client_ok mid n w h c :
  core h c -> client_closed c = false -> pcb c = true -> aborted c = false ->
  send_ok h c -> recv_ok mid h c -> client_end h = true \/ all_to_client h ->
  wph note (client_free_client (S (S (S n))) w) (fun _ => inv) h c.
Proof.
  intros Hcore Hc Hp Ha Hsend Hrecv He. destruct c, h. fields. subst.
  assert (Hcore' := Hcore). destruct Hcore' as [? ? Hs ? ? ? Hd ? [? ? ? ?]]. fields. subst.
  cbn [client_free_client]. unfold remove_callbacks, tcp_err, tcp_recv, tcp_sent, tcp_close. hgo.
  destruct (close_ok w); cbn [negb]; hgo.
  - by apply (client_handle_freed_client_ok mid).
  - apply (client_abort_pcb_ok mid); fields; try done.
    intros h' c' (? & ? & ? & ? & ?). by apply (client_handle_freed_client_ok mid).
Qed.

Lemma client_abort_client_ok mid w h c :
  core h c -> client_closed c = false -> pcb c = true -> aborted c = false ->
  send_ok h c -> recv_ok mid h c ->
  wph note (client_abort_client w) (fun _ => inv) h c.
Proof.
  intros Hcore Hc Hp Ha Hsend Hrecv. destruct c, h. fields. subst.
  assert (Hcore' := Hcore). destruct Hcore'. fields. subst.
  unfold client_abort_client, remove_callbacks, tcp_err, tcp_recv, tcp_sent. hgo.
  apply (client_abort_pcb_ok mid); fields; try done.
  intros h' c' (? & ? & ? & ? & ?). by apply (client_handle_freed_client_ok mid).
Qed.

(** The SOCKS connection ended, or is not needed any more. *)
Lemma client_free_socks_ok w h c :
  alive false h c -> socks_closed c = false -> cut h = true ->
  wph note (client_free_socks DEPTH w) (fun _ => inv) h c.
Proof.
  intros [Hcore Hsend Hrecv Hconn] Hsc Hcut. destruct c, h. fields. subst.
  assert (Hcore' := Hcore). destruct Hcore' as [? ? Hs ? ? ? Hd ? [? ? ? ?]]. fields. subst.
  unfold DEPTH. destruct client_closed0; fields.
  { apply client_free_socks_closed_ok; fields; try done; [by destruct Hconn|by left]. }
  destruct Hconn as [? ? ? ? ? ? ? Hpend Hwait ?]. fields. subst.
  cbn [client_free_socks]. unfold BSocksClient_Free, tcp_recv. fields. hgo.
  destruct socks_up0; fields; hgo.
  - rewrite andb_true_r. hstep.
    + hgo. unfold inv. fields. constructor; fields; try done; [by left|..].
      * destruct Hrecv as [Hr _]. split; [exact Hr|done].
      * constructor; fields; try done. intros _ _. split; [done|]. specialize (Hpend eq_refl).
        b2p. destruct (decide (0 < socks_recv_tcp_pending0)) as [|Hn]; [done|].
        apply Hwait; try done. apply orb_true_iff in H as [?|?]; b2p; lia.
    + hgo. apply orb_false_iff in H as [? ?]. b2p.
      apply (client_free_client_ok false); fields; try done; [by left|..].
      * destruct Hrecv as [Hr _]. split; [exact Hr|done].
      * right. destruct Hrecv as [[[? Hr]|(? & ? & ? & _)] _]; fields; [|lia]. split; [done|]. fields.
        destruct (Hpend eq_refl). lia.
  - hgo. destruct Hrecv as (? & ? & ?). fields. subst.
    apply (client_free_client_ok false); fields; try done; [by left|by right].
Qed.


(** ** From the client to SOCKS *)

Lemma send_up h c : send_ok h c -> socks_closed c = false -> socks_up c = true ->
  exists ph, sp_is ph (socks_send_if c) /\ sending h c ph.
Proof. unfold send_ok. intros H Hs Hu. by rewrite Hs, Hu in H. Qed.

(** The open connection of a live client takes its data apart. *)
Ltac open_client H :=
  destruct H as [Hcore Hsend Hrecv Hconn];
  match goal with |- wph _ _ _ ?h ?c => destruct c, h end; fields; subst;
  assert (Hcore' := Hcore); destruct Hcore' as [? ? Hs ? ? ? Hd ? [? ? ? ?]]; fields; subst.

Lemma client_send_to_socks_ok h c (Q : unit -> history -> tcp_client -> Prop) :
  allocated c = true -> socks_closed c = false -> socks_up c = true -> 0 < buf_used c ->
  sp_is Idle (socks_send_if c) ->
  (forall i, sp_is (Op 0 (buf_used c)) i -> Q tt h (c <| socks_send_if := i |>)) ->
  wph note client_send_to_socks Q h c.
Proof.
  intros Ha Hs Hu Hb Hi HQ. unfold client_send_to_socks, client.
  repeat (hstep; rewrite ?Ha, ?Hs, ?Hu; try done); [by b2p|].
  eapply wp_sp_send; [exact Hi|exact Hb|exact HQ].
Qed.

Lemma mid_more (l1 l2 l : bytes) k n (b : bytes) :
  l1 = l2 ++ slice k (n - k) b -> 0 <= k <= n -> n + zlen l <= zlen b ->
  l1 ++ l = l2 ++ slice k (n + zlen l - k) (splice n l b).
Proof.
  intros -> Hn Hl. pose proof (zlen_nonneg l).
  replace (n + zlen l - k) with (n - k + zlen l) by lia.
  rewrite slice_split; rewrite ?zlen_splice; try lia.
  rewrite slice_splice_before by lia. replace (k + (n - k)) with n by lia.
  rewrite slice_splice_same by lia. by rewrite app_assoc.
Qed.
Lemma mid_more0 (l1 l2 l : bytes) n (b : bytes) :
  l1 = l2 ++ slice 0 n b -> 0 <= n -> n + zlen l <= zlen b ->
  l1 ++ l = l2 ++ slice 0 (n + zlen l) (splice n l b).
Proof.
  intros H1 Hn Hl. replace (n + zlen l) with (n + zlen l - 0) by lia. apply mid_more; [|lia..].
  by rewrite Z.sub_0_r.
Qed.

Lemma recv_callback_ok w p h c :
  alive false h c -> action_enabled c (RecvCallback w (Some p)) = true ->
  wph note (client_recv_func w (Some p)) (fun _ => inv) h c.
Proof.
  intros Ha He. open_client Ha. unfold action_enabled in He. fields. b2p. subst.
  destruct client_closed0; [by destruct Hconn|]. destruct Hconn as [? ? ? ? ? ? ? ? ? ?]. fields. subst.
  destruct socks_closed0; [done|]. destruct running0 as [f|]; [exfalso; eauto|].
  destruct Hd as [Hd|?]; [|done]. fields. subst.
  unfold client_recv_func, DEAD_ENTER, DEAD_LEAVE2. hgo. hstep.
  { hgo. unfold inv. fields. constructor; fields; try done.
    constructor; fields; try done. by left. }
  b2p.
  assert (Hz : zlen (splice buf_used0 p buf0) = TCP_WND) by (rewrite zlen_splice; lia).
  assert (Hh : forall l, to_socks0 `prefix_of` from_client0 ++ l) by (intros; by apply prefix_app_r).
  hgo. apply wph_when; intros Hw.
  - apply andb_true_iff in Hw as [Hw ?]. subst. b2p. hgo.
    assert (buf_used0 = 0) by lia. subst.
    destruct (send_up _ _ Hsend) as (ph & Hph & Hse); [done..|].
    destruct ph; cbn [sending] in Hse; fields; [|lia..]. destruct Hse as [_ ->].
    apply client_send_to_socks_ok; fields; try done.
    intros i Hi. norm. hgo. unfold inv. fields. constructor; fields; try done.
    + constructor; fields; try done; [lia|]. constructor; fields; try done.
    + exists (Op 0 (0 + zlen p)). split; [done|]. split; [done|]. fields. split; [lia|].
      f_equal. symmetry. by rewrite slice_splice_same by lia.
    + constructor; fields; try done. lia.
  - hgo. unfold inv. fields. constructor; fields; try done.
    + constructor; fields; try done; [lia|]. constructor; fields; try done.
    + unfold send_ok in *. fields. destruct socks_up0.
      * destruct Hsend as (ph & ? & Hse). exists ph. split; [done|].
        rewrite andb_true_r in Hw. b2p.
        destruct ph; cbn [sending] in *; fields; [lia|..].
        -- destruct Hse as (? & ? & ?). split; [done|]. split; [lia|]. apply mid_more0; [done|lia..].
        -- destruct Hse as (? & ? & ?). split; [done|]. split; [lia|]. apply mid_more0; [done|lia..].
        -- destruct Hse as (? & ? & ? & ?). do 3 (split; [lia|]). apply mid_more; [done|lia..].
      * destruct Hsend as [-> ->]. split; [done|].
        apply (mid_more0 _ [] p buf_used0 buf0); [done|lia..].
    + constructor; fields; try done. lia.
Qed.

Lemma close_callback_ok w h c :
  alive false h c -> action_enabled c (RecvCallback w None) = true ->
  wph note (client_recv_func w None) (fun _ => inv) h c.
Proof.
  intros Ha He. open_client Ha. unfold action_enabled in He. fields. b2p. subst.
  destruct client_closed0; [by destruct Hconn|]. destruct Hconn as [? ? ? ? ? ? ? ? ? ?]. fields. subst.
  destruct socks_closed0; [done|]. destruct running0 as [f|]; [exfalso; eauto|].
  unfold client_recv_func, DEAD_ENTER. hgo.
  apply (client_free_client_ok false); fields; try done. by left.
Qed.

Lemma err_callback_ok w h c :
  alive false h c -> action_enabled c (ErrCallback w) = true ->
  wph note (exec_action (ErrCallback w)) (fun _ => inv) h c.
Proof.
  intros Ha He. open_client Ha. unfold action_enabled in He. fields. b2p. subst.
  destruct client_closed0; [by destruct Hconn|]. destruct Hconn as [? ? ? ? ? ? ? ? ? ?]. fields. subst.
  cbn [exec_action]. unfold client_err_func. hgo.
  apply (client_handle_freed_client_ok false); fields; try done.
Qed.

(** A phase of the send interface, from the test of its state. *)
Lemma send_phase h c s :
  send_ok h c -> socks_closed c = false -> socks_up c && st_eq (sp_state (socks_send_if c)) s = true ->
  exists ph, sp_is ph (socks_send_if c) /\ sending h c ph /\ phase_state ph = s.
Proof.
  intros Hs Hc [Hu He]%andb_true_iff. destruct (send_up _ _ Hs Hc Hu) as (ph & Hi & Hse).
  exists ph. split; [done|]. split; [done|]. by eapply sp_phase.
Qed.

(** A change of the send interface only. *)
Lemma set_send_if mid h c i :
  alive mid h c -> send_ok h (c <| socks_send_if := i |>) -> alive mid h (c <| socks_send_if := i |>).
Proof.
  intros [[? ? ? ? ? ? ? ? ?] ? ? Hc] Hs. destruct c. constructor; [constructor; done|done|done|].
  fields. destruct client_closed0; [done|]. destruct Hc. constructor; done.
Qed.

Lemma send_starts_ok h c :
  alive false h c -> action_enabled c SendStarts = true ->
  wph note (exec_action SendStarts) (fun _ => inv) h c.
Proof.
  intros Ha He. unfold action_enabled in He. rewrite <- andb_assoc in He. apply andb_true_iff in He as [Hc He].
  rewrite (c_socks _ _ (a_core _ _ _ Ha)) in Hc. apply negb_true_iff in Hc.
  destruct (send_phase _ _ _ (a_send _ _ _ Ha) Hc He) as (ph & Hi & Hse & Hp). apply andb_true_iff in He as [Hu _].
  destruct ph; try done. cbn [exec_action]. hstep. hstep.
  eapply wp_sp_job_op; [exact Hi|]. intros i Hi'. cbn [foldl]. hstep.
  unfold inv. change (allocated (c <|socks_send_if := i|>)) with (allocated c).
  rewrite (c_alloc _ _ (a_core _ _ _ Ha)). apply set_send_if; [done|].
  unfold send_ok. unfold upd; fields. rewrite Hc, Hu. by exists (Busy d n).
Qed.

Lemma send_takes_ok k h c :
  alive false h c -> action_enabled c (SendTakes k) = true ->
  wph note (exec_action (SendTakes k)) (fun _ => inv) h c.
Proof.
  intros Ha He. open_client Ha. unfold action_enabled in He. fields. b2p. subst.
  destruct (send_phase _ _ BUSY Hsend eq_refl) as (ph & Hi & Hse & Hp); [fields; by b2p|].
  destruct ph; try done. destruct (sp_is_data _ _ _ Hi) as (Hd1 & Hd2 & _). destruct Hse as (-> & Hn & Hf). fields.
  cbn [exec_action]. hgo. hstep. eapply wp_sp_done; [exact Hi|lia|]. intros i Hi'. cbn [foldl]. norm.
  unfold inv. fields. rewrite (slice_split_at k) in Hf by lia.
  constructor; fields; try done.
  - constructor; fields; try done. constructor; fields; try done. rewrite Hf, app_assoc. by apply prefix_app_r.
  - exists (Done 0 n k). split; [done|]. do 3 (split; [fields; lia|]). fields.
    rewrite Hf, app_assoc. done.
  - destruct client_closed0; [done|]. destruct Hconn. constructor; fields; try done.
Qed.

Lemma send_done_ok w h c :
  alive false h c -> action_enabled c (SendDone w) = true ->
  wph note (exec_action (SendDone w)) (fun _ => inv) h c.
Proof.
  intros Ha He. open_client Ha. unfold action_enabled in He. fields. b2p. subst.
  destruct (send_phase _ _ DONE_PENDING Hsend eq_refl) as (ph & Hi & Hse & Hp); [fields; by b2p|].
  destruct ph; try done. destruct Hse as (-> & Hk & Hn & Hf). fields.
  cbn [exec_action]. hgo. hstep. eapply wp_sp_job_done; [exact Hi|]. intros _ i Hi'. cbn [foldl]. norm.
  unfold client_socks_send_handler_done, tcp_recved. hgo.
  set (l := slice k (buf_used0 - k) buf0) in *.
  assert (Hz : zlen l = buf_used0 - k) by (apply zlen_slice; lia).
  assert (Hb : zlen (splice 0 l buf0) = TCP_WND) by (rewrite zlen_splice; lia).
  assert (Hl : slice 0 (buf_used0 - k) (splice 0 l buf0) = l) by (apply slice_splice_same; lia).
  hgo. destruct client_closed0; fields; [|destruct Hconn; fields]; hgo; hstep; b2p.
  - hstep. eapply wp_sp_send; [exact Hi'|done|]. intros i' Hi2. cbn [foldl]. norm.
    unfold inv. fields. constructor; fields; try done.
    + constructor; fields; try done. lia.
    + exists (Op 0 (buf_used0 - k)). split; [done|]. split; [done|]. fields. split; [lia|]. by rewrite Hl.
    + split; [by destruct Hconn|]. done.
  - hgo. apply client_free_socks_closed_ok; fields; try done; [|by destruct Hconn|].
    + constructor; fields; try done. lia.
    + right. rewrite Hf, (zlen_zero l) by lia. by rewrite app_nil_r.
  - hstep. eapply wp_sp_send; [exact Hi'|done|]. intros i' Hi2. cbn [foldl]. norm.
    unfold inv. fields. constructor; fields; try done.
    + constructor; fields; try done. lia.
    + exists (Op 0 (buf_used0 - k)). split; [done|]. split; [done|]. fields. split; [lia|]. by rewrite Hl.
    + constructor; fields; try done. lia.
  - hgo. unfold inv. fields. constructor; fields; try done.
    + constructor; fields; try done. lia.
    + exists Idle. split; [done|]. fields. split; [fields; lia|]. rewrite (zlen_zero l), app_nil_r in Hf by lia. done.
    + constructor; fields; try done. lia.
Qed.

(** ** From SOCKS to the client *)

(** Queuing is under way: some of the buffer may have been queued. *)
Definition queuing (h : history) (c : tcp_client) : Prop :=
  alive true h c /\ client_closed c = false /\ socks_up c = true /\
  0 <= socks_recv_buf_sent c <= socks_recv_buf_used c /\ 0 < socks_recv_buf_used c.

Lemma send_loop_ok w rounds h c (Q : bool -> history -> tcp_client -> Prop) :
  queuing h c -> socks_recv_buf_sent c < socks_recv_buf_used c ->
  (forall h' c', queuing h' c' -> socks_closed c' = socks_closed c ->
     socks_recv_buf_sent c' < socks_recv_buf_used c' \/ 0 < socks_recv_tcp_pending c' -> Q true h' c') ->
  (forall h' c', inv h' c' -> Q false h' c') ->
  wph note (send_loop w rounds) Q h c.
Proof.
  revert h c. induction rounds as [|[sndbuf res] rounds IH]; intros h c [Ha (Hc & Hu & Hse & Hus)] Hlt HQ HQf;
    assert (Ha' := Ha); open_client Ha; destruct Hconn as [? ? ? ? ? ? ? Hpend ? ?]; fields; subst; cbn [send_loop]; hgo.
  { rewrite Z.min_r by lia. hgo. apply HQ; fields; try done. by left. }
  set (n := Z.min _ _). assert (Hn : 0 <= n <= socks_recv_buf_used0 - socks_recv_buf_sent0) by lia.
  hstep; b2p; hgo. { apply HQ; fields; try done. by left. }
  destruct Hrecv as [[[? ?]|(_ & _ & Hle & Hf)] Hrecv]; fields; [lia|].
  assert (Hz : zlen (slice socks_recv_buf_sent0 n socks_recv_buf0) = n) by (apply zlen_slice; lia).
  assert (Hf2 : from_socks0 = (to_client0 ++ slice socks_recv_buf_sent0 n socks_recv_buf0) ++
    slice (socks_recv_buf_sent0 + n) (socks_recv_buf_used0 - (socks_recv_buf_sent0 + n)) socks_recv_buf0).
  { rewrite Hf, <- app_assoc. f_equal. rewrite <- slice_split by lia. f_equal. lia. }
  destruct (Hpend eq_refl) as [Hp1 Hp2].
  destruct res; hgo.
  - match goal with |- wph _ _ _ ?h ?c => assert (Hq : queuing h c) end.
    { split; [|fields; split; [done|]; split; [done|]; lia]. constructor; fields; try done.
      - constructor; fields; try done. constructor; fields; try done. rewrite Hf2. by apply prefix_app_r.
      - split; [|done]. right. fields. do 3 (split; [done || lia|]). done.
      - constructor; fields; try done. intros _. rewrite zlen_app. lia. }
    hstep; b2p.
    + apply IH; done.
    + hgo. apply HQ; [done..|]. right. fields. lia.
  - apply HQ; fields; try done. by left.
  - eapply wph_mono; [apply (client_abort_client_ok true); fields; try done|].
    { exact (a_recv _ _ _ Ha'). }
    cbn. intros _ h' c' Hi. hgo. by apply HQf.
Qed.

(** Queuing stopped: all is queued, or the rest waits for the client to
    confirm something. *)
Definition queued (h : history) (c : tcp_client) : Prop :=
  alive true h c /\ client_closed c = false /\ socks_up c = true /\ 0 < socks_recv_tcp_pending c /\
  (socks_recv_buf_used c = -1 \/
   0 <= socks_recv_buf_sent c < socks_recv_buf_used c /\ socks_recv_waiting c = true).

Lemma client_socks_recv_send_out_ok w h c (Q : bool -> history -> tcp_client -> Prop) :
  queuing h c -> socks_recv_buf_sent c < socks_recv_buf_used c -> socks_recv_waiting c = false ->
  (forall h' c', queued h' c' -> socks_closed c' = socks_closed c -> Q true h' c') ->
  (forall h' c', inv h' c' -> Q false h' c') ->
  wph note (client_socks_recv_send_out w) Q h c.
Proof.
  intros Hq Hlt Hw HQ HQf. destruct Hq as (Ha & Hc & Hu & Hse & Hus). assert (Ha' := Ha).
  open_client Ha. unfold client_socks_recv_send_out. hgo.
  apply send_loop_ok; [split; [exact Ha'|done]|done|..].
  2: { intros h' c' Hi. hgo. by apply HQf. }
  clear -HQ HQf. intros h c Hq Hs Hor. destruct Hq as (Ha & Hc & Hu & Hse & Hus). assert (Ha' := Ha).
  open_client Ha. destruct Hconn as [? ? ? ? ? ? ? Hpend ? ?]. fields. subst.
  destruct (Hpend eq_refl) as [_ Hpend0]. hgo. hstep; b2p.
  { hstep. eapply wph_mono; [apply (client_abort_client_ok true); done|].
    cbn. intros _ h' c' Hi. hgo. by apply HQf. }
  hstep; b2p; [hstep; b2p|].
  - hstep. eapply wph_mono; [apply (client_abort_client_ok true); done|].
    cbn. intros _ h' c' Hi. hgo. by apply HQf.
  - hgo. apply HQ; [|done]. split; [|fields; do 3 (split; [done || lia|]); right; split; [lia|done]].
    constructor; fields; done.
  - hgo. destruct Hrecv as [[[? ?]|(_ & _ & Hle & Hf)] Hrecv]; fields; [lia|].
    apply HQ; [|done]. split; [|fields; do 3 (split; [done || lia|]); by left].
    constructor; fields; try done. split.
    + left. split; [done|]. fields. rewrite Hf. replace (_ - _) with 0 by lia. by rewrite app_nil_r.
    + intros Hn. destruct (Hrecv Hn) as (ph & Hph & Hre). exists ph. split; [done|].
      destruct ph; [intros _; by right|by destruct Hre as (? & ? & ? & ?)..].
Qed.

Lemma settled h c :
  queued h c -> (socks_recv_buf_used c = -1 -> socks_closed c = true) -> alive false h c.
Proof.
  intros (Ha & Hc & Hu & Hp & Hb) Hs. destruct Ha as [? ? Hrecv Hconn].
  constructor; [done..| |].
  - unfold recv_ok, recv_buf_ok in *. rewrite Hu in *. destruct Hrecv as [Hr Hi]. split.
    + destruct Hr as [?|(? & _ & ? & ?)]; [by left|right]. split; [done|]. split; [lia|done].
    + intros Hn. destruct (Hi Hn) as (ph & ? & Hph). exists ph. split; [done|].
      destruct ph; [|by destruct Hph as (_ & _ & _ & ?)..]. intros Hm. by rewrite Hs in Hn.
  - rewrite Hc in *. destruct Hconn as [? ? ? ? ? ? ? Hpend ? ?]. constructor; try done; intros.
    destruct Hb as [?|[? ?]]; [lia|done].
Qed.

Lemma client_socks_recv_initiate_ok h c :
  alive true h c -> client_closed c = false -> socks_up c = true -> socks_closed c = false ->
  socks_recv_buf_used c = -1 ->
  wph note client_socks_recv_initiate (fun _ => inv) h c.
Proof.
  intros Ha Hc Hu Hsc Hm. open_client Ha. unfold client_socks_recv_initiate. hgo.
  destruct Hrecv as [Hr Hi]. destruct (Hi eq_refl) as (ph & Hph & Hre).
  destruct ph; [|by destruct Hre as (_ & _ & _ & ?)..].
  hstep. eapply wp_sr_recv; [exact Hph|done|]. intros i Hi'. cbn [foldl]. norm.
  unfold inv. fields. constructor; fields; try done.
  - split.
    + destruct Hr as [?|(? & _ & ? & ?)]; [by left|fields; lia].
    + intros _. by exists (Op 0 CLIENT_SOCKS_RECV_BUF_SIZE).
  - destruct Hconn as [? ? ? ? ? ? ? Hpend ? ?]. fields. constructor; fields; try done.
Qed.

(** Reading the client again after queuing. *)
Lemma after_queued h c (m : tcp_client -> M unit) (Q : unit -> history -> tcp_client -> Prop) :
  queued h c -> (0 < socks_recv_tcp_pending c -> wph note (m c) Q h c) ->
  wph note (c ← client; m c) Q h c.
Proof.
  intros (Ha & _ & _ & Hp & _) Hm. unfold client. repeat hstep; [|by apply Hm].
  apply (c_alloc _ _ (a_core _ _ _ Ha)).
Qed.

Lemma recv_phase h c s :
  recv_ok false h c -> socks_closed c = false -> socks_up c && st_eq (sr_state (socks_recv_if c)) s = true ->
  recv_buf_ok false h c /\ exists ph, sr_is ph (socks_recv_if c) /\ receiving false c ph /\ phase_state ph = s.
Proof.
  unfold recv_ok. intros Hr Hc [Hu He]%andb_true_iff. rewrite Hu in Hr. destruct Hr as [Hr Hi].
  split; [done|]. destruct (Hi Hc) as (ph & Hph & Hre). exists ph. split; [done|]. split; [done|].
  by eapply sr_phase.
Qed.

Lemma recv_starts_ok h c :
  alive false h c -> action_enabled c RecvStarts = true ->
  wph note (exec_action RecvStarts) (fun _ => inv) h c.
Proof.
  intros Ha He. open_client Ha. unfold action_enabled in He. fields. b2p. subst.
  destruct (recv_phase _ _ OPERATION_PENDING Hrecv eq_refl) as (Hr & ph & Hi & Hre & Hp); [fields; by b2p|].
  destruct ph; try done. cbn [exec_action]. hstep. hstep.
  eapply wp_sr_job_op; [exact Hi|]. intros i Hi'. cbn [foldl]. norm. hgo.
  unfold inv. fields. constructor; fields; try done.
  - split; [exact Hr|]. intros _. by exists (Busy d n).
  - destruct client_closed0; [done|]. destruct Hconn. constructor; fields; done.
Qed.

Lemma recv_gives_ok data h c :
  alive false h c -> action_enabled c (RecvGives data) = true ->
  wph note (exec_action (RecvGives data)) (fun _ => inv) h c.
Proof.
  intros Ha He. open_client Ha. unfold action_enabled in He. fields. b2p. subst.
  destruct (recv_phase _ _ BUSY Hrecv eq_refl) as (Hr & ph & Hi & Hre & Hp); [fields; by b2p|].
  destruct ph; try done. destruct (sr_is_data _ _ _ Hi) as (Hd1 & Hd2 & _).
  destruct Hre as (Hu & -> & -> & _). fields. subst.
  assert (Hz : zlen (splice 0 data socks_recv_buf0) = CLIENT_SOCKS_RECV_BUF_SIZE) by (rewrite zlen_splice; zlia).
  cbn [exec_action]. hgo. hstep.
  eapply wp_sr_done; [exact Hi|lia|]. intros i Hi'. cbn [foldl]. norm.
  unfold inv. fields. constructor; fields; try done.
  - split.
    + left. destruct Hr as [[_ Hr]|(? & _ & ? & _)]; fields; [by split|lia].
    + intros _. by exists (Done 0 CLIENT_SOCKS_RECV_BUF_SIZE (zlen data)).
  - destruct client_closed0; [done|]. destruct Hconn. constructor; fields; done.
Qed.

Lemma recv_done_ok w h c :
  alive false h c -> action_enabled c (RecvDone w) = true ->
  wph note (exec_action (RecvDone w)) (fun _ => inv) h c.
Proof.
  intros Ha He. open_client Ha. unfold action_enabled in He. fields. b2p. subst.
  destruct (recv_phase _ _ DONE_PENDING Hrecv eq_refl) as (Hr & ph & Hi & Hre & Hp); [fields; by b2p|].
  destruct ph; try done. destruct Hre as (Hu & -> & -> & _). fields. subst.
  assert (Hr' : from_socks0 = to_client0) by (destruct Hr as [[_ ?]|(? & _ & ? & _)]; fields; [done|lia]).
  cbn [exec_action]. hgo. hstep.
  eapply wp_sr_job_done; [exact Hi|]. intros Hk i Hi'. cbn [foldl]. norm.
  unfold client_socks_recv_handler_done. hgo. hstep; b2p; subst.
  { hgo. unfold inv. fields. constructor; fields; try done.
    split; [by left|]. intros _. exists Idle. split; [done|]. intros _. by left. }
  destruct Hconn as [? ? ? ? ? ? ? Hpend ? ?]. fields. subst. hgo.
  apply client_socks_recv_send_out_ok; try done; fields; try lia.
  - split; [|fields; do 2 (split; [done|]); lia]. constructor; fields; try done.
    + constructor; fields; try done. constructor; fields; try done. by apply prefix_app_r.
    + split.
      * right. fields. rewrite Z.sub_0_r. repeat (split; [done || lia|]). done.
      * intros _. exists Idle. split; [done|]. intros _. by right.
  - intros h' c' Hq Hs. fields. cbn iota. apply after_queued; [done|].
    intros _. apply wph_when; intros Hm; b2p.
    + destruct Hq as (? & ? & ? & _). by apply client_socks_recv_initiate_ok.
    + unfold inv. rewrite (c_alloc _ _ (a_core _ _ _ (proj1 Hq))). by apply settled.
Qed.

Lemma sent_callback_ok w len h c :
  alive false h c -> action_enabled c (SentCallback w len) = true ->
  wph note (client_sent_func w len) (fun _ => inv) h c.
Proof.
  intros Ha He. open_client Ha. unfold action_enabled in He. fields. b2p. subst.
  destruct client_closed0; [by destruct Hconn|].
  destruct Hconn as [? ? ? ? ? ? ? Hpend Hwait Hlast]. fields. subst.
  destruct running0 as [f|]; [exfalso; eauto|]. destruct (Hpend eq_refl) as [Hp1 Hp2].
  unfold client_sent_func, DEAD_ENTER. hgo. apply wph_if; intros Hu; b2p.
  - destruct (Hwait eq_refl eq_refl) as [-> ?]; [lia|].
    destruct Hrecv as [[[? ?]|(? & Hlt & ? & Hf)] Hi]; fields; [lia|]. specialize (Hlt eq_refl eq_refl). hgo.
    apply client_socks_recv_send_out_ok; try done; fields; try lia.
    + split; [|fields; do 2 (split; [done|]); lia]. constructor; fields; try done.
      * split; [right; done|]. intros Hn. destruct (Hi Hn) as (ph & ? & Hre). exists ph. split; [done|].
        destruct ph; [intros _; by right|destruct Hre as (? & _); fields; lia..].
      * constructor; fields; try done. intros _. lia.
    + intros h' c' Hq Hs. fields. cbn iota. apply after_queued; [done|]. intros Hp.
      hstep. hstep; [by b2p|]. apply wph_when; intros Hm; b2p.
      * destruct Hq as (? & ? & ? & _). by apply client_socks_recv_initiate_ok.
      * unfold inv. rewrite (c_alloc _ _ (a_core _ _ _ (proj1 Hq))). apply settled; [done|].
        intros Hm1. rewrite Hm1 in Hm. by apply negb_false_iff in Hm.
  - destruct Hrecv as [[[Hm Hf]|(? & Hlt & ? & Hf)] Hi]; fields; [|lia]. apply wph_when; intros Hw.
    + apply (client_free_client_ok false); fields; try done.
      * split; [by left|done].
      * b2p. right. unfold all_to_client. fields. split; [done|lia].
    + hgo. unfold inv. fields. constructor; fields; try done.
      * split; [by left|done].
      * constructor; fields; try done; [intros; lia|intros; lia|]. intros _ Hsc.
        split; [done|]. destruct (Hlast eq_refl Hsc) as [_ ?]. rewrite Hsc in Hw. b2p. lia.
Qed.

(** ** SOCKS events, the return of a callback, and the end *)

Lemma socks_error_ok w e h c :
  alive false h c -> action_enabled c (SocksEvent w e) = true -> e <> SOCKS_UP ->
  wph note (exec_action (SocksEvent w e)) (fun _ => inv) h c.
Proof.
  intros Ha He Hne. open_client Ha. cbn [exec_action]. unfold client_socks_handler, action_enabled in *. fields.
  destruct socks_closed0; [by destruct e|].
  assert (Hfree : forall ce, alive false (mk_history from_client0 to_socks0 from_socks0 to_client0 acked0 client_end0
      ce closed0 false call_aborted0 true) (mk_client aborted0 dead_aborted0 client_closed0 buf0 buf_used0 socks_up0
      false socks_send_if0 socks_recv_if0 socks_recv_buf0 socks_recv_buf_used0 socks_recv_buf_sent0
      socks_recv_waiting0 socks_recv_tcp_pending0 true true pcb0 cb_err0 cb_recv0 cb_sent0 rcv_wnd0 true running0
      frames0)).
  { intros ce. constructor; fields; try done. destruct client_closed0; [done|]. destruct Hconn. constructor; fields; done. }
  destruct e; [|done|]; b2p; subst; hgo; by apply client_free_socks_ok.
Qed.

Lemma socks_up_ok w h c :
  alive false h c -> action_enabled c (SocksEvent w SOCKS_UP) = true ->
  wph note (exec_action (SocksEvent w SOCKS_UP)) (fun _ => inv) h c.
Proof.
  intros Ha He. open_client Ha. unfold action_enabled in He. fields. b2p. subst.
  destruct Hsend as [? Hf]. destruct Hrecv as (? & ? & ?). fields. subst.
  cbn [exec_action]. unfold client_socks_handler, tcp_sent. hgo.
  hstep. eapply wp_sp_connect. intros i Hi. cbn [foldl]. norm. hgo.
  hstep. eapply wp_sr_connect. intros j Hj. cbn [foldl]. norm. hgo.
  destruct client_closed0; fields.
  - destruct Hconn as (? & _ & ?). hgo. apply wph_when; intros Hb; b2p; [|lia].
    apply client_send_to_socks_ok; fields; try done. intros i' Hi'. norm. hgo.
    unfold inv. fields. constructor; fields; try done.
    + exists (Op 0 buf_used0). split; [done|]. split; [done|]. fields. split; [lia|done].
    + split; [by left|]. intros _. exists Idle. split; [done|]. intros _. by left.
  - destruct Hconn as [? ? ? ? ? ? ? Hpend Hwait Hlast]. fields. subst. hgo.
    apply wph_when; intros Hb; b2p.
    + apply client_send_to_socks_ok; fields; try done. intros i' Hi'. norm. hgo.
      apply client_socks_recv_initiate_ok; fields; try done. constructor; fields; try done.
      * exists (Op 0 buf_used0). split; [done|]. split; [done|]. fields. split; [lia|done].
      * split; [by left|]. intros _. exists Idle. split; [done|]. intros _. by right.
    + apply client_socks_recv_initiate_ok; fields; try done. constructor; fields; try done.
      * exists Idle. split; [done|]. split; [fields; lia|]. fields.
        unfold slice. by replace (Z.to_nat buf_used0) with 0%nat by lia.
      * split; [by left|]. intros _. exists Idle. split; [done|]. intros _. by right.
Qed.

Lemma return_ok h c :
  inv h c -> action_enabled c CallbackReturns = true ->
  wph note (exec_action CallbackReturns) (fun _ => inv) h c.
Proof.
  unfold inv. intros Hi He. destruct (allocated c) eqn:Hal.
  - open_client Hi. unfold action_enabled in He. fields.
    destruct running0 as [[f d]|]; [|by b2p; destruct He].
    destruct Hd as (? & ? & ?). fields. subst. cbn [exec_action]. unfold DEAD_LEAVE2.
    destruct aborted0; hgo; [change (1 =? 0) with false|change (0 =? 0) with true]; hgo.
    + change (0 <? 1) with true. unfold inv. fields. constructor; fields; try done.
      * constructor; fields; try done. by right.
      * by destruct client_closed0; [|destruct Hconn].
    + change (0 <? 0) with false. unfold inv. fields. constructor; fields; try done.
      * constructor; fields; try done. by left.
      * destruct client_closed0; [done|]. destruct Hconn. constructor; fields; done.
  - destruct c, h. destruct Hi as [? ? ? ? ? [? ? ? ?] ?]. fields. unfold action_enabled in He. fields.
    destruct running0 as [[f d]|]; [|by b2p; destruct He]. fields. subst.
    cbn [exec_action]. unfold DEAD_LEAVE2.
    destruct call_aborted0; hgo; [change (1 =? 0) with false|change (-1 =? 0) with false]; hgo;
      [change (0 <? 1) with true|change (0 <? -1) with false]; constructor; fields; try done; by constructor.
Qed.

Lemma murder_ok h c :
  alive false h c -> action_enabled c Murdered = true ->
  wph note (exec_action Murdered) (fun _ => inv) h c.
Proof.
  intros Ha He. open_client Ha. unfold action_enabled in He. fields. b2p. subst.
  destruct running0 as [f|]; [exfalso; eauto|]. cbn [exec_action].
  unfold client_murder, BSocksClient_Free, remove_callbacks, tcp_err, tcp_recv, tcp_sent, client_abort_pcb,
    tcp_abort, DEAD_KILL_WITH.
  hgo. destruct client_closed0; fields.
  - destruct Hconn as (? & ? & ?). subst. hgo. apply client_dealloc_ok; fields; try done; [|by left].
    constructor; fields; try done. constructor; fields; try done. by left.
  - destruct Hconn. fields. subst. destruct Hd as [Hd|?]; [|done]. fields. subst. hgo.
    destruct socks_closed0; fields; hgo; apply client_dealloc_ok; fields; try done;
      first [by left | constructor; fields; try done; by right].
Qed.

Lemma step_ok h c a :
  inv h c -> action_enabled c a = true -> wph note (exec_action a) (fun _ => inv) h c.
Proof.
  intros Hi He. assert (Hi' := Hi). unfold inv in Hi'. destruct (allocated c) eqn:Hal.
  - destruct a as [w [p|]|w len|w| |w e| |k|w| |data|w|]; cbn [exec_action].
    + by apply recv_callback_ok.
    + by apply close_callback_ok.
    + by apply sent_callback_ok.
    + by apply err_callback_ok.
    + by apply return_ok.
    + destruct e; [by apply socks_error_ok|by apply socks_up_ok|by apply socks_error_ok].
    + by apply send_starts_ok.
    + by apply send_takes_ok.
    + by apply send_done_ok.
    + by apply recv_starts_ok.
    + by apply recv_gives_ok.
    + by apply recv_done_ok.
    + by apply murder_ok.
  - destruct Hi'. destruct a as [w [p|]|w len|w| |w []| |k|w| |data|w|]; try (by apply return_ok); exfalso;
      unfold action_enabled in He; rewrite ?g_pcb0, ?g_socks0, ?Hal in He; done.
Qed.

Definition memory_ok (mem : tcp_client) : Prop :=
  zlen (buf mem) = TCP_WND /\ zlen (socks_recv_buf mem) = CLIENT_SOCKS_RECV_BUF_SIZE.

Lemma accept_inv mem c :
  memory_ok mem -> listener_accept_func (Some mem) true = Some (c, true) -> inv no_history c.
Proof.
  intros [Hb Hr] [= <-]. constructor; cbn; done.
Qed.

(** The flags of the interfaces follow the buffers. *)
Lemma busy_send h c :
  alive false h c -> socks_up c = true -> socks_closed c = false -> 0 < buf_used c ->
  sp_state (socks_send_if c) <> NONE.
Proof.
  intros Ha Hu Hs Hb. destruct (send_up _ _ (a_send _ _ _ Ha) Hs Hu) as (ph & (_ & -> & _) & Hse).
  destruct ph; [destruct Hse; lia|done..].
Qed.
Lemma busy_recv h c :
  alive false h c -> client_closed c = false -> socks_up c = true ->
  (socks_closed c = false /\ sr_state (socks_recv_if c) <> NONE) \/
  (cb_sent c = true /\ 0 < socks_recv_tcp_pending c).
Proof.
  intros [_ _ Hr Hc] Ho Hu. rewrite Ho in Hc. destruct Hc as [? ? ? ? Hcb ? ? ? Hw Hl].
  unfold recv_ok in Hr. rewrite Hu in Hr, Hcb. destruct Hr as [Hb Hi].
  destruct (socks_closed c) eqn:Hs; [right; split; [done|by apply Hl]|].
  destruct (Hi eq_refl) as (ph & (_ & Hst & _) & Hre).
  destruct ph; try (left; split; [done|by rewrite Hst]).
  right. split; [done|]. apply Hw; try done.
  destruct Hb as [[Hm _]|(? & _ & ? & _)]; [|lia]. destruct (Hre Hm); congruence.
Qed.

(** C27: a connection accepted by [listener_accept_func], whatever lwIP and the
    SOCKS connection do and in whatever order, never fails an assertion, uses
    freed memory or a dangling [dead_t], runs out of its buffers, or closes or
    aborts a control block twice.  What the SOCKS connection takes is at any time a
    prefix of what was accepted from the client, and what is queued for the
    client a prefix of what the SOCKS connection delivered: nothing is
    reordered, duplicated or invented.  The window lwIP advertises is exactly
    the free space of the buffer, so data within it always fits.  The relay
    never stalls: buffered data is being sent, and reading goes on unless the
    client has data to confirm.  A callback returns [ERR_ABRT] exactly when
    [tcp_abort] was called during it. *)
Theorem relay_correct (mem c0 : tcp_client) :
  memory_ok mem -> listener_accept_func (Some mem) true = Some (c0, true) ->
  safe c0 /\
  forall tr c, reach c0 tr c ->
    let h := history_of tr in
    to_socks h `prefix_of` from_client h /\
    to_client h `prefix_of` from_socks h /\
    returns_ok h = true /\
    (pcb c = true -> rcv_wnd c = TCP_WND - buf_used c) /\
    (allocated c = true -> socks_up c = true -> socks_closed c = false -> 0 < buf_used c ->
       sp_state (socks_send_if c) <> NONE) /\
    (allocated c = true -> client_closed c = false -> socks_up c = true ->
       (socks_closed c = false /\ sr_state (socks_recv_if c) <> NONE) \/
       (cb_sent c = true /\ 0 < socks_recv_tcp_pending c)).
Proof.
  intros Hm Ha. pose proof (accept_inv _ _ Hm Ha) as Hi.
  split; [exact (monitor_safe note no_history inv step_ok c0 Hi)|].
  intros tr c Hr h. pose proof (monitor_reach note no_history inv step_ok c0 tr c Hi Hr) as Hc.
  fold (history_of tr) in Hc. fold h in Hc. unfold inv in Hc. destruct (allocated c) eqn:Hal.
  - destruct (c_hist _ _ (a_core _ _ _ Hc)). do 3 (split; [done|]). split.
    + intros Hp. pose proof (a_conn _ _ _ Hc) as Hconn. destruct (client_closed c).
      * destruct Hconn as [? _]. congruence.
      * pose proof (n_wnd _ _ _ Hconn). lia.
    + split; intros; [by eapply busy_send|by eapply busy_recv].
  - destruct (g_hist _ _ Hc). do 3 (split; [done|]). split; [|done].
    intros Hp. pose proof (g_pcb _ _ Hc). congruence.
Qed.


(** A connection: three bytes each way, an acknowledgement in between, and
    the SOCKS connection closed first. *)
Definition example_memory : tcp_client :=
  mk_client true None true (replicate (Z.to_nat 5840) 0) 77 true true StreamPassInterface_Init StreamRecvInterface_Init
    (replicate (Z.to_nat 8192) 0) 5 6 true 7 true false false false false false 0 false None 0.
Definition example_actions : list action :=
  let w := mk_lwip true [] true in
  [CallbackReturns; RecvCallback w (Some [1; 2; 3]); CallbackReturns; SocksEvent w SOCKS_UP;
   SendStarts; SendTakes 2; SendDone w; SendStarts; SendTakes 1; RecvStarts; SendDone w; RecvGives [7; 8; 9];
   RecvDone (mk_lwip true [(2%N, WRITE_OK)] true); SocksEvent w SOCKS_ERROR_CLOSED;
   SentCallback (mk_lwip true [(5%N, WRITE_OK)] true) 1; CallbackReturns; SentCallback w 2; CallbackReturns].
Definition example_start : tcp_client :=
  match listener_accept_func (Some example_memory) true with Some (c, _) => c | None => example_memory end.
Definition example_end : tcp_client * list event := default (example_start, []) (run example_actions example_start).

Lemma relay_correct_witness :
  safe example_start /\
  to_socks (history_of (snd example_end)) `prefix_of` from_client (history_of (snd example_end)) /\
  zlen (snd example_end) = 18.
Proof.
  assert (Hm : memory_ok example_memory) by by vm_compute.
  assert (Hr : run example_actions example_start = Some (fst example_end, snd example_end)) by by vm_compute.
  destruct (relay_correct example_memory example_start Hm eq_refl) as [Hs Hp].
  split; [exact Hs|]. split; [exact (proj1 (Hp _ _ (run_reach _ _ _ _ Hr)))|].
  by vm_compute.
Defined.


End TcpRelay.
