(* ===== verification/UdpRelay.v ===== *)
(** The UDP relay of the Android build: [tun2socks/SocksUdpGwClient.c].

    Each local address has a connection, a UDP socket that talks to the SOCKS
    server or to the DNS gateway, found in a tree and kept in a list by use.
    The sockets, the packet buffers behind a connection's [BufferWriter] and
    [malloc] are the environment.  The order of the jobs matters here, so the
    pending group is a stack, as in [BPending.v]: a new connection sends its
    first packet from a job, out of the buffer of the device. *)

From S2P Require Import Prelude System Interfaces OrdTree BAVL CArith BufferWriter NetInt BAddr SocksClient.

Module UdpRelay.
Import Addr.

Definition SOCKS_UDP_HEADER : Z := 4.   (* sizeof(struct socks_udp_header) *)
Definition UDPGW_ADDR_IPV4 : Z := 6.
Definition UDPGW_ADDR_IPV6 : Z := 18.

Definition udpgw_compute_mtu (dgram_mtu : Z) : Z :=
  let bs := bsize_add (bsize_fromsize SOCKS_UDP_HEADER)
              (bsize_add (bsize_max (bsize_fromsize UDPGW_ADDR_IPV4) (bsize_fromsize UDPGW_ADDR_IPV6))
                 (bsize_fromint dgram_mtu)) in
  match bsize_toint bs with Some s => s | None => -1 end.

Record conaddr := mk_conaddr { local_addr : BAddr; remote_addr : BAddr }.

(** Pointers are offsets: [first_data] into the buffer of the device, those of
    the writer and of [udp_recv_if] into [udp_send_mem] and [udp_recv_mem]. *)
Record connection := mk_con {
  con_addr : conaddr;
  first_data : Z;
  first_data_len : Z;
  is_dns : bool;
  send_addr : BAddr; (* of BDatagram_SetSendAddrs *)
  udp_send_writer : BufferWriter Z;
  udp_send_mem : bytes;
  udp_recv_if : PacketPassInterface Z;
  udp_recv_mem : bytes
}.
#[export] Instance eta_con : Eta connection := fun c =>
  mk_con (con_addr c) (first_data c) (first_data_len c) (is_dns c) (send_addr c) (udp_send_writer c)
    (udp_send_mem c) (udp_recv_if c) (udp_recv_mem c).

(** Pending jobs: [first_job] of a connection, the two jobs of its writer's
    interface, and the done job of the device, after which the device may
    deliver the next packet into its buffer. *)
Inductive job := FirstJob (c : Z) | WriterOperation (c : Z) | WriterDone (c : Z) | DeviceDone.
#[export] Instance job_eq : EqDecision job.
Proof. solve_decision. Defined.

Inductive event :=
  | Submitted (c : Z) (a : conaddr) (dns : bool) (data : bytes) (* a packet that was accepted *)
  | Refused                                                     (* one that was dropped *)
  | Out (c : Z) (to : BAddr) (packet : bytes)                   (* handed to the socket *)
  | Received (local remote : BAddr) (data : bytes)              (* handler_received *)
  | Created (local : BAddr)
  | Used (local : BAddr)
  | Evicted (local : BAddr).

Definition conaddr_comparator (v1 v2 : conaddr) : Z := BAddr_CompareOrder (local_addr v1) (local_addr v2).

(** How far the initialisation of a connection gets. *)
Inductive init_outcome :=
  MALLOC_FAILED | DGRAM_FAILED | REUSEADDR_FAILED | PACKETBUFFER_FAILED | SINGLEBUFFER_FAILED | INIT_OK.
#[export] Instance init_outcome_eq : EqDecision init_outcome.
Proof. solve_decision. Defined.
Definition at_stage (a b : init_outcome) : bool := bool_decide (a = b).

(** The value of a node of the tree. *)
Definition key_of (cs : gmap Z connection) (c : Z) : conaddr :=
  match cs !! c with Some con => con_addr con | None => mk_conaddr Addr.NONE Addr.NONE end.

Section relay.
Context {T : Type -> Type} `{!OrdTree T}.

Record SocksUdpGwClient := mk_client {
  udp_mtu : Z;
  udpgw_mtu : Z;
  socks_server_addr : BAddr;
  dnsgw : BAddr;
  num_connections : Z;
  max_connections : Z;
  connections_tree : T Z;
  connections_list : list Z;
  connections : gmap Z connection; (* the allocated ones, by address *)
  jobs : list job;                 (* the next to run first *)
  device_buf : bytes
}.
#[export] Instance eta_client : Eta SocksUdpGwClient := fun o =>
  mk_client (udp_mtu o) (udpgw_mtu o) (socks_server_addr o) (dnsgw o) (num_connections o) (max_connections o)
    (connections_tree o) (connections_list o) (connections o) (jobs o) (device_buf o).

Local Abbreviation M := (M SocksUdpGwClient event).

Definition get_con (c : Z) : M connection := l ← gets connections; must (l !! c).
Definition set_con (c : Z) (con : connection) : M unit := modify (upd connections <[c := con]>).
(** Run a handler of the connection [c]. *)
Definition at_con {A} (c : Z) (m : Prelude.M connection event A) : M A :=
  con ← get_con c;
  match m con with
  | Some (a, con', t) => set_con c con';; foldr (fun e k => emit e;; k) (mret a) t
  | None => ub
  end.
Definition push (j : job) : M unit := modify (upd jobs (cons j)).
Definition unset (j : job) : M unit := modify (upd jobs (filter (fun j' => j' <> j))).

Definition key (o : SocksUdpGwClient) : Z -> conaddr := key_of (connections o).

Definition find_connection (a : conaddr) (dns : bool) : M (option Z) :=
  o ← get;
  match ot_lookup conaddr_comparator (key o) a (connections_tree o) with
  | None => mret None
  | Some c =>
      con ← get_con c;
      (* [!con && con->is_dns != is_dns], and con is not NULL *)
      if negb true && negb (Bool.eqb (is_dns con) dns) then mret None
      else mret (Some c)
  end.

Definition connection_free (c : Z) : M unit :=
  con ← get_con c;
  o ← get;
  num_connections ::= num_connections o - 1;;
  assert (bool_decide (c ∈ connections_list o));;
  connections_list ::= filter (fun c' => c' <> c) (connections_list o);;
  t ← must (ot_remove c (connections_tree o));
  connections_tree ::= t;;
  (* PacketRecvInterface_Free, of the writer *)
  unset (WriterOperation c);;
  unset (WriterDone c);;
  modify (upd connections (delete c)).

Definition remove_lru_connection (a : conaddr) (dns : bool) : M unit :=
  r ← find_connection a dns;
  assert (bool_decide (r = None));;
  o ← get;
  assert (0 <? num_connections o);;
  c ← must (head (connections_list o));
  con ← get_con c;
  connection_free c;;
  emit (Evicted (local_addr (con_addr con))).

Definition reset_connection (c : Z) (a : conaddr) (dns : bool) : M unit :=
  con ← get_con c;
  set_con c (con <| con_addr := a |> <| is_dns := dns |>).

(** [memcpy] into the memory of the writer. *)
Definition write_out (c off : Z) (l : bytes) : M unit :=
  con ← get_con c;
  m ← must (mem_write off l (udp_send_mem con));
  set_con c (con <| udp_send_mem := m |>).

Definition socks_udp_header (atyp : Z) : bytes := [0; 0; 0; atyp].

(** The header and the address; the result is [out_pos]. *)
Definition write_header (c out : Z) (remote_addr : BAddr) : M Z :=
  write_out c out (socks_udp_header (match remote_addr with IPV4 _ _ => Socks.SOCKS_ATYP_IPV4 | _ => Socks.SOCKS_ATYP_IPV6 end));;
  let out_pos := SOCKS_UDP_HEADER in
  match remote_addr with
  | IPV4 ip port =>
      write_out c (out + out_pos) (le_bytes 4 ip ++ le_bytes 2 port);;
      mret (out_pos + UDPGW_ADDR_IPV4)
  | IPV6 ip port =>
      write_out c (out + out_pos) (take 16 ip ++ le_bytes 2 port);;
      mret (out_pos + UDPGW_ADDR_IPV6)
  | _ => mret out_pos
  end.

(** [data] is a pointer into the device buffer; [true] is the result 1. *)
Definition connection_send (c data data_len : Z) : M bool :=
  r ← at_con c (zoom udp_send_writer BufferWriter_StartPacket);
  match r with
  | None => mret true
  | Some out =>
      con ← get_con c;
      out_pos ← (if negb (is_dns con) then write_header c out (remote_addr (con_addr con)) else mret 0);
      buf ← gets device_buf;
      l ← must (mem_read data data_len buf);
      write_out c (out + out_pos) l;;
      let out_pos := out_pos + data_len in
      con ← get_con c;
      p ← must (mem_read out out_pos (udp_send_mem con));
      at_con c (zoom udp_send_writer (BufferWriter_EndPacket out_pos));;
      push (WriterDone c);;
      emit (Out c (send_addr con) p);;
      mret false
  end.

Definition connection_first_job_handler (c : Z) : M unit :=
  con ← get_con c;
  _ ← connection_send c (first_data con) (first_data_len con);
  mret tt.

(** [c] and [mem] are the memory the allocations give. *)
Definition connection_init (outcome : init_outcome) (c : Z) (mem mem' : bytes) (a : conaddr)
    (data data_len : Z) (dns : bool) : M (option Z) :=
  if at_stage outcome MALLOC_FAILED then mret None
  else
    push (FirstJob c);;
    if at_stage outcome DGRAM_FAILED || at_stage outcome REUSEADDR_FAILED then unset (FirstJob c);; mret None
    else
      o ← get;
      let to := if dns then dnsgw o else socks_server_addr o in
      set_con c (mk_con a data data_len dns to (BufferWriter_Init (udp_mtu o)) mem
                   (PacketPassInterface_Init (udp_mtu o)) mem');;
      if at_stage outcome PACKETBUFFER_FAILED then modify (upd connections (delete c));; unset (FirstJob c);; mret None
      else
        (* PacketBuffer_Init *)
        at_con c (zoom udp_send_writer (zoom recv_interface PacketRecvInterface_Receiver_Init));;
        at_con c (zoom udp_send_writer (zoom recv_interface (PacketRecvInterface_Receiver_Recv 0)));;
        push (WriterOperation c);;
        if at_stage outcome SINGLEBUFFER_FAILED then
          unset (WriterOperation c);; modify (upd connections (delete c));; unset (FirstJob c);; mret None
        else
          (* SinglePacketBuffer_Init *)
          at_con c (zoom udp_recv_if PacketPassInterface_Sender_Init);;
          o ← get;
          r ← must (ot_insert conaddr_comparator (key o) c (connections_tree o));
          assert (fst r);;
          connections_tree ::= snd r;;
          connections_list ::= connections_list o ++ [c];;
          num_connections ::= num_connections o + 1;;
          emit (Created (local_addr a));;
          mret (Some c).

Definition is_ip (a : BAddr) : bool := match a with IPV4 _ _ | IPV6 _ _ => true | _ => false end.

Definition SocksUdpGwClient_SubmitPacket (outcome : init_outcome) (c : Z) (mem mem' : bytes)
    (local remote : BAddr) (dns : bool) (data data_len : Z) : M unit :=
  o ← get;
  assert (is_ip local);;
  assert (is_ip remote);;
  assert (0 <=? data_len);;
  assert (data_len <=? udp_mtu o);;
  let a := mk_conaddr local remote in
  l ← must (mem_read data data_len (device_buf o));
  con ← find_connection a dns;
  when (bool_decide (con = None) && (num_connections o =? max_connections o)) (remove_lru_connection a dns);;
  match con with
  | None =>
      r ← connection_init outcome c mem mem' a data data_len dns;
      match r with
      | Some c => emit (Submitted c a dns l)
      | None => emit Refused
      end
  | Some c =>
      reset_connection c a dns;;
      res ← connection_send c data data_len;
      if (res : bool) then emit Refused
      else
        o ← get;
        connections_list ::= filter (fun c' => c' <> c) (connections_list o) ++ [c];;
        emit (Used local);;
        emit (Submitted c a dns l)
  end.

Definition dgram_handler_received (c data data_len : Z) : M unit :=
  o ← get;
  assert (0 <=? data_len);;
  assert (data_len <=? udpgw_mtu o);;
  at_con c (zoom udp_recv_if PacketPassInterface_Done);;
  con ← get_con c;
  let deliver (data data_len : Z) : M unit :=
    if udp_mtu o <? data_len then mret tt
    else
      con ← get_con c;
      l ← must (mem_read data data_len (udp_recv_mem con));
      emit (Received (local_addr (con_addr con)) (remote_addr (con_addr con)) l) in
  let set_remote (r : BAddr) : M unit :=
    set_con c (con <| con_addr := mk_conaddr (local_addr (con_addr con)) r |>) in
  if is_dns con then deliver data data_len
  else if data_len <? SOCKS_UDP_HEADER then mret tt
  else
    header ← must (mem_read data SOCKS_UDP_HEADER (udp_recv_mem con));
    let data := data + SOCKS_UDP_HEADER in
    let data_len := data_len - SOCKS_UDP_HEADER in
    let frag := nth 2 header 0 in
    let atyp := nth 3 header 0 in
    if negb (frag =? 0) then mret tt
    else if atyp =? Socks.SOCKS_ATYP_IPV6 then
      if data_len <? UDPGW_ADDR_IPV6 then mret tt
      else
        l ← must (mem_read data UDPGW_ADDR_IPV6 (udp_recv_mem con));
        set_remote (IPV6 (take 16 l) (le_val (drop 16 l)));;
        deliver (data + UDPGW_ADDR_IPV6) (data_len - UDPGW_ADDR_IPV6)
    else
      if data_len <? UDPGW_ADDR_IPV4 then mret tt
      else
        l ← must (mem_read data UDPGW_ADDR_IPV4 (udp_recv_mem con));
        set_remote (IPV4 (le_val (take 4 l)) (le_val (drop 4 l)));;
        deliver (data + UDPGW_ADDR_IPV4) (data_len - UDPGW_ADDR_IPV4).

(** [num_connections] is not set: [old] is what the memory held, and the object
    of the program is static. *)
Definition SocksUdpGwClient_Init (old : Z) (mtu max : Z) (server dns : BAddr) : option SocksUdpGwClient :=
  if BAddr_IsInvalid server then None
  else Some (mk_client mtu (udpgw_compute_mtu mtu) server dns old (if UINT16_MAX + 1 <? max then UINT16_MAX + 1 else max)
               ot_empty [] ∅ [] []).

(** The loop of [SocksUdpGwClient_Free], with the number of rounds. *)
Fixpoint free_connections (n : nat) : M unit :=
  o ← get;
  match connections_list o with
  | [] => mret tt
  | c :: _ => match n with O => ub | S n => connection_free c;; free_connections n end
  end.
Definition SocksUdpGwClient_Free : M unit := o ← get; free_connections (length (connections_list o)).

(** ** The environment *)

Inductive action :=
  | DeviceRead (buf : bytes) (outcome : init_outcome) (c : Z) (mem mem' : bytes)
      (local remote : BAddr) (dns : bool) (data data_len : Z)
  | Dispatch (space : bool)    (* run the next job; has the packet buffer space? *)
  | SpaceFreed (c : Z)         (* the packet buffer has space again *)
  | UdpArrives (c : Z) (p : bytes)
  | UdpRecvStarts (c : Z)
  | UdpRecvDone (c : Z).

(** [PacketBuffer] asks for the next packet. *)
Definition receive_next (c : Z) : M unit :=
  at_con c (zoom udp_send_writer (zoom recv_interface (PacketRecvInterface_Receiver_Recv 0)));;
  push (WriterOperation c).

Definition run_job (j : job) (space : bool) : M unit :=
  match j with
  | FirstJob c => connection_first_job_handler c
  | WriterOperation c => at_con c (zoom udp_send_writer BufferWriter_job_operation)
  | WriterDone c =>
      _ ← at_con c (zoom udp_send_writer (zoom recv_interface PacketRecvInterface_job_done));
      when space (receive_next c)
  | DeviceDone => mret tt
  end.

Definition exec_action (a : action) : M unit :=
  match a with
  | DeviceRead buf outcome c mem mem' local remote dns data data_len =>
      device_buf ::= buf;;
      push DeviceDone;;
      SocksUdpGwClient_SubmitPacket outcome c mem mem' local remote dns data data_len
  | Dispatch space =>
      l ← gets jobs;
      j ← must (head l);
      jobs ::= tail l;;
      run_job j space
  | SpaceFreed c => receive_next c
  | UdpArrives c p =>
      con ← get_con c;
      m ← must (mem_write 0 p (udp_recv_mem con));
      set_con c (con <| udp_recv_mem := m |>);;
      at_con c (zoom udp_recv_if (PacketPassInterface_Sender_Send 0 (zlen p)))
  | UdpRecvStarts c =>
      d ← at_con c (zoom udp_recv_if PacketPassInterface_job_operation);
      dgram_handler_received c (fst d) (snd d)
  | UdpRecvDone c => at_con c (zoom udp_recv_if PacketPassInterface_job_done)
  end.

(** The header that goes before the data. *)
Definition header_len (remote : BAddr) (dns : bool) : Z :=
  if dns then 0
  else match remote with
       | IPV4 _ _ => SOCKS_UDP_HEADER + UDPGW_ADDR_IPV4
       | _ => SOCKS_UDP_HEADER + UDPGW_ADDR_IPV6
       end.
Definition ip_okb (a : BAddr) : bool :=
  match a with
  | IPV4 ip port => (0 <=? ip) && (ip <? 2 ^ 32) && (0 <=? port) && (port <? 2 ^ 16)
  | IPV6 ip port => bool_decide (length ip = 16%nat) && (0 <=? port) && (port <? 2 ^ 16)
  | _ => false
  end.

(** The contract of [SocksUdpGwClient_SubmitPacket] is [data_len <= udp_mtu];
    [fits] is what the code needs. *)
Definition contract (o : SocksUdpGwClient) (a : action) : bool :=
  match a with
  | DeviceRead buf outcome c mem mem' local remote dns data data_len =>
      bool_decide (DeviceDone ∉ jobs o) && bool_decide (connections o !! c = None) &&
      (zlen mem =? udp_mtu o) && (zlen mem' =? udp_mtu o) && ip_okb local && ip_okb remote &&
      (0 <=? data_len) && (data_len <=? udp_mtu o) && in_bounds data data_len (zlen buf)
  | Dispatch _ => negb (bool_decide (jobs o = []))
  | SpaceFreed c =>
      match connections o !! c with
      | Some con => st_eq (pr_state (recv_interface (udp_send_writer con))) Interfaces.NONE
      | None => false
      end
  | UdpArrives c p =>
      match connections o !! c with
      | Some con => bool_decide (jobs o = []) && st_eq (pp_state (udp_recv_if con)) Interfaces.NONE && (zlen p <=? udp_mtu o)
      | None => false
      end
  | UdpRecvStarts c =>
      match connections o !! c with
      | Some con => st_eq (pp_state (udp_recv_if con)) OPERATION_PENDING
      | None => false
      end
  | UdpRecvDone c =>
      match connections o !! c with
      | Some con => st_eq (pp_state (udp_recv_if con)) DONE_PENDING
      | None => false
      end
  end.
Definition fits (o : SocksUdpGwClient) (a : action) : bool :=
  match a with
  | DeviceRead _ _ _ _ _ _ remote dns _ data_len => header_len remote dns + data_len <=? udp_mtu o
  | _ => true
  end.
#[export] Instance udp_relay_system : System SocksUdpGwClient action event :=
  {| enabled o a := contract o a && fits o a; exec := exec_action |}.
End relay.

(** ** What goes out *)

Definition frame (remote : BAddr) (dns : bool) (data : bytes) : bytes :=
  if dns then data
  else match remote with
       | IPV4 ip port => socks_udp_header Socks.SOCKS_ATYP_IPV4 ++ (le_bytes 4 ip ++ le_bytes 2 port) ++ data
       | IPV6 ip port => socks_udp_header Socks.SOCKS_ATYP_IPV6 ++ (take 16 ip ++ le_bytes 2 port) ++ data
       | _ => socks_udp_header Socks.SOCKS_ATYP_IPV6 ++ data
       end.

(** The history: what was accepted and what left, per connection, and the
    cache of the local addresses as it should be, least recently used first. *)
Record history := mk_history {
  accepted : list (Z * bytes);
  outs : list (Z * bytes);
  sent_to : list BAddr;
  cache : list BAddr;
  evictions_ok : bool
}.
#[export] Instance eta_history : Eta history := fun h =>
  mk_history (accepted h) (outs h) (sent_to h) (cache h) (evictions_ok h).
Definition no_history : history := mk_history [] [] [] [] true.
Definition note (h : history) (e : event) : history :=
  match e with
  | Submitted c a dns data => h <| accepted := accepted h ++ [(c, frame (remote_addr a) dns data)] |>
  | Out c to p => h <| outs := outs h ++ [(c, p)] |> <| sent_to := sent_to h ++ [to] |>
  | Created a => h <| cache := cache h ++ [a] |>
  | Used a => h <| cache := filter (fun b => b <> a) (cache h) ++ [a] |>
  | Evicted a => h <| evictions_ok := evictions_ok h && bool_decide (head (cache h) = Some a) |>
                   <| cache := tail (cache h) |>
  | _ => h
  end.
Definition history_of (tr : list event) : history := foldl note no_history tr.

(** ** Rules for the connections *)

Section rules.
Context {T : Type -> Type} `{!OrdTree T}.
Local Abbreviation client := (@SocksUdpGwClient T).
Implicit Types (o : client) (h : history) (cs : gmap Z connection) (c : Z).

Definition with_cs (o : client) (cs : gmap Z connection) : client := o <| connections := cs |>.

Lemma with_cs_id o : with_cs o (connections o) = o.
Proof. by destruct o. Qed.

(** These hold for any monitor. *)
Lemma wph_get_con {H} (nt : H -> event -> H) c (g : H) o cs con (Q : connection -> H -> client -> Prop) :
  cs !! c = Some con -> Q con g (with_cs o cs) -> wph nt (get_con c) Q g (with_cs o cs).
Proof. intros Hc HQ. unfold get_con. apply wph_bind, wph_gets. eapply wph_must; [exact Hc|exact HQ]. Qed.

Lemma wph_set_con {H} (nt : H -> event -> H) c (g : H) o cs con (Q : unit -> H -> client -> Prop) :
  Q tt g (with_cs o (<[c := con]> cs)) -> wph nt (set_con c con) Q g (with_cs o cs).
Proof. intros HQ. apply wph_modify. exact HQ. Qed.

Lemma wph_at_con {H A} (nt : H -> event -> H) c (g : H) o cs con (m : Prelude.M connection event A)
    (Q : A -> H -> client -> Prop) :
  cs !! c = Some con ->
  wp m (fun a con' t => t = [] /\ Q a g (with_cs o (<[c := con']> cs))) con ->
  wph nt (at_con c m) Q g (with_cs o cs).
Proof.
  intros Hc Hm. unfold at_con. apply wph_bind. eapply wph_get_con; [exact Hc|].
  destruct (wp_elim _ _ _ Hm) as (a & con' & t & Hr & -> & HQ). rewrite Hr.
  apply wph_bind. apply wph_set_con. exact HQ.
Qed.

Lemma wph_write_out {H} (nt : H -> event -> H) c (g : H) o cs con off l (Q : unit -> H -> client -> Prop) :
  cs !! c = Some con -> 0 <= off -> off + zlen l <= zlen (udp_send_mem con) ->
  Q tt g (with_cs o (<[c := con <| udp_send_mem := splice off l (udp_send_mem con) |>]> cs)) ->
  wph nt (write_out c off l) Q g (with_cs o cs).
Proof.
  intros Hc Ho Hl HQ. unfold write_out. apply wph_bind. eapply wph_get_con; [exact Hc|].
  apply wph_bind. eapply wph_must; [by apply mem_write_Some|]. by apply wph_set_con.
Qed.

Definition header (remote : BAddr) : bytes :=
  match remote with
  | IPV4 ip port => socks_udp_header Socks.SOCKS_ATYP_IPV4 ++ le_bytes 4 ip ++ le_bytes 2 port
  | IPV6 ip port => socks_udp_header Socks.SOCKS_ATYP_IPV6 ++ take 16 ip ++ le_bytes 2 port
  | _ => socks_udp_header Socks.SOCKS_ATYP_IPV6
  end.

Definition ip_addr (a : BAddr) : Prop :=
  match a with IPV4 _ _ => True | IPV6 ip _ => length ip = 16%nat | _ => False end.

Lemma zlen_header remote : ip_addr remote -> zlen (header remote) = header_len remote false.
Proof.
  destruct remote; cbn [ip_addr header header_len]; try done; intros H.
  rewrite !zlen_app, zlen_le_bytes, (firstn_all2 ip) by lia. unfold zlen. rewrite H. reflexivity.
Qed.

Lemma wph_write_header {H} (nt : H -> event -> H) c (g : H) o cs con remote (Q : Z -> H -> client -> Prop) :
  cs !! c = Some con -> ip_addr remote -> header_len remote false <= zlen (udp_send_mem con) ->
  (forall m, zlen m = zlen (udp_send_mem con) -> slice 0 (header_len remote false) m = header remote ->
     Q (header_len remote false) g (with_cs o (<[c := con <| udp_send_mem := m |>]> cs))) ->
  wph nt (write_header c 0 remote) Q g (with_cs o cs).
Proof.
  intros Hc Hip Hl HQ.
  assert (Hw : forall a (l : bytes) n, n = header_len remote false -> n = SOCKS_UDP_HEADER + zlen l ->
    header remote = socks_udp_header a ++ l ->
    wph nt (write_out c 0 (socks_udp_header a);; write_out c (0 + SOCKS_UDP_HEADER) l;; mret n) Q g (with_cs o cs)).
  { intros a l n Hn Hl' Hh. unfold SOCKS_UDP_HEADER in *. pose proof (zlen_nonneg l).
    apply wph_bind. eapply wph_write_out; [exact Hc|lia|change (zlen (socks_udp_header a)) with 4; lia|].
    set (m1 := splice 0 (socks_udp_header a) (udp_send_mem con)).
    assert (Hm1 : zlen m1 = zlen (udp_send_mem con))
      by (apply zlen_splice; [lia|change (zlen (socks_udp_header a)) with 4; lia]).
    apply wph_bind. eapply wph_write_out; [by rewrite lookup_insert_eq|lia|sug; lia|].
    rewrite insert_insert_eq. apply wph_ret. rewrite Hn.
    apply (HQ (splice 4 l m1)); [rewrite zlen_splice; lia|]. rewrite <- Hn.
    rewrite slice_splice_end by lia. by rewrite Hh. }
  unfold write_header. destruct remote; try done; cbn [ip_addr] in Hip; apply Hw; try done.
  rewrite zlen_app, zlen_le_bytes, (firstn_all2 ip) by lia. unfold zlen. rewrite Hip. reflexivity.
Qed.

(** ** What comes in *)

(** The reply [p] to a connection at [a]: its address afterwards, and what is
    passed on. *)
Definition reply (mtu : Z) (dns : bool) (a : conaddr) (p : bytes) : conaddr * list event :=
  let pass (a : conaddr) (l : bytes) :=
    (a, if mtu <? zlen l then [] else [Received (local_addr a) (remote_addr a) l]) in
  if dns then pass a p
  else if zlen p <? SOCKS_UDP_HEADER then (a, [])
  else
    let header := slice 0 SOCKS_UDP_HEADER p in
    if negb (nth 2 header 0 =? 0) then (a, [])
    else if nth 3 header 0 =? Socks.SOCKS_ATYP_IPV6 then
      if zlen p <? SOCKS_UDP_HEADER + UDPGW_ADDR_IPV6 then (a, [])
      else
        let l := slice SOCKS_UDP_HEADER UDPGW_ADDR_IPV6 p in
        pass (mk_conaddr (local_addr a) (IPV6 (take 16 l) (le_val (drop 16 l))))
          (slice (SOCKS_UDP_HEADER + UDPGW_ADDR_IPV6) (zlen p - (SOCKS_UDP_HEADER + UDPGW_ADDR_IPV6)) p)
    else
      if zlen p <? SOCKS_UDP_HEADER + UDPGW_ADDR_IPV4 then (a, [])
      else
        let l := slice SOCKS_UDP_HEADER UDPGW_ADDR_IPV4 p in
        pass (mk_conaddr (local_addr a) (IPV4 (le_val (take 4 l)) (le_val (drop 4 l))))
          (slice (SOCKS_UDP_HEADER + UDPGW_ADDR_IPV4) (zlen p - (SOCKS_UDP_HEADER + UDPGW_ADDR_IPV4)) p).

(** The end of [dgram_handler_received]: a datagram that is not too long is given
    to the handler with the addresses of the connection. *)
Lemma pass_data_ok {H} (nt : H -> event -> H) c (g : H) o cs con off n (Q : unit -> H -> client -> Prop) :
  cs !! c = Some con -> 0 <= off <= n -> n <= zlen (udp_recv_mem con) ->
  (let l := slice off (n - off) (udp_recv_mem con) in
   Q tt (foldl nt g (if udp_mtu o <? zlen l then []
                     else [Received (local_addr (con_addr con)) (remote_addr (con_addr con)) l])) (with_cs o cs)) ->
  wph nt (if udp_mtu o <? n - off then mret tt
          else con0 ← get_con c; l0 ← must (mem_read off (n - off) (udp_recv_mem con0));
               emit (Received (local_addr (con_addr con0)) (remote_addr (con_addr con0)) l0)) Q g (with_cs o cs).
Proof.
  cbn zeta. intros Hc Ho Hn HQ. rewrite zlen_slice in HQ by lia.
  destruct (udp_mtu o <? n - off); [by apply wph_ret|].
  apply wph_bind. eapply wph_get_con; [exact Hc|].
  apply wph_bind. eapply wph_must; [apply mem_read_Some; lia|].
  apply wph_emit. exact HQ.
Qed.

Lemma dgram_received_ok {H} (nt : H -> event -> H) c (g : H) o cs con n (Q : unit -> H -> client -> Prop) :
  cs !! c = Some con -> pp_is (udp_mtu o) (Busy 0 n) (udp_recv_if con) ->
  n <= zlen (udp_recv_mem con) -> n <= udpgw_mtu o ->
  (forall i, pp_is (udp_mtu o) (Done 0 n 0) i ->
     let r := reply (udp_mtu o) (is_dns con) (con_addr con) (slice 0 n (udp_recv_mem con)) in
     Q tt (foldl nt g r.2) (with_cs o (<[c := con <| udp_recv_if := i |> <| con_addr := r.1 |>]> cs))) ->
  wph nt (dgram_handler_received c 0 n) Q g (with_cs o cs).
Proof.
  intros Hc Hi Hn Hg HQ. destruct (pp_is_data _ _ _ _ Hi) as (_ & _ & Hn0 & _).
  unfold dgram_handler_received. apply wph_bind, wph_get. apply wph_bind, wph_assert; [by b2p|].
  apply wph_bind, wph_assert; [by b2p|]. apply wph_bind. eapply wph_at_con; [exact Hc|].
  apply wp_zoom. eapply wp_pp_done; [exact Hi|]. intros i Hi'. split; [done|]. specialize (HQ i Hi').
  apply wph_bind. eapply wph_get_con; [by rewrite lookup_insert_eq|].
  set (con1 := con <| udp_recv_if := i |>) in *. set (m := udp_recv_mem con) in *.
  change (udp_mtu (with_cs o _)) with (udp_mtu o).
  assert (Hid : con1 <| con_addr := con_addr con |> = con1) by by destruct con.
  assert (Hpass := fun a off => pass_data_ok nt c g o (<[c := con1 <| con_addr := a |>]> cs)
                     (con1 <| con_addr := a |>) off n Q ltac:(by rewrite lookup_insert_eq)).
  change (is_dns con1) with (is_dns con). change (udp_recv_mem con1) with m. change (con_addr con1) with (con_addr con).
  unfold reply in HQ. rewrite zlen_slice in HQ by lia.
  destruct (is_dns con).
  { specialize (Hpass (con_addr con) 0). rewrite Z.sub_0_r, Hid in Hpass. apply Hpass; [lia|exact Hn|].
    cbn in HQ. rewrite Hid in HQ. cbn zeta. change (udp_recv_mem con1) with m. rewrite zlen_slice by lia. exact HQ. }
  destruct (n <? SOCKS_UDP_HEADER) eqn:E1; b2p. { cbn in HQ. rewrite Hid in HQ. by apply wph_ret. }
  unfold SOCKS_UDP_HEADER, UDPGW_ADDR_IPV4, UDPGW_ADDR_IPV6 in *.
  apply wph_bind. eapply wph_must; [apply mem_read_Some; lia|].
  rewrite slice_slice in HQ by lia. rewrite Z.add_0_l in HQ.
  destruct (negb (nth 2 (slice 0 4 m) 0 =? 0)) eqn:E2. { cbn in HQ. rewrite Hid in HQ. by apply wph_ret. }
  change (0 + 4) with 4. change (4 + 18) with 22 in HQ. change (4 + 6) with 10 in HQ.
  destruct (nth 3 (slice 0 4 m) 0 =? Socks.SOCKS_ATYP_IPV6).
  - replace (n - 4 <? 18) with (n <? 22) by (apply Bool.eq_iff_eq_true; rewrite !Z.ltb_lt; lia).
    destruct (n <? 22) eqn:E3; b2p. { cbn in HQ. rewrite Hid in HQ. by apply wph_ret. }
    apply wph_bind. eapply wph_must; [apply mem_read_Some; lia|].
    rewrite !slice_slice in HQ by lia. rewrite !Z.add_0_l in HQ.
    apply wph_bind, wph_set_con. rewrite insert_insert_eq. replace (n - 4 - 18) with (n - 22) by lia. change (4 + 18) with 22.
    apply (Hpass _ 22); [lia|exact Hn|exact HQ].
  - replace (n - 4 <? 6) with (n <? 10) by (apply Bool.eq_iff_eq_true; rewrite !Z.ltb_lt; lia).
    destruct (n <? 10) eqn:E3; b2p. { cbn in HQ. rewrite Hid in HQ. by apply wph_ret. }
    apply wph_bind. eapply wph_must; [apply mem_read_Some; lia|].
    rewrite !slice_slice in HQ by lia. rewrite !Z.add_0_l in HQ.
    apply wph_bind, wph_set_con. rewrite insert_insert_eq. replace (n - 4 - 6) with (n - 10) by lia. change (4 + 6) with 10.
    apply (Hpass _ 10); [lia|exact Hn|exact HQ].
Qed.

Lemma frame_header remote dns data :
  ip_addr remote -> frame remote dns data = (if dns then [] else header remote) ++ data.
Proof. destruct dns, remote; try done; intros; cbn [frame header]; by rewrite <- !app_assoc. Qed.

(** A packet with its header goes to the memory of the writer, if there is one. *)
Lemma connection_send_ok c h o cs con ph data len l (Q : bool -> history -> client -> Prop) :
  cs !! c = Some con -> bw_is (udp_mtu o) ph (udp_send_writer con) ->
  zlen (udp_send_mem con) = udp_mtu o -> ip_addr (remote_addr (con_addr con)) ->
  0 <= data -> 0 <= len -> data + len <= zlen (device_buf o) -> l = slice data len (device_buf o) ->
  header_len (remote_addr (con_addr con)) (is_dns con) + len <= udp_mtu o ->
  match ph with
  | Busy d _ => d = 0 /\ forall w m k, bw_is (udp_mtu o) (Done 0 (udp_mtu o) k) w -> zlen m = udp_mtu o ->
      Q false (note h (Out c (send_addr con) (frame (remote_addr (con_addr con)) (is_dns con) l)))
        (with_cs (o <| jobs := WriterDone c :: jobs o |>)
           (<[c := con <| udp_send_writer := w |> <| udp_send_mem := m |>]> cs))
  | _ => Q true h (with_cs o cs)
  end ->
  wph note (connection_send c data len) Q h (with_cs o cs).
Proof.
  intros Hc Hw Hm Hip Hd Hlen Hdl -> Hfit HQ. set (l := slice data len (device_buf o)) in *.
  assert (Hl : zlen l = len) by (by apply zlen_slice).
  unfold connection_send. apply wph_bind. eapply wph_at_con; [exact Hc|].
  apply wp_zoom. eapply wp_bw_start; [exact Hw|].
  assert (Hid : <[c := con <| udp_send_writer := udp_send_writer con |>]> cs = cs).
  { replace (con <| udp_send_writer := udp_send_writer con |>) with con by by destruct con. by apply insert_id. }
  destruct ph; try (split; [done|]; rewrite Hid; by apply wph_ret). clear Hid.
  destruct HQ as [-> HQ]. intros w1 Hw1. split; [done|].
  apply wph_bind. eapply wph_get_con; [by rewrite lookup_insert_eq|].
  set (con1 := con <| udp_send_writer := w1 |>).
  (* the header *)
  apply wph_bind.
  assert (Hhdr : forall (Q' : Z -> history -> client -> Prop),
    (forall m, zlen m = udp_mtu o -> slice 0 (header_len (remote_addr (con_addr con)) (is_dns con)) m =
                 (if is_dns con then [] else header (remote_addr (con_addr con))) ->
       Q' (header_len (remote_addr (con_addr con)) (is_dns con)) h (with_cs o (<[c := con1 <| udp_send_mem := m |>]> cs))) ->
    wph note (if negb (is_dns con1) then write_header c 0 (remote_addr (con_addr con1)) else mret 0) Q' h
      (with_cs o (<[c := con1]> cs))).
  { intros Q' HQ'. change (is_dns con1) with (is_dns con). destruct (is_dns con); cbn [negb].
    - apply wph_ret. replace con1 with (con1 <| udp_send_mem := udp_send_mem con |>) by by destruct con.
      by apply HQ'.
    - eapply wph_write_header; [by rewrite lookup_insert_eq|exact Hip|change (header_len (remote_addr (con_addr con)) false <= zlen (udp_send_mem con)); lia|].
      intros m Hz Hs. rewrite insert_insert_eq. apply HQ'; [by rewrite Hz|exact Hs]. }
  apply Hhdr. clear Hhdr. intros m1 Hz1 Hs1. set (hl := header_len _ _) in *.
  assert (0 <= hl) by (unfold hl, header_len; destruct (is_dns con); [lia|]; by destruct (remote_addr (con_addr con))).
  (* the data *)
  apply wph_bind, wph_gets. change (device_buf (with_cs o _)) with (device_buf o).
  apply wph_bind. eapply wph_must; [by apply mem_read_Some|]. fold l.
  set (con2 := con1 <| udp_send_mem := m1 |>). assert (Hm2 : udp_send_mem con2 = m1) by done.
  apply wph_bind. eapply wph_write_out; [by rewrite lookup_insert_eq|lia|rewrite Hm2; lia|]. rewrite insert_insert_eq, Hm2.
  set (con3 := con2 <| udp_send_mem := splice (0 + hl) l m1 |>).
  assert (Hm3 : udp_send_mem con3 = splice (0 + hl) l m1) by done.
  assert (Hz3 : zlen (splice (0 + hl) l m1) = udp_mtu o) by (rewrite zlen_splice; lia).
  apply wph_bind. eapply wph_get_con; [by rewrite lookup_insert_eq|].
  apply wph_bind. eapply wph_must; [apply mem_read_Some; rewrite ?Hm3; lia|].
  assert (Hf : slice 0 (hl + len) (udp_send_mem con3) = frame (remote_addr (con_addr con)) (is_dns con) l).
  { rewrite Hm3, slice_splice_end by lia. rewrite Z.add_0_l, Hs1. by rewrite frame_header. }
  rewrite Hf.
  apply wph_bind. eapply wph_at_con; [by rewrite lookup_insert_eq|].
  apply wp_zoom. eapply wp_bw_end; [exact Hw1|lia|]. intros w2 Hw2. split; [done|]. rewrite insert_insert_eq.
  apply wph_bind, wph_modify. apply wph_bind, wph_emit. apply wph_ret.
  apply (HQ w2 (splice (0 + hl) l m1) (hl + len)); done.
Qed.
End rules.

(** ** The invariant *)

Section invariant.
Context {T : Type -> Type} `{!OrdTree T} `{!OrdTreeLaws T}.
Context (mtu0 max0 : Z) (server0 dns0 : BAddr).
Local Abbreviation client := (@SocksUdpGwClient T).
Implicit Types (o : client) (h : history) (cs : gmap Z connection) (c : Z) (con : connection) (js : list job).

(** The connections as the tree and the list have them. *)
Record book (h : history) (o : client) : Prop := {
  b_tree : ot_wf (connections_tree o) /\ sorted conaddr_comparator (key o) (ot_elems (connections_tree o));
  b_perm : ot_elems (connections_tree o) ≡ₚ connections_list o;
  b_nodup : NoDup (connections_list o);
  b_dom : forall c, c ∈ connections_list o <-> is_Some ((connections o) !! c);
  b_local : forall c con, connections o !! c = Some con -> ip_ok (local_addr (con_addr con));
  b_num : num_connections o = zlen (connections_list o) /\ zlen (connections_list o) <= max_connections o /\
          0 < max_connections o;
  b_cache : cache h = (fun c => local_addr (key o c)) <$> connections_list o;
  b_evict : evictions_ok h = true
}.

(** The writer of [c] and its jobs. *)
Definition writer_ok (js : list job) (mtu : Z) (c : Z) (con : connection) : Prop :=
  exists ph, bw_is mtu ph (udp_send_writer con) /\
    match ph with
    | Idle => WriterOperation c ∉ js /\ WriterDone c ∉ js
    | Op d _ => d = 0 /\ WriterOperation c ∈ js /\ WriterDone c ∉ js
    | Busy d _ => d = 0 /\ WriterOperation c ∉ js /\ WriterDone c ∉ js
    | Done _ _ _ => WriterOperation c ∉ js /\ WriterDone c ∈ js
    end.
Definition receiver_ok (js : list job) (mtu : Z) (c : Z) (con : connection) : Prop :=
  exists ph, pp_is mtu ph (udp_recv_if con) /\ (FirstJob c ∈ js -> ph = Idle) /\
    match ph with Op d _ => d = 0 | _ => True end.
Record con_ok (js : list job) (mtu : Z) (server dns : BAddr) (c : Z) (con : connection) : Prop := {
  k_remote : ip_addr (remote_addr (con_addr con));
  k_send_mem : zlen (udp_send_mem con) = mtu;
  k_recv_mem : zlen (udp_recv_mem con) = mtu;
  k_to : send_addr con = server \/ send_addr con = dns;
  k_writer : writer_ok js mtu c con;
  k_receiver : receiver_ok js mtu c con
}.

Definition first_packet (dbuf : bytes) (con : connection) : bytes :=
  frame (remote_addr (con_addr con)) (is_dns con) (slice (first_data con) (first_data_len con) dbuf).

(** The first packet that has not left yet: its job runs after the writer has
    memory, and before the device may change its buffer. *)
Inductive first_ok (js : list job) (cs : gmap Z connection) (mtu : Z) (dbuf : bytes) (h : history) : Prop :=
| first_none : (forall c, FirstJob c ∉ js) -> accepted h = outs h -> first_ok js cs mtu dbuf h
| first_some c con l1 l2 :
    js = l1 ++ FirstJob c :: l2 -> (forall c', FirstJob c' ∉ l1) -> (forall c', FirstJob c' ∉ l2) ->
    DeviceDone ∈ l2 -> cs !! c = Some con ->
    WriterOperation c ∈ l1 \/ out_have (udp_send_writer con) = true ->
    0 <= first_data con -> 0 <= first_data_len con -> first_data con + first_data_len con <= zlen dbuf ->
    header_len (remote_addr (con_addr con)) (is_dns con) + first_data_len con <= mtu ->
    accepted h = outs h ++ [(c, first_packet dbuf con)] -> first_ok js cs mtu dbuf h.

Record flows (h : history) (o : client) : Prop := {
  f_mtu : 0 <= udp_mtu o /\ udpgw_mtu o = udp_mtu o + 22;
  f_const : udp_mtu o = mtu0 /\ max_connections o = Z.min max0 65536 /\ socks_server_addr o = server0 /\ dnsgw o = dns0;
  f_con : forall c con, connections o !! c = Some con ->
            con_ok (jobs o) (udp_mtu o) (socks_server_addr o) (dnsgw o) c con;
  f_nodup : NoDup (jobs o);
  f_live : forall c, FirstJob c ∈ jobs o \/ WriterOperation c ∈ jobs o \/ WriterDone c ∈ jobs o ->
            is_Some ((connections o) !! c);
  f_first : first_ok (jobs o) (connections o) (udp_mtu o) (device_buf o) h;
  f_to : forall a, a ∈ sent_to h -> a = socks_server_addr o \/ a = dnsgw o
}.
Definition inv (h : history) (o : client) : Prop := book h o /\ flows h o.

(** *** Bookkeeping *)

#[export] Instance conaddr_comparator_ok : Comparator conaddr_comparator.
Proof. exact (comparator_on BAddr_CompareOrder local_addr). Qed.

Lemma key_insert cs c con con' x :
  cs !! c = Some con -> local_addr (con_addr con') = local_addr (con_addr con) ->
  local_addr (key_of (<[c := con']> cs) x) = local_addr (key_of cs x).
Proof.
  intros Hc Hl. unfold key_of. destruct (decide (x = c)) as [->|].
  - by rewrite lookup_insert_eq, Hc.
  - by rewrite lookup_insert_ne.
Qed.

Lemma sorted_keys (k k' : Z -> conaddr) l :
  (forall x, x ∈ l -> local_addr (k x) = local_addr (k' x)) ->
  sorted conaddr_comparator k l -> sorted conaddr_comparator k' l.
Proof.
  intros Hk. apply sorted_ext. intros a b Ha Hb. unfold before, conaddr_comparator. by rewrite !Hk.
Qed.

Lemma book_insert h o cs c con con' :
  book h (with_cs o cs) -> cs !! c = Some con -> local_addr (con_addr con') = local_addr (con_addr con) ->
  book h (with_cs o (<[c := con']> cs)).
Proof.
  intros [[Hwf Hs] ? ? Hd Hl ? Hca ?] Hc Heq. pose proof (key_insert cs c con con') as Hk.
  constructor; try done.
  - split; [done|]. eapply sorted_keys; [|exact Hs]. intros. symmetry. by apply Hk.
  - intros c'. rewrite Hd. change (connections (with_cs o ?x)) with x. rewrite lookup_insert_is_Some'.
    split; [by right|]. intros [<-|?]; [by exists con|done].
  - intros c' con0. change (connections (with_cs o ?x)) with x. destruct (decide (c' = c)) as [->|].
    + rewrite lookup_insert_eq. intros [= <-]. rewrite Heq. by apply (Hl c).
    + rewrite lookup_insert_ne by done. apply Hl.
  - rewrite Hca. apply list_fmap_ext. intros. symmetry. by apply Hk.
Qed.

(** A change of anything but the connections leaves the books alone. *)
Lemma book_other h h' o o' :
  book h o -> connections_tree o' = connections_tree o -> connections_list o' = connections_list o ->
  connections o' = connections o -> num_connections o' = num_connections o ->
  max_connections o' = max_connections o -> cache h' = cache h -> evictions_ok h' = evictions_ok h -> book h' o'.
Proof.
  intros [? ? ? ? ? ? ? ?] Ht Hl Hc Hn Hm Hca He. unfold key in *.
  constructor; unfold key; rewrite ?Ht, ?Hl, ?Hc, ?Hn, ?Hm, ?Hca, ?He; done.
Qed.

(** *** Flows *)

(** The jobs of [c] are the same in [js] and [js']; [others]: all but those. *)
Definition same_jobs (c : Z) (js js' : list job) : Prop :=
  (FirstJob c ∈ js' <-> FirstJob c ∈ js) /\ (WriterOperation c ∈ js' <-> WriterOperation c ∈ js) /\
  (WriterDone c ∈ js' <-> WriterDone c ∈ js).
Definition others (c : Z) (js js' : list job) : Prop := forall c', c' <> c -> same_jobs c' js js'.

Definition job_con (j : job) : option Z :=
  match j with FirstJob c | WriterOperation c | WriterDone c => Some c | DeviceDone => None end.
Lemma same_push c j js : job_con j <> Some c -> same_jobs c js (j :: js).
Proof. unfold same_jobs. intros Hj. rewrite !elem_of_cons. destruct j; cbn in Hj; naive_solver. Qed.
Lemma same_trans c js1 js2 js3 : same_jobs c js1 js2 -> same_jobs c js2 js3 -> same_jobs c js1 js3.
Proof. unfold same_jobs. tauto. Qed.
Lemma same_sym c js1 js2 : same_jobs c js1 js2 -> same_jobs c js2 js1.
Proof. unfold same_jobs. tauto. Qed.
Lemma others_push c j js : (job_con j = None \/ job_con j = Some c) -> others c js (j :: js).
Proof. intros Hj c' Hne. apply same_push. destruct Hj as [-> | ->]; congruence. Qed.
Lemma others_pop c j js : (job_con j = None \/ job_con j = Some c) -> others c (j :: js) js.
Proof. intros Hj c' Hne. apply same_sym. by apply (others_push c). Qed.
Lemma others_trans c js1 js2 js3 : others c js1 js2 -> others c js2 js3 -> others c js1 js3.
Proof. intros H1 H2 c' Hne. eapply same_trans; [by apply H1|by apply H2]. Qed.
Lemma others_refl c js : others c js js.
Proof. by intros c' _. Qed.

Lemma con_ok_others c js js' mtu s d c' con :
  others c js js' -> c' <> c -> con_ok js mtu s d c' con -> con_ok js' mtu s d c' con.
Proof.
  intros Ho Hne [? ? ? ? (ph & Hw & Hp) (ph2 & Hr & Hf & Hp2)]. destruct (Ho c' Hne) as (H1 & H2 & H3).
  constructor; try done.
  - exists ph. split; [done|]. destruct ph; rewrite ?H2, ?H3; done.
  - exists ph2. rewrite H1. done.
Qed.

Lemma flows_set h h' o cs c con' js' dbuf :
  flows h (with_cs o cs) ->
  con_ok js' (udp_mtu o) (socks_server_addr o) (dnsgw o) c con' ->
  others c (jobs o) js' -> NoDup js' ->
  first_ok js' (<[c := con']> cs) (udp_mtu o) dbuf h' ->
  (forall a, a ∈ sent_to h' -> a = socks_server_addr o \/ a = dnsgw o) ->
  flows h' (with_cs (o <| jobs := js' |> <| device_buf := dbuf |>) (<[c := con']> cs)).
Proof.
  intros [? ? Hcon ? Hl ? ?] Hok Ho Hn Hf Ha. constructor; try done.
  - intros c' con0. change (connections (with_cs _ ?x)) with x. destruct (decide (c' = c)) as [->|Hne].
    + rewrite lookup_insert_eq. by intros [= <-].
    + rewrite lookup_insert_ne by done. intros Hc'. eapply con_ok_others; [exact Ho|done|]. by apply Hcon.
  - intros c' Hj. change (connections (with_cs _ ?x)) with x. rewrite lookup_insert_is_Some'.
    destruct (decide (c' = c)) as [->|Hne]; [by left|right]. apply Hl.
    destruct (Ho c' Hne) as (H1 & H2 & H3). change (jobs (with_cs _ _)) with js' in Hj. 
    change (jobs (with_cs _ _)) with (jobs o). tauto.
Qed.

Lemma first_push j js cs mtu dbuf h :
  (forall c, j <> FirstJob c) -> first_ok js cs mtu dbuf h -> first_ok (j :: js) cs mtu dbuf h.
Proof.
  intros Hj [Hn Ha|c con l1 l2 -> H1 H2 Hd Hc Hw ? ? ? ? Ha].
  - apply first_none; [|done]. intros c. rewrite elem_of_cons. intros [?|?]; [by apply (Hj c)|by apply (Hn c)].
  - apply (first_some _ _ _ _ _ c con (j :: l1) l2); try done.
    + intros c'. rewrite elem_of_cons. intros [?|?]; [by apply (Hj c')|by apply (H1 c')].
    + destruct Hw as [?|?]; [left; by right|by right].
Qed.

Lemma first_update js cs mtu dbuf h c con con' :
  first_ok js cs mtu dbuf h -> cs !! c = Some con ->
  (FirstJob c ∈ js -> con_addr con' = con_addr con /\ is_dns con' = is_dns con /\ first_data con' = first_data con /\
     first_data_len con' = first_data_len con /\
     (out_have (udp_send_writer con) = true -> out_have (udp_send_writer con') = true)) ->
  first_ok js (<[c := con']> cs) mtu dbuf h.
Proof.
  intros [Hn Ha|c1 con1 l1 l2 -> H1 H2 Hd Hc Hw ? ? ? ? Ha] Hcon Hsame; [by apply first_none|].
  destruct (decide (c1 = c)) as [->|Hne].
  - rewrite Hcon in Hc. injection Hc as <-.
    destruct Hsame as (Ea & Ed & Ef & El & Eo); [apply elem_of_app; right; left|].
    apply (first_some _ _ _ _ _ c con' l1 l2); unfold first_packet in *; rewrite ?Ea, ?Ed, ?Ef, ?El; try done.
    + apply lookup_insert_eq.
    + destruct Hw; [by left|right; by apply Eo].
  - apply (first_some _ _ _ _ _ c1 con1 l1 l2); try done. by rewrite lookup_insert_ne.
Qed.

(** The job on top is taken; [WriterOperation c] gives its writer memory. *)
Lemma first_pop j js cs mtu dbuf h :
  first_ok (j :: js) cs mtu dbuf h -> NoDup (j :: js) -> (forall c, j <> FirstJob c) ->
  (forall c con, j = WriterOperation c -> FirstJob c ∈ js -> cs !! c = Some con -> out_have (udp_send_writer con) = true) ->
  first_ok js cs mtu dbuf h.
Proof.
  intros [Hn Ha|c con l1 l2 Hj H1 H2 Hd Hc Hw ? ? ? ? Ha] Hnd Hne Hout.
  { apply first_none; [|done]. intros c Hc. apply (Hn c). by right. }
  destruct l1 as [|j' l1]; cbn in Hj; injection Hj as Hj ->; [by destruct (Hne c)|]. subst j'.
  apply (first_some _ _ _ _ _ c con l1 l2); try done.
  - intros c' ?. apply (H1 c'). by right.
  - destruct Hw as [[<-|?]%elem_of_cons|?]; [|by left|by right]. right.
    apply (Hout c); [done| |done]. apply elem_of_app. right. left.
Qed.

Lemma first_top c js cs mtu dbuf h con :
  first_ok (FirstJob c :: js) cs mtu dbuf h -> cs !! c = Some con ->
  (forall c', FirstJob c' ∉ js) /\ DeviceDone ∈ js /\ out_have (udp_send_writer con) = true /\
  0 <= first_data con /\ 0 <= first_data_len con /\ first_data con + first_data_len con <= zlen dbuf /\
  header_len (remote_addr (con_addr con)) (is_dns con) + first_data_len con <= mtu /\
  accepted h = outs h ++ [(c, first_packet dbuf con)].
Proof.
  intros [Hn _|c1 con1 l1 l2 Hj H1 H2 Hd Hc Hw ? ? ? ? Ha] Hcon; [destruct (Hn c); left|].
  destruct l1 as [|j' l1]; cbn in Hj; injection Hj as Hj ->.
  - subst c1. rewrite Hcon in Hc. injection Hc as <-. destruct Hw as [[]%elem_of_nil|Hw]. done.
  - destruct (H1 c). subst. left.
Qed.

Lemma flows_jobs h h' o cs js' dbuf :
  flows h (with_cs o cs) -> (forall c, same_jobs c (jobs o) js') -> NoDup js' ->
  first_ok js' cs (udp_mtu o) dbuf h' ->
  (forall a, a ∈ sent_to h' -> a = socks_server_addr o \/ a = dnsgw o) ->
  flows h' (with_cs (o <| jobs := js' |> <| device_buf := dbuf |>) cs).
Proof.
  intros [? ? Hcon ? Hl ? ?] Ho Hn Hf Ha. constructor; try done.
  - intros c con Hc. eapply (con_ok_others (c + 1)); [intros ? _; apply Ho|lia|]. by apply Hcon.
  - intros c Hj. apply Hl. destruct (Ho c) as (H1 & H2 & H3).
    change (jobs (with_cs _ _)) with js' in Hj. change (jobs (with_cs _ _)) with (jobs o). tauto.
Qed.

Lemma set_same o cs js : with_cs (o <| jobs := js |> <| device_buf := device_buf o |>) cs = with_cs (o <| jobs := js |>) cs.
Proof. by destruct o. Qed.
Lemma set_none o cs : with_cs (o <| jobs := jobs o |>) cs = with_cs o cs.
Proof. by destruct o. Qed.

Lemma flows_top h o cs j l :
  flows h (with_cs o cs) -> jobs o = j :: l -> j ∉ l /\ NoDup l.
Proof. intros Hf Hj. pose proof (f_nodup _ _ Hf) as Hn. change (jobs (with_cs o cs)) with (jobs o) in Hn. rewrite Hj in Hn. by apply NoDup_cons in Hn. Qed.

(** Putting a state together again after a change of [c] and its jobs. *)
Lemma inv_set h h' o cs c con con' js' :
  inv h (with_cs o cs) -> cs !! c = Some con ->
  local_addr (con_addr con') = local_addr (con_addr con) ->
  con_ok js' (udp_mtu o) (socks_server_addr o) (dnsgw o) c con' ->
  others c (jobs o) js' -> NoDup js' ->
  first_ok js' (<[c := con']> cs) (udp_mtu o) (device_buf o) h' ->
  (forall a, a ∈ sent_to h' -> a = socks_server_addr o \/ a = dnsgw o) ->
  cache h' = cache h -> evictions_ok h' = evictions_ok h ->
  inv h' (with_cs (o <| jobs := js' |>) (<[c := con']> cs)).
Proof.
  intros [Hb Hf] Hc Hl Hok Ho Hn Hfi Ha Hca He. split.
  - eapply book_other; [by eapply book_insert|done..].
  - rewrite <- set_same. by eapply flows_set.
Qed.

Lemma dispatch_first_ok h o cs c l :
  inv h (with_cs o cs) -> jobs o = FirstJob c :: l ->
  wph note (connection_first_job_handler c) (fun _ => inv) h (with_cs (o <| jobs := l |>) cs).
Proof.
  intros Hi Hj. assert (Hi' := Hi). destruct Hi' as [Hb Hf].
  destruct (f_live _ _ Hf c) as [con Hc]; [left; change (jobs (with_cs o cs)) with (jobs o); rewrite Hj; left|].
  change (cs !! c = Some con) in Hc. destruct (flows_top _ _ _ _ _ Hf Hj) as [Hn1 Hn2].
  destruct (f_con _ _ Hf c con Hc) as [Hrem Hsm Hrm Hto (ph & Hw & Hph) (ph2 & Hr & Hfi & Hd2)].
  pose proof (f_first _ _ Hf) as Hfirst. change (first_ok (jobs o) cs (udp_mtu o) (device_buf o) h) in Hfirst.
  rewrite Hj in Hfirst. destruct (first_top _ _ _ _ _ _ _ Hfirst Hc) as (Hnone & Hdd & Hout & Hd & Hl & Hdl & Hfit & Hacc).
  unfold connection_first_job_handler. apply wph_bind. eapply wph_get_con; [exact Hc|]. apply wph_bind.
  eapply (connection_send_ok c h (o <| jobs := l |>)); [exact Hc|exact Hw|exact Hsm|exact Hrem|exact Hd|exact Hl|exact Hdl|reflexivity|exact Hfit|].
  destruct ph as [|d n|d n|d n k]; try (by destruct Hw as (_ & _ & _ & Hw); rewrite Hw in Hout).
  change (jobs (with_cs o cs)) with (jobs o) in *. rewrite Hj in *. destruct Hph as (-> & Hwo & Hwd). rewrite not_elem_of_cons in Hwo, Hwd.
  split; [done|]. intros w m k Hw' Hm. apply wph_ret.
  change (with_cs (o <| jobs := l |> <| jobs := WriterDone c :: jobs (o <| jobs := l |>) |>) ?x)
    with (with_cs (o <| jobs := WriterDone c :: l |>) x).
  assert (Hs' : forall a, a ∈ sent_to (note h (Out c (send_addr con)
      (frame (remote_addr (con_addr con)) (is_dns con) (slice (first_data con) (first_data_len con) (device_buf o))))) ->
      a = socks_server_addr o \/ a = dnsgw o).
  { intros a. change (sent_to (note h _)) with (sent_to h ++ [send_addr con]).
    rewrite elem_of_app, list_elem_of_singleton. intros [?| ->]; [by apply (f_to _ _ Hf)|done]. }
  eapply inv_set; try done.
  - constructor; try done.
    + exists (Done 0 (udp_mtu o) k). split; [done|]. split; [|left]. rewrite not_elem_of_cons. split; [done|apply Hwo].
    + exists ph2. split; [done|]. split; [|done]. intros [?|Hin]%elem_of_cons; [done|]. by destruct (Hnone c).
  - rewrite Hj. eapply others_trans; [apply others_pop; by right|apply others_push; by right].
  - constructor; [apply Hwd|done].
  - apply first_push; [done|]. apply first_none; [|exact Hacc].
    intros c'. apply Hnone.
Qed.

Lemma dispatch_writer_ok h o cs c l :
  inv h (with_cs o cs) -> jobs o = WriterOperation c :: l ->
  wph note (at_con c (zoom udp_send_writer BufferWriter_job_operation)) (fun _ => inv) h (with_cs (o <| jobs := l |>) cs).
Proof.
  intros Hi Hj. assert (Hi' := Hi). destruct Hi' as [Hb Hf].
  destruct (f_live _ _ Hf c) as [con Hc]; [right; left; change (jobs (with_cs o cs)) with (jobs o); rewrite Hj; left|].
  change (cs !! c = Some con) in Hc. destruct (flows_top _ _ _ _ _ Hf Hj) as [Hn1 Hn2].
  destruct (f_con _ _ Hf c con Hc) as [Hrem Hsm Hrm Hto (ph & Hw & Hph) (ph2 & Hr & Hfi & Hd2)].
  pose proof (f_first _ _ Hf) as Hfirst. change (first_ok (jobs o) cs (udp_mtu o) (device_buf o) h) in Hfirst.
  change (jobs (with_cs o cs)) with (jobs o) in *. rewrite Hj in *.
  assert (Hin : WriterOperation c ∈ WriterOperation c :: l) by left.
  destruct ph as [|d n|d n|d n k]; try (exfalso; tauto). destruct Hph as (-> & _ & Hwd). rewrite not_elem_of_cons in Hwd.
  eapply wph_at_con; [exact Hc|]. apply wp_zoom. eapply wp_bw_job_operation; [exact Hw|]. intros w Hw'. split; [done|].
  eapply inv_set; try done.
  - constructor; try done.
    + exists (Busy 0 n). split; [done|]. split; [done|]. split; [done|apply Hwd].
    + exists ph2. split; [done|]. split; [|done]. intros ?. apply Hfi. by right.
  - rewrite Hj. apply others_pop. by right.
  - eapply (first_pop (WriterOperation c)); [eapply first_update; [exact Hfirst|exact Hc|]|by constructor|done|].
    + intros _. do 4 (split; [done|]). intros _. apply Hw'.
    + intros c' con' [= <-] _. rewrite lookup_insert_eq. intros [= <-]. apply Hw'.
  - apply (f_to _ _ Hf).
Qed.

(** The packet buffer behind the writer asks for a packet. *)
Lemma receive_next_ok h o cs c con :
  inv h (with_cs o cs) -> cs !! c = Some con ->
  st_eq (pr_state (recv_interface (udp_send_writer con))) Interfaces.NONE = true ->
  wph note (receive_next c) (fun _ => inv) h (with_cs o cs).
Proof.
  intros Hi Hc He. assert (Hi' := Hi). destruct Hi' as [Hb Hf].
  destruct (f_con _ _ Hf c con Hc) as [Hrem Hsm Hrm Hto (ph & Hw & Hph) (ph2 & Hr & Hfi & Hd2)].
  change (udp_mtu (with_cs o cs)) with (udp_mtu o) in *. change (jobs (with_cs o cs)) with (jobs o) in *.
  pose proof (pr_phase _ _ _ _ (proj1 Hw) He) as Hp. destruct ph; try done. clear Hp.
  unfold receive_next. apply wph_bind. eapply wph_at_con; [exact Hc|].
  apply wp_zoom. eapply wp_bw_recv; [exact Hw|]. intros w Hw'. split; [done|]. apply wph_modify.
  change (upd jobs (cons (WriterOperation c)) (with_cs o ?x)) with (with_cs (o <| jobs := WriterOperation c :: jobs o |>) x).
  destruct Hph as [Hwo Hwd]. eapply inv_set; try done.
  - constructor; try done.
    + exists (Op 0 (udp_mtu o)). split; [done|]. split; [done|]. split; [left|]. by rewrite not_elem_of_cons.
    + exists ph2. split; [done|]. split; [|done]. intros [?|?]%elem_of_cons; [done|]. by apply Hfi.
  - apply others_push. by right.
  - constructor; [done|apply (f_nodup _ _ Hf)].
  - apply first_push; [done|]. eapply first_update; [apply (f_first _ _ Hf)|exact Hc|].
    intros _. do 4 (split; [done|]). destruct Hw as (_ & _ & _ & Hw). by rewrite Hw.
  - apply (f_to _ _ Hf).
Qed.

Lemma dispatch_done_ok space h o cs c l :
  inv h (with_cs o cs) -> jobs o = WriterDone c :: l ->
  wph note (run_job (WriterDone c) space) (fun _ => inv) h (with_cs (o <| jobs := l |>) cs).
Proof.
  intros Hi Hj. assert (Hi' := Hi). destruct Hi' as [Hb Hf].
  destruct (f_live _ _ Hf c) as [con Hc]; [right; right; change (jobs (with_cs o cs)) with (jobs o); rewrite Hj; left|].
  change (cs !! c = Some con) in Hc. destruct (flows_top _ _ _ _ _ Hf Hj) as [Hn1 Hn2].
  destruct (f_con _ _ Hf c con Hc) as [Hrem Hsm Hrm Hto (ph & Hw & Hph) (ph2 & Hr & Hfi & Hd2)].
  pose proof (f_first _ _ Hf) as Hfirst. change (first_ok (jobs o) cs (udp_mtu o) (device_buf o) h) in Hfirst.
  change (jobs (with_cs o cs)) with (jobs o) in *. rewrite Hj in *.
  assert (Hin : WriterDone c ∈ WriterDone c :: l) by left.
  destruct ph as [|d n|d n|d n k]; try (exfalso; tauto). destruct Hph as [Hwo _]. rewrite not_elem_of_cons in Hwo.
  cbn [run_job]. apply wph_bind. eapply wph_at_con; [exact Hc|].
  apply wp_zoom. eapply wp_bw_job_done; [exact Hw|]. intros w Hw'. split; [done|].
  assert (Hinv : inv h (with_cs (o <| jobs := l |>) (<[c := con <| udp_send_writer := w |>]> cs))).
  { eapply inv_set; try done.
    - constructor; try done.
      + exists Idle. split; [done|]. split; [apply Hwo|done].
      + exists ph2. split; [done|]. split; [|done]. intros ?. apply Hfi. by right.
    - rewrite Hj. apply others_pop. by right.
    - eapply (first_pop (WriterDone c)); [eapply first_update; [exact Hfirst|exact Hc|]|by constructor|done|done].
      intros _. do 4 (split; [done|]). destruct Hw as (_ & _ & _ & Hw). by rewrite Hw.
    - apply (f_to _ _ Hf). }
  destruct space; cbn [when]; [|by apply wph_ret].
  eapply receive_next_ok; [exact Hinv|by rewrite lookup_insert_eq|].
  change (udp_send_writer (con <| udp_send_writer := w |>)) with w.
  destruct Hw' as ((_ & _ & Hst & _) & _). by rewrite Hst.
Qed.

Lemma dispatch_device_ok h o cs l :
  inv h (with_cs o cs) -> jobs o = DeviceDone :: l -> inv h (with_cs (o <| jobs := l |>) cs).
Proof.
  intros [Hb Hf] Hj. destruct (flows_top _ _ _ _ _ Hf Hj) as [Hn1 Hn2]. split; [by eapply book_other|].
  rewrite <- set_same. eapply flows_jobs; [exact Hf| |done| |apply (f_to _ _ Hf)].
  - intros c. rewrite Hj. apply same_sym, same_push. done.
  - pose proof (f_first _ _ Hf) as Hfirst. change (first_ok (jobs o) cs (udp_mtu o) (device_buf o) h) in Hfirst.
    rewrite Hj in Hfirst. eapply first_pop; [exact Hfirst|by constructor|done|done].
Qed.

(** *** Receiving from the socket *)

Lemma set_recv h o cs c con con' :
  inv h (with_cs o cs) -> cs !! c = Some con ->
  local_addr (con_addr con') = local_addr (con_addr con) -> ip_addr (remote_addr (con_addr con')) ->
  send_addr con' = send_addr con -> udp_send_mem con' = udp_send_mem con -> udp_send_writer con' = udp_send_writer con ->
  zlen (udp_recv_mem con') = udp_mtu o -> receiver_ok (jobs o) (udp_mtu o) c con' ->
  (FirstJob c ∈ jobs o -> con_addr con' = con_addr con /\ is_dns con' = is_dns con /\
     first_data con' = first_data con /\ first_data_len con' = first_data_len con) ->
  inv h (with_cs o (<[c := con']> cs)).
Proof.
  intros Hi Hc Hl Hip Hse Hsm Hsw Hrm Hr Hfirst. assert (Hi' := Hi). destruct Hi' as [Hb Hf].
  destruct (f_con _ _ Hf c con Hc) as [Hrem Hsm' _ Hto Hw _].
  rewrite <- (set_none o (<[c := con']> cs)). eapply inv_set; try done.
  - constructor; try done; rewrite ?Hsm, ?Hse; try done.
    destruct Hw as (ph & Hw & Hph). exists ph. rewrite Hsw. done.
  - apply (f_nodup _ _ Hf).
  - eapply first_update; [apply (f_first _ _ Hf)|exact Hc|]. intros Hin. destruct (Hfirst Hin) as (? & ? & ? & ?).
    rewrite Hsw. done.
  - apply (f_to _ _ Hf).
Qed.

Lemma reply_addr mtu dns a p :
  ip_addr (remote_addr a) ->
  local_addr (reply mtu dns a p).1 = local_addr a /\ ip_addr (remote_addr (reply mtu dns a p).1).
Proof.
  intros Ha. unfold reply. destruct dns; [done|]. destruct (zlen p <? SOCKS_UDP_HEADER); [done|].
  destruct (negb _); [done|]. destruct (_ =? Socks.SOCKS_ATYP_IPV6).
  - destruct (zlen p <? _) eqn:E; [done|]. b2p. split; [done|]. cbn [fst remote_addr ip_addr].
    unfold SOCKS_UDP_HEADER, UDPGW_ADDR_IPV6 in *.
    assert (Hz : zlen (slice 4 18 p) = 18) by (apply zlen_slice; lia). unfold zlen in Hz. rewrite length_take. lia.
  - by destruct (zlen p <? _).
Qed.

Lemma reply_sent mtu dns a p h :
  let h' := foldl note h (reply mtu dns a p).2 in h' = h.
Proof.
  unfold reply. destruct dns; [by destruct (mtu <? _)|]. destruct (zlen p <? SOCKS_UDP_HEADER); [done|].
  destruct (negb _); [done|]. destruct (_ =? Socks.SOCKS_ATYP_IPV6); destruct (zlen p <? _); try done; by destruct (mtu <? _).
Qed.

Lemma udp_arrives_ok h o cs c con p :
  inv h (with_cs o cs) -> cs !! c = Some con -> jobs o = [] ->
  st_eq (pp_state (udp_recv_if con)) Interfaces.NONE = true -> zlen p <= udp_mtu o ->
  wph note (exec_action (UdpArrives c p)) (fun _ => inv) h (with_cs o cs).
Proof.
  intros Hi Hc Hj He Hp. assert (Hi' := Hi). destruct Hi' as [Hb Hf].
  destruct (f_con _ _ Hf c con Hc) as [Hrem Hsm Hrm Hto Hw (ph2 & Hr & Hfi & Hd2)].
  change (udp_mtu (with_cs o cs)) with (udp_mtu o) in *.
  pose proof (pp_phase _ _ _ _ Hr He) as Hph. destruct ph2; try done. pose proof (zlen_nonneg p).
  cbn [exec_action]. apply wph_bind. eapply wph_get_con; [exact Hc|].
  apply wph_bind. eapply wph_must; [apply mem_write_Some; lia|]. apply wph_bind, wph_set_con.
  eapply wph_at_con; [by rewrite lookup_insert_eq|]. apply wp_zoom.
  eapply (wp_pp_send (udp_mtu o)); [exact Hr|lia|]. intros i Hi'. split; [done|]. rewrite insert_insert_eq.
  eapply set_recv; [exact Hi|exact Hc|done..| | |].
  - change (zlen (splice 0 p (udp_recv_mem con)) = udp_mtu o). rewrite zlen_splice; lia.
  - exists (Op 0 (zlen p)). split; [exact Hi'|]. rewrite Hj. split; [by intros ?%elem_of_nil|done].
  - rewrite Hj. by intros ?%elem_of_nil.
Qed.

Lemma udp_recv_starts_ok h o cs c con :
  inv h (with_cs o cs) -> cs !! c = Some con -> st_eq (pp_state (udp_recv_if con)) OPERATION_PENDING = true ->
  wph note (exec_action (UdpRecvStarts c)) (fun _ => inv) h (with_cs o cs).
Proof.
  intros Hi Hc He. assert (Hi' := Hi). destruct Hi' as [Hb Hf].
  destruct (f_con _ _ Hf c con Hc) as [Hrem Hsm Hrm Hto Hw (ph2 & Hr & Hfi & Hd2)].
  destruct (f_mtu _ _ Hf) as [Hm Hg].
  change (udp_mtu (with_cs o cs)) with (udp_mtu o) in *. change (udpgw_mtu (with_cs o cs)) with (udpgw_mtu o) in *.
  pose proof (pp_phase _ _ _ _ Hr He) as Hph. destruct ph2 as [|d n|d n|d n k]; try done. subst d.
  assert (Hn : 0 <= n <= udp_mtu o) by (destruct Hr as (_ & _ & _ & _ & _ & _ & _ & _ & ?); done).
  cbn [exec_action]. apply wph_bind. eapply wph_at_con; [exact Hc|]. apply wp_zoom.
  eapply wp_pp_job_op; [exact Hr|]. intros i Hi'. split; [done|]. cbn [fst snd].
  eapply (dgram_received_ok note); [by rewrite lookup_insert_eq|exact Hi'|cbn; change (n <= zlen (udp_recv_mem con)); lia|lia|].
  intros i2 Hi2 r. rewrite insert_insert_eq.
  destruct (reply_addr (udp_mtu o) (is_dns con) (con_addr con) (slice 0 n (udp_recv_mem con)) Hrem) as [Hl Hip].
  assert (Hr2 : foldl note h r.2 = h) by apply reply_sent. rewrite Hr2.
  assert (Hnf : FirstJob c ∉ jobs o) by (intros Hin; by specialize (Hfi Hin)).
  eapply set_recv; [exact Hi|exact Hc|exact Hl|exact Hip|done|done|done|exact Hrm| |done].
  exists (Done 0 n 0). done.
Qed.

Lemma udp_recv_done_ok h o cs c con :
  inv h (with_cs o cs) -> cs !! c = Some con -> st_eq (pp_state (udp_recv_if con)) DONE_PENDING = true ->
  wph note (exec_action (UdpRecvDone c)) (fun _ => inv) h (with_cs o cs).
Proof.
  intros Hi Hc He. assert (Hi' := Hi). destruct Hi' as [Hb Hf].
  destruct (f_con _ _ Hf c con Hc) as [Hrem Hsm Hrm Hto Hw (ph2 & Hr & Hfi & Hd2)].
  change (udp_mtu (with_cs o cs)) with (udp_mtu o) in *.
  pose proof (pp_phase _ _ _ _ Hr He) as Hph. destruct ph2 as [|d n|d n|d n k]; try done.
  cbn [exec_action]. eapply wph_at_con; [exact Hc|]. apply wp_zoom.
  eapply wp_pp_job_done; [exact Hr|]. intros i Hi'. split; [done|].
  eapply set_recv; [exact Hi|exact Hc|done..| | ].
  - exists Idle. done.
  - done.
Qed.

(** *** Packets of the device *)

Definition idle (h : history) (o : client) : Prop := (forall c, FirstJob c ∉ jobs o) /\ accepted h = outs h.

Lemma device_idle h o : flows h o -> DeviceDone ∉ jobs o -> idle h o.
Proof.
  intros Hf Hd. destruct (f_first _ _ Hf) as [Hn Ha|c con l1 l2 Hj H1 H2 Hdd]; [done|].
  destruct Hd. rewrite Hj. apply elem_of_app. right. by right.
Qed.

Lemma find_connection_ok h o cs a dns (Q : option Z -> history -> client -> Prop) :
  book h (with_cs o cs) -> ip_ok (local_addr a) ->
  (forall c con, cs !! c = Some con -> local_addr (con_addr con) = local_addr a -> Q (Some c) h (with_cs o cs)) ->
  (find_equal conaddr_comparator (key_of cs) a (ot_elems (connections_tree o)) = None -> Q None h (with_cs o cs)) ->
  wph note (find_connection a dns) Q h (with_cs o cs).
Proof.
  intros Hb Ha Hsome Hnone. destruct (b_tree _ _ Hb) as [Hwf Hs].
  unfold find_connection. apply wph_bind, wph_get.
  change (key (with_cs o cs)) with (key_of cs) in *. change (connections_tree (with_cs o cs)) with (connections_tree o) in *.
  rewrite (ot_lookup_spec conaddr_comparator (key_of cs) a _ Hs). destruct (find_equal _ _ _ _) as [c|] eqn:Hf; [|apply wph_ret; auto].
  apply find_equal_Some in Hf as [Hin Hc]. rewrite (b_perm _ _ Hb) in Hin.
  destruct (proj1 (b_dom _ _ Hb c) Hin) as [con Hcon]. change (cs !! c = Some con) in Hcon.
  apply wph_bind. eapply wph_get_con; [exact Hcon|]. cbn [negb andb]. apply wph_ret. apply (Hsome c con Hcon).
  unfold conaddr_comparator, key_of in Hc. rewrite Hcon in Hc. symmetry.
  apply compare_order_eq; [done|by apply (b_local _ _ Hb c)|done].
Qed.

(** A connection without pending jobs goes away; it is the first of the list. *)
Definition without (o : client) (c : Z) (t : T Z) : client :=
  o <| num_connections := num_connections o - 1 |>
    <| connections_list := filter (fun c' => c' <> c) (connections_list o) |>
    <| connections_tree := t |>
    <| jobs := filter (fun j => j <> WriterDone c) (filter (fun j => j <> WriterOperation c) (jobs o)) |>.

Lemma key_delete cs c x : x <> c -> key_of (delete c cs) x = key_of cs x.
Proof. intros Hne. unfold key_of. by rewrite lookup_delete_ne. Qed.

Lemma connection_free_ok {H} (nt : H -> event -> H) (g : H) h o cs c con rest (Q : unit -> H -> client -> Prop) :
  book h (with_cs o cs) -> connections_list o = c :: rest -> cs !! c = Some con ->
  (forall t, book (note h (Evicted (local_addr (con_addr con)))) (with_cs (without o c t) (delete c cs)) ->
     (forall x, x ∈ ot_elems t -> x ∈ ot_elems (connections_tree o)) ->
     Q tt g (with_cs (without o c t) (delete c cs))) ->
  wph nt (connection_free c) Q g (with_cs o cs).
Proof.
  intros [[Hwf Hs] Hp Hnd Hd Hl Hn Hca He] Hlist Hcon HQ.
  change (connections_tree (with_cs o cs)) with (connections_tree o) in *.
  change (connections_list (with_cs o cs)) with (connections_list o) in *.
  change (num_connections (with_cs o cs)) with (num_connections o) in *.
  change (max_connections (with_cs o cs)) with (max_connections o) in *.
  change (key (with_cs o cs)) with (key_of cs) in *. change (connections (with_cs o cs)) with cs in *.
  rewrite Hlist in *. destruct (proj1 (NoDup_cons _ _) Hnd) as [Hc Hrest].
  assert (Hin : c ∈ ot_elems (connections_tree o)) by (rewrite Hp; left).
  destruct (list_elem_of_split _ _ Hin) as (l1 & l2 & Hel).
  assert (Hnd' : NoDup (l1 ++ c :: l2)) by (rewrite <- Hel, Hp; done).
  apply NoDup_app in Hnd' as (_ & Hx & Hnd2). apply NoDup_cons in Hnd2 as [Hc2 _].
  assert (Hc1 : c ∉ l1) by (intros ?; apply (Hx c); [done|left]).
  destruct (ot_remove_in c (connections_tree o) l1 l2 Hwf Hel Hc1) as (t & Hrm & Hwf' & Hel').
  assert (Hp' : l1 ++ l2 ≡ₚ rest).
  { apply (Permutation_cons_inv (a:=c)). rewrite <- Hp, Hel. apply Permutation_middle. }
  assert (Hkey : forall x, x ∈ rest -> key_of (delete c cs) x = key_of cs x)
    by (intros x Hx'; apply key_delete; by intros ->).
  unfold connection_free. apply wph_bind. eapply wph_get_con; [exact Hcon|].
  apply wph_bind, wph_get. apply wph_bind, wph_modify. apply wph_bind, wph_assert.
  { change (bool_decide (c ∈ connections_list o) = true). rewrite Hlist. apply bool_decide_eq_true. left. }
  apply wph_bind, wph_modify. apply wph_bind. eapply wph_must; [exact Hrm|].
  do 3 (apply wph_bind, wph_modify). apply wph_modify. apply (HQ t).
  - assert (Hfl : filter (fun c' => c' <> c) (connections_list o) = rest)
      by (rewrite Hlist; rewrite filter_cons_False by tauto; by apply filter_ne_notin).
    constructor; change (connections_list (with_cs (without o c t) ?x)) with (filter (fun c' => c' <> c) (connections_list o));
      rewrite ?Hfl; change (connections_tree (with_cs (without o c t) ?x)) with t; rewrite ?Hel';
      change (key (with_cs (without o c t) ?x)) with (key_of x); change (connections (with_cs (without o c t) ?x)) with x.
    + split; [done|]. rewrite Hel in Hs. apply sorted_remove in Hs. eapply sorted_keys; [|exact Hs].
      intros x Hx'. rewrite Hkey; [done|]. by rewrite <- Hp'.
    + done.
    + done.
    + intros x. destruct (decide (x = c)) as [->|Hne].
      * rewrite lookup_delete_eq. split; [done|by intros [? ?]].
      * rewrite lookup_delete_ne by done. rewrite <- Hd. rewrite elem_of_cons. naive_solver.
    + intros x con'. rewrite lookup_delete_Some. intros [_ Hx']. by eapply Hl.
    + change (num_connections o - 1 = zlen rest /\ zlen rest <= max_connections o /\ 0 < max_connections o).
      unfold zlen in *. cbn [length] in Hn. lia.
    + change (tail (cache h) = (fun c0 => local_addr (key_of (delete c cs) c0)) <$> rest).
      rewrite Hca. cbn [fmap list_fmap tail]. apply list_fmap_ext. intros i x Hx'. rewrite Hkey; [done|].
      by apply list_elem_of_lookup_2 in Hx'.
    + change (evictions_ok h && bool_decide (head (cache h) = Some (local_addr (con_addr con))) = true).
      rewrite He, Hca. cbn. apply bool_decide_eq_true. unfold key_of. by rewrite Hcon.
  - intros x. rewrite Hel', Hel, !elem_of_app, elem_of_cons. tauto.
Qed.

Lemma jobs_without o c t j :
  j ∈ jobs (without o c t) <-> j <> WriterDone c /\ j <> WriterOperation c /\ j ∈ jobs o.
Proof.
  change (jobs (without o c t)) with (filter (fun j => j <> WriterDone c) (filter (fun j => j <> WriterOperation c) (jobs o))).
  by rewrite !list_elem_of_filter.
Qed.

Lemma same_unset c c' j js : job_con j = Some c -> c' <> c -> same_jobs c' js (filter (fun j' => j' <> j) js).
Proof. intros Hj Hne. unfold same_jobs. rewrite !list_elem_of_filter. destruct j; naive_solver. Qed.

Lemma flows_delete h h' o cs c t :
  flows h (with_cs o cs) -> idle h (with_cs o cs) -> accepted h' = accepted h -> outs h' = outs h -> sent_to h' = sent_to h ->
  flows h' (with_cs (without o c t) (delete c cs)).
Proof.
  intros [? ? Hcon Hn Hl ? Ht] [Hnf Ha] Hacc Hout Hsent.
  assert (Ho : others c (jobs o) (jobs (without o c t))).
  { intros c' Hne. eapply same_trans; eapply (same_unset c); done. }
  constructor; try done.
  - intros c' con. change (connections (with_cs _ ?x)) with x. rewrite lookup_delete_Some. intros [Hne Hc'].
    eapply (con_ok_others c); [exact Ho|done|]. by apply Hcon.
  - change (NoDup (jobs (without o c t))). cbn. apply NoDup_filter, NoDup_filter. exact Hn.
  - intros c' Hj. change (connections (with_cs _ ?x)) with x. change (jobs (with_cs _ _)) with (jobs (without o c t)) in Hj.
    destruct (decide (c' = c)) as [->|Hne].
    + exfalso. rewrite !jobs_without in Hj.
      destruct Hj as [[_ [_ Hj]]|[[_ [Hj _]]|[Hj _]]]; [by apply (Hnf c)|done|done].
    + rewrite lookup_delete_ne by done. apply Hl. destruct (Ho c' Hne) as (H1 & H2 & H3). tauto.
  - apply first_none; [|by rewrite Hacc, Hout]. intros c' Hj.
    change (jobs (with_cs _ _)) with (jobs (without o c t)) in Hj. rewrite jobs_without in Hj. apply (Hnf c'), Hj.
  - rewrite Hsent. exact Ht.
Qed.

(** A new connection: its first packet is pending, behind the job that gives its
    writer memory. *)
Definition added (o : client) (c : Z) (t : T Z) : client :=
  o <| jobs := WriterOperation c :: FirstJob c :: jobs o |>
    <| connections_tree := t |> <| connections_list := connections_list o ++ [c] |>
    <| num_connections := num_connections o + 1 |>.

Lemma key_insert_ne cs c con x : x <> c -> key_of (<[c := con]> cs) x = key_of cs x.
Proof. intros Hne. unfold key_of. by rewrite lookup_insert_ne. Qed.
Lemma key_insert_eq cs c con : key_of (<[c := con]> cs) c = con_addr con.
Proof. unfold key_of. by rewrite lookup_insert_eq. Qed.

Lemma book_add h h' o cs c con t :
  book h (with_cs o cs) -> cs !! c = None -> ip_ok (local_addr (con_addr con)) ->
  num_connections o < max_connections o -> ot_wf t ->
  sorted conaddr_comparator (key_of (<[c := con]> cs)) (ot_elems t) ->
  ot_elems t ≡ₚ c :: ot_elems (connections_tree o) ->
  cache h' = cache h ++ [local_addr (con_addr con)] -> evictions_ok h' = evictions_ok h ->
  book h' (with_cs (added o c t) (<[c := con]> cs)).
Proof.
  intros [_ Hp Hnd Hd Hl Hn Hca He] Hc Hip Hmax Hwf Hs Ht Hcache Hev.
  assert (Hnc : c ∉ connections_list o) by (intros [? Hx]%(proj1 (Hd c)); change (cs !! c = Some x) in Hx; congruence).
  constructor; try done.
  - change (ot_elems t ≡ₚ connections_list o ++ [c]). rewrite Ht, <- Permutation_cons_append. by rewrite Hp.
  - change (NoDup (connections_list o ++ [c])). apply NoDup_app. split; [exact Hnd|]. split; [|apply NoDup_singleton].
    intros x Hx ->%list_elem_of_singleton. done.
  - intros x. change (x ∈ connections_list o ++ [c] <-> is_Some (<[c := con]> cs !! x)).
    rewrite elem_of_app, list_elem_of_singleton, lookup_insert_is_Some'. specialize (Hd x).
    change (x ∈ connections_list o <-> is_Some (cs !! x)) in Hd. rewrite Hd. naive_solver.
  - intros x con'. change (connections (with_cs _ ?y)) with y. destruct (decide (x = c)) as [->|].
    + rewrite lookup_insert_eq. by intros [= <-].
    + rewrite lookup_insert_ne by done. apply Hl.
  - change (num_connections o + 1 = zlen (connections_list o ++ [c]) /\
            zlen (connections_list o ++ [c]) <= max_connections o /\ 0 < max_connections o).
    change (num_connections o = zlen (connections_list o) /\ zlen (connections_list o) <= max_connections o /\ 0 < max_connections o) in Hn.
    rewrite zlen_app. change (zlen [c]) with 1. lia.
  - change (cache h' = (fun x => local_addr (key_of (<[c := con]> cs) x)) <$> (connections_list o ++ [c])).
    rewrite fmap_app, Hcache, Hca. f_equal; [|cbn; by rewrite key_insert_eq].
    apply list_fmap_ext. intros i x Hx. change (local_addr (key_of cs x) = local_addr (key_of (<[c:=con]> cs) x)).
    rewrite key_insert_ne; [done|]. intros ->. apply Hnc. by apply list_elem_of_lookup_2 in Hx.
  - by rewrite Hev.
Qed.

Lemma tree_insert h o cs c con :
  book h (with_cs o cs) -> cs !! c = None ->
  find_equal conaddr_comparator (key_of cs) (con_addr con) (ot_elems (connections_tree o)) = None ->
  exists t, ot_insert conaddr_comparator (key_of (<[c := con]> cs)) c (connections_tree o) = Some (true, t) /\
    ot_wf t /\ sorted conaddr_comparator (key_of (<[c := con]> cs)) (ot_elems t) /\
    ot_elems t ≡ₚ c :: ot_elems (connections_tree o).
Proof.
  intros [[Hwf Hs] Hp _ Hd _ _ _ _] Hc Hfe.
  change (connections_tree (with_cs o cs)) with (connections_tree o) in *.
  change (key (with_cs o cs)) with (key_of cs) in *.
  assert (Hkey : forall x, x ∈ ot_elems (connections_tree o) -> key_of (<[c := con]> cs) x = key_of cs x).
  { intros x Hx. apply key_insert_ne. intros ->. rewrite Hp in Hx. apply Hd in Hx as [? Hx].
    change (cs !! c = Some x) in Hx. congruence. }
  assert (Hs' : sorted conaddr_comparator (key_of (<[c := con]> cs)) (ot_elems (connections_tree o)))
    by (eapply sorted_keys; [|exact Hs]; intros x Hx; by rewrite Hkey).
  assert (Hfe' : find_equal conaddr_comparator (key_of (<[c := con]> cs)) (key_of (<[c := con]> cs) c)
                   (ot_elems (connections_tree o)) = None).
  { rewrite key_insert_eq. apply find_equal_None in Hfe. apply find_equal_None.
    rewrite Forall_forall in *. intros x Hx. rewrite Hkey by done. by apply Hfe. }
  destruct (ot_insert_new conaddr_comparator (key_of (<[c := con]> cs)) c _ Hwf Hs' Hfe') as (t & Hi & Hwf' & Hel).
  exists t. rewrite Hel. split; [done|]. split; [done|]. split; [|apply insert_sorted_perm].
  eapply insert_sorted_sorted; [exact _|exact Hs'|exact Hfe'].
Qed.

Lemma unset_top j js : j ∉ js -> filter (fun j' => j' <> j) (j :: js) = js.
Proof. intros Hj. rewrite filter_cons_False by tauto. by apply filter_ne_notin. Qed.

Lemma flows_add h o cs c con t dbuf :
  flows h (with_cs o cs) -> idle h (with_cs o cs) -> cs !! c = None -> DeviceDone ∈ jobs o -> dbuf = device_buf o ->
  ip_addr (remote_addr (con_addr con)) -> zlen (udp_send_mem con) = udp_mtu o -> zlen (udp_recv_mem con) = udp_mtu o ->
  send_addr con = socks_server_addr o \/ send_addr con = dnsgw o ->
  bw_is (udp_mtu o) (Op 0 (udp_mtu o)) (udp_send_writer con) -> pp_is (udp_mtu o) Idle (udp_recv_if con) ->
  0 <= first_data con -> 0 <= first_data_len con -> first_data con + first_data_len con <= zlen dbuf ->
  header_len (remote_addr (con_addr con)) (is_dns con) + first_data_len con <= udp_mtu o ->
  flows (note (note h (Created (local_addr (con_addr con))))
           (Submitted c (con_addr con) (is_dns con) (slice (first_data con) (first_data_len con) dbuf)))
    (with_cs (added o c t) (<[c := con]> cs)).
Proof.
  intros [? ? Hcon Hn Hl ? Ht] [Hnf Ha] Hc Hdd -> Hip Hsm Hrm Hto Hw Hr H1 H2 H3 H4.
  change (forall c, FirstJob c ∉ jobs o) in Hnf. change (NoDup (jobs o)) in Hn.
  assert (Hnj : FirstJob c ∉ jobs o /\ WriterOperation c ∉ jobs o /\ WriterDone c ∉ jobs o).
  { split_and!; [apply Hnf|..]; intros Hj; (destruct (Hl c) as [x Hx]; [tauto|]);
      change (cs !! c = Some x) in Hx; congruence. }
  destruct Hnj as (Hj1 & Hj2 & Hj3).
  assert (Ho : others c (jobs o) (WriterOperation c :: FirstJob c :: jobs o))
    by (eapply others_trans; apply others_push; by right).
  constructor; try done.
  - intros c' con'. change (connections (with_cs _ ?x)) with x. destruct (decide (c' = c)) as [->|Hne].
    + rewrite lookup_insert_eq. intros [= <-]. constructor; try done.
      * exists (Op 0 (udp_mtu o)). split; [exact Hw|]. split; [done|]. split; [left|].
        change (WriterDone c ∉ WriterOperation c :: FirstJob c :: jobs o). rewrite !not_elem_of_cons. done.
      * by exists Idle.
    + rewrite lookup_insert_ne by done. intros Hc'. eapply (con_ok_others c); [exact Ho|done|]. by apply Hcon.
  - change (NoDup (WriterOperation c :: FirstJob c :: jobs o)). rewrite !NoDup_cons, !not_elem_of_cons. done.
  - intros c' Hj. change (connections (with_cs _ ?x)) with x. rewrite lookup_insert_is_Some'.
    destruct (decide (c' = c)) as [->|Hne]; [by left|right]. apply Hl. destruct (Ho c' Hne) as (? & ? & ?).
    change (jobs (with_cs (added _ _ _) _)) with (WriterOperation c :: FirstJob c :: jobs o) in Hj.
    change (jobs (with_cs _ _)) with (jobs o). tauto.
  - apply (first_some _ _ _ _ _ c con [WriterOperation c] (jobs o)); try done.
    + by intros c' ?%list_elem_of_singleton.
    + apply lookup_insert_eq.
    + left. left.
    + change (accepted h ++ [(c, frame (remote_addr (con_addr con)) (is_dns con)
          (slice (first_data con) (first_data_len con) (device_buf o)))] = outs h ++ [(c, first_packet (device_buf o) con)]).
      by rewrite Ha.
Qed.

Lemma connection_init_ok outcome c mem mem' a data len dns h o cs (Q : option Z -> history -> client -> Prop) :
  inv h (with_cs o cs) -> idle h (with_cs o cs) -> cs !! c = None -> DeviceDone ∈ jobs o ->
  num_connections o < max_connections o -> ip_ok (local_addr a) -> ip_addr (remote_addr a) ->
  zlen mem = udp_mtu o -> zlen mem' = udp_mtu o ->
  0 <= data -> 0 <= len -> data + len <= zlen (device_buf o) -> header_len (remote_addr a) dns + len <= udp_mtu o ->
  find_equal conaddr_comparator (key_of cs) a (ot_elems (connections_tree o)) = None ->
  Q None h (with_cs o cs) ->
  (forall o', inv (note (note h (Created (local_addr a))) (Submitted c a dns (slice data len (device_buf o)))) o' ->
     Q (Some c) (note h (Created (local_addr a))) o') ->
  wph note (connection_init outcome c mem mem' a data len dns) Q h (with_cs o cs).
Proof.
  intros [Hb Hf] Hidle Hc Hdd Hmax Hloc Hip Hm Hm' Hd Hlen Hdl Hfit Hfe Hfail Hok.
  assert (Hfj : FirstJob c ∉ jobs o) by apply Hidle.
  assert (Hwj : WriterOperation c ∉ FirstJob c :: jobs o).
  { rewrite not_elem_of_cons. split; [done|]. intros Hj. destruct (f_live _ _ Hf c) as [x Hx]; [by right; left|].
    change (cs !! c = Some x) in Hx. congruence. }
  unfold connection_init. destruct (at_stage outcome MALLOC_FAILED); [by apply wph_ret|].
  apply wph_bind, wph_modify.
  change (upd jobs (cons (FirstJob c)) (with_cs o cs)) with (with_cs (o <| jobs := FirstJob c :: jobs o |>) cs).
  assert (Hback : forall o1, with_cs o1 cs = with_cs (o <| jobs := FirstJob c :: jobs o |>) cs ->
            wph note (unset (FirstJob c);; mret None) Q h (with_cs o1 cs)).
  { intros o1 ->. apply wph_bind, wph_modify. apply wph_ret.
    change (upd jobs (filter (fun j' => j' <> FirstJob c)) (with_cs (o <| jobs := FirstJob c :: jobs o |>) cs))
      with (with_cs (o <| jobs := filter (fun j' => j' <> FirstJob c) (FirstJob c :: jobs o) |>) cs).
    by rewrite unset_top, set_none. }
  destruct (_ || _); [by apply Hback|].
  apply wph_bind, wph_get. apply wph_bind, wph_set_con.
  set (o1 := o <| jobs := FirstJob c :: jobs o |>) in *.
  set (to := if dns then _ else _).
  assert (Hto : to = socks_server_addr o \/ to = dnsgw o) by (unfold to; destruct dns; [by right|by left]).
  assert (Hdel : forall o2 con, with_cs o2 cs = with_cs o1 cs ->
     wph note (modify (upd connections (delete c));; unset (FirstJob c);; mret None) Q h (with_cs o2 (<[c := con]> cs))).
  { intros o2 con He. apply wph_bind, wph_modify.
    change (upd connections (delete c) (with_cs o2 ?x)) with (with_cs o2 (delete c x)).
    rewrite delete_insert_id by done. rewrite He. by apply Hback. }
  destruct (at_stage outcome PACKETBUFFER_FAILED); [by apply Hdel|].
  apply wph_bind. eapply wph_at_con; [by rewrite lookup_insert_eq|]. apply wp_zoom. apply wp_bw_connect.
  intros w Hw. split; [done|]. rewrite insert_insert_eq.
  apply wph_bind. eapply wph_at_con; [by rewrite lookup_insert_eq|]. apply wp_zoom.
  eapply wp_bw_recv; [exact Hw|]. intros w2 Hw2. split; [done|]. rewrite insert_insert_eq.
  apply wph_bind, wph_modify.
  change (upd jobs (cons (WriterOperation c)) (with_cs o1 ?x)) with (with_cs (o1 <| jobs := WriterOperation c :: FirstJob c :: jobs o |>) x).
  destruct (at_stage outcome SINGLEBUFFER_FAILED).
  { apply wph_bind, wph_modify.
    change (upd jobs (filter (fun j' => j' <> WriterOperation c)) (with_cs (o1 <| jobs := WriterOperation c :: FirstJob c :: jobs o |>) ?x))
      with (with_cs (o1 <| jobs := filter (fun j' => j' <> WriterOperation c) (WriterOperation c :: FirstJob c :: jobs o) |>) x).
    rewrite unset_top by done. by apply Hdel. }
  apply wph_bind. eapply wph_at_con; [by rewrite lookup_insert_eq|]. apply wp_zoom.
  apply wp_pp_connect. intros i Hi. split; [done|]. rewrite insert_insert_eq.
  set (con := mk_con a data len dns to w2 mem i mem').
  match goal with |- wph _ _ _ _ (with_cs _ (<[c := ?x]> _)) => change x with con end.
  apply wph_bind, wph_get.
  destruct (tree_insert h o cs c con Hb Hc Hfe) as (t & Hins & Hwf & Hs & Hel).
  apply wph_bind. eapply wph_must; [exact Hins|].
  apply wph_bind, wph_assert; [done|]. do 3 (apply wph_bind, wph_modify). apply wph_bind, wph_emit, wph_ret.
  change (with_cs (o1 <| jobs := WriterOperation c :: FirstJob c :: jobs o |>) ?x)
    with (with_cs (o <| jobs := WriterOperation c :: FirstJob c :: jobs o |>) x).
  apply (Hok (with_cs (added o c t) (<[c := con]> cs))). split.
  - by eapply book_add.
  - by apply (flows_add h o cs c con).
Qed.

(** Use moves a connection to the end of the list. *)
Lemma filter_fmap_ne {A B} `{EqDecision A} `{EqDecision B} (f : A -> B) (c : A) (l : list A) :
  (forall x, x ∈ l -> f x = f c -> x = c) ->
  filter (fun b => b <> f c) (f <$> l) = f <$> filter (fun x => x <> c) l.
Proof.
  induction l as [|x l IH]; intros Hinj; [done|]. cbn [fmap list_fmap].
  assert (IH' := IH ltac:(intros y Hy; apply Hinj; by right)).
  destruct (decide (x = c)) as [->|Hne].
  - by rewrite !filter_cons_False by tauto.
  - rewrite !filter_cons_True; [|done|]; [by cbn; rewrite IH'|]. intros He. apply Hne, Hinj; [left|done].
Qed.

Lemma local_inj h o cs c c' :
  book h (with_cs o cs) -> c ∈ connections_list o -> c' ∈ connections_list o ->
  local_addr (key_of cs c') = local_addr (key_of cs c) -> c' = c.
Proof.
  intros Hb Hc Hc' He. destruct (b_tree _ _ Hb) as [_ Hs].
  change (connections_tree (with_cs o cs)) with (connections_tree o) in *. change (key (with_cs o cs)) with (key_of cs) in *.
  rewrite <- (b_perm _ _ Hb) in Hc, Hc'. change (connections_tree (with_cs o cs)) with (connections_tree o) in *.
  pose proof (find_equal_elem _ _ _ _ Hs Hc) as H1. pose proof (find_equal_elem _ _ _ _ Hs Hc') as H2.
  assert (Hext : forall l, find_equal conaddr_comparator (key_of cs) (key_of cs c') l =
                   find_equal conaddr_comparator (key_of cs) (key_of cs c) l).
  { induction l as [|y l IH]; [done|]. cbn. unfold conaddr_comparator at 1 3. by rewrite He, IH. }
  rewrite Hext in H2. congruence.
Qed.

Lemma first_history js cs mtu dbuf h h' :
  first_ok js cs mtu dbuf h -> accepted h' = accepted h -> outs h' = outs h -> first_ok js cs mtu dbuf h'.
Proof.
  intros [Hn Ha|c con l1 l2 -> ? ? ? ? ? ? ? ? ? Ha] Hacc Hout; [apply first_none|eapply first_some]; try done.
  - by rewrite Hacc, Hout.
  - by rewrite Hacc, Hout.
Qed.

Lemma inv_used h o cs c con :
  inv h (with_cs o cs) -> cs !! c = Some con ->
  inv (note h (Used (local_addr (con_addr con))))
    (with_cs (o <| connections_list := filter (fun c' => c' <> c) (connections_list o) ++ [c] |>) cs).
Proof.
  intros [Hb [? ? ? ? ? ? ?]] Hcon.
  assert (Hc : c ∈ connections_list o) by (apply (b_dom _ _ Hb); by exists con).
  pose proof (local_inj h o cs c) as Hinj. assert (Hloc : local_addr (key_of cs c) = local_addr (con_addr con)) by (unfold key_of; by rewrite Hcon).
  split; [|constructor; try done; by eapply first_history]. assert (Hb' := Hb). destruct Hb' as [Ht Hp Hnd Hd Hl Hn Hca He].
  change (connections_list (with_cs o cs)) with (connections_list o) in *.
  change (num_connections (with_cs o cs)) with (num_connections o) in *.
  change (max_connections (with_cs o cs)) with (max_connections o) in *.
  assert (Hperm : filter (fun c' => c' <> c) (connections_list o) ++ [c] ≡ₚ connections_list o).
  { destruct (list_elem_of_split _ _ Hc) as (l1 & l2 & Hl12). rewrite Hl12 in *. rewrite filter_ne_middle by done.
    rewrite <- Permutation_cons_append. apply Permutation_middle. }
  constructor; try done.
  - change (ot_elems (connections_tree o) ≡ₚ filter (fun c' => c' <> c) (connections_list o) ++ [c]). by rewrite Hperm.
  - change (NoDup (filter (fun c' => c' <> c) (connections_list o) ++ [c])). by rewrite Hperm.
  - intros x. change (x ∈ filter (fun c' => c' <> c) (connections_list o) ++ [c] <-> is_Some (cs !! x)). rewrite Hperm. apply Hd.
  - change (num_connections o = zlen (filter (fun c' => c' <> c) (connections_list o) ++ [c]) /\
            zlen (filter (fun c' => c' <> c) (connections_list o) ++ [c]) <= max_connections o /\ 0 < max_connections o).
    unfold zlen in *. by rewrite Hperm.
  - change (filter (fun b => b <> local_addr (con_addr con)) (cache h) ++ [local_addr (con_addr con)] =
      (fun x => local_addr (key_of cs x)) <$> (filter (fun c' => c' <> c) (connections_list o) ++ [c])).
    rewrite Hca, fmap_app, <- Hloc. f_equal.
    apply (filter_fmap_ne (fun x => local_addr (key_of cs x)) c). intros x Hx. by apply Hinj.
Qed.

Lemma book_fits h o cs : book h (with_cs o cs) -> num_connections o <> max_connections o -> num_connections o < max_connections o.
Proof.
  intros [_ _ _ _ _ Hn _ _] Hne.
  change (num_connections o = zlen (connections_list o) /\ zlen (connections_list o) <= max_connections o /\ 0 < max_connections o) in Hn. lia.
Qed.

Lemma remove_lru_ok h o cs a dns (Q : unit -> history -> client -> Prop) :
  inv h (with_cs o cs) -> idle h (with_cs o cs) -> DeviceDone ∈ jobs o -> ip_ok (local_addr a) ->
  num_connections o = max_connections o ->
  find_equal conaddr_comparator (key_of cs) a (ot_elems (connections_tree o)) = None ->
  (forall c t h', cs !! c <> None ->
     let o' := without o c t in let cs' := delete c cs in
     inv h' (with_cs o' cs') -> idle h' (with_cs o' cs') -> DeviceDone ∈ jobs o' -> num_connections o' < max_connections o' ->
     find_equal conaddr_comparator (key_of cs') a (ot_elems (connections_tree o')) = None ->
     Q tt h' (with_cs o' cs')) ->
  wph note (remove_lru_connection a dns) Q h (with_cs o cs).
Proof.
  intros [Hb Hf] Hidle Hdd Hip Hfull Hfe HQ.
  unfold remove_lru_connection. apply wph_bind. eapply (find_connection_ok h o); [exact Hb|exact Hip| |].
  { intros c con Hc He. exfalso. assert (Hin : c ∈ ot_elems (connections_tree o)).
    { change (c ∈ ot_elems (connections_tree (with_cs o cs))). rewrite (b_perm _ _ Hb). apply (b_dom _ _ Hb). by exists con. }
    apply find_equal_None in Hfe. rewrite Forall_forall in Hfe. apply (Hfe c Hin).
    unfold conaddr_comparator, key_of. rewrite Hc, He. apply cmp_refl, _. }
  intros _. apply wph_bind, wph_assert; [done|]. apply wph_bind, wph_get.
  destruct (b_num _ _ Hb) as (Hn & _ & Hpos).
  change (num_connections o = zlen (connections_list o)) in Hn. change (0 < max_connections o) in Hpos.
  apply wph_bind, wph_assert. { change (0 <? num_connections o = true). b2p. lia. }
  destruct (connections_list o) as [|c rest] eqn:Hlist; [unfold zlen in Hn; cbn in Hn; lia|].
  apply wph_bind. apply (wph_must _ _ c). { change (head (connections_list o) = Some c). by rewrite Hlist. }
  destruct (proj1 (b_dom _ _ Hb c)) as [con Hcon]. { change (c ∈ connections_list o). rewrite Hlist. left. }
  change (cs !! c = Some con) in Hcon.
  apply wph_bind. eapply wph_get_con; [exact Hcon|].
  apply wph_bind. eapply (connection_free_ok note); [exact Hb|exact Hlist|exact Hcon|]. intros t Hb' Hel.
  apply wph_emit. apply (HQ c t _).
  - by rewrite Hcon.
  - split; [exact Hb'|]. by eapply flows_delete.
  - destruct Hidle as [Hnf Ha]. split; [|exact Ha]. intros c' Hj.
    change (jobs (with_cs (without o c t) _)) with (jobs (without o c t)) in Hj. rewrite jobs_without in Hj. apply (Hnf c'), Hj.
  - apply jobs_without. done.
  - change (num_connections o - 1 < max_connections o). lia.
  - apply find_equal_None in Hfe. apply find_equal_None. rewrite Forall_forall in *. intros x Hx.
    change (connections_tree (without o c t)) with t in Hx. rewrite key_delete; [by apply Hfe, Hel|].
    intros ->. assert (Hd : c ∈ connections_list (without o c t)).
    { change (c ∈ connections_list (with_cs (without o c t) (delete c cs))). rewrite <- (b_perm _ _ Hb'). exact Hx. }
    change (connections_list (without o c t)) with (filter (fun c' => c' <> c) (connections_list o)) in Hd.
    apply list_elem_of_filter in Hd as [? _]. done.
Qed.

Lemma is_ip_ok a : ip_ok a -> is_ip a = true /\ ip_addr a.
Proof. destruct a; try done. intros [? _]. done. Qed.

(** A packet for a connection that exists. *)
Lemma reuse_ok h o cs c con a dns data len (Q : unit -> history -> client -> Prop) :
  inv h (with_cs o cs) -> idle h (with_cs o cs) -> cs !! c = Some con -> local_addr (con_addr con) = local_addr a ->
  ip_addr (remote_addr a) -> 0 <= data -> 0 <= len -> data + len <= zlen (device_buf o) ->
  header_len (remote_addr a) dns + len <= udp_mtu o ->
  (forall h' o', inv h' o' -> Q tt h' o') ->
  wph note (reset_connection c a dns;;
    res ← connection_send c data len;
    if (res : bool) then emit Refused
    else
      o1 ← get;
      connections_list ::= filter (fun c' => c' <> c) (connections_list o1) ++ [c];;
      emit (Used (local_addr a));;
      emit (Submitted c a dns (slice data len (device_buf o)))) Q h (with_cs o cs).
Proof.
  intros Hi [Hnf Hacc] Hcon Hloc Hip Hd Hlen Hdl Hfit HQ. assert (Hi' := Hi). destruct Hi' as [Hb Hf].
  change (forall c', FirstJob c' ∉ jobs o) in Hnf.
  destruct (f_con _ _ Hf c con Hcon) as [Hrem Hsm Hrm Hto (ph & Hw & Hph) (ph2 & Hr & Hfi & Hd2)].
  change (jobs (with_cs o cs)) with (jobs o) in *. change (udp_mtu (with_cs o cs)) with (udp_mtu o) in *.
  unfold reset_connection. apply wph_bind, wph_bind. eapply wph_get_con; [exact Hcon|]. apply wph_set_con.
  set (con1 := con <| con_addr := a |> <| is_dns := dns |>).
  assert (Hi1 : inv h (with_cs o (<[c := con1]> cs))).
  { eapply set_recv; [exact Hi|exact Hcon|symmetry; exact Hloc|exact Hip|done|done|done|exact Hrm| |].
    - exists ph2. done.
    - by intros ?%Hnf. }
  apply wph_bind.
  eapply (connection_send_ok c h o _ con1);
    [by rewrite lookup_insert_eq|exact Hw|exact Hsm|exact Hip|exact Hd|exact Hlen|exact Hdl|reflexivity|exact Hfit|].
  destruct ph as [|d n|d n|d n k]; try (apply wph_emit, HQ; exact Hi1).
  destruct Hph as (-> & Hwo & Hwd). split; [done|]. intros w m k Hw' Hm. rewrite insert_insert_eq.
  apply wph_bind, wph_get. apply wph_bind, wph_modify. apply wph_bind, wph_emit, wph_emit.
  set (con2 := con1 <| udp_send_writer := w |> <| udp_send_mem := m |>).
  set (p := slice data len (device_buf o)).
  set (h1 := note (note h (Out c (send_addr con1) (frame (remote_addr (con_addr con1)) (is_dns con1) p))) (Submitted c a dns p)).
  assert (Hi2 : inv h1 (with_cs (o <| jobs := WriterDone c :: jobs o |>) (<[c := con2]> cs))).
  { rewrite <- (insert_insert_eq cs c con2 con1). eapply (inv_set h h1 o _ c con1 con2); try done.
    - by rewrite lookup_insert_eq.
    - constructor; try done.
      + exists (Done 0 (udp_mtu o) k). split; [exact Hw'|]. split; [by rewrite not_elem_of_cons|left].
      + exists ph2. split; [done|]. split; [|done]. intros [?|?%Hnf]%elem_of_cons; done.
    - apply others_push. by right.
    - constructor; [done|apply (f_nodup _ _ Hf)].
    - apply first_none; [by intros c' [?|?%Hnf]%elem_of_cons|].
      change (accepted h ++ [(c, frame (remote_addr a) dns p)] = outs h ++ [(c, frame (remote_addr a) dns p)]).
      by rewrite Hacc.
    - intros b. change (b ∈ sent_to h ++ [send_addr con] -> b = socks_server_addr o \/ b = dnsgw o).
      rewrite elem_of_app, list_elem_of_singleton. intros [?| ->]; [by apply (f_to _ _ Hf)|exact Hto]. }
  apply (inv_used _ _ _ c con2) in Hi2; [|by rewrite lookup_insert_eq]. apply HQ.
  exact Hi2.
Qed.

Lemma submit_ok outcome c mem mem' local remote dns data len h o cs :
  inv h (with_cs o cs) -> idle h (with_cs o cs) -> cs !! c = None -> DeviceDone ∈ jobs o ->
  ip_ok local -> ip_ok remote -> zlen mem = udp_mtu o -> zlen mem' = udp_mtu o ->
  0 <= data -> 0 <= len <= udp_mtu o -> data + len <= zlen (device_buf o) -> header_len remote dns + len <= udp_mtu o ->
  wph note (SocksUdpGwClient_SubmitPacket outcome c mem mem' local remote dns data len) (fun _ => inv) h (with_cs o cs).
Proof.
  intros Hi Hidle Hc Hdd Hloc Hrem Hm Hm' Hd Hlen Hdl Hfit. assert (Hi' := Hi). destruct Hi' as [Hb Hf].
  destruct (is_ip_ok _ Hloc) as [Hl1 _]. destruct (is_ip_ok _ Hrem) as [Hr1 Hr2].
  unfold SocksUdpGwClient_SubmitPacket. apply wph_bind, wph_get.
  change (udp_mtu (with_cs o cs)) with (udp_mtu o). change (device_buf (with_cs o cs)) with (device_buf o).
  do 2 (apply wph_bind, wph_assert; [done|]). do 2 (apply wph_bind, wph_assert; [b2p; lia|]).
  apply wph_bind. eapply wph_must; [apply mem_read_Some; lia|].
  change (num_connections (with_cs o cs)) with (num_connections o). change (max_connections (with_cs o cs)) with (max_connections o).
  apply wph_bind. eapply (find_connection_ok h o); [exact Hb|exact Hloc| |].
  { intros c' con Hcon Hla. apply wph_bind, wph_when; [intros He; by b2p|]. intros _.
    eapply (reuse_ok h o cs c' con (mk_conaddr local remote)); [exact Hi|exact Hidle|exact Hcon|exact Hla|exact Hr2|try lia..|]; [exact Hfit|auto]. }
  intros Hfe. apply wph_bind.
  assert (Hinit : forall h' o' cs', inv h' (with_cs o' cs') -> idle h' (with_cs o' cs') -> cs' !! c = None -> DeviceDone ∈ jobs o' ->
    num_connections o' < max_connections o' -> udp_mtu o' = udp_mtu o -> device_buf o' = device_buf o ->
    find_equal conaddr_comparator (key_of cs') (mk_conaddr local remote) (ot_elems (connections_tree o')) = None ->
    wph note (r ← connection_init outcome c mem mem' (mk_conaddr local remote) data len dns;
      match r with
      | Some c => emit (Submitted c (mk_conaddr local remote) dns (slice data len (device_buf o)))
      | None => emit Refused
      end) (fun _ => inv) h' (with_cs o' cs')).
  { intros h' o' cs' Hi1 Hid1 Hc1 Hd1 Hn1 Hmtu Hbuf Hfe1. apply wph_bind.
    eapply connection_init_ok; [exact Hi1|exact Hid1|exact Hc1|exact Hd1|exact Hn1|exact Hloc|exact Hr2|..]; rewrite ?Hmtu, ?Hbuf;
      [done|done|lia|lia|lia|done|done|..].
    - by apply wph_emit.
    - intros o2 Hi2. by apply wph_emit. }
  apply wph_when; intros He.
  - apply andb_true_iff in He as [_ He]. apply Z.eqb_eq in He. eapply remove_lru_ok; [exact Hi|exact Hidle|exact Hdd|exact Hloc|exact He|exact Hfe|].
    intros c' t h' Hc' o' cs' Hi1 Hid1 Hd1 Hn1 Hfe1. apply Hinit; try done.
    unfold cs'. destruct (decide (c = c')) as [->|Hne]; [by rewrite lookup_delete_eq|by rewrite lookup_delete_ne].
  - rewrite bool_decide_eq_true_2 in He by done. cbn [andb] in He. b2p.
    apply Hinit; try done. by eapply book_fits.
Qed.

Lemma ip_okb_ok a : ip_okb a = true -> ip_ok a.
Proof. destruct a; cbn; intros H; b2p; try done; intuition (done || lia). Qed.

Lemma device_read_ok buf outcome c mem mem' local remote dns data len h o cs :
  let a := DeviceRead buf outcome c mem mem' local remote dns data len in
  inv h (with_cs o cs) -> contract (with_cs o cs) a && fits (with_cs o cs) a = true ->
  wph note (exec_action a) (fun _ => inv) h (with_cs o cs).
Proof.
  intros a [Hb Hf] He. apply andb_true_iff in He as [He Hfit]. cbn [contract fits a] in He, Hfit.
  rewrite !andb_true_iff, !Z.eqb_eq, !Z.leb_le, !bool_decide_eq_true in He. apply Z.leb_le in Hfit.
  destruct He as ((((((((Hdd & Hc) & Hm) & Hm') & Hloc) & Hrem) & Hl0) & Hl1) & Hin).
  change (udp_mtu (with_cs o cs)) with (udp_mtu o) in *. change (jobs (with_cs o cs)) with (jobs o) in *.
  apply ip_okb_ok in Hloc, Hrem. unfold in_bounds in Hin. apply andb_true_iff in Hin as [Hin1 Hin2]. b2p.
  pose proof (device_idle _ _ Hf Hdd) as Hidle.
  unfold a. cbn [exec_action]. apply wph_bind, wph_modify. apply wph_bind, wph_modify.
  set (o1 := o <| jobs := DeviceDone :: jobs o |> <| device_buf := buf |>).
  change (wph note (SocksUdpGwClient_SubmitPacket outcome c mem mem' local remote dns data len) (fun _ => inv) h (with_cs o1 cs)).
  assert (Hid1 : idle h (with_cs o1 cs)).
  { destruct Hidle as [Hn Ha]. split; [|exact Ha]. intros c' [?|?]%elem_of_cons; [done|by apply (Hn c')]. }
  apply submit_ok; try done; try lia.
  - split; [by eapply book_other|]. eapply flows_jobs; [exact Hf| | | |apply (f_to _ _ Hf)].
    + intros c'. by apply same_push.
    + constructor; [done|apply (f_nodup _ _ Hf)].
    + apply first_none; apply Hid1.
  - left.
Qed.

Lemma udp_step_ok h o a : inv h o -> enabled o a = true -> wph note (exec a) (fun _ => inv) h o.
Proof.
  intros Hi He. rewrite <- (with_cs_id o) in *. set (cs := connections o) in *. clearbody cs.
  change (exec a) with (exec_action (T:=T) a).
  change (enabled (with_cs o cs) a) with (contract (with_cs o cs) a && fits (with_cs o cs) a) in He.
  destruct a as [buf outcome c mem mem' local remote dns data len|space|c|c p|c|c].
  { by apply device_read_ok. }
  all: cbn [contract fits] in He; rewrite andb_true_r in He; change (connections (with_cs o cs)) with cs in He.
  { cbn [exec_action]. change (jobs (with_cs o cs)) with (jobs o) in He. apply wph_bind, wph_gets.
    change (jobs (with_cs o cs)) with (jobs o). destruct (jobs o) as [|j l] eqn:Hj; [by b2p|].
    apply wph_bind. eapply wph_must; [done|]. apply wph_bind, wph_modify.
    change (upd jobs (fun _ => tail (j :: l)) (with_cs o cs)) with (with_cs (o <| jobs := l |>) cs).
    destruct j.
    - by apply dispatch_first_ok.
    - by apply dispatch_writer_ok.
    - by apply dispatch_done_ok.
    - apply wph_ret. by apply dispatch_device_ok. }
  all: destruct (cs !! c) as [con|] eqn:Hc; [|done].
  - by eapply receive_next_ok.
  - rewrite !andb_true_iff, bool_decide_eq_true, Z.leb_le in He. destruct He as [[He1 He2] He3].
    by eapply udp_arrives_ok.
  - by eapply udp_recv_starts_ok.
  - by eapply udp_recv_done_ok.
Qed.

(** *** The end *)

Lemma free_connections_ok n h o cs :
  book h (with_cs o cs) -> length (connections_list o) = n ->
  wph (fun (_ : unit) (_ : event) => tt) (free_connections n)
    (fun _ _ o' => connections_list o' = [] /\ connections o' = ∅ /\ num_connections o' = 0 /\ ot_elems (connections_tree o') = []) tt
    (with_cs o cs).
Proof.
  revert h o cs. induction n as [|n IH]; intros h o cs Hb Hlen; cbn [free_connections]; apply wph_bind, wph_get;
    change (connections_list (with_cs o cs)) with (connections_list o);
    destruct (connections_list o) as [|c rest] eqn:Hl; try discriminate.
  - apply wph_ret. destruct Hb as [_ Hp _ Hd _ Hn _ _].
    change (connections_list (with_cs o cs)) with (connections_list o) in *. rewrite Hl in *.
    split; [done|]. split; [|split; [apply Hn|by apply Permutation_nil_r]].
    apply map_empty. intros c. apply eq_None_not_Some. intros Hc%Hd. by apply elem_of_nil in Hc.
  - destruct (proj1 (b_dom _ _ Hb c)) as [con Hcon]. { change (c ∈ connections_list o). rewrite Hl. left. }
    change (cs !! c = Some con) in Hcon. apply wph_bind.
    eapply (connection_free_ok _ tt h o); [exact Hb|exact Hl|exact Hcon|]. intros t Hb' _.
    eapply IH; [exact Hb'|]. change (length (filter (fun c' => c' <> c) (connections_list o)) = n).
    pose proof (b_nodup _ _ Hb) as Hnd. change (connections_list (with_cs o cs)) with (connections_list o) in Hnd.
    rewrite Hl in *. rewrite filter_cons_False by tauto. apply NoDup_cons in Hnd as [Hnc _].
    rewrite filter_ne_notin by done. cbn in Hlen. lia.
Qed.

Lemma free_ok h o : book h o -> exists o' t, SocksUdpGwClient_Free o = Some (tt, o', t) /\
  connections_list o' = [] /\ connections o' = ∅ /\ num_connections o' = 0 /\ ot_elems (connections_tree o') = [].
Proof.
  intros Hb. rewrite <- (with_cs_id o) in Hb.
  assert (Hw : wph (fun (_ : unit) (_ : event) => tt) SocksUdpGwClient_Free
    (fun _ _ o' => connections_list o' = [] /\ connections o' = ∅ /\ num_connections o' = 0 /\ ot_elems (connections_tree o') = [])
    tt (with_cs o (connections o))).
  { unfold SocksUdpGwClient_Free. apply wph_bind, wph_get. by eapply free_connections_ok. }
  rewrite with_cs_id in Hw. destruct (wp_elim _ _ _ Hw) as ([] & o' & t & Hr & HQ). by exists o', t.
Qed.

Lemma udpgw_compute_mtu_ok mtu : 0 <= mtu -> mtu + 22 <= INT_MAX -> udpgw_compute_mtu mtu = mtu + 22.
Proof.
  intros H0 H1. unfold udpgw_compute_mtu, SOCKS_UDP_HEADER, UDPGW_ADDR_IPV4, UDPGW_ADDR_IPV6.
  assert (Hr : bsize_rep (bsize_add (bsize_fromsize 4) (bsize_add (bsize_max (bsize_fromsize 6) (bsize_fromsize 18)) (bsize_fromint mtu)))
                 (4 + (Z.max 6 18 + mtu))).
  { assert (22 <= SIZE_MAX) by by vm_compute.
    apply bsize_add_rep; [apply bsize_fromsize_rep; lia|]. apply bsize_add_rep; [|apply bsize_fromint_rep; lia].
    apply bsize_max_rep; apply bsize_fromsize_rep; lia. }
  rewrite (bsize_toint_rep _ _ Hr). replace (4 + (Z.max 6 18 + mtu)) with (mtu + 22) by lia.
  by replace (mtu + 22 <=? INT_MAX) with true by lia.
Qed.

Lemma udp_init_inv o :
  0 <= mtu0 -> mtu0 + 22 <= INT_MAX -> 0 < max0 -> SocksUdpGwClient_Init 0 mtu0 max0 server0 dns0 = Some o ->
  inv no_history o.
Proof.
  intros Hm0 Hm Hmax. unfold SocksUdpGwClient_Init. destruct (BAddr_IsInvalid server0); [done|]. intros [= <-].
  assert (Hmx : (if UINT16_MAX + 1 <? max0 then UINT16_MAX + 1 else max0) = Z.min max0 65536)
    by (unfold UINT16_MAX; destruct (_ <? max0) eqn:E; b2p; lia).
  rewrite Hmx. split.
  - constructor; cbn; try done.
    + split; [apply ot_empty_wf|]. rewrite ot_empty_elems. constructor.
    + by rewrite ot_empty_elems.
    + constructor.
    + intros c. split; [by intros ?%elem_of_nil|by intros [? ?]].
    + unfold zlen. cbn. lia.
  - constructor; cbn; try done.
    + by rewrite udpgw_compute_mtu_ok by lia.
    + constructor.
    + intros c. rewrite !elem_of_nil. tauto.
    + apply first_none; [|done]. by intros c ?%elem_of_nil.
    + by intros a ?%elem_of_nil.
Qed.

End invariant.

Section correctness.
Context {T : Type -> Type} `{!OrdTree T} `{!OrdTreeLaws T}.
Implicit Types o : @SocksUdpGwClient T.

Lemma relay_inv mtu max server dns o0 tr o :
  0 <= mtu -> mtu + 22 <= INT_MAX -> 0 < max -> SocksUdpGwClient_Init 0 mtu max server dns = Some o0 ->
  reach o0 tr o -> inv mtu max server dns (history_of tr) o.
Proof.
  intros H1 H2 H3 Hi. apply (monitor_reach note no_history (inv mtu max server dns)); [apply udp_step_ok|].
  by apply udp_init_inv.
Qed.


(** C31: [SocksUdpGwClient_Free] ends, from every state the relay can reach, after
    one round per connection: every connection is gone from the list, the tree
    and the memory, each freed once. *)
Theorem udp_relay_free mtu max server dns o0 tr o :
  0 <= mtu -> mtu + 22 <= INT_MAX -> 0 < max -> SocksUdpGwClient_Init 0 mtu max server dns = Some o0 ->
  reach o0 tr o ->
  exists o' t, SocksUdpGwClient_Free o = Some (tt, o', t) /\
    connections_list o' = [] /\ connections o' = ∅ /\ num_connections o' = 0 /\ ot_elems (connections_tree o') = [].
Proof. intros H1 H2 H3 Hi Hr. destruct (relay_inv _ _ _ _ _ _ _ H1 H2 H3 Hi Hr) as [Hb _]. by eapply free_ok. Qed.

Lemma le_val_parts m n x y : 0 <= x < 256 ^ Z.of_nat m -> 0 <= y < 256 ^ Z.of_nat n ->
  le_val (take m (le_bytes m x ++ le_bytes n y)) = x /\ le_val (drop m (le_bytes m x ++ le_bytes n y)) = y.
Proof.
  intros Hx Hy. assert (Hl : length (le_bytes m x) = m) by (pose proof (zlen_le_bytes m x) as H; unfold zlen in H; lia).
  rewrite take_app_length', drop_app_length' by lia. by rewrite !NetInt.le_val_bytes_small.
Qed.

(** The replies carry the same header as the packets. *)
Lemma reply_frame mtu a r data :
  ip_ok r -> zlen data <= mtu ->
  reply mtu false a (frame r false data) = (mk_conaddr (local_addr a) r, [Received (local_addr a) r data]).
Proof.
  intros Hr Hl. pose proof (zlen_nonneg data).
  assert (Hh : forall atyp ad n, zlen ad = n ->
    let p := socks_udp_header atyp ++ ad ++ data in
    zlen p = 4 + n + zlen data /\ slice 0 4 p = socks_udp_header atyp /\ slice 4 n p = ad /\ slice (4 + n) (zlen p - (4 + n)) p = data).
  { intros atyp ad n Hn p. assert (Hp : zlen p = 4 + n + zlen data)
      by (unfold p; rewrite !zlen_app, Hn; change (zlen (socks_udp_header atyp)) with 4; lia).
    split; [exact Hp|]. rewrite Hp. unfold p. split; [by apply slice_app_l|].
    assert (Hz : zlen (socks_udp_header atyp) = 4) by done. pose proof (zlen_nonneg ad).
    rewrite (slice_app_shift 4), Hz, Z.sub_diag by lia. split; [by apply slice_app_l|].
    rewrite app_assoc. apply slice_app_r; rewrite ?zlen_app; lia. }
  unfold reply, SOCKS_UDP_HEADER, UDPGW_ADDR_IPV4, UDPGW_ADDR_IPV6.
  destruct r as [|ip port|ip port|]; try done; cbn [frame] in *; cbn [ip_ok] in Hr; destruct Hr as [Hi Hp].
  - destruct (Hh Socks.SOCKS_ATYP_IPV4 (le_bytes 4 ip ++ le_bytes 2 port) 6) as (Hz & H1 & H2 & H3);
      [by rewrite zlen_app, !zlen_le_bytes|]. rewrite H1, H2, H3, Hz.
    destruct (_ <? 4) eqn:E1; [b2p; lia|]. change (negb (nth 2 (socks_udp_header Socks.SOCKS_ATYP_IPV4) 0 =? 0)) with false.
    change (nth 3 (socks_udp_header Socks.SOCKS_ATYP_IPV4) 0 =? Socks.SOCKS_ATYP_IPV6) with false. cbn iota.
    destruct (_ <? 4 + 6) eqn:E2; [b2p; lia|]. destruct (mtu <? zlen data) eqn:E3; [b2p; lia|].
    by destruct (le_val_parts 4 2 ip port) as [-> ->].
  - destruct (Hh Socks.SOCKS_ATYP_IPV6 (take 16 ip ++ le_bytes 2 port) 18) as (Hz & H1 & H2 & H3);
      [rewrite zlen_app, zlen_le_bytes, (firstn_all2 ip) by lia; unfold zlen; rewrite Hi; reflexivity|].
    rewrite H1, H2, H3, Hz. rewrite (firstn_all2 ip) by lia.
    destruct (_ <? 4) eqn:E1; [b2p; lia|]. change (negb (nth 2 (socks_udp_header Socks.SOCKS_ATYP_IPV6) 0 =? 0)) with false.
    change (nth 3 (socks_udp_header Socks.SOCKS_ATYP_IPV6) 0 =? Socks.SOCKS_ATYP_IPV6) with true. cbn iota.
    destruct (_ <? 4 + 18) eqn:E2; [b2p; lia|]. destruct (mtu <? zlen data) eqn:E3; [b2p; lia|].
    rewrite take_app_length', drop_app_length' by lia. by rewrite NetInt.le_val_bytes_small.
Qed.

(** A datagram that carries the header the relay itself writes for a remote
    address comes back as it was: the payload is passed on with the local address
    of the connection and that remote address, IPv4 or IPv6, which becomes the
    address of the connection, and the receive interface is done with it. *)
Theorem udp_frame_roundtrip o c con r data :
  let p := frame r false data in
  connections o !! c = Some con -> is_dns con = false -> ip_ok r ->
  pp_is (udp_mtu o) (Busy 0 (zlen p)) (udp_recv_if con) -> zlen p <= zlen (udp_recv_mem con) ->
  slice 0 (zlen p) (udp_recv_mem con) = p -> zlen p <= udpgw_mtu o ->
  exists i, dgram_handler_received c 0 (zlen p) o =
    Some (tt, o <| connections := <[c := con <| udp_recv_if := i |> <| con_addr := mk_conaddr (local_addr (con_addr con)) r |>]> (connections o) |>,
          [Received (local_addr (con_addr con)) r data]) /\ pp_is (udp_mtu o) (Done 0 (zlen p) 0) i.
Proof.
  intros p Hc Hdns Hr Hi Hmem Hp Hg. destruct (pp_is_data _ _ _ _ Hi) as (_ & _ & Hl).
  assert (Hw : wph (fun g e => g ++ [e]) (dgram_handler_received c 0 (zlen p)) (fun _ g o' => exists i,
    g = [Received (local_addr (con_addr con)) r data] /\ pp_is (udp_mtu o) (Done 0 (zlen p) 0) i /\
    o' = with_cs o (<[c := con <| udp_recv_if := i |> <| con_addr := mk_conaddr (local_addr (con_addr con)) r |>]> (connections o)))
    [] (with_cs o (connections o))).
  { eapply dgram_received_ok; [exact Hc|exact Hi|exact Hmem|exact Hg|]. intros i Hi'. rewrite Hdns, Hp.
    assert (Hd : zlen data <= udp_mtu o).
    { assert (zlen data <= zlen p); [|lia]. unfold p. destruct r; try done; cbn [frame]; rewrite !zlen_app;
        repeat match goal with |- context [zlen ?l] => lazymatch goal with H : 0 <= zlen l |- _ => fail | _ => pose proof (zlen_nonneg l) end end; lia. }
    unfold p at 1 2. rewrite reply_frame by done. cbn [fst snd foldl]. exists i. done. }
  rewrite with_cs_id in Hw. destruct (wp_elim _ _ _ Hw) as ([] & o' & t & Hrun & i & Ht & Hi' & ->).
  assert (Hf : forall t' g, foldl (fun g (e : event) => g ++ [e]) g t' = g ++ t').
  { induction t' as [|e t' IH]; intros g; cbn; [by rewrite app_nil_r|]. by rewrite IH, <- app_assoc. }
  rewrite Hf in Ht. cbn in Ht. rewrite Hrun, Ht. exists i. done.
Qed.

Definition quiet (_ : unit) (_ : event) : unit := tt.
Lemma bind_fails {W A B} (m : Prelude.M W event A) (f : A -> Prelude.M W event B) s :
  wph quiet m (fun a _ s' => f a s' = None) tt s -> (m ≫= f) s = None.
Proof. unfold wph, wp, mbind, M_bind. destruct (m s) as [[[a s1] t1]|]; [|done]. by intros ->. Qed.

Lemma bind_none {W A B} (m : Prelude.M W event A) (f : A -> Prelude.M W event B) s : m s = None -> (m ≫= f) s = None.
Proof. intros Hm. unfold mbind, M_bind. by rewrite Hm. Qed.

(** C33: The contract of [SocksUdpGwClient_SubmitPacket], [data_len <= udp_mtu], is
    not enough: the memory of a connection's writer has [udp_mtu] bytes, and a packet that fits there only
    without its SOCKS header is written past the end. *)
Theorem udp_header_overflow o c con data data_len :
  connections o !! c = Some con -> is_dns con = false -> ip_addr (remote_addr (con_addr con)) ->
  bw_is (udp_mtu o) (Busy 0 (udp_mtu o)) (udp_send_writer con) -> zlen (udp_send_mem con) = udp_mtu o ->
  0 <= data -> 0 <= data_len <= udp_mtu o -> data + data_len <= zlen (device_buf o) ->
  header_len (remote_addr (con_addr con)) false <= udp_mtu o < header_len (remote_addr (con_addr con)) false + data_len ->
  connection_send c data data_len o = None.
Proof.
  intros Hc Hdns Hip Hw Hm Hd Hl Hdl Hov.
  rewrite <- (with_cs_id o). set (cs := connections o) in *. unfold connection_send.
  apply bind_fails. eapply wph_at_con; [exact Hc|]. apply wp_zoom. eapply wp_bw_start; [exact Hw|].
  intros w1 Hw1. split; [done|]. set (con1 := con <| udp_send_writer := w1 |>).
  apply bind_fails. eapply wph_get_con; [by rewrite lookup_insert_eq|].
  change (is_dns con1) with (is_dns con). rewrite Hdns. cbn [negb]. apply bind_fails.
  set (hl := header_len (remote_addr (con_addr con)) false) in *.
  eapply (wph_write_header quiet c tt o);
    [by rewrite lookup_insert_eq|exact Hip|change (hl <= zlen (udp_send_mem con)); lia|].
  intros m Hz _. rewrite insert_insert_eq. change (header_len (remote_addr (con_addr con1)) false) with hl.
  change (udp_send_mem con1) with (udp_send_mem con) in Hz.
  apply bind_fails, wph_gets. apply bind_fails. eapply wph_must; [apply mem_read_Some; [lia|lia|exact Hdl]|].
  apply bind_none. apply bind_fails. eapply wph_get_con; [by rewrite lookup_insert_eq|].
  apply bind_none. unfold must, mem_write, in_bounds. change (udp_send_mem (con1 <| udp_send_mem := m |>)) with m.
  change (device_buf (with_cs o (<[c:=con1 <| udp_send_mem := m |>]> cs))) with (device_buf o).
  rewrite zlen_slice by lia. replace (0 + hl + data_len <=? zlen m) with false by lia. by rewrite andb_false_r.
Qed.
End correctness.

(** * Examples, with the trees of [BAVL.v] *)

Definition example_server : BAddr := IPV4 16777343 14340.
Definition example_dns : BAddr := IPV4 16843009 13568.
Definition local_at (n : Z) : BAddr := IPV4 (n * 16777216 + 10) 4660.
Definition example_remote : BAddr := IPV6 (repeat 32 16) 20480.
Definition example_start : SocksUdpGwClient (T:=tree) :=
  match SocksUdpGwClient_Init 0 30 2 example_server example_dns with
  | Some o => o
  | None => mk_client 0 0 NONE NONE 0 0 ot_empty [] ∅ [] []
  end.
Lemma example_init : SocksUdpGwClient_Init 0 30 2 example_server example_dns = Some example_start.
Proof. vm_compute. reflexivity. Qed.

Definition read_packet (n : nat) (c : Z) (local remote : BAddr) (dns : bool) : list action :=
  DeviceRead [1; 2; 3; 4; 5; 6; 7; 8] INIT_OK c (repeat 0 30) (repeat 0 30) local remote dns 2 5 :: repeat (Dispatch true) n.
Definition three_packets : list action :=
  read_packet 5 100 (local_at 1) example_remote false ++ read_packet 5 200 (local_at 2) example_server true ++
  read_packet 5 300 (local_at 3) (IPV4 5 6) false.
Definition after_three : SocksUdpGwClient (T:=tree) * list event :=
  match run three_packets example_start with Some e => e | None => (example_start, []) end.
Lemma after_three_run : run three_packets example_start = Some (fst after_three, snd after_three).
Proof. vm_compute. reflexivity. Qed.


Lemma udp_relay_free_witness :
  zlen (connections_list (fst after_three)) = 2 /\
  exists o' t, SocksUdpGwClient_Free (fst after_three) = Some (tt, o', t) /\ connections o' = ∅.
Proof.
  split; [vm_compute; reflexivity|].
  destruct (udp_relay_free (T:=tree) 30 2 example_server example_dns example_start (snd after_three) (fst after_three) ltac:(lia)
    ltac:(vm_compute; congruence) ltac:(lia) example_init (run_reach _ _ _ _ after_three_run)) as (o' & t & H & _ & Hc & _).
  exists o', t. exact (conj H Hc).
Defined.

Definition reply_packet : bytes := frame (IPV4 5 6) false [9; 8; 7].
Definition replied : SocksUdpGwClient (T:=tree) * list event :=
  match run [UdpArrives 300 reply_packet] (fst after_three) with Some e => e | None => (example_start, []) end.
Definition serving : SocksUdpGwClient (T:=tree) :=
  match at_con 300 (zoom udp_recv_if PacketPassInterface_job_operation) (fst replied) with
  | Some (_, o, _) => o
  | None => example_start
  end.
Definition serving_con : connection :=
  match connections serving !! 300 with
  | Some con => con
  | None => mk_con (mk_conaddr NONE NONE) 0 0 false NONE (BufferWriter_Init 0) [] (PacketPassInterface_Init 0) []
  end.

Lemma udp_frame_roundtrip_witness :
  exists i, dgram_handler_received 300 0 13 serving =
    Some (tt, serving <| connections := <[300 := serving_con <| udp_recv_if := i |> <| con_addr := mk_conaddr (local_at 3) (IPV4 5 6) |>]>
                (connections serving) |>, [Received (local_at 3) (IPV4 5 6) [9; 8; 7]]).
Proof.
  destruct (udp_frame_roundtrip serving 300 serving_con (IPV4 5 6) [9; 8; 7]) as (i & Hi & _).
  - vm_compute. reflexivity.
  - vm_compute. reflexivity.
  - vm_compute. intuition congruence.
  - vm_compute. intuition congruence.
  - vm_compute. congruence.
  - vm_compute. reflexivity.
  - vm_compute. congruence.
  - exists i. exact Hi.
Defined.

Definition ready_con : connection :=
  match connections (fst after_three) !! 300 with Some con => con | None => serving_con end.
Definition with_packet : SocksUdpGwClient (T:=tree) := upd device_buf (fun _ => repeat 1 25) (fst after_three).
(** 25 bytes of data and 10 of header do not go into 30 bytes. *)
Lemma udp_header_overflow_witness :
  contract with_packet (DeviceRead (repeat 1 25) INIT_OK 400 (repeat 0 30) (repeat 0 30) (local_at 3) (IPV4 5 6) false 0 25) = true /\
  connection_send 300 0 25 with_packet = None.
Proof.
  split; [vm_compute; reflexivity|].
  apply (udp_header_overflow with_packet 300 ready_con).
  - vm_compute. reflexivity.
  - vm_compute. reflexivity.
  - vm_compute. exact I.
  - vm_compute. intuition congruence.
  - vm_compute. reflexivity.
  - lia.
  - vm_compute. intuition congruence.
  - vm_compute. congruence.
  - vm_compute. intuition congruence.
Defined.

(** [find_connection] never looks at [is_dns] ([con] is not NULL there), so the
    connection of a DNS query is used again for the next packet of that local
    address, which then goes to the DNS gateway, SOCKS header included. *)
Lemma dns_connection_reused :
  exists o tr, run (read_packet 5 100 (local_at 1) example_dns true ++ read_packet 3 200 (local_at 1) (IPV4 5 6) false)
                 example_start = Some (o, tr) /\
    outs (history_of tr) = [(100, [3; 4; 5; 6; 7]); (100, frame (IPV4 5 6) false [3; 4; 5; 6; 7])] /\
    sent_to (history_of tr) = [example_dns; example_dns].
Proof. eexists _, _. split; vm_compute; [reflexivity|split; reflexivity]. Qed.
End UdpRelay.
