(* ===== verification/Md5.v ===== *)
(** MD5, as the redirector hashes the credentials of HTTP digest authentication:
    [redsocks/md5.c], for the little-endian machine it is built for.

    Words are 32-bit unsigned integers in [Z]; the message buffer is memory
    with checked accesses. *)

From S2P Require Import Prelude NetInt.

Module Md5.
Import NetInt.

Definition T_MASK : Z := 4294967295. (* ~0 *)
(** [T1], ..., [T64] *)
Definition T_table : list Z :=
  [Z.lxor T_MASK 680876935; Z.lxor T_MASK 389564585; 606105819; Z.lxor T_MASK 1044525329;
   Z.lxor T_MASK 176418896; 1200080426; Z.lxor T_MASK 1473231340; Z.lxor T_MASK 45705982;
   1770035416; Z.lxor T_MASK 1958414416; Z.lxor T_MASK 42062; Z.lxor T_MASK 1990404161;
   1804603682; Z.lxor T_MASK 40341100; Z.lxor T_MASK 1502002289; 1236535329;
   Z.lxor T_MASK 165796509; Z.lxor T_MASK 1069501631; 643717713; Z.lxor T_MASK 373897301;
   Z.lxor T_MASK 701558690; 38016083; Z.lxor T_MASK 660478334; Z.lxor T_MASK 405537847;
   568446438; Z.lxor T_MASK 1019803689; Z.lxor T_MASK 187363960; 1163531501;
   Z.lxor T_MASK 1444681466; Z.lxor T_MASK 51403783; 1735328473; Z.lxor T_MASK 1926607733;
   Z.lxor T_MASK 378557; Z.lxor T_MASK 2022574462; 1839030562; Z.lxor T_MASK 35309555;
   Z.lxor T_MASK 1530992059; 1272893353; Z.lxor T_MASK 155497631; Z.lxor T_MASK 1094730639;
   681279174; Z.lxor T_MASK 358537221; Z.lxor T_MASK 722521978; 76029189;
   Z.lxor T_MASK 640364486; Z.lxor T_MASK 421815834; 530742520; Z.lxor T_MASK 995338650;
   Z.lxor T_MASK 198630843; 1126891415; Z.lxor T_MASK 1416354904; Z.lxor T_MASK 57434054;
   1700485571; Z.lxor T_MASK 1894986605; Z.lxor T_MASK 1051522; Z.lxor T_MASK 2054922798;
   1873313359; Z.lxor T_MASK 30611743; Z.lxor T_MASK 1560198379; 1309151649;
   Z.lxor T_MASK 145523069; Z.lxor T_MASK 1120210378; 718787259; Z.lxor T_MASK 343485550].
Definition T (i : nat) : Z := nth (i - 1) T_table 0.

(** ** md5_process *)

Record abcd := mk_abcd { r_a : Z; r_b : Z; r_c : Z; r_d : Z }.

(** Complement of a 32-bit word. *)
Definition not32 (x : Z) : Z := Z.lxor T_MASK x.
Definition F (x y z : Z) : Z := Z.lor (Z.land x y) (Z.land (not32 x) z).
Definition G (x y z : Z) : Z := Z.lor (Z.land x z) (Z.land y (not32 z)).
Definition H (x y z : Z) : Z := Z.lxor (Z.lxor x y) z.
Definition I (x y z : Z) : Z := Z.lxor y (Z.lor x (not32 z)).

Definition ROTATE_LEFT (x n : Z) : Z := Z.lor (u32 (x ≪ n)) (x ≫ (32 - n)).

(** The order in which a [SET] names the registers; it assigns the first. *)
Inductive order := ABCD | DABC | CDAB | BCDA.
Record statement := SET { s_f : Z -> Z -> Z -> Z; s_regs : order; s_k : nat; s_s : Z; s_T : Z }.

Definition named (o : order) (r : abcd) : Z * Z * Z * Z :=
  let '(mk_abcd a b c d) := r in
  match o with ABCD => (a, b, c, d) | DABC => (d, a, b, c) | CDAB => (c, d, a, b) | BCDA => (b, c, d, a) end.
Definition assign (o : order) (x : Z) (r : abcd) : abcd :=
  let '(mk_abcd a b c d) := r in
  match o with ABCD => mk_abcd x b c d | DABC => mk_abcd a b c x | CDAB => mk_abcd a b x d | BCDA => mk_abcd a x c d end.

Definition run_statement (X : nat -> Z) (r : abcd) (st : statement) : abcd :=
  let '(a, b, c, d) := named (s_regs st) r in
  let t := u32 (a + s_f st b c d + X (s_k st) + s_T st) in
  assign (s_regs st) (u32 (ROTATE_LEFT t (s_s st) + b)) r.

Definition round_1 : list statement :=
  [SET F ABCD 0 7 (T 1); SET F DABC 1 12 (T 2);
   SET F CDAB 2 17 (T 3); SET F BCDA 3 22 (T 4);
   SET F ABCD 4 7 (T 5); SET F DABC 5 12 (T 6);
   SET F CDAB 6 17 (T 7); SET F BCDA 7 22 (T 8);
   SET F ABCD 8 7 (T 9); SET F DABC 9 12 (T 10);
   SET F CDAB 10 17 (T 11); SET F BCDA 11 22 (T 12);
   SET F ABCD 12 7 (T 13); SET F DABC 13 12 (T 14);
   SET F CDAB 14 17 (T 15); SET F BCDA 15 22 (T 16)].
Definition round_2 : list statement :=
  [SET G ABCD 1 5 (T 17); SET G DABC 6 9 (T 18);
   SET G CDAB 11 14 (T 19); SET G BCDA 0 20 (T 20);
   SET G ABCD 5 5 (T 21); SET G DABC 10 9 (T 22);
   SET G CDAB 15 14 (T 23); SET G BCDA 4 20 (T 24);
   SET G ABCD 9 5 (T 25); SET G DABC 14 9 (T 26);
   SET G CDAB 3 14 (T 27); SET G BCDA 8 20 (T 28);
   SET G ABCD 13 5 (T 29); SET G DABC 2 9 (T 30);
   SET G CDAB 7 14 (T 31); SET G BCDA 12 20 (T 32)].
Definition round_3 : list statement :=
  [SET H ABCD 5 4 (T 33); SET H DABC 8 11 (T 34);
   SET H CDAB 11 16 (T 35); SET H BCDA 14 23 (T 36);
   SET H ABCD 1 4 (T 37); SET H DABC 4 11 (T 38);
   SET H CDAB 7 16 (T 39); SET H BCDA 10 23 (T 40);
   SET H ABCD 13 4 (T 41); SET H DABC 0 11 (T 42);
   SET H CDAB 3 16 (T 43); SET H BCDA 6 23 (T 44);
   SET H ABCD 9 4 (T 45); SET H DABC 12 11 (T 46);
   SET H CDAB 15 16 (T 47); SET H BCDA 2 23 (T 48)].
Definition round_4 : list statement :=
  [SET I ABCD 0 6 (T 49); SET I DABC 7 10 (T 50);
   SET I CDAB 14 15 (T 51); SET I BCDA 5 21 (T 52);
   SET I ABCD 12 6 (T 53); SET I DABC 3 10 (T 54);
   SET I CDAB 10 15 (T 55); SET I BCDA 1 21 (T 56);
   SET I ABCD 8 6 (T 57); SET I DABC 15 10 (T 58);
   SET I CDAB 6 15 (T 59); SET I BCDA 13 21 (T 60);
   SET I ABCD 4 6 (T 61); SET I DABC 11 10 (T 62);
   SET I CDAB 2 15 (T 63); SET I BCDA 9 21 (T 64)].

(** The 16 words of a block in memory. *)
Definition word (data : bytes) (k : nat) : Z := le_val (slice (4 * Z.of_nat k) 4 data).

Record md5_state := mk_md5 { count0 : Z; count1 : Z; regs : abcd; buf : bytes }.
#[export] Instance eta_md5 : Eta md5_state := fun s => mk_md5 (count0 s) (count1 s) (regs s) (buf s).

Definition md5_process (pms : md5_state) (data : bytes) : md5_state :=
  let r := foldl (run_statement (word data)) (regs pms) (round_1 ++ round_2 ++ round_3 ++ round_4) in
  pms <| regs := mk_abcd (u32 (r_a (regs pms) + r_a r)) (u32 (r_b (regs pms) + r_b r))
                   (u32 (r_c (regs pms) + r_c r)) (u32 (r_d (regs pms) + r_d r)) |>.

(** [old] is what the buffer holds. *)
Definition md5_init (old : bytes) : md5_state :=
  mk_md5 0 0 (mk_abcd 1732584193 (Z.lxor T_MASK 271733878) (Z.lxor T_MASK 1732584193) 271733878) old.

(** The loop over the full blocks, with a bound on its rounds. *)
Fixpoint full_blocks (rounds : nat) (pms : md5_state) (data : bytes) (p left : Z) : option (md5_state * Z * Z) :=
  if 64 <=? left then
    match rounds with
    | O => None
    | S rounds =>
        block ← mem_read p 64 data;
        full_blocks rounds (md5_process pms block) data (p + 64) (left - 64)
    end
  else Some (pms, p, left).

(** The end of [md5_append], from [p] on. *)
Definition append_rest (pms : md5_state) (data : bytes) (p left : Z) : option md5_state :=
  '(pms, p, left) ← full_blocks (Z.to_nat (left / 64)) pms data p left;
  if negb (left =? 0) then
    l ← mem_read p left data;
    b ← mem_write 0 l (buf pms);
    Some (pms <| buf := b |>)
  else Some pms.

Definition md5_append (pms : md5_state) (data : bytes) (nbytes : Z) : option md5_state :=
  let offset := Z.land (count0 pms ≫ 3) 63 in
  (* [nbytes << 3] must not overflow *)
  if (nbytes <? 0) || (INT_MAX <? nbytes * 8) then None
  else
    let nbits := u32 (nbytes ≪ 3) in
    if nbytes <=? 0 then Some pms
    else
      let c1 := u32 (count1 pms + (nbytes ≫ 29)) in
      let c0 := u32 (count0 pms + nbits) in
      let c1 := if c0 <? nbits then u32 (c1 + 1) else c1 in
      let pms := pms <| count0 := c0 |> <| count1 := c1 |> in
      if negb (offset =? 0) then
        let copy := if 64 <? offset + nbytes then 64 - offset else nbytes in
        l ← mem_read 0 copy data;
        b ← mem_write offset l (buf pms);
        let pms := pms <| buf := b |> in
        if offset + copy <? 64 then Some pms
        else append_rest (md5_process pms (buf pms)) data copy (nbytes - copy)
      else append_rest pms data 0 nbytes.

Definition pad : bytes := 128 :: repeat 0 63.

(** The [i]-th byte of an array of words. *)
Definition array_bytes (ws : list Z) : bytes := concat (shift_bytes 4 <$> ws).

Definition md5_finish (pms : md5_state) : option (md5_state * bytes) :=
  let data := array_bytes [count0 pms; count1 pms] in
  pms ← md5_append pms pad (Z.land (u32 (55 - (count0 pms ≫ 3))) 63 + 1);
  pms ← md5_append pms data 8;
  Some (pms, array_bytes [r_a (regs pms); r_b (regs pms); r_c (regs pms); r_d (regs pms)]).

(** * RFC 1321 *)

Definition K_table : list Z :=
  [3614090360; 3905402710; 606105819; 3250441966;
   4118548399; 1200080426; 2821735955; 4249261313;
   1770035416; 2336552879; 4294925233; 2304563134;
   1804603682; 4254626195; 2792965006; 1236535329;
   4129170786; 3225465664; 643717713; 3921069994;
   3593408605; 38016083; 3634488961; 3889429448;
   568446438; 3275163606; 4107603335; 1163531501;
   2850285829; 4243563512; 1735328473; 2368359562;
   4294588738; 2272392833; 1839030562; 4259657740;
   2763975236; 1272893353; 4139469664; 3200236656;
   681279174; 3936430074; 3572445317; 76029189;
   3654602809; 3873151461; 530742520; 3299628645;
   4096336452; 1126891415; 2878612391; 4237533241;
   1700485571; 2399980690; 4293915773; 2240044497;
   1873313359; 4264355552; 2734768916; 1309151649;
   4149444226; 3174756917; 718787259; 3951481745].

(** Rotation of a 32-bit word. *)
Definition rotl (x n : Z) : Z := x * 2 ^ n mod 2 ^ 32 + x / 2 ^ (32 - n).

(** Operation [i] of the 64: the function, word and shift of its round. *)
Definition operation (X : nat -> Z) (r : abcd) (i : nat) : abcd :=
  let '(mk_abcd a b c d) := r in
  let j := (i mod 4)%nat in
  let '(f, g, s) :=
    match (i / 16)%nat with
    | 0%nat => (F b c d, i, nth j [7; 12; 17; 22] 0)
    | 1%nat => (G b c d, ((5 * i + 1) mod 16)%nat, nth j [5; 9; 14; 20] 0)
    | 2%nat => (H b c d, ((3 * i + 5) mod 16)%nat, nth j [4; 11; 16; 23] 0)
    | _ => (I b c d, ((7 * i) mod 16)%nat, nth j [6; 10; 15; 21] 0)
    end in
  let sum := (a + f + X g + nth i K_table 0) mod 2 ^ 32 in
  mk_abcd d ((b + rotl sum s) mod 2 ^ 32) b c.
Definition compress (r : abcd) (block : bytes) : abcd :=
  let r' := foldl (operation (word block)) r (seq 0 64) in
  mk_abcd ((r_a r + r_a r') mod 2 ^ 32) ((r_b r + r_b r') mod 2 ^ 32)
    ((r_c r + r_c r') mod 2 ^ 32) ((r_d r + r_d r') mod 2 ^ 32).
Fixpoint absorb (n : nat) (r : abcd) (m : bytes) : abcd :=
  match n with O => r | S n => absorb n (compress r (take 64 m)) (drop 64 m) end.
Definition blocks (m : bytes) : nat := (length m / 64)%nat.
Definition init : abcd := mk_abcd 1732584193 4023233417 2562383102 271733878.

(** The message, a one bit, zeros up to 56 modulo 64, and the length in bits. *)
Definition padded (m : bytes) : bytes :=
  m ++ 128 :: repeat 0 (Z.to_nat ((55 - zlen m) mod 64)) ++ le_bytes 8 (8 * zlen m).
Definition md5 (m : bytes) : bytes :=
  let '(mk_abcd a b c d) := absorb (blocks (padded m)) init (padded m) in
  le_bytes 4 a ++ le_bytes 4 b ++ le_bytes 4 c ++ le_bytes 4 d.

(** The test suite of the RFC. *)
Example md5_empty : be_val (md5 []) = 281949768489412648962353822266799178366.
Proof. vm_compute. reflexivity. Qed.
Example md5_abc : be_val (md5 [97; 98; 99]) = 191415658344158766168031473277922803570.
Proof. vm_compute. reflexivity. Qed.

(** * The unrolled rounds are the loop *)

Lemma rotate_left_exact x n : 0 <= x < 2 ^ 32 -> 0 < n < 32 -> ROTATE_LEFT x n = rotl x n.
Proof.
  intros Hx Hn. unfold ROTATE_LEFT, rotl, u32. rewrite Z.shiftl_mul_pow2, Z.shiftr_div_pow2 by lia.
  assert (Hp : 2 ^ 32 = 2 ^ n * 2 ^ (32 - n)) by (rewrite <- Z.pow_add_r by lia; f_equal; lia).
  assert (0 < 2 ^ n) by (apply Z.pow_pos_nonneg; lia). assert (0 < 2 ^ (32 - n)) by (apply Z.pow_pos_nonneg; lia).
  assert (Hm : x * 2 ^ n mod 2 ^ 32 = (x mod 2 ^ (32 - n)) ≪ n).
  { rewrite Z.shiftl_mul_pow2 by lia. rewrite Hp, Z.mul_comm, Zmult_mod_distr_l. lia. }
  assert (Hd : 0 <= x / 2 ^ (32 - n) < 2 ^ n).
  { split; [apply Z.div_pos; lia|]. apply Z.div_lt_upper_bound; lia. }
  rewrite Hm. pose proof (land_low (x mod 2 ^ (32 - n)) (x / 2 ^ (32 - n)) n ltac:(lia) Hd) as Hl.
  rewrite <- Z.lxor_lor by exact Hl. symmetry. by apply Z.add_nocarry_lxor.
Qed.

Definition order_of (i : nat) : order :=
  match (i mod 4)%nat with 0%nat => ABCD | 1%nat => DABC | 2%nat => CDAB | _ => BCDA end.
Definition next (o : order) : order := match o with ABCD => DABC | DABC => CDAB | CDAB => BCDA | BCDA => ABCD end.
(** The registers as the loop has them. *)
Definition rotated (o : order) (r : abcd) : abcd := let '(a, b, c, d) := named o r in mk_abcd a b c d.

Definition round_of {A} (i : nat) (w x y z : A) : A :=
  match (i / 16)%nat with 0%nat => w | 1%nat => x | 2%nat => y | _ => z end.
Definition ref_statement (i : nat) : statement :=
  let j := (i mod 4)%nat in
  SET (round_of i F G H I) (order_of i) (round_of i i ((5 * i + 1) mod 16) ((3 * i + 5) mod 16) ((7 * i) mod 16))%nat
    (round_of i (nth j [7; 12; 17; 22] 0) (nth j [5; 9; 14; 20] 0) (nth j [4; 11; 16; 23] 0) (nth j [6; 10; 15; 21] 0))
    (nth i K_table 0).

Lemma statements_exact : round_1 ++ round_2 ++ round_3 ++ round_4 = ref_statement <$> seq 0 64.
Proof. reflexivity. Qed.

Lemma shifts_ok : Forall (fun i => 0 < s_s (ref_statement i) < 32) (seq 0 64).
Proof. apply (bool_decide_unpack _). vm_compute. exact Logic.I. Qed.

Lemma run_statement_next X r st : 0 < s_s st < 32 ->
  rotated (next (s_regs st)) (run_statement X r st) =
  let '(mk_abcd a b c d) := rotated (s_regs st) r in
  mk_abcd d ((b + rotl ((a + s_f st b c d + X (s_k st) + s_T st) mod 2 ^ 32) (s_s st)) mod 2 ^ 32) b c.
Proof.
  intros Hs. destruct r as [a b c d], st as [f o k s t]. cbn [s_s s_f s_k s_T s_regs] in *.
  unfold run_statement, rotated. cbn [s_s s_f s_k s_T s_regs].
  destruct o; cbn [named assign next]; rewrite rotate_left_exact by (try apply Z.mod_pos_bound; lia);
    unfold u32; f_equal; f_equal; lia.
Qed.

Lemma operation_exact X r i : operation X r i =
  let '(mk_abcd a b c d) := r in let st := ref_statement i in
  mk_abcd d ((b + rotl ((a + s_f st b c d + X (s_k st) + s_T st) mod 2 ^ 32) (s_s st)) mod 2 ^ 32) b c.
Proof. destruct r as [a b c d]. unfold operation, ref_statement, round_of. cbn [s_s s_f s_k s_T]. by destruct (i / 16)%nat as [|[|[|n]]]. Qed.

Lemma order_of_S i : order_of (S i) = next (order_of i).
Proof.
  unfold order_of. pose proof (Nat.mod_upper_bound i 4 ltac:(lia)) as Hb.
  rewrite <- Nat.add_1_r, Nat.Div0.add_mod. change (1 mod 4)%nat with 1%nat.
  by destruct (i mod 4)%nat as [|[|[|[|n]]]]; [..|lia].
Qed.

Lemma rounds_exact X n : forall k r,
  Forall (fun i => 0 < s_s (ref_statement i) < 32) (seq k n) ->
  rotated (order_of (k + n)) (foldl (run_statement X) r (ref_statement <$> seq k n)) =
  foldl (operation X) (rotated (order_of k) r) (seq k n).
Proof.
  induction n as [|n IH]; intros k r Hs; [by rewrite Nat.add_0_r|]. cbn [seq fmap list_fmap foldl] in *.
  apply Forall_cons in Hs as [Hk Hs]. rewrite operation_exact. pose proof (run_statement_next X r _ Hk) as Hn.
  change (s_regs (ref_statement k)) with (order_of k) in Hn. rewrite <- order_of_S in Hn. cbv zeta. rewrite <- Hn.
  rewrite <- IH by done. by rewrite Nat.add_succ_r.
Qed.

Lemma process_exact pms data : md5_process pms data = pms <| regs := compress (regs pms) data |>.
Proof.
  unfold md5_process, compress. rewrite statements_exact.
  pose proof (rounds_exact (word data) 64 0 (regs pms) shifts_ok) as Hr.
  change (order_of (0 + 64)) with ABCD in Hr. change (order_of 0) with ABCD in Hr.
  assert (Hid : forall r, rotated ABCD r = r) by by intros []. rewrite !Hid in Hr. by rewrite Hr.
Qed.

(** * Appending *)

Lemma absorb_app k : forall j r a b, length a = (64 * k)%nat -> absorb (k + j) r (a ++ b) = absorb j (absorb k r a) b.
Proof.
  induction k as [|k IH]; intros j r a b Ha; [by destruct a|]. cbn [Nat.add absorb].
  rewrite take_app_le, drop_app_le by lia. apply IH. rewrite length_drop. lia.
Qed.
Lemma absorb_S n r m : absorb (S n) r m = absorb n (compress r (take 64 m)) (drop 64 m).
Proof. done. Qed.

(** The part of the message after its full blocks. *)
Definition partial (m : bytes) : bytes := drop (64 * blocks m) m.
Lemma partial_length m : zlen (partial m) = zlen m mod 64.
Proof.
  unfold partial, blocks, zlen. rewrite length_drop. pose proof (Nat.div_mod_eq (length m) 64).
  rewrite Nat2Z.inj_sub by lia. rewrite Nat2Z.inj_mul, Nat2Z.inj_div. 
  pose proof (Z.div_mod (Z.of_nat (length m)) 64 ltac:(lia)). lia.
Qed.
Lemma blocks_partial m : m = take (64 * blocks m) m ++ partial m.
Proof. symmetry. apply take_drop. Qed.
Lemma full_length m : length (take (64 * blocks m) m) = (64 * blocks m)%nat.
Proof. rewrite length_take. unfold blocks. pose proof (Nat.div_mod_eq (length m) 64). lia. Qed.

(** Appending [l] works on the partial block before it. *)
Lemma blocks_app m l : blocks (m ++ l) = (blocks m + blocks (partial m ++ l))%nat.
Proof.
  unfold blocks at 1. rewrite (blocks_partial m) at 1. rewrite <- app_assoc, length_app, full_length.
  rewrite Nat.mul_comm, Nat.div_add_l by lia. done.
Qed.
Lemma absorb_message m l :
  absorb (blocks (m ++ l)) init (m ++ l) =
  absorb (blocks (partial m ++ l)) (absorb (blocks m) init m) (partial m ++ l).
Proof.
  assert (Hm : absorb (blocks m) init m = absorb (blocks m) init (take (64 * blocks m) m)).
  { rewrite (blocks_partial m) at 2. rewrite <- (Nat.add_0_r (blocks m)) at 1. by rewrite absorb_app by apply full_length. }
  rewrite Hm, blocks_app. rewrite <- absorb_app by apply full_length. by rewrite app_assoc, <- blocks_partial.
Qed.
Lemma partial_message m l : partial (m ++ l) = partial (partial m ++ l).
Proof.
  unfold partial at 1 2. rewrite blocks_app. rewrite (blocks_partial m) at 3.
  rewrite <- app_assoc, Nat.mul_add_distr_l. rewrite drop_app_add' by (symmetry; apply full_length). done.
Qed.

(** [full_blocks] absorbs the full blocks of what is left. *)
Lemma full_blocks_ok data n : forall pms p left,
  0 <= p -> 0 <= left -> p + left <= zlen data -> (n = Z.to_nat (left / 64)) ->
  full_blocks n pms data p left =
    Some (pms <| regs := absorb n (regs pms) (slice p left data) |>, p + 64 * (left / 64), left mod 64).
Proof.
  induction n as [|n IH]; intros pms p left Hp Hl Hb Hn; cbn [full_blocks].
  - destruct (64 <=? left) eqn:E; b2p.
    { exfalso. assert (1 <= left / 64) by (apply Z.div_le_lower_bound; lia). lia. }
    rewrite Z.div_small, Z.mod_small by lia. cbn [absorb]. do 3 f_equal; [|lia]. by destruct pms.
  - assert (1 <= left / 64) by lia.
    assert (64 <= left) by (pose proof (Z.mul_div_le left 64 ltac:(lia)); lia).
    destruct (64 <=? left) eqn:E; b2p; [|lia]. rewrite mem_read_Some by lia. cbn [mbind option_bind].
    rewrite process_exact.
    assert (Hd : (left - 64) / 64 = left / 64 - 1).
    { replace (left - 64) with (left + (-1) * 64) by lia. rewrite Z.div_add by lia. lia. }
    assert (Hm : (left - 64) mod 64 = left mod 64).
    { replace (left - 64) with (left + (-1) * 64) by lia. by rewrite Z_mod_plus_full. }
    rewrite IH by lia. rewrite Hd, Hm, absorb_S.
    assert (Hs1 : take 64 (slice p left data) = slice p 64 data)
      by (unfold slice; rewrite take_take; f_equal; lia).
    assert (Hs2 : drop 64 (slice p left data) = slice (p + 64) (left - 64) data).
    { unfold slice. rewrite List.skipn_firstn_comm, drop_drop. f_equal; [lia|]. f_equal. lia. }
    rewrite Hs1, Hs2. by replace (p + 64 + 64 * (left / 64 - 1)) with (p + 64 * (left / 64)) by lia.
Qed.

(** The state after the message [m]: the digest of its full blocks, and the rest
    of it in the buffer. *)
Record core (m : bytes) (pms : md5_state) : Prop := {
  c_buf : zlen (buf pms) = 64;
  c_regs : regs pms = absorb (blocks m) init m;
  c_partial : slice 0 (zlen m mod 64) (buf pms) = partial m
}.
Record holds (m : bytes) (pms : md5_state) : Prop := {
  h_core : core m pms;
  h_count : count0 pms = 8 * zlen m mod 2 ^ 32 /\ count1 pms = (8 * zlen m / 2 ^ 32) mod 2 ^ 32
}.

(** From the start of a block. *)
Lemma append_rest_ok m pms data p left :
  core m pms -> zlen m mod 64 = 0 -> 0 <= p -> 0 <= left -> p + left <= zlen data ->
  exists pms', append_rest pms data p left = Some pms' /\ core (m ++ slice p left data) pms' /\
    count0 pms' = count0 pms /\ count1 pms' = count1 pms.
Proof.
  intros [Hb Hr Hpa] Hm Hp Hl Hd. set (l := slice p left data).
  assert (Hll : zlen l = left) by (by apply zlen_slice).
  assert (Hpm : partial m = []) by (apply zlen_zero; by rewrite partial_length).
  assert (Hbl : blocks l = Z.to_nat (left / 64)).
  { unfold blocks. rewrite <- Hll. unfold zlen. rewrite <- (Nat2Z.id (length l / 64)), Nat2Z.inj_div. done. }
  pose proof (Z.mod_pos_bound left 64 ltac:(lia)) as Hmb. pose proof (Z.div_mod left 64 ltac:(lia)) as Hdm.
  unfold append_rest. rewrite full_blocks_ok by (lia || done). cbn [mbind option_bind]. rewrite <- Hbl. fold l.
  assert (Hregs : absorb (blocks l) (regs pms) l = absorb (blocks (m ++ l)) init (m ++ l))
    by (rewrite absorb_message, Hpm, Hr; done).
  assert (Hpart : partial (m ++ l) = slice (64 * (left / 64)) (left mod 64) l).
  { rewrite partial_message, Hpm. cbn [app]. unfold partial, slice. rewrite Hbl.
    replace (Z.to_nat (64 * (left / 64))) with (64 * Z.to_nat (left / 64))%nat by lia.
    rewrite take_ge; [done|]. rewrite length_drop. unfold zlen in Hll. lia. }
  assert (Hmod : zlen (m ++ l) mod 64 = left mod 64)
    by (rewrite zlen_app, Hll, Z.add_mod, Hm, Z.add_0_l, Z.mod_mod by lia; done).
  assert (Hlast : slice (64 * (left / 64)) (left mod 64) l = slice (p + 64 * (left / 64)) (left mod 64) data)
    by (unfold l; apply slice_slice; lia).
  destruct (left mod 64 =? 0) eqn:E; b2p; cbn [negb].
  - eexists. split; [done|]. split; [|done]. constructor; [exact Hb|exact Hregs|].
    rewrite Hmod, Hpart, E. done.
  - rewrite mem_read_Some by lia. cbn [mbind option_bind]. rewrite <- Hlast.
    assert (Hlen : zlen (slice (64 * (left / 64)) (left mod 64) l) = left mod 64) by (apply zlen_slice; lia).
    rewrite mem_write_Some by (change (buf (pms <| regs := ?x |>)) with (buf pms); lia). cbn [mbind option_bind].
    eexists. split; [done|]. split; [|done].
    change (buf (pms <| regs := ?x |>)) with (buf pms).
    constructor.
    + change (zlen (splice 0 (slice (64 * (left / 64)) (left mod 64) l) (buf pms)) = 64). rewrite zlen_splice; lia.
    + exact Hregs.
    + rewrite Hmod, Hpart. apply slice_splice_same; lia.
Qed.

Lemma land_63 x : Z.land x 63 = x mod 64.
Proof. change 63 with (Z.ones 6). by rewrite Z.land_ones. Qed.

(** The number of bits, in two words. *)
Lemma count_ok n nbytes c0 c1 : 0 <= n -> 0 <= nbytes < 2 ^ 28 ->
  c0 = 8 * n mod 2 ^ 32 -> c1 = (8 * n / 2 ^ 32) mod 2 ^ 32 ->
  let nbits := u32 (nbytes ≪ 3) in
  let c0' := u32 (c0 + nbits) in
  let c1' := u32 (c1 + (nbytes ≫ 29)) in
  c0' = 8 * (n + nbytes) mod 2 ^ 32 /\
  (if c0' <? nbits then u32 (c1' + 1) else c1') = (8 * (n + nbytes) / 2 ^ 32) mod 2 ^ 32.
Proof.
  intros Hn Hb -> ->. unfold u32. rewrite Z.shiftl_mul_pow2, Z.shiftr_div_pow2 by lia.
  change (2 ^ 3) with 8. rewrite (Z.div_small nbytes (2 ^ 29)) by lia. rewrite Z.add_0_r.
  rewrite (Z.mod_small (nbytes * 8)) by lia. cbn zeta.
  set (b := 8 * n). assert (0 <= b) by lia. replace (8 * (n + nbytes)) with (b + nbytes * 8) by lia.
  set (k := nbytes * 8). assert (0 <= k < 2 ^ 31) by lia. clearbody b k. clear n nbytes Hn Hb.
  rewrite (Z.add_mod_idemp_l b k) by lia. split; [done|].
  pose proof (Z.div_mod b (2 ^ 32) ltac:(lia)). pose proof (Z.mod_pos_bound b (2 ^ 32) ltac:(lia)).
  pose proof (Z.div_mod (b + k) (2 ^ 32) ltac:(lia)). pose proof (Z.mod_pos_bound (b + k) (2 ^ 32) ltac:(lia)).
  rewrite Z.mod_mod by lia.
  destruct (_ <? k) eqn:E; b2p.
  - replace ((b + k) / 2 ^ 32) with (b / 2 ^ 32 + 1) by nia. by rewrite Z.add_mod_idemp_l by lia.
  - f_equal. nia.
Qed.

Lemma offset_ok m pms : holds m pms -> Z.land (count0 pms ≫ 3) 63 = zlen m mod 64.
Proof.
  intros [_ [-> _]]. rewrite land_63, Z.shiftr_div_pow2 by lia. pose proof (zlen_nonneg m).
  replace (8 * zlen m mod 2 ^ 32) with (zlen m mod 2 ^ 29 * 2 ^ 3).
  2:{ change (2 ^ 32) with (8 * 2 ^ 29). rewrite Zmult_mod_distr_l. lia. }
  rewrite Z.div_mul by lia. change (2 ^ 29) with (64 * 2 ^ 23).
  rewrite Z.rem_mul_r by lia. rewrite Z.mul_comm, Z_mod_plus_full. by rewrite Z.mod_mod by lia.
Qed.

(** Filling up the partial block. *)
Lemma fill_ok m pms l b :
  core m pms -> zlen m mod 64 <> 0 -> zlen m mod 64 + zlen l <= 64 -> b = splice (zlen m mod 64) l (buf pms) ->
  (zlen m mod 64 + zlen l < 64 -> core (m ++ l) (pms <| buf := b |>)) /\
  (zlen m mod 64 + zlen l = 64 -> zlen (m ++ l) mod 64 = 0 /\ core (m ++ l) (md5_process (pms <| buf := b |>) b)).
Proof.
  intros [Hb Hr Hpa] Ho Hl ->. set (off := zlen m mod 64) in *. pose proof (zlen_nonneg l).
  pose proof (Z.mod_pos_bound (zlen m) 64 ltac:(lia)) as Hob. fold off in Hob.
  assert (Hz : zlen (splice off l (buf pms)) = 64) by (rewrite zlen_splice; lia).
  assert (Hfill : slice 0 (off + zlen l) (splice off l (buf pms)) = partial m ++ l)
    by (rewrite slice_splice_end by lia; by rewrite Hpa).
  assert (Hpl : zlen (partial m) = off) by apply partial_length.
  assert (Hmod : zlen (m ++ l) mod 64 = (off + zlen l) mod 64)
    by (rewrite zlen_app; unfold off; by rewrite Z.add_mod_idemp_l by lia).
  assert (Hlen : Z.of_nat (length (partial m ++ l)) = off + zlen l) by (rewrite length_app; unfold zlen in *; lia).
  split; intros Hc.
  - assert (Hb0 : blocks (partial m ++ l) = 0%nat) by (unfold blocks; apply Nat.div_small; lia).
    constructor; [exact Hz| |].
    + rewrite absorb_message, Hb0. exact Hr.
    + rewrite Hmod, Z.mod_small by lia. rewrite partial_message. unfold partial at 1. rewrite Hb0. exact Hfill.
  - assert (Hb1 : blocks (partial m ++ l) = 1%nat).
    { unfold blocks. replace (length (partial m ++ l)) with 64%nat by lia. done. }
    split; [by rewrite Hmod, Hc|]. rewrite process_exact. constructor; [exact Hz| |].
    + rewrite absorb_message, Hb1. cbn [absorb].
      change (regs (pms <| buf := splice off l (buf pms) |> <| regs := ?x |>)) with x.
      change (regs (pms <| buf := ?x |>)) with (regs pms). rewrite <- Hr. f_equal.
      rewrite take_ge by lia. rewrite <- Hfill, Hc, <- Hz. symmetry. apply slice_all.
    + rewrite Hmod, Hc. symmetry. apply zlen_zero. rewrite partial_length, Hmod, Hc. done.
Qed.

Lemma md5_append_ok m pms data nbytes :
  holds m pms -> 0 <= nbytes -> nbytes * 8 <= INT_MAX -> nbytes <= zlen data ->
  exists pms', md5_append pms data nbytes = Some pms' /\ holds (m ++ slice 0 nbytes data) pms'.
Proof.
  intros Hh Hn Hov Hd. pose proof (offset_ok _ _ Hh) as Hoff. destruct Hh as [Hc [H0 H1]].
  pose proof (zlen_nonneg m). assert (Hn' : nbytes < 2 ^ 28) by (unfold INT_MAX in Hov; lia).
  assert (Hm0 : zlen m mod 64 = 0 \/ zlen m mod 64 <> 0) by lia.
  pose proof (Z.mod_pos_bound (zlen m) 64 ltac:(lia)) as Hob.
  unfold md5_append. rewrite Hoff. destruct (_ || _) eqn:E; [b2p; lia|]. clear E.
  destruct (nbytes <=? 0) eqn:E; b2p.
  { replace nbytes with 0 by lia. exists pms. split; [done|]. by rewrite app_nil_r. }
  destruct (count_ok (zlen m) nbytes (count0 pms) (count1 pms) ltac:(lia) ltac:(lia) H0 H1) as [Hc0 Hc1].
  cbv zeta in *. rewrite Hc1, Hc0 in *. clear Hc0 Hc1.
  set (pms1 := pms <| count0 := _ |> <| count1 := _ |>).
  assert (Hcore : core m pms1) by (by destruct Hc).
  assert (Hls : zlen (slice 0 nbytes data) = nbytes) by (apply zlen_slice; lia).
  assert (Hdone : forall pms', core (m ++ slice 0 nbytes data) pms' ->
    count0 pms' = count0 pms1 -> count1 pms' = count1 pms1 -> holds (m ++ slice 0 nbytes data) pms').
  { intros pms' Hc' Hc0 Hc1. split; [exact Hc'|]. rewrite Hc0, Hc1, zlen_app, Hls. done. }
  destruct Hm0 as [Hm0|Hm0].
  - rewrite Hm0. cbn [Z.eqb negb].
    destruct (append_rest_ok m pms1 data 0 nbytes Hcore Hm0 ltac:(lia) ltac:(lia) ltac:(lia)) as (pms' & Hr & Hc' & Ha & Hb).
    exists pms'. auto.
  - destruct (zlen m mod 64 =? 0) eqn:E0; b2p; [done|]. cbn [negb].
    set (copy := if 64 <? _ then _ else _).
    assert (Hcopy : 0 < copy <= nbytes /\ zlen m mod 64 + copy <= 64 /\ (zlen m mod 64 + copy < 64 -> copy = nbytes))
      by (unfold copy; destruct (64 <? _) eqn:E1; b2p; lia).
    destruct Hcopy as (Hcp & Hcp64 & Hcpn). rewrite mem_read_Some by lia. cbn [mbind option_bind].
    assert (Hlc : zlen (slice 0 copy data) = copy) by (apply zlen_slice; lia).
    rewrite mem_write_Some by (rewrite ?Hlc, ?(c_buf _ _ Hcore); lia). cbn [mbind option_bind].
    destruct (fill_ok m pms1 (slice 0 copy data) _ Hcore Hm0 ltac:(lia) eq_refl) as [Hf1 Hf2].
    rewrite Hlc in *. destruct (_ <? 64) eqn:E1; b2p.
    + eexists. split; [done|]. apply Hdone; [|done|done]. rewrite <- (Hcpn ltac:(lia)). apply Hf1. lia.
    + destruct (Hf2 ltac:(lia)) as [Hmod Hc2]. set (pms2 := md5_process _ _) in *.
      destruct (append_rest_ok (m ++ slice 0 copy data) pms2 data copy (nbytes - copy) Hc2 Hmod ltac:(lia) ltac:(lia) ltac:(lia))
        as (pms' & Hr & Hc' & Ha & Hb).
      exists pms'. split; [exact Hr|]. rewrite <- app_assoc in Hc'.
      assert (Hsp : slice 0 copy data ++ slice copy (nbytes - copy) data = slice 0 nbytes data)
        by (symmetry; apply slice_split_at; lia).
      rewrite Hsp in Hc'. by apply Hdone.
Qed.

(** * The digest *)

Lemma le_bytes_mod n x : le_bytes n (x mod 256 ^ Z.of_nat n) = le_bytes n x.
Proof.
  rewrite <- le_val_bytes. rewrite <- (length_le_bytes n x) at 1. apply le_bytes_val, le_bytes_ok.
Qed.
Lemma le_bytes_app n k : forall x, le_bytes (n + k) x = le_bytes n x ++ le_bytes k (x / 256 ^ Z.of_nat n).
Proof.
  induction n as [|n IH]; intros x; [by rewrite Z.div_1_r|]. change (x mod 256 :: le_bytes (n + k) (x / 256) = x mod 256 :: (le_bytes n (x / 256) ++ le_bytes k (x / 256 ^ Z.of_nat (S n)))).
  f_equal. rewrite IH. rewrite Nat2Z.inj_succ, Z.pow_succ_r by lia. by rewrite Z.div_div by lia.
Qed.
Lemma array_bytes_4 ws : array_bytes ws = concat (le_bytes 4 <$> ws).
Proof. unfold array_bytes. f_equal. apply list_fmap_ext. intros i x _. apply shift_bytes_le. Qed.
Lemma length_bytes m pms : holds m pms -> array_bytes [count0 pms; count1 pms] = le_bytes 8 (8 * zlen m).
Proof.
  intros [_ [H0 H1]]. rewrite array_bytes_4. cbn [fmap list_fmap concat]. rewrite app_nil_r.
  change 8%nat with (4 + 4)%nat. rewrite le_bytes_app, H0, H1. change (256 ^ Z.of_nat 4) with (2 ^ 32).
  change (2 ^ 32) with (256 ^ Z.of_nat 4). by rewrite !le_bytes_mod.
Qed.

Lemma padding_ok m pms : holds m pms ->
  Z.land (u32 (55 - (count0 pms ≫ 3))) 63 + 1 = (55 - zlen m) mod 64 + 1.
Proof.
  intros Hh. pose proof (offset_ok _ _ Hh) as Ho. rewrite land_63 in Ho. f_equal. rewrite land_63.
  unfold u32. change (2 ^ 32) with (64 * 2 ^ 26). rewrite Z.rem_mul_r by lia.
  rewrite (Z.mul_comm 64), Z_mod_plus_full, Z.mod_mod by lia. by rewrite Zminus_mod, Ho, <- Zminus_mod.
Qed.
Lemma pad_slice k : 0 <= k < 64 -> slice 0 (k + 1) pad = 128 :: repeat 0 (Z.to_nat k).
Proof.
  intros Hk. unfold slice, pad. rewrite drop_0. replace (Z.to_nat (k + 1)) with (S (Z.to_nat k)) by lia.
  cbn [take]. f_equal. replace 63%nat with (Z.to_nat k + (63 - Z.to_nat k))%nat by lia.
  rewrite repeat_app. apply take_app_length'. by rewrite repeat_length.
Qed.

Lemma md5_finish_ok m pms : holds m pms -> exists pms', md5_finish pms = Some (pms', md5 m).
Proof.
  intros Hh. unfold md5_finish. rewrite (length_bytes m pms Hh), (padding_ok m pms Hh).
  pose proof (Z.mod_pos_bound (55 - zlen m) 64 ltac:(lia)) as Hk. set (k := (55 - zlen m) mod 64) in *.
  destruct (md5_append_ok m pms pad (k + 1) Hh) as (p1 & -> & Hh1); [lia|unfold INT_MAX; lia|change (zlen pad) with 64; lia|].
  cbn [mbind option_bind].
  destruct (md5_append_ok _ p1 (le_bytes 8 (8 * zlen m)) 8 Hh1) as (p2 & -> & Hh2); [lia|by vm_compute|by rewrite zlen_le_bytes|].
  cbn [mbind option_bind]. rewrite pad_slice in Hh2 by done.
  assert (Hl : slice 0 8 (le_bytes 8 (8 * zlen m)) = le_bytes 8 (8 * zlen m))
    by (rewrite <- (zlen_le_bytes 8 (8 * zlen m)) at 1; apply slice_all).
  rewrite Hl, <- app_assoc in Hh2. change ((128 :: repeat 0 (Z.to_nat k)) ++ ?l) with (128 :: repeat 0 (Z.to_nat k) ++ l) in Hh2.
  unfold k in Hh2. fold (padded m) in Hh2. eexists. f_equal. f_equal. unfold md5. rewrite array_bytes_4, (c_regs _ _ (h_core _ _ Hh2)).
  destruct (absorb _ _ _) as [a b c d]. cbn [r_a r_b r_c r_d fmap list_fmap concat]. by rewrite app_nil_r.
Qed.

Lemma md5_init_holds old : zlen old = 64 -> holds [] (md5_init old).
Proof. intros Ho. split; [|done]. by constructor. Qed.

(** Successive calls of [md5_append]. *)
Fixpoint append_parts (pms : md5_state) (parts : list bytes) : option md5_state :=
  match parts with
  | [] => Some pms
  | l :: parts => pms ← md5_append pms l (zlen l); append_parts pms parts
  end.
Definition short (l : bytes) : Prop := zlen l * 8 <= INT_MAX.

Lemma append_parts_ok parts : forall m pms, holds m pms -> Forall short parts ->
  exists pms', append_parts pms parts = Some pms' /\ holds (m ++ concat parts) pms'.
Proof.
  induction parts as [|l parts IH]; intros m pms Hh Hs; cbn [append_parts concat].
  { exists pms. by rewrite app_nil_r. }
  apply Forall_cons in Hs as [Hl Hs]. pose proof (zlen_nonneg l).
  destruct (md5_append_ok m pms l (zlen l) Hh ltac:(lia) Hl ltac:(lia)) as (p1 & -> & Hh1). cbn [mbind option_bind].
  rewrite slice_all in Hh1. destruct (IH _ _ Hh1 Hs) as (p2 & -> & Hh2). exists p2. by rewrite app_assoc.
Qed.
Definition digest_of (old : bytes) (parts : list bytes) : option bytes :=
  pms ← append_parts (md5_init old) parts;
  '(_, digest) ← md5_finish pms;
  Some digest.

Lemma digest_of_ok (old : bytes) (parts : list bytes) :
  zlen old = 64 -> Forall short parts -> digest_of old parts = Some (md5 (concat parts)).
Proof.
  intros Ho Hs. unfold digest_of.
  destruct (append_parts_ok parts [] _ (md5_init_holds old Ho) Hs) as (pms & -> & Hh). cbn [mbind option_bind].
  destruct (md5_finish_ok _ _ Hh) as (pms' & ->). done.
Qed.

(** C34: Hashing a message in pieces gives its MD5 digest as RFC 1321 defines it: the
    64 unrolled statements are the loop of the RFC, in which a table gives the
    constants, the padding and the 64-bit length are right for every length, and
    the result does not depend on how the message is cut into calls of
    [md5_append], which stay inside their buffers.  A call can take
    at most 2^28 - 1 bytes. *)
Theorem md5_correct (old : bytes) (parts : list bytes) :
  zlen old = 64 -> Forall short parts -> digest_of old parts = Some (md5 (concat parts)).
Proof. apply digest_of_ok. Qed.

(** "message digest" in two pieces, and 70 bytes after 60. *)
Lemma md5_correct_witness :
  option_map be_val (digest_of (repeat 7 64) [[109; 101; 115; 115; 97]; [103; 101; 32; 100; 105; 103; 101; 115; 116]]) =
    Some 331535486309434048055371704012530344400 /\
  digest_of (repeat 7 64) [repeat 65 60; repeat 66 70] = Some (md5 (repeat 65 60 ++ repeat 66 70)).
Proof.
  split; [vm_compute; reflexivity|].
  apply (md5_correct (repeat 7 64) [repeat 65 60; repeat 66 70]); [reflexivity|].
  repeat constructor; vm_compute; congruence.
Defined.
End Md5.
