(* ===== verification/Base64.v ===== *)
(** Base64, for the credentials of HTTP basic authentication: [redsocks/base64.c].

    Buffers are byte lists with checked accesses, a pointer into one is an
    offset. *)

From S2P Require Import Prelude.

Module Base64.

Definition map2 : list Z :=
  [62; 255; 255; 255; 63; 52; 53; 54; 55; 56; 57; 58; 59; 60; 61; 255;
   255; 255; 255; 255; 255; 255; 0; 1; 2; 3; 4; 5; 6; 7; 8; 9;
   10; 11; 12; 13; 14; 15; 16; 17; 18; 19; 20; 21; 22; 23; 24; 25;
   255; 255; 255; 255; 255; 255; 26; 27; 28; 29; 30; 31; 32; 33; 34; 35;
   36; 37; 38; 39; 40; 41; 42; 43; 44; 45; 46; 47; 48; 49; 50; 51].
Definition b64 : bytes :=
  [65; 66; 67; 68; 69; 70; 71; 72; 73; 74; 75; 76; 77; 78; 79; 80;
   81; 82; 83; 84; 85; 86; 87; 88; 89; 90; 97; 98; 99; 100; 101; 102;
   103; 104; 105; 106; 107; 108; 109; 110; 111; 112; 113; 114; 115; 116; 117; 118;
   119; 120; 121; 122; 48; 49; 50; 51; 52; 53; 54; 55; 56; 57; 43; 47].

Definition UINT_MAX : Z := 2 ^ 32 - 1.
Definition BASE64_SIZE (x : Z) : Z := (x + 2) / 3 * 4 + 1.

(** A signed 32-bit integer.  [v << 6] leaves its range after six characters,
    which C does not define; compilers keep the low 32 bits, as here. *)
Definition int32 (x : Z) : Z := (x + 2 ^ 31) mod 2 ^ 32 - 2 ^ 31.

(** ** Decoding *)

(** The loop, on the rest of the input: [None] if it has no NUL.  The result is
    the buffer with the number of bytes written, [None] for -1. *)
Fixpoint decode_loop (input : bytes) (i v dst : Z) (out : bytes) (out_size : Z) : option (option (bytes * Z)) :=
  match input with
  | [] => None
  | ch :: input =>
      if (ch =? 0) || (ch =? 61) then Some (Some (out, dst))
      else
        let index := u32 (ch - 43) in
        if (zlen map2 <=? index) || (nth (Z.to_nat index) map2 0 =? 255) then Some None
        else
          let v := int32 (int32 (v ≪ 6) + nth (Z.to_nat index) map2 0) in
          if negb (Z.land i 3 =? 0) && (dst <? out_size) then
            out ← mem_write dst [u8 (v ≫ (6 - 2 * Z.land i 3))] out;
            decode_loop input (i + 1) v (dst + 1) out out_size
          else decode_loop input (i + 1) v dst out out_size
  end.
Definition base64_decode (out : bytes) (input : bytes) (out_size : Z) : option (option (bytes * Z)) :=
  decode_loop input 0 0 0 out out_size.

(** ** Encoding *)

(** The inner loop, with a bound on its rounds; [no_more] is
    [bytes_remaining == 0]. *)
Fixpoint put_chars (rounds : nat) (no_more : bool) (i_bits i_shift : Z) (out : bytes) (dst : Z) : option (bytes * Z * Z) :=
  match rounds with
  | O => None
  | S rounds =>
      out ← mem_write dst [nth (Z.to_nat (Z.land (u32 (i_bits ≪ 6) ≫ i_shift) 63)) b64 0] out;
      let i_shift := i_shift - 6 in
      if (6 <? i_shift) || (no_more && (0 <? i_shift)) then put_chars rounds no_more i_bits i_shift out (dst + 1)
      else Some (out, dst + 1, i_shift)
  end.
Fixpoint encode_loop (input : bytes) (i_bits i_shift : Z) (out : bytes) (dst : Z) : option (bytes * Z) :=
  match input with
  | [] => Some (out, dst)
  | b :: input =>
      let i_bits := u32 (u32 (i_bits ≪ 8) + b) in
      '(out, dst, i_shift) ← put_chars 3 (match input with [] => true | _ => false end) i_bits (i_shift + 8) out dst;
      encode_loop input i_bits i_shift out dst
  end.
Fixpoint pad_loop (rounds : nat) (out : bytes) (dst : Z) : option (bytes * Z) :=
  if negb (Z.land dst 3 =? 0) then
    match rounds with
    | O => None
    | S rounds => out ← mem_write dst [61] out; pad_loop rounds out (dst + 1)
    end
  else Some (out, dst).
(** [Some None] is NULL. *)
Definition base64_encode (out : bytes) (out_size : Z) (input : bytes) (in_size : Z) : option (option bytes) :=
  (* the comparison is unsigned *)
  if (UINT_MAX / 4 <=? u32 in_size) || (out_size <? BASE64_SIZE in_size) then Some None
  else
    input ← mem_read 0 in_size input;
    '(out, dst) ← encode_loop input 0 0 out 0;
    '(out, dst) ← pad_loop 3 out dst;
    out ← mem_write dst [0] out;
    Some (Some out).

(** * RFC 4648 *)

Definition digit (x : Z) : Z := nth (Z.to_nat x) b64 0.
Fixpoint base64 (l : bytes) : bytes :=
  match l with
  | [] => []
  | [a] => [digit (a / 4); digit (a mod 4 * 16); 61; 61]
  | [a; b] => [digit (a / 4); digit (a mod 4 * 16 + b / 16); digit (b mod 16 * 4); 61]
  | a :: b :: c :: l =>
      digit (a / 4) :: digit (a mod 4 * 16 + b / 16) :: digit (b mod 16 * 4 + c / 64) :: digit (c mod 64) :: base64 l
  end.

Example base64_foobar : base64 [102; 111; 111; 98; 97] = [90; 109; 57; 118; 89; 109; 69; 61].
Proof. reflexivity. Qed.
Example encode_foobar :
  base64_encode (repeat 7 10) 10 [102; 111; 111; 98; 97] 5 = Some (Some [90; 109; 57; 118; 89; 109; 69; 61; 0; 7]).
Proof. vm_compute. reflexivity. Qed.
Example decode_foobar :
  base64_decode (repeat 7 6) [90; 109; 57; 118; 89; 109; 69; 61; 0; 7] 6 = Some (Some ([102; 111; 111; 98; 97; 7], 5)).
Proof. vm_compute. reflexivity. Qed.

(** * The encoder *)

(** Groups of three bytes. *)
Lemma group_ind (P : bytes -> Prop) :
  P [] -> (forall a, P [a]) -> (forall a b, P [a; b]) -> (forall a b c l, P l -> P (a :: b :: c :: l)) -> forall l, P l.
Proof.
  intros H0 H1 H2 H3. fix IH 1. intros [|a [|b [|c l]]]; [exact H0|apply H1|apply H2|apply H3, IH].
Qed.

(** The characters without the padding. *)
Fixpoint chars (l : bytes) : bytes :=
  match l with
  | [] => []
  | [a] => [digit (a / 4); digit (a mod 4 * 16)]
  | [a; b] => [digit (a / 4); digit (a mod 4 * 16 + b / 16); digit (b mod 16 * 4)]
  | a :: b :: c :: l =>
      digit (a / 4) :: digit (a mod 4 * 16 + b / 16) :: digit (b mod 16 * 4 + c / 64) :: digit (c mod 64) :: chars l
  end.
Lemma base64_chars l : base64 l = chars l ++ repeat 61 (Z.to_nat (- zlen l mod 3) ) /\
  zlen (chars l) = (4 * zlen l + 2) / 3 /\ zlen (base64 l) = (zlen l + 2) / 3 * 4.
Proof.
  induction l as [|a|a b|a b c l (IH1 & IH2 & IH3)] using group_ind; try (vm_compute; split_and!; reflexivity).
  cbn [base64 chars app]. rewrite IH1 at 1. rewrite !zlen_cons, IH2, IH3.
  split; [|split; Z.to_euclidean_division_equations; lia].
  do 4 f_equal. f_equal. f_equal. f_equal. Z.to_euclidean_division_equations; lia.
Qed.

Lemma i_bits_step X a : u32 (u32 (u32 X ≪ 8) + a) = u32 (256 * X + a).
Proof.
  unfold u32. rewrite Z.shiftl_mul_pow2 by lia. change (2 ^ 8) with 256.
  rewrite Z.add_mod_idemp_l, (Z.mul_comm _ 256), <- Z.add_mod_idemp_l, Z.mul_mod_idemp_r, Z.add_mod_idemp_l by lia. done.
Qed.
Lemma char_exact X s : 0 <= X -> 0 <= s <= 14 ->
  Z.land (u32 (u32 X ≪ 6) ≫ s) 63 = X * 64 / 2 ^ s mod 64.
Proof.
  intros HX Hs. change 63 with (Z.ones 6). rewrite Z.land_ones by lia. unfold u32.
  rewrite Z.shiftl_mul_pow2, Z.shiftr_div_pow2 by lia. change (2 ^ 6) with 64.
  rewrite Z.mul_mod_idemp_l by lia. assert (0 < 2 ^ s) by (apply Z.pow_pos_nonneg; lia).
  rewrite (Z.div_mod (X * 64) (2 ^ 32)) at 2 by lia.
  replace (2 ^ 32) with (2 ^ s * (64 * 2 ^ (26 - s))) at 2.
  2:{ change 64 with (2 ^ 6). rewrite <- !Z.pow_add_r by lia. f_equal. lia. }
  rewrite <- !Z.mul_assoc, (Z.mul_comm (2 ^ s)), Z.div_add_l by lia.
  rewrite (Z.mul_comm 64), Z.add_comm. by rewrite Z_mod_plus_full.
Qed.

Section encoder.
Context (out0 : bytes).

(** The buffer after [w] was written. *)
Definition wrote (w : bytes) : bytes := splice 0 w out0.
Lemma write_next w c : zlen w < zlen out0 -> mem_write (zlen w) [c] (wrote w) = Some (wrote (w ++ [c])).
Proof.
  intros Hw. pose proof (zlen_nonneg w). unfold wrote. rewrite mem_write_Some; rewrite ?zlen_splice; change (zlen [c]) with 1; try lia.
  f_equal. unfold splice. rewrite Z2Nat.inj_0, !take_0. cbn [app].
  assert (Hl : Z.to_nat (zlen w) = length w) by (unfold zlen; lia).
  rewrite Hl, take_app_length' by done. rewrite <- !app_assoc. f_equal. f_equal.
  rewrite drop_app_ge by (unfold zlen; cbn; lia). rewrite drop_drop. f_equal.
  rewrite zlen_app. unfold zlen. cbn [length]. lia.
Qed.
Lemma put_char no_more X s w rounds : 0 <= X -> 0 <= s <= 14 -> zlen w < zlen out0 ->
  put_chars (S rounds) no_more (u32 X) s (wrote w) (zlen w) =
  let w' := w ++ [digit (X * 64 / 2 ^ s mod 64)] in
  if (6 <? s - 6) || (no_more && (0 <? s - 6)) then put_chars rounds no_more (u32 X) (s - 6) (wrote w') (zlen w')
  else Some (wrote w', zlen w', s - 6).
Proof.
  intros HX Hs Hw. cbn [put_chars]. rewrite char_exact by done. fold (digit (X * 64 / 2 ^ s mod 64)).
  rewrite write_next by done. cbn [mbind option_bind]. rewrite zlen_app. done.
Qed.

(** What the loops write, as a list. *)
Fixpoint emit (rounds : nat) (no_more : bool) (X s : Z) : option (bytes * Z) :=
  match rounds with
  | O => None
  | S rounds =>
      let c := digit (X * 64 / 2 ^ s mod 64) in
      if (6 <? s - 6) || (no_more && (0 <? s - 6)) then
        '(cs, s') ← emit rounds no_more X (s - 6); Some (c :: cs, s')
      else Some ([c], s - 6)
  end.
Fixpoint enc (l : bytes) (X s : Z) : option bytes :=
  match l with
  | [] => Some []
  | a :: l =>
      '(cs, s') ← emit 3 (match l with [] => true | _ => false end) (256 * X + a) (s + 8);
      cs' ← enc l (256 * X + a) s';
      Some (cs ++ cs')
  end.

Lemma put_chars_emit no_more X : forall rounds s w cs s', 0 <= X -> 0 <= s <= 14 ->
  emit rounds no_more X s = Some (cs, s') -> zlen (w ++ cs) <= zlen out0 ->
  put_chars rounds no_more (u32 X) s (wrote w) (zlen w) = Some (wrote (w ++ cs), zlen (w ++ cs), s').
Proof.
  induction rounds as [|rounds IH]; intros s w cs s' HX Hs He Hl; [done|]. cbn [emit] in He.
  assert (Hc : exists r, cs = digit (X * 64 / 2 ^ s mod 64) :: r).
  { destruct (_ || _); [|injection He as <- _; by eexists]. destruct (emit rounds _ _ _) as [[cs1 s1]|]; [|done].
    injection He as <- _. by eexists. }
  destruct Hc as [r ->]. rewrite zlen_app, zlen_cons in Hl. pose proof (zlen_nonneg r). pose proof (zlen_nonneg w).
  rewrite put_char by lia. cbv zeta. destruct (_ || _) eqn:E.
  - destruct (emit rounds no_more X (s - 6)) as [[cs1 s1]|] eqn:E1; [|done]. injection He as <- <-.
    assert (6 <= s) by (destruct no_more; b2p; lia).
    rewrite (IH (s - 6) _ cs1 s1) by (rewrite ?zlen_app, ?zlen_cons, ?zlen_nil; lia || done). by rewrite <- app_assoc.
  - by injection He as <- <-.
Qed.
Lemma emit_shift X : forall rounds s cs s', 6 < s -> emit rounds false X s = Some (cs, s') -> 0 < s' <= 6.
Proof.
  induction rounds as [|rounds IH]; intros s cs s' Hs He; [done|]. cbn [emit andb] in He. rewrite orb_false_r in He.
  destruct (6 <? s - 6) eqn:E; b2p; [|injection He as _ <-; lia].
  destruct (emit rounds false X (s - 6)) as [[cs1 s1]|] eqn:E1; [|done]. injection He as _ <-. by eapply IH.
Qed.
Lemma encode_loop_enc l : forall X s w cs, bytes_ok l -> 0 <= X -> 0 <= s <= 6 -> enc l X s = Some cs ->
  zlen (w ++ cs) <= zlen out0 ->
  encode_loop l (u32 X) s (wrote w) (zlen w) = Some (wrote (w ++ cs), zlen (w ++ cs)).
Proof.
  induction l as [|a l IH]; intros X s w cs Hb HX Hs He Hl; cbn [enc encode_loop] in *.
  - injection He as <-. by rewrite app_nil_r.
  - apply Forall_cons in Hb as [Ha Hb]. unfold byte_ok in Ha. rewrite i_bits_step.
    destruct (emit _ _ _ _) as [[cs1 s1]|] eqn:E1; [|done]. cbn [mbind option_bind] in He.
    destruct (enc l _ s1) as [cs2|] eqn:E2; [|done]. injection He as <-.
    rewrite !zlen_app in Hl. pose proof (zlen_nonneg cs2).
    rewrite (put_chars_emit _ (256 * X + a) 3 (s + 8) w cs1 s1) by (rewrite ?zlen_app; lia || done). cbn [mbind option_bind].
    destruct l as [|b l].
    { injection E2 as <-. cbn. by rewrite app_nil_r. }
    apply emit_shift in E1; [|lia]. rewrite app_assoc. apply IH; [done|lia|lia|done|]. rewrite !zlen_app. lia.
Qed.

(** Between bytes the last six bits may still have to be written. *)
Definition pending (s : Z) (X : Z) : bytes := if s =? 6 then [digit (X mod 64)] else [].

Definition D (X s : Z) : Z := digit (X * 64 / 2 ^ s mod 64).
Lemma emit_8 X : emit 3 false X 8 = Some ([D X 8], 2). Proof. reflexivity. Qed.
Lemma emit_10 X : emit 3 false X 10 = Some ([D X 10], 4). Proof. reflexivity. Qed.
Lemma emit_12 X : emit 3 false X 12 = Some ([D X 12], 6). Proof. reflexivity. Qed.
Lemma emit_14 X : emit 3 false X 14 = Some ([D X 14; D X 8], 2). Proof. reflexivity. Qed.
Lemma last_8 X : emit 3 true X 8 = Some ([D X 8; D X 2], -4). Proof. reflexivity. Qed.
Lemma last_10 X : emit 3 true X 10 = Some ([D X 10; D X 4], -2). Proof. reflexivity. Qed.
Lemma last_12 X : emit 3 true X 12 = Some ([D X 12; D X 6], 0). Proof. reflexivity. Qed.
Lemma last_14 X : emit 3 true X 14 = Some ([D X 14; D X 8; D X 2], -4). Proof. reflexivity. Qed.

(** The digits are those of the bytes, whatever came before. *)
Lemma D_byte X a x : 0 <= a < 256 ->
  (x = X mod 64 -> D (256 * X + a) 14 = digit x) /\
  (x = a / 4 -> D (256 * X + a) 8 = digit x) /\
  (x = a mod 4 * 16 -> D (256 * X + a) 2 = digit x).
Proof. intros Ha. unfold D. split_and!; intros ->; f_equal; Z.to_euclidean_division_equations; lia. Qed.
Lemma D_byte2 X a b x : 0 <= a < 256 -> 0 <= b < 256 ->
  (x = a mod 4 * 16 + b / 16 -> D (256 * (256 * X + a) + b) 10 = digit x) /\
  (x = b mod 16 * 4 -> D (256 * (256 * X + a) + b) 4 = digit x).
Proof. intros Ha Hb. unfold D. split_and!; intros ->; f_equal; Z.to_euclidean_division_equations; lia. Qed.
Lemma D_byte3 X b c x : 0 <= b < 256 -> 0 <= c < 256 ->
  (x = b mod 16 * 4 + c / 64 -> D (256 * (256 * X + b) + c) 12 = digit x) /\
  (x = c mod 64 -> D (256 * (256 * X + b) + c) 6 = digit x).
Proof. intros Ha Hb. unfold D. split_and!; intros ->; f_equal; Z.to_euclidean_division_equations; lia. Qed.

Lemma enc_exact l : forall X s, bytes_ok l -> l <> [] -> 0 <= X -> s = 0 \/ s = 6 ->
  enc l X s = Some (pending s X ++ chars l).
Proof.
  assert (Hfirst : forall X s a, 0 <= a < 256 -> s = 0 \/ s = 6 ->
    emit 3 false (256 * X + a) (s + 8) = Some (pending s X ++ [digit (a / 4)], 2) /\
    emit 3 true (256 * X + a) (s + 8) = Some (pending s X ++ [digit (a / 4); digit (a mod 4 * 16)], -4)).
  { intros X s a Ha [-> | ->].
    - change (0 + 8) with 8. rewrite emit_8, last_8. destruct (D_byte X a (a / 4) Ha) as (_ & -> & _); [|done].
      by destruct (D_byte X a (a mod 4 * 16) Ha) as (_ & _ & ->).
    - change (6 + 8) with 14. rewrite emit_14, last_14. destruct (D_byte X a (a / 4) Ha) as (_ & -> & _); [|done].
      destruct (D_byte X a (X mod 64) Ha) as (-> & _ & _); [|done].
      by destruct (D_byte X a (a mod 4 * 16) Ha) as (_ & _ & ->). }
  induction l as [|a|a b|a b c l IH] using group_ind; intros X s Hb Hne HX Hs; [done|..];
    unfold bytes_ok in Hb; repeat (apply Forall_cons in Hb as [? Hb]); unfold byte_ok in *;
    cbn [enc]; destruct (Hfirst X s a ltac:(lia) Hs) as [Hf1 Hf2]; rewrite ?Hf1, ?Hf2; cbn [mbind option_bind chars].
  - by rewrite app_nil_r.
  - change (2 + 8) with 10. rewrite last_10. cbn [mbind option_bind].
    destruct (D_byte2 X a b (a mod 4 * 16 + b / 16)) as [-> _]; [lia|lia| |done].
    destruct (D_byte2 X a b (b mod 16 * 4)) as [_ ->]; [lia|lia| |done]. by rewrite app_nil_r, <- app_assoc.
  - change (2 + 8) with 10. rewrite emit_10. cbn [mbind option_bind]. change (4 + 8) with 12.
    destruct (D_byte2 X a b (a mod 4 * 16 + b / 16)) as [-> _]; [lia|lia| |done].
    destruct (D_byte3 (256 * X + a) b c (b mod 16 * 4 + c / 64)) as [Hd1 _]; [lia|lia|].
    destruct (D_byte3 (256 * X + a) b c (c mod 64)) as [_ Hd2]; [lia|lia|].
    destruct l as [|d l].
    + rewrite last_12, Hd1, Hd2 by done. cbn [mbind option_bind enc chars]. by rewrite app_nil_r, <- app_assoc.
    + rewrite emit_12, Hd1 by done. cbn [mbind option_bind]. rewrite IH by (done || lia || by right).
      cbn [mbind option_bind]. unfold pending at 2. cbn [Z.eqb Pos.eqb]. rewrite <- !app_assoc. cbn [app].
      by replace ((256 * (256 * (256 * X + a) + b) + c) mod 64) with (c mod 64) by (Z.to_euclidean_division_equations; lia).
Qed.

Lemma land_3 x : Z.land x 3 = x mod 4.
Proof. change 3 with (Z.ones 2). by rewrite Z.land_ones. Qed.
Lemma pad_loop_ok k : forall rounds w, (k <= rounds)%nat -> (k < 4)%nat -> (zlen w + Z.of_nat k) mod 4 = 0 ->
  zlen w + Z.of_nat k <= zlen out0 ->
  pad_loop rounds (wrote w) (zlen w) = Some (wrote (w ++ repeat 61 k), zlen (w ++ repeat 61 k)).
Proof.
  induction k as [|k IH]; intros rounds w Hr Hk Hm Hl.
  - rewrite Z.add_0_r in Hm. destruct rounds; cbn [pad_loop]; rewrite land_3, Hm; by rewrite app_nil_r.
  - destruct rounds as [|rounds]; [lia|]. cbn [pad_loop]. rewrite land_3.
    destruct (zlen w mod 4 =? 0) eqn:E; [b2p; Z.to_euclidean_division_equations; lia|]. cbn [negb].
    rewrite write_next by lia. cbn [mbind option_bind].
    assert (Hw : zlen (w ++ [61]) = zlen w + 1) by by rewrite zlen_app. rewrite <- Hw.
    rewrite IH by (rewrite ?Hw; lia || (rewrite <- Hm; f_equal; lia)). by rewrite <- app_assoc.
Qed.

(** ** The decoder *)

Definition digit_okb (x : Z) : bool :=
  let ch := digit x in
  (0 <? ch) && (ch <? 128) && negb (ch =? 61) && negb (zlen map2 <=? u32 (ch - 43)) &&
  (nth (Z.to_nat (u32 (ch - 43))) map2 0 =? x).
Lemma map2_digits : forallb (fun n => digit_okb (Z.of_nat n)) (seq 0 64) = true.
Proof. vm_compute. reflexivity. Qed.
(** [map2] is the inverse of [b64]. *)
Lemma digit_ok x : 0 <= x < 64 -> let ch := digit x in
  0 < ch < 128 /\ ch <> 61 /\ zlen map2 <=? u32 (ch - 43) = false /\ nth (Z.to_nat (u32 (ch - 43))) map2 0 = x.
Proof.
  intros Hx ch. pose proof map2_digits as Hm. rewrite forallb_forall in Hm.
  specialize (Hm (Z.to_nat x)). rewrite in_seq, Z2Nat.id in Hm by lia. specialize (Hm ltac:(lia)).
  unfold digit_okb in Hm. fold ch in Hm.
  rewrite !andb_true_iff, !negb_true_iff, !Z.ltb_lt, Z.eqb_neq, Z.eqb_eq in Hm. tauto.
Qed.

Lemma int32_congr x y : x mod 2 ^ 32 = y mod 2 ^ 32 -> int32 x = int32 y.
Proof. intros He. unfold int32. by rewrite <- (Z.add_mod_idemp_l x), He, Z.add_mod_idemp_l. Qed.
Lemma int32_mod x : int32 x mod 2 ^ 32 = x mod 2 ^ 32.
Proof. unfold int32. rewrite Zminus_mod_idemp_l. f_equal. lia. Qed.
Lemma int32_step V x : int32 (int32 (int32 V ≪ 6) + x) = int32 (64 * V + x).
Proof.
  apply int32_congr. rewrite Z.shiftl_mul_pow2 by lia. change (2 ^ 6) with 64.
  rewrite <- Z.add_mod_idemp_l, int32_mod, <- Z.mul_mod_idemp_l, int32_mod by lia.
  rewrite Z.mul_mod_idemp_l, Z.add_mod_idemp_l by lia. f_equal. lia.
Qed.
Lemma int32_byte V k : 0 <= k <= 4 -> u8 (int32 V ≫ k) = V / 2 ^ k mod 256.
Proof.
  intros Hk. unfold u8. rewrite Z.shiftr_div_pow2 by lia. change (2 ^ 8) with 256.
  assert (Hm : forall y, y / 2 ^ k mod 256 = (y mod 2 ^ 32 / 2 ^ k) mod 256).
  { intros y. assert (0 < 2 ^ k) by (apply Z.pow_pos_nonneg; lia).
    rewrite (Z.div_mod y (2 ^ 32)) at 1 by lia. replace (2 ^ 32) with (2 ^ k * (256 * 2 ^ (24 - k))) at 1.
    2:{ change 256 with (2 ^ 8). rewrite <- !Z.pow_add_r by lia. f_equal. lia. }
    rewrite <- !Z.mul_assoc, (Z.mul_comm (2 ^ k)), Z.div_add_l by lia.
    rewrite (Z.mul_comm 256), Z.add_comm. by rewrite Z_mod_plus_full. }
  rewrite Hm, int32_mod. symmetry. apply Hm.
Qed.

Lemma decode_digit x input i V w size : 0 <= x < 64 -> zlen w < zlen out0 -> zlen w < size ->
  decode_loop (digit x :: input) i (int32 V) (zlen w) (wrote w) size =
  let w' := if i mod 4 =? 0 then w else w ++ [(64 * V + x) / 2 ^ (6 - 2 * (i mod 4)) mod 256] in
  decode_loop input (i + 1) (int32 (64 * V + x)) (zlen w') (wrote w') size.
Proof.
  intros Hx Hw Hs. destruct (digit_ok x Hx) as (Hc1 & Hc2 & Hc3 & Hc4). cbn [decode_loop].
  destruct (_ || _) eqn:E; [rewrite orb_true_iff, !Z.eqb_eq in E; lia|]. clear E.
  rewrite Hc3, Hc4. destruct (x =? 255) eqn:E; [b2p; lia|]. cbn [orb]. clear E.
  rewrite int32_step, land_3. pose proof (Z.mod_pos_bound i 4 ltac:(lia)). replace (zlen w <? size) with true by lia.
  destruct (i mod 4 =? 0) eqn:E; cbn [negb andb]; [done|]. b2p.
  rewrite int32_byte by lia. rewrite write_next by done. cbn [mbind option_bind]. by rewrite zlen_app.
Qed.

Lemma byte_1 V a y : 0 <= a < 256 -> 0 <= y < 16 ->
  (64 * (64 * V + a / 4) + (a mod 4 * 16 + y)) / 2 ^ (6 - 2 * 1) mod 256 = a.
Proof. intros. change (2 ^ (6 - 2 * 1)) with 16. Z.to_euclidean_division_equations; lia. Qed.
Lemma byte_2 V q b y : 0 <= b < 256 -> 0 <= y < 4 ->
  (64 * (64 * V + (q * 16 + b / 16)) + (b mod 16 * 4 + y)) / 2 ^ (6 - 2 * 2) mod 256 = b.
Proof. intros. change (2 ^ (6 - 2 * 2)) with 4. Z.to_euclidean_division_equations; lia. Qed.
Lemma byte_3 V q c : 0 <= c < 256 ->
  (64 * (64 * V + (q * 4 + c / 64)) + c mod 64) / 2 ^ (6 - 2 * 3) mod 256 = c.
Proof. intros. change (2 ^ (6 - 2 * 3)) with 1. rewrite Z.div_1_r. Z.to_euclidean_division_equations; lia. Qed.

#[local] Ltac range := Z.to_euclidean_division_equations; lia.
Lemma decode_chars l : forall V i w e rest size, bytes_ok l -> i mod 4 = 0 -> e = 0 \/ e = 61 ->
  zlen (w ++ l) <= zlen out0 -> zlen (w ++ l) <= size ->
  decode_loop (chars l ++ e :: rest) i (int32 V) (zlen w) (wrote w) size = Some (Some (wrote (w ++ l), zlen (w ++ l))).
Proof.
  assert (Hend : forall V i w e rest size, e = 0 \/ e = 61 ->
    decode_loop (e :: rest) i (int32 V) (zlen w) (wrote w) size = Some (Some (wrote w, zlen w)))
    by (intros V i w e rest size [-> | ->]; done).
  induction l as [|a|a b|a b c l IH] using group_ind; intros V i w e rest size Hb Hi He Hl Hs; cbn [chars app];
    unfold bytes_ok in Hb; repeat (apply Forall_cons in Hb as [? Hb]); unfold byte_ok in *;
    rewrite ?zlen_app, ?zlen_cons, ?zlen_nil in Hl; rewrite ?zlen_app, ?zlen_cons, ?zlen_nil in Hs; pose proof (zlen_nonneg w);
    assert (i1 : (i + 1) mod 4 = 1) by range; assert (i2 : (i + 1 + 1) mod 4 = 2) by range;
    assert (i3 : (i + 1 + 1 + 1) mod 4 = 3) by range; try pose proof (zlen_nonneg l).
  - rewrite app_nil_r. by apply Hend.
  - rewrite decode_digit by range. rewrite Hi. cbv zeta. cbn [Z.eqb].
    rewrite decode_digit by range. rewrite i1. cbv zeta. cbn [Z.eqb].
    pose proof (byte_1 V a 0) as H1. rewrite Z.add_0_r in H1. rewrite H1 by lia. by apply Hend.
  - rewrite decode_digit by range. rewrite Hi. cbv zeta. cbn [Z.eqb].
    rewrite decode_digit by range. rewrite i1. cbv zeta. cbn [Z.eqb]. rewrite byte_1 by range.
    rewrite decode_digit by (rewrite ?zlen_app, ?zlen_cons, ?zlen_nil; range). rewrite i2. cbv zeta. cbn [Z.eqb].
    pose proof (byte_2 (64 * V + a / 4) (a mod 4) b 0) as H2. rewrite Z.add_0_r in H2. rewrite H2 by lia.
    rewrite <- app_assoc. by apply Hend.
  - rewrite decode_digit by range. rewrite Hi. cbv zeta. cbn [Z.eqb].
    rewrite decode_digit by range. rewrite i1. cbv zeta. cbn [Z.eqb]. rewrite byte_1 by range.
    rewrite decode_digit by (rewrite ?zlen_app, ?zlen_cons, ?zlen_nil; range). rewrite i2. cbv zeta. cbn [Z.eqb].
    rewrite byte_2 by range. rewrite <- app_assoc.
    rewrite decode_digit by (rewrite ?zlen_app, ?zlen_cons, ?zlen_nil; range). rewrite i3. cbv zeta. cbn [Z.eqb].
    rewrite byte_3 by range. rewrite <- app_assoc. cbn [app].
    rewrite IH by (try range; try done; rewrite !zlen_app, !zlen_cons, zlen_nil; lia). by rewrite <- app_assoc.
Qed.
End encoder.

(** C35: [base64_encode] writes the base64 form of the input as RFC 4648 defines it
    and a NUL, exactly [BASE64_SIZE] bytes, and nothing else of the buffer; it
    returns NULL, and writes nothing, exactly when the buffer is smaller or
    [BASE64_SIZE] could overflow.  [base64_decode] of the result writes the input
    again and returns its length. *)
Theorem base64_roundtrip (out input mem : bytes) (out_size : Z) :
  bytes_ok input -> 0 <= out_size <= zlen out -> zlen input <= INT_MAX ->
  if (2 ^ 30 - 1 <=? zlen input) || (out_size <? BASE64_SIZE (zlen input))
  then base64_encode out out_size input (zlen input) = Some None
  else
    base64_encode out out_size input (zlen input) = Some (Some (splice 0 (base64 input ++ [0]) out)) /\
    zlen (base64 input ++ [0]) = BASE64_SIZE (zlen input) /\
    (zlen input <= zlen mem ->
     base64_decode mem (base64 input ++ [0]) (zlen mem) = Some (Some (splice 0 input mem, zlen input))).
Proof.
  intros Hb Hs Hi. pose proof (zlen_nonneg input). unfold INT_MAX in Hi. unfold base64_encode.
  change (UINT_MAX / 4) with (2 ^ 30 - 1). assert (Hu : u32 (zlen input) = zlen input) by (unfold u32; rewrite Z.mod_small; lia).
  rewrite Hu.
  destruct (_ || _) eqn:E; [done|]. rewrite orb_false_iff, Z.leb_gt, Z.ltb_ge in E. destruct E as [E1 E2].
  destruct (base64_chars input) as (Hpad & Hch & Hb64). unfold BASE64_SIZE in *.
  rewrite mem_read_Some by lia. rewrite slice_all. cbn [mbind option_bind].
  assert (Hz : zlen (base64 input ++ [0]) = (zlen input + 2) / 3 * 4 + 1) by (by rewrite zlen_app, Hb64).
  assert (Hc4 : zlen (chars input) <= (zlen input + 2) / 3 * 4) by (rewrite Hch; Z.to_euclidean_division_equations; lia).
  assert (He : encode_loop input 0 0 out 0 = Some (wrote out (chars input), zlen (chars input))).
  { destruct input as [|b input]; [done|].
    pose proof (encode_loop_enc out (b :: input) 0 0 [] _ Hb ltac:(lia) ltac:(lia) (enc_exact _ 0 0 Hb ltac:(done) ltac:(lia) ltac:(lia))) as He.
    apply He. change (pending 0 0) with (@nil Z). cbn [app]. lia. }
  rewrite He. cbn [mbind option_bind].
  pose proof (Z.mod_pos_bound (- zlen input) 3 ltac:(lia)) as Hm3.
  assert (Hk : zlen (chars input) + Z.of_nat (Z.to_nat (- zlen input mod 3)) = (zlen input + 2) / 3 * 4).
  { rewrite <- Hb64, Hpad, zlen_app. unfold zlen at 4. by rewrite repeat_length. }
  rewrite (pad_loop_ok out (Z.to_nat (- zlen input mod 3)))
    by (rewrite ?Hk; try lia; apply Z.mod_mul; lia).
  rewrite <- Hpad. cbn [mbind option_bind]. rewrite write_next by lia. cbn [mbind option_bind].
  split; [done|]. split; [exact Hz|]. intros Hmem.
  rewrite zlen_app in Hz. 
  assert (Hdec : exists e rest, base64 input ++ [0] = chars input ++ e :: rest /\ (e = 0 \/ e = 61)).
  { rewrite Hpad, <- app_assoc. destruct (Z.to_nat _) as [|n]; eexists _, _; (split; [reflexivity|]); [by left|by right]. }
  destruct Hdec as (e & rest & -> & Hor).
  apply (decode_chars mem input 0 0 [] e rest (zlen mem) Hb ltac:(done) Hor); cbn [app]; lia.
Qed.

(** "ab?" in a buffer of ten bytes. *)
Lemma base64_roundtrip_witness :
  base64_encode (repeat 7 10) 10 [97; 98; 63] 3 = Some (Some ([89; 87; 73; 47; 0] ++ repeat 7 5)) /\
  base64_decode (repeat 9 4) ([89; 87; 73; 47] ++ [0]) 4 = Some (Some ([97; 98; 63; 9], 3)).
Proof.
  pose proof (base64_roundtrip (repeat 7 10) [97; 98; 63] (repeat 9 4) 10 ltac:(repeat constructor; lia)
    ltac:(vm_compute; split; congruence) ltac:(vm_compute; congruence)) as H.
  change (_ || _) with false in H. destruct H as (He & _ & Hd).
  split; [exact He|]. apply Hd. vm_compute. congruence.
Defined.
End Base64.
