(* ===== verification/CString.v ===== *)
(** C strings and the functions of the C library on them.

    A character is its byte, 0 to 255; the classes are those of the C locale,
    in which no byte from 128 on is a letter, a digit or a space.  A string in
    memory ends with a NUL; its content has none. *)

From Stdlib Require Import Ascii String.
From S2P Require Import Prelude.
Open Scope list_scope.

Module CString.

(** A literal. *)
Fixpoint str (s : string) : bytes :=
  match s with EmptyString => [] | String c s => Z.of_N (N_of_ascii c) :: str s end.

Definition isspace (c : Z) : bool := (c =? 32) || ((9 <=? c) && (c <=? 13)).
Definition isdigit (c : Z) : bool := (48 <=? c) && (c <=? 57).
Definition isalpha (c : Z) : bool := ((65 <=? c) && (c <=? 90)) || ((97 <=? c) && (c <=? 122)).
Definition isalnum (c : Z) : bool := isalpha c || isdigit c.

(** The string at the beginning of a piece of memory; without a NUL there is none. *)
Fixpoint c_string (l : bytes) : option bytes :=
  match l with [] => None | c :: l => if c =? 0 then Some [] else cons c <$> c_string l end.

(** [strchr] and [strstr]: the offset of what is searched. *)
Fixpoint strchr (c : Z) (s : bytes) : option Z :=
  match s with [] => None | d :: s => if d =? c then Some 0 else Z.succ <$> strchr c s end.
Fixpoint starts_with (p s : bytes) : bool :=
  match p, s with
  | [], _ => true
  | c :: p, d :: s => (c =? d) && starts_with p s
  | _ :: _, [] => false
  end.
Fixpoint strstr (p s : bytes) : option Z :=
  if starts_with p s then Some 0
  else match s with [] => None | _ :: s => Z.succ <$> strstr p s end.

(** [strcmp(s, t) == 0] *)
Definition streq (s t : bytes) : bool := bool_decide (s = t).

(** [strtoul]: the value, of 64 bits, and where parsing ended.  Base 0 takes the
    base from the prefix. *)
Definition ULONG_MAX : Z := 2 ^ 64 - 1.
Definition digit_value (c : Z) : Z :=
  if isdigit c then c - 48
  else if (65 <=? c) && (c <=? 90) then c - 55
  else if (97 <=? c) && (c <=? 122) then c - 87
  else 36.
Fixpoint digits (base acc : Z) (s : bytes) : Z * bytes :=
  match s with
  | c :: r => if digit_value c <? base then digits base (acc * base + digit_value c) r else (acc, s)
  | [] => (acc, [])
  end.
Definition strtoul_digits (s : bytes) : option (Z * bytes) :=
  match s with
  | 48 :: x :: d :: r =>
      if ((x =? 120) || (x =? 88)) && (digit_value d <? 16) then Some (digits 16 0 (d :: r))
      else Some (digits 8 0 s)
  | 48 :: _ => Some (digits 8 0 s)
  | c :: _ => if isdigit c then Some (digits 10 0 s) else None
  | [] => None
  end.
Fixpoint skip_spaces (s : bytes) : bytes :=
  match s with c :: r => if isspace c then skip_spaces r else s | [] => [] end.
Definition strtoul (s : bytes) : Z * bytes :=
  let p := skip_spaces s in
  let neg := starts_with [45] p in
  match strtoul_digits (if neg || starts_with [43] p then tail p else p) with
  | None => (0, s)
  | Some (v, r) =>
      if ULONG_MAX <? v then (ULONG_MAX, r) else ((if neg then (- v) mod 2 ^ 64 else v), r)
  end.

(** [inet_aton]: one to four numbers in the notation of C, the last of which fills
    the remaining octets; the address in host byte order. *)
Fixpoint aton_parts (n : nat) (s : bytes) : option (list Z) :=
  match n with
  | O => None
  | S n =>
      match s with
      | c :: _ =>
          if negb (isdigit c) then None
          else
            let '(v, r) := strtoul s in
            match r with
            | [] => Some [v]
            | d :: r => if d =? 46 then cons v <$> aton_parts n r else None
            end
      | [] => None
      end
  end.
Fixpoint aton_value (octets : Z) (parts : list Z) : option Z :=
  match parts with
  | [] => None
  | [v] => if v <? 256 ^ octets then Some v else None
  | v :: parts =>
      if v <? 256 then Z.add (v * 256 ^ (octets - 1)) <$> aton_value (octets - 1) parts else None
  end.
Definition inet_aton (s : bytes) : option Z := parts ← aton_parts 4 s; aton_value 4 parts.

Example strtoul_examples :
  strtoul (str "010") = (8, []) /\ strtoul (str " -1x") = (ULONG_MAX, str "x") /\
  strtoul (str "0x1f.") = (31, str ".") /\ strtoul (str "+") = (0, str "+") /\ strtoul (str "08") = (0, str "8").
Proof. by vm_compute. Qed.
Example inet_aton_examples :
  inet_aton (str "127.0.0.1") = Some (2 ^ 24 * 127 + 1) /\ inet_aton (str "10.1") = Some (2 ^ 24 * 10 + 1) /\
  inet_aton (str "1.2.3.256") = None /\ inet_aton (str "1.2.3.4.5") = None /\ inet_aton (str "255.255.255.") = None.
Proof. by vm_compute. Qed.

(** ** The strings *)

Lemma c_string_app s junk : Forall (fun c => c <> 0) s -> c_string (s ++ 0 :: junk) = Some s.
Proof.
  induction 1 as [|c s Hc Hs IH]; [done|]. cbn. rewrite IH. by replace (c =? 0) with false by lia.
Qed.

Lemma strchr_in c s : c ∈ s -> exists s1 s2, s = s1 ++ c :: s2 /\ strchr c s = Some (zlen s1) /\ c ∉ s1.
Proof.
  induction s as [|d s IH]; [by intros ?%elem_of_nil|]. intros Hc. cbn. destruct (Z.eqb_spec d c) as [->|Hd].
  - exists [], s. by split_and!; [..|apply not_elem_of_nil].
  - apply elem_of_cons in Hc as [?|Hc]; [done|]. destruct (IH Hc) as (s1 & s2 & -> & -> & Hn).
    exists (d :: s1), s2. split_and!; [done| |by rewrite not_elem_of_cons]. cbn. f_equal. rewrite zlen_cons. lia.
Qed.

Lemma starts_with_spec p s : starts_with p s = true <-> exists r, s = p ++ r.
Proof.
  revert s. induction p as [|c p IH]; intros s; cbn; [split; eauto|].
  destruct s as [|d s]; [split; [done|]; by intros (r & ?)|].
  rewrite andb_true_iff, IH, Z.eqb_eq. split.
  - intros (-> & r & ->). eauto.
  - intros (r & [= -> ->]). eauto.
Qed.

Lemma strstr_Some p s k : strstr p s = Some k -> exists s1 s2, s = s1 ++ p ++ s2 /\ k = zlen s1.
Proof.
  revert k. induction s as [|c s IH]; intros k; cbn -[starts_with]; destruct (starts_with p _) eqn:E.
  1,3: apply starts_with_spec in E as [r ->]; intros [= <-]; by exists [], r.
  - done.
  - intros (k' & Hk & ->)%fmap_Some. destruct (IH _ Hk) as (s1 & s2 & -> & ->).
    exists (c :: s1), s2. split; [done|]. rewrite zlen_cons. lia.
Qed.

Lemma streq_spec s t : streq s t = true <-> s = t.
Proof. apply bool_decide_eq_true. Qed.

End CString.
