(* ===== verification/HttpAuth.v ===== *)
(** HTTP proxy authentication, basic and digest: [redsocks/http-auth.c].

    A string in memory is a list of bytes that ends with a NUL, a pointer into
    one is the list from it on, and reading past its end has no result; the
    content of a string has no NUL.  Allocation succeeds. *)

From Stdlib Require Import Ascii String.
From S2P Require Import Prelude NetInt Md5 Base64 CString.
Import Md5 Base64 CString.
Open Scope list_scope.

Module HttpAuth.

Definition quote : bytes := [34].
Definition COLON : bytes := [58].

(** ** Basic *)

(** [res] of [calloc(n, 1)]. *)
Definition calloc (n : Z) : bytes := repeat 0 (Z.to_nat n).

(** The size of [pair], and what [sprintf] writes there. *)
Definition basic_authentication_encode (user passwd : bytes) : option (option bytes) :=
  let pair_len := zlen user + 1 + zlen passwd in
  pair ← mem_write 0 (user ++ COLON ++ passwd ++ [0]) (calloc (pair_len + 1));
  let basic_len := BASE64_SIZE pair_len in
  base64_encode (calloc (basic_len + 1)) basic_len pair pair_len.

(** ** Parameters *)

Definition tolower (c : Z) : Z := if (65 <=? c) && (c <=? 90) then c + 32 else c.

(** [while (isspace ( *p)) ++p] *)
Fixpoint skip_space (p : bytes) : option bytes :=
  match p with [] => None | c :: r => if isspace c then skip_space r else Some p end.
(** [while ( *p && !stop ( *p)) ++p]: what was passed over, and [p]. *)
Fixpoint span (stop : Z -> bool) (p : bytes) : option (bytes * bytes) :=
  match p with
  | [] => None
  | c :: r => if (c =? 0) || stop c then Some ([], p) else '(t, p) ← span stop r; Some (c :: t, p)
  end.
(** [while (e != b && isspace (e[-1])) --e] *)
Fixpoint trim (t : bytes) : bytes :=
  match t with
  | [] => []
  | c :: r => match trim r with [] => if isspace c then [] else [c] | r => c :: r end
  end.

(** A token is the bytes from [b] to [e].  The result is the name and the value, or
    0, and [*source] afterwards. *)
Definition extract_param (source : bytes) (separator : Z) : option (option (bytes * bytes) * bytes) :=
  p ← skip_space source;
  c ← head p;
  if c =? 0 then Some (None, p)
  else
    '(name, p) ← span (fun c => isspace c || (c =? 61) || (c =? separator)) p;
    if bool_decide (name = []) then Some (None, source)
    else
      p ← skip_space p;
      c ← head p;
      if (c =? separator) || (c =? 0) then Some (Some (name, []), if c =? separator then tail p else p)
      else if negb (c =? 61) then Some (None, source)
      else
        p ← skip_space (tail p);
        c ← head p;
        if c =? 34 then
          '(value, p) ← span (fun c => c =? 34) (tail p);
          c ← head p;
          if c =? 0 then Some (None, source)
          else
            p ← skip_space (tail p);
            '(_, p) ← span (fun c => c =? separator) p;
            c ← head p;
            if c =? separator then Some (Some (name, value), tail p)
            else if negb (c =? 0) then Some (None, source)
            else Some (Some (name, value), p)
        else
          '(t, p) ← span (fun c => c =? separator) p;
          c ← head p;
          Some (Some (name, trim t), if c =? separator then tail p else p).

(** The bytes of [a] and [b] are read up to a NUL or a difference, [n] at most. *)
Fixpoint strncasecmp (a b : bytes) (n : nat) : option Z :=
  match n with
  | O => Some 0
  | S n =>
      match a, b with
      | c :: a, d :: b =>
          if negb (tolower c =? tolower d) then Some (tolower c - tolower d)
          else if c =? 0 then Some 0
          else strncasecmp a b n
      | _, _ => None
      end
  end.

(** ** Digest *)

Record fields := mk_fields { realm : option bytes; opaque : option bytes; nonce : option bytes; qop : option bytes }.
#[export] Instance eta_fields : Eta fields := fun f => mk_fields (realm f) (opaque f) (nonce f) (qop f).
Definition no_fields : fields := mk_fields None None None None.

Definition is_named (name : bytes) (s : string) : option bool :=
  d ← strncasecmp name (str s ++ [0]) (length name);
  Some (d =? 0).
(** The body of the loop. *)
Definition take_param (f : fields) (name value : bytes) : option fields :=
  b ← is_named name "realm";
  if (b : bool) then Some (f <| realm := Some value |>)
  else
    b ← is_named name "opaque";
    if (b : bool) then Some (f <| opaque := Some value |>)
    else
      b ← is_named name "nonce";
      if (b : bool) then Some (f <| nonce := Some value |>)
      else
        b ← is_named name "qop";
        if (b : bool) then Some (f <| qop := Some value |>) else Some f.
Fixpoint read_params (rounds : nat) (ptr : bytes) (f : fields) : option fields :=
  match rounds with
  | O => None
  | S rounds =>
      '(r, ptr) ← extract_param ptr 44;
      match r with
      | None => Some f
      | Some (name, value) => f ← take_param f name value; read_params rounds ptr f
      end
  end.

Definition hex_digit (x : Z) : Z := if x <? 10 then 48 + x else 87 + x.
(** [%0nx] of a number below [16 ^ n] *)
Fixpoint hex (n : nat) (x : Z) : bytes :=
  match n with O => [] | S n => hex n (x / 16) ++ [hex_digit (x mod 16)] end.

Definition MD5_HASHLEN : Z := 16.
(** The string written to [buf], of [size] bytes. *)
Definition dump_hash (size : Z) (hash : bytes) : option bytes :=
  let s := concat (hex 2 <$> hash) in
  if size <? zlen s + 1 then None else Some s.

(** Strings that are written one after the other to [res], of [len] bytes. *)
Definition print_to (len : Z) (s : bytes) : option bytes :=
  if len <? zlen s + 1 then None else Some s.

Definition ohd {A} (o : option A) : bool := match o with Some _ => true | None => false end.
Definition size_of (o : option bytes) : Z := match o with Some s => zlen s | None => 0 end.

Section digest.
(** What the buffer of [md5_state_t ctx] holds. *)
Context (ctx : bytes).

(** A hash of pieces, in a buffer as a string. *)
Definition hash_of (parts : list bytes) : option bytes :=
  hash ← digest_of ctx parts;
  dump_hash (MD5_HASHLEN * 2 + 1) hash.

Definition quoted (name : string) (s : bytes) : bytes := str name ++ str "=" ++ quote ++ s ++ quote.
Definition comma : bytes := str ", ".

(** [cnonce] is only used with [qop], and must not be NULL then. *)
Definition digest_authentication_encode (line : bytes) (user passwd method path : option bytes) (count : Z)
    (cnonce : bytes) : option (option bytes) :=
  let nc := hex 8 (u32 count) in
  f ← read_params (S (length line)) line no_fields;
  match realm f, nonce f, user, passwd, path, method with
  | Some realm, Some nonce, Some user, Some passwd, Some path, Some method =>
      auth ← match qop f with
             | Some q => d ← strncasecmp (q ++ [0]) (str "auth" ++ [0]) 5; Some (d =? 0)
             | None => Some true
             end;
      if negb auth then Some None
      else
        a1buf ← hash_of [user; COLON; realm; COLON; passwd];
        a2buf ← hash_of [method; COLON; path];
        response ← hash_of
          ([a1buf; COLON; nonce; COLON] ++
           match qop f with Some q => [nc; COLON; cnonce; COLON; q; COLON] | None => [] end ++ [a2buf]);
        let len := 256 + zlen user + zlen realm + zlen nonce + zlen path + zlen response +
                   match qop f with Some q => zlen q + zlen nc + zlen cnonce | None => 0 end + size_of (opaque f) in
        if INT_MAX <? len then None
        else
          res ← print_to len
            (quoted "username" user ++ comma ++ quoted "realm" realm ++ comma ++ quoted "nonce" nonce ++ comma ++
             quoted "uri" path ++ comma ++ quoted "response" response ++
             match qop f with
             | Some q => comma ++ str "qop=" ++ q ++ comma ++ str "nc=" ++ nc ++ comma ++ quoted "cnonce" cnonce
             | None => []
             end);
          match opaque f with
          | Some o => res ← print_to len (res ++ comma ++ quoted "opaque" o); Some (Some res)
          | None => Some (Some res)
          end
  | _, _, _, _, _, _ => Some None
  end.
End digest.

(** The example of RFC 2617. *)
Definition rfc_line : bytes :=
  quoted "realm" (str "testrealm@host.com") ++ comma ++ str "qop=auth" ++ comma ++
  quoted "nonce" (str "dcd98b7102dd2f0e8b11d0f600bfb0c093") ++ comma ++
  quoted "opaque" (str "5ccc069c403ebaf9f0171e9517f40e41") ++ [0].
Definition rfc_answer : bytes :=
  quoted "username" (str "Mufasa") ++ comma ++ quoted "realm" (str "testrealm@host.com") ++ comma ++
  quoted "nonce" (str "dcd98b7102dd2f0e8b11d0f600bfb0c093") ++ comma ++ quoted "uri" (str "/dir/index.html") ++ comma ++
  quoted "response" (str "6629fae49393a05397450978507c4ef1") ++ comma ++ str "qop=auth" ++ comma ++ str "nc=00000001" ++
  comma ++ quoted "cnonce" (str "0a4f113b") ++ comma ++ quoted "opaque" (str "5ccc069c403ebaf9f0171e9517f40e41").
Example rfc_2617 : digest_authentication_encode (repeat 0 64) rfc_line (Some (str "Mufasa")) (Some (str "Circle Of Life"))
  (Some (str "GET")) (Some (str "/dir/index.html")) 1 (str "0a4f113b") = Some (Some rfc_answer).
Proof. vm_compute. reflexivity. Qed.

(** * Reading parameters *)

(** A string in memory. *)
Definition content (s : bytes) : Prop := Forall (fun c => 0 < c) s.
Definition terminated (p : bytes) : Prop := exists s, p = s ++ [0] /\ content s.

Lemma terminated_nil : terminated [0].
Proof. exists []. split; [done|constructor]. Qed.
Lemma terminated_cons c p : terminated (c :: p) -> (c = 0 /\ p = []) \/ (0 < c /\ terminated p).
Proof.
  intros (s & Hs & Hc). destruct s as [|x s]; cbn in Hs; injection Hs as -> ->; [by left|].
  apply Forall_cons in Hc as [Hx Hc]. right. split; [done|]. by exists s.
Qed.
Lemma terminated_ne p : terminated p -> p <> [].
Proof. intros (s & -> & _). by destruct s. Qed.

Lemma skip_space_ok p : terminated p -> exists q, skip_space p = Some q /\ terminated q /\ (length q <= length p)%nat /\
  match q with c :: _ => isspace c = false | [] => True end.
Proof.
  induction p as [|c p IH]; intros Ht; [by apply terminated_ne in Ht|]. cbn [skip_space].
  destruct (isspace c) eqn:E; [|exists (c :: p); split_and!; done || lia].
  destruct (terminated_cons _ _ Ht) as [[-> ->]|[_ Ht']]; [done|].
  destruct (IH Ht') as (q & Hq & Htq & Hl & Hs). exists q. split_and!; try done. cbn. lia.
Qed.
Lemma span_ok stop p : terminated p -> exists t q, span stop p = Some (t, q) /\ p = t ++ q /\ terminated q /\ content t /\
  match q with c :: _ => c = 0 \/ stop c = true | [] => False end.
Proof.
  induction p as [|c p IH]; intros Ht; [by apply terminated_ne in Ht|]. cbn [span].
  destruct (_ || _) eqn:E.
  { exists [], (c :: p). split_and!; [done|done|done|constructor|]. rewrite orb_true_iff, Z.eqb_eq in E. done. }
  rewrite orb_false_iff, Z.eqb_neq in E. destruct E as [Hc E].
  destruct (terminated_cons _ _ Ht) as [[-> ->]|[Hpos Ht']]; [done|].
  destruct (IH Ht') as (t & q & -> & -> & Htq & Hct & Hq). exists (c :: t), q. split_and!; try done. by constructor.
Qed.
Lemma trim_length t : (length (trim t) <= length t)%nat /\ (content t -> content (trim t)).
Proof.
  induction t as [|c t [IH IHc]]; cbn [trim]; [done|]. unfold content in *. destruct (trim t) as [|x r].
  - destruct (isspace c); cbn; (split; [lia|]); intros Hc; [constructor|]. apply Forall_cons in Hc as [? _]. by repeat constructor.
  - cbn in *. split; [lia|]. intros Hc. apply Forall_cons in Hc as [? Hc]. constructor; [done|]. by apply IHc.
Qed.

Lemma head_tail_ok p : terminated p -> exists c, head p = Some c /\ (c = 0 -> tail p = []) /\
  (c <> 0 -> terminated (tail p)) /\ (length (tail p) < length p)%nat.
Proof.
  intros Ht. destruct p as [|c p]; [by apply terminated_ne in Ht|]. exists c. split; [done|].
  destruct (terminated_cons _ _ Ht) as [[-> ->]|[? ?]]; cbn; split_and!; try done; lia.
Qed.

(** Every call ends, reads nothing past the NUL, and passes over a parameter that
    it finds. *)
Lemma extract_param_ok source sep : terminated source -> sep <> 0 ->
  exists r p, extract_param source sep = Some (r, p) /\
    match r with
    | Some (name, value) => terminated p /\ (length p < length source)%nat /\ name <> [] /\ content name /\ content value /\
                            (length value <= length source)%nat
    | None => True
    end.
Proof.
  intros Ht Hsep. unfold extract_param.
  destruct (skip_space_ok _ Ht) as (p1 & -> & Ht1 & Hl1 & Hs1). cbn [mbind option_bind].
  destruct (head_tail_ok _ Ht1) as (c1 & -> & _ & _ & _). cbn [mbind option_bind].
  destruct (c1 =? 0); [by eexists _, _|].
  destruct (span_ok (fun c => isspace c || (c =? 61) || (c =? sep)) _ Ht1) as (name & p2 & -> & Hp2 & Ht2 & Hcn & _).
  cbn [mbind option_bind]. apply (f_equal length) in Hp2. rewrite length_app in Hp2.
  destruct (bool_decide (name = [])) eqn:En; [by eexists _, _|]. apply bool_decide_eq_false in En.
  assert (Hln : (0 < length name)%nat) by (destruct name; cbn; [done|lia]).
  destruct (skip_space_ok _ Ht2) as (p3 & -> & Ht3 & Hl3 & _). cbn [mbind option_bind].
  destruct (head_tail_ok _ Ht3) as (c3 & -> & _ & Htl3 & Hll3). cbn [mbind option_bind].
  destruct (_ || _) eqn:E3.
  { eexists _, _. split; [done|]. destruct (c3 =? sep) eqn:E; b2p; split_and!; try done; try (cbn; lia); try constructor.
    apply Htl3. by subst. }
  rewrite orb_false_iff, !Z.eqb_neq in E3.
  destruct (c3 =? 61) eqn:E61; cbn [negb]; [|by eexists _, _]. 
  destruct (skip_space_ok (tail p3)) as (p4 & -> & Ht4 & Hl4 & _); [apply Htl3; lia|]. cbn [mbind option_bind].
  destruct (head_tail_ok _ Ht4) as (c4 & -> & _ & Htl4 & Hll4). cbn [mbind option_bind].
  destruct (c4 =? 34) eqn:E4; b2p.
  - destruct (span_ok (fun c => c =? 34) (tail p4)) as (value & p5 & -> & Hp5 & Ht5 & Hcv & _); [apply Htl4; lia|].
    cbn [mbind option_bind]. apply (f_equal length) in Hp5. rewrite length_app in Hp5.
    destruct (head_tail_ok _ Ht5) as (c5 & -> & _ & Htl5 & Hll5). cbn [mbind option_bind].
    destruct (c5 =? 0) eqn:E5; [by eexists _, _|]. b2p.
    destruct (skip_space_ok (tail p5)) as (p6 & -> & Ht6 & Hl6 & _); [by apply Htl5|]. cbn [mbind option_bind].
    destruct (span_ok (fun c => c =? sep) p6 Ht6) as (t & p7 & -> & Hp7 & Ht7 & _ & _). cbn [mbind option_bind].
    apply (f_equal length) in Hp7. rewrite length_app in Hp7.
    destruct (head_tail_ok _ Ht7) as (c7 & -> & _ & Htl7 & Hll7). cbn [mbind option_bind].
    destruct (c7 =? sep) eqn:E7; b2p.
    + eexists _, _. split; [done|]. split_and!; try done; try lia. apply Htl7. by subst.
    + destruct (c7 =? 0) eqn:E70; cbn [negb]; [|by eexists _, _]. eexists _, _. split; [done|]. split_and!; try done; lia.
  - destruct (span_ok (fun c => c =? sep) p4 Ht4) as (t & p5 & -> & Hp5 & Ht5 & Hct & _). cbn [mbind option_bind].
    apply (f_equal length) in Hp5. rewrite length_app in Hp5.
    destruct (head_tail_ok _ Ht5) as (c5 & -> & _ & Htl5 & Hll5). cbn [mbind option_bind].
    destruct (trim_length t) as [Htr Htc].
    eexists _, _. split; [done|]. destruct (c5 =? sep) eqn:E5; b2p; split_and!; try done; try lia; try (by apply Htc).
    apply Htl5. by subst.
Qed.

(** Comparison without case. *)
Definition lower (s : bytes) : bytes := tolower <$> s.
Lemma tolower_0 c : 0 < c -> tolower c <> 0.
Proof. unfold tolower. destruct (_ && _); lia. Qed.
Lemma tolower_NUL : tolower 0 = 0.
Proof. done. Qed.

(** The first [length a] bytes. *)
Lemma strncasecmp_prefix a : forall b, content a ->
  exists d, strncasecmp a (b ++ [0]) (length a) = Some d /\ (d = 0 <-> lower a = take (length a) (lower b)).
Proof.
  unfold lower. induction a as [|c a IH]; intros b Hc; [by exists 0|]. apply Forall_cons in Hc as [Hc Ha].
  destruct b as [|x b]; cbn [strncasecmp app length fmap list_fmap take].
  - rewrite tolower_NUL. pose proof (tolower_0 c Hc). destruct (tolower c =? 0) eqn:E; b2p; [done|]. cbn [negb].
    eexists. split; [done|]. split; [lia|done].
  - destruct (tolower c =? tolower x) eqn:E; b2p; cbn [negb].
    + destruct (c =? 0) eqn:E0; b2p; [lia|]. destruct (IH b Ha) as (d & Hd & Hiff). exists d. split; [exact Hd|].
      rewrite Hiff, E. split; [by intros ->|by intros [= ->]].
    + eexists. split; [done|]. split; [lia|congruence].
Qed.
(** Whole strings, when that many bytes are compared. *)
Lemma strncasecmp_equal b : forall a, content a -> content b ->
  exists d, strncasecmp (a ++ [0]) (b ++ [0]) (S (length b)) = Some d /\ (d = 0 <-> lower a = lower b).
Proof.
  unfold lower. induction b as [|x b IH]; intros a Ha Hb.
  - destruct a as [|c a]; cbn [strncasecmp app length fmap list_fmap]; [by exists 0|].
    apply Forall_cons in Ha as [Hc _]. pose proof (tolower_0 c Hc). rewrite tolower_NUL.
    destruct (tolower c =? 0) eqn:E; b2p; [done|]. cbn [negb]. eexists. split; [done|]. split; [lia|done].
  - apply Forall_cons in Hb as [Hx Hb]. pose proof (tolower_0 x Hx).
    destruct a as [|c a]; cbn [app length fmap list_fmap]; cbn [strncasecmp].
    + rewrite tolower_NUL. destruct (0 =? tolower x) eqn:E; b2p; [lia|]. cbn [negb]. eexists. split; [done|]. split; [lia|done].
    + apply Forall_cons in Ha as [Hc Ha]. destruct (tolower c =? tolower x) eqn:E; b2p; cbn [negb].
      * destruct (c =? 0) eqn:E0; b2p; [lia|]. destruct (IH a Ha Hb) as (d & Hd & Hiff). exists d. split; [exact Hd|].
        rewrite Hiff, E. split; [by intros ->|by intros [= ->]].
      * eexists. split; [done|]. split; [lia|congruence].
Qed.

(** [name] is [s], or what it begins with. *)
Definition abbreviates (name s : bytes) : bool := bool_decide (lower name = take (length name) (lower s)).
Lemma is_named_ok name s : content name -> is_named name s = Some (abbreviates name (str s)).
Proof.
  intros Hn. unfold is_named, abbreviates. destruct (strncasecmp_prefix name (str s) Hn) as (d & -> & Hd).
  cbn [mbind option_bind]. f_equal. apply Bool.eq_iff_eq_true. by rewrite Z.eqb_eq, bool_decide_eq_true.
Qed.

Definition store (f : fields) (name value : bytes) : fields :=
  if abbreviates name (str "realm") then f <| realm := Some value |>
  else if abbreviates name (str "opaque") then f <| opaque := Some value |>
  else if abbreviates name (str "nonce") then f <| nonce := Some value |>
  else if abbreviates name (str "qop") then f <| qop := Some value |> else f.
Lemma take_param_ok f name value : content name -> take_param f name value = Some (store f name value).
Proof.
  intros Hn. unfold take_param, store. rewrite !is_named_ok by done. cbn [mbind option_bind].
  by repeat (destruct (abbreviates name _); [done|]).
Qed.

(** The values come from the line. *)
Definition value_ok (n : nat) (v : option bytes) : Prop :=
  match v with Some v => (length v <= n)%nat /\ content v | None => True end.
Definition fields_ok (n : nat) (f : fields) : Prop :=
  value_ok n (realm f) /\ value_ok n (opaque f) /\ value_ok n (nonce f) /\ value_ok n (qop f).
Lemma store_ok n f name value : fields_ok n f -> (length value <= n)%nat -> content value -> fields_ok n (store f name value).
Proof.
  intros (H1 & H2 & H3 & H4) Hl Hc. unfold store. repeat (destruct (abbreviates name _)); by repeat split.
Qed.
Lemma read_params_ok n rounds : forall p f, terminated p -> (length p < rounds)%nat -> (length p <= n)%nat -> fields_ok n f ->
  exists f', read_params rounds p f = Some f' /\ fields_ok n f'.
Proof.
  induction rounds as [|rounds IH]; intros p f Ht Hr Hn Hf; [lia|]. cbn [read_params].
  destruct (extract_param_ok p 44 Ht ltac:(done)) as (r & q & -> & Hq). cbn [mbind option_bind].
  destruct r as [[name value]|]; [|by exists f]. destruct Hq as (Htq & Hlq & _ & Hcn & Hcv & Hlv).
  rewrite take_param_ok by done. cbn [mbind option_bind]. apply IH; try done; try lia.
  apply store_ok; try done. lia.
Qed.

(** * The answer *)

Lemma hex_length n x : length (hex n x) = n.
Proof. revert x. induction n as [|n IH]; intros x; [done|]. cbn [hex]. rewrite length_app, IH. cbn. lia. Qed.
Definition hex_bytes (l : bytes) : bytes := concat (hex 2 <$> l).
Lemma hex_bytes_length l : zlen (hex_bytes l) = 2 * zlen l.
Proof.
  unfold hex_bytes. induction l as [|x l IH]; [done|]. cbn [fmap list_fmap concat]. rewrite zlen_app, IH, zlen_cons.
  unfold zlen at 1. rewrite hex_length. lia.
Qed.
Lemma md5_length m : zlen (md5 m) = 16.
Proof. unfold md5. destruct (absorb _ _ _). by rewrite !zlen_app, !zlen_le_bytes. Qed.

(** [H()] of RFC 2617, in hexadecimal. *)
Definition hashed (m : bytes) : bytes := hex_bytes (md5 m).
Lemma hashed_length m : zlen (hashed m) = 32.
Proof. unfold hashed. by rewrite hex_bytes_length, md5_length. Qed.
Lemma hash_of_ok ctx parts : zlen ctx = 64 -> Forall short parts -> hash_of ctx parts = Some (hashed (concat parts)).
Proof.
  intros Hc Hs. unfold hash_of. rewrite digest_of_ok by done. cbn [mbind option_bind].
  unfold dump_hash, MD5_HASHLEN. change (concat (hex 2 <$> ?l)) with (hex_bytes l). rewrite hex_bytes_length, md5_length. done.
Qed.

(** The digest of RFC 2617, 3.2.2; with [qop], [extra] is [nc] and [cnonce]. *)
Definition request_digest (user realm passwd nonce method path : bytes) (extra : option (bytes * bytes * bytes)) : bytes :=
  let a1 := user ++ COLON ++ realm ++ COLON ++ passwd in
  let a2 := method ++ COLON ++ path in
  hashed (hashed a1 ++ COLON ++ nonce ++ COLON ++
    match extra with
    | Some (nc, cnonce, qop) => nc ++ COLON ++ cnonce ++ COLON ++ qop ++ COLON
    | None => []
    end ++ hashed a2).
Definition answer (f : fields) (user realm passwd nonce method path nc cnonce : bytes) : bytes :=
  let extra := match qop f with Some q => Some (nc, cnonce, q) | None => None end in
  quoted "username" user ++ comma ++ quoted "realm" realm ++ comma ++ quoted "nonce" nonce ++ comma ++
  quoted "uri" path ++ comma ++ quoted "response" (request_digest user realm passwd nonce method path extra) ++
  match qop f with
  | Some q => comma ++ str "qop=" ++ q ++ comma ++ str "nc=" ++ nc ++ comma ++ quoted "cnonce" cnonce
  | None => []
  end ++
  match opaque f with Some o => comma ++ quoted "opaque" o | None => [] end.
Definition auth_only (f : fields) : bool :=
  match qop f with Some q => bool_decide (lower q = lower (str "auth")) | None => true end.

Lemma auth_content : content (str "auth").
Proof. repeat constructor. Qed.
Lemma qop_ok q : content q ->
  (d ← strncasecmp (q ++ [0]) (str "auth" ++ [0]) 5; Some (d =? 0)) = Some (bool_decide (lower q = lower (str "auth"))).
Proof.
  intros Hq. destruct (strncasecmp_equal (str "auth") q Hq auth_content) as (d & Hd & Hiff).
  change (S (length (str "auth"))) with 5%nat in Hd. rewrite Hd. cbn [mbind option_bind]. f_equal.
  apply Bool.eq_iff_eq_true. by rewrite Z.eqb_eq, bool_decide_eq_true.
Qed.
Lemma quoted_length n s : zlen (quoted n s) = zlen (str n) + 3 + zlen s.
Proof. unfold quoted. rewrite !zlen_app. change (zlen (str "=")) with 1. change (zlen quote) with 1. lia. Qed.
Lemma print_ok len s : zlen s + 1 <= len -> print_to len s = Some s.
Proof. intros Hl. unfold print_to. by replace (len <? zlen s + 1) with false by lia. Qed.

Lemma colon_short : short COLON.
Proof. by vm_compute. Qed.
Lemma short_bound l : zlen l <= 2 ^ 27 -> short l.
Proof. unfold short, INT_MAX. lia. Qed.

(** The three hashes of an answer. *)
Definition digest_extra (nc cnonce : bytes) (q : option bytes) : option (bytes * bytes * bytes) :=
  match q with Some q => Some (nc, cnonce, q) | None => None end.
Lemma hash_of_short ctx ls : zlen ctx = 64 -> Forall (fun l => zlen l <= 2 ^ 27) ls ->
  hash_of ctx ls = Some (hashed (concat ls)).
Proof. intros Hctx Hls. apply hash_of_ok; [done|]. eapply Forall_impl; [exact Hls|]. intros l. apply short_bound. Qed.

Lemma request_hash ctx user r passwd n method path nc cnonce q :
  zlen ctx = 64 -> zlen n <= 2 ^ 27 -> zlen nc = 8 -> zlen cnonce <= 2 ^ 27 ->
  match q with Some q => zlen q <= 2 ^ 27 | None => True end ->
  hash_of ctx ([hashed (user ++ COLON ++ r ++ COLON ++ passwd); COLON; n; COLON] ++
     match q with Some q => [nc; COLON; cnonce; COLON; q; COLON] | None => [] end ++ [hashed (method ++ COLON ++ path)]) =
  Some (request_digest user r passwd n method path (digest_extra nc cnonce q)).
Proof.
  intros Hctx Hn Hnc Hcn Hq. assert (Hc : zlen COLON = 1) by done. rewrite hash_of_short; [|done|].
  - f_equal. unfold request_digest, digest_extra. destruct q; cbn [app concat]; by rewrite app_nil_r, <- ?app_assoc.
  - destruct q; cbn [app]; repeat constructor; rewrite ?hashed_length; lia.
Qed.

Lemma auth_param_ok q : match q with Some q => content q | None => True end ->
  match q with Some q => d ← strncasecmp (q ++ [0]) (str "auth" ++ [0]) 5; Some (d =? 0) | None => Some true end =
  Some (match q with Some q => bool_decide (lower q = lower (str "auth")) | None => true end).
Proof. destruct q; [apply qop_ok|done]. Qed.

(** The length of the answer without the opaque value. *)
Lemma answer_text_length user r n path resp nc cnonce q : zlen resp = 32 -> zlen nc = 8 ->
  zlen (quoted "username" user ++ comma ++ quoted "realm" r ++ comma ++ quoted "nonce" n ++ comma ++
        quoted "uri" path ++ comma ++ quoted "response" resp ++
        match q with
        | Some q => comma ++ str "qop=" ++ q ++ comma ++ str "nc=" ++ nc ++ comma ++ quoted "cnonce" cnonce
        | None => []
        end) =
  zlen user + zlen r + zlen n + zlen path + 84 + match q with Some q => 22 + zlen q + 8 + zlen cnonce | None => 0 end.
Proof.
  intros Hresp Hnc. assert (Hcm : zlen comma = 2) by done.
  rewrite !zlen_app, !quoted_length, Hresp, Hcm. change (zlen (str "username")) with 8.
  change (zlen (str "realm")) with 5. change (zlen (str "nonce")) with 5. change (zlen (str "uri")) with 3.
  change (zlen (str "response")) with 8. destruct q; [|change (zlen (@nil Z)) with 0; lia].
  rewrite !zlen_app, quoted_length, Hnc, Hcm. change (zlen (str "qop=")) with 4. change (zlen (str "nc=")) with 3.
  change (zlen (str "cnonce")) with 6. lia.
Qed.

(** Printing the answer into a buffer of the computed size. *)
Lemma print_answer len text o : zlen text + 16 + match o with Some o => zlen o | None => 0 end <= len ->
  (res ← print_to len text;
   match o with
   | Some o => res ← print_to len (res ++ comma ++ quoted "opaque" o); Some (Some res)
   | None => Some (Some res)
   end) = Some (Some (text ++ match o with Some o => comma ++ quoted "opaque" o | None => [] end)).
Proof.
  intros Hl. assert (Hcm : zlen comma = 2) by done. destruct o as [o|].
  - pose proof (zlen_nonneg o). rewrite print_ok by lia. cbn [mbind option_bind].
    rewrite print_ok by (rewrite !zlen_app, quoted_length, Hcm; change (zlen (str "opaque")) with 6; lia). done.
  - rewrite print_ok by lia. cbn [mbind option_bind]. by rewrite app_nil_r.
Qed.

(** From the fields on. *)
Lemma answer_ok ctx line user passwd method path count cnonce f r n N :
  zlen ctx = 64 -> read_params (S (length line)) line no_fields = Some f -> fields_ok N f ->
  realm f = Some r -> nonce f = Some n -> 0 <= Z.of_nat N <= 2 ^ 26 + 1 ->
  zlen user + zlen passwd + zlen method + zlen path + zlen cnonce <= 2 ^ 26 ->
  digest_authentication_encode ctx line (Some user) (Some passwd) (Some method) (Some path) count cnonce =
  Some (if auth_only f then Some (answer f user r passwd n method path (hex 8 (u32 count)) cnonce) else None).
Proof.
  intros Hctx Hf (Hr & Ho & Hn & Hq) Er En HN Hlen.
  pose proof (zlen_nonneg user). pose proof (zlen_nonneg passwd).
  pose proof (zlen_nonneg method). pose proof (zlen_nonneg path). pose proof (zlen_nonneg cnonce).
  unfold digest_authentication_encode. rewrite Hf. cbn [mbind option_bind].
  destruct f as [fr fo fn fq]. cbn [realm opaque nonce qop] in *. subst fr fn. unfold auth_only, answer. cbn [qop opaque].
  destruct Hr as [Hr _], Hn as [Hn _]. assert (Hzr : zlen r <= 2 ^ 26 + 1) by (unfold zlen; lia).
  assert (Hzn : zlen n <= 2 ^ 26 + 1) by (unfold zlen; lia). pose proof (zlen_nonneg r). pose proof (zlen_nonneg n).
  assert (Hc : zlen COLON = 1) by done.
  assert (Hnc : zlen (hex 8 (u32 count)) = 8) by (unfold zlen; by rewrite hex_length).
  assert (Hzq : 0 <= match fq with Some q => zlen q | None => 0 end <= 2 ^ 26 + 1)
    by (destruct fq as [q|]; [destruct Hq; pose proof (zlen_nonneg q); unfold zlen in *; lia|lia]).
  assert (Hzo : 0 <= match fo with Some o => zlen o | None => 0 end <= 2 ^ 26 + 1)
    by (destruct fo as [o|]; [destruct Ho; pose proof (zlen_nonneg o); unfold zlen in *; lia|lia]).
  rewrite auth_param_ok by (destruct fq; [apply Hq|done]). cbn [mbind option_bind].
  set (b := match fq with Some q => bool_decide _ | None => true end). destruct b; cbn [negb]; [|done].
  rewrite (hash_of_short ctx [user; _; _; _; _]) by (done || (repeat constructor; lia)). cbn [mbind option_bind].
  rewrite (hash_of_short ctx [method; _; _]) by (done || (repeat constructor; lia)). cbn [mbind option_bind concat].
  rewrite !app_nil_r. rewrite request_hash by (done || lia || (destruct fq; [lia|done])). cbn [mbind option_bind].
  fold (digest_extra (hex 8 (u32 count)) cnonce fq).
  set (resp := request_digest _ _ _ _ _ _ _). assert (Hresp : zlen resp = 32) by apply hashed_length.
  pose proof (answer_text_length user r n path resp (hex 8 (u32 count)) cnonce fq Hresp Hnc) as Htext.
  match goal with |- context [INT_MAX <? ?l] => set (len := l) end.
  assert (Hl : zlen user + zlen r + zlen n + zlen path + 84 + match fq with Some q => 22 + zlen q + 8 + zlen cnonce | None => 0 end
    + 16 + match fo with Some o => zlen o | None => 0 end <= len /\ len <= INT_MAX)
    by (unfold len, INT_MAX, size_of; destruct fq, fo; lia).
  replace (INT_MAX <? len) with false by lia. rewrite print_answer by lia.
  do 2 f_equal. by rewrite <- !app_assoc.
Qed.

(** C36: For every challenge of a proxy, [digest_authentication_encode] ends, reads
    nothing past the end of the line and writes nothing past the buffers for
    the hashes and the answer, whose size it computes first.  If the challenge has
    a realm and a nonce and no protection but plain authentication, the answer
    is the header of RFC 2617 with the request digest as the RFC defines it from
    MD5, with the echoed realm, nonce, qop and opaque value; otherwise it is NULL. *)
Theorem digest_answer ctx line user passwd method path count cnonce :
  zlen ctx = 64 -> content line ->
  zlen line + zlen user + zlen passwd + zlen method + zlen path + zlen cnonce <= 2 ^ 26 ->
  exists f, read_params (S (length (line ++ [0]))) (line ++ [0]) no_fields = Some f /\
    digest_authentication_encode ctx (line ++ [0]) (Some user) (Some passwd) (Some method) (Some path) count cnonce =
    Some (match realm f, nonce f with
          | Some realm, Some nonce =>
              if auth_only f then Some (answer f user realm passwd nonce method path (hex 8 (u32 count)) cnonce) else None
          | _, _ => None
          end).
Proof.
  intros Hctx Hline Hlen.
  pose proof (zlen_nonneg line). pose proof (zlen_nonneg user). pose proof (zlen_nonneg passwd).
  pose proof (zlen_nonneg method). pose proof (zlen_nonneg path). pose proof (zlen_nonneg cnonce).
  destruct (read_params_ok (length (line ++ [0])) (S (length (line ++ [0]))) (line ++ [0]) no_fields) as (f & Hf & Hfo);
    [by exists line|lia|lia|by repeat split|].
  exists f. split; [exact Hf|].
  destruct (realm f) as [r|] eqn:Er.
  2:{ unfold digest_authentication_encode. rewrite Hf. cbn [mbind option_bind]. by rewrite Er. }
  destruct (nonce f) as [n|] eqn:En.
  2:{ unfold digest_authentication_encode. rewrite Hf. cbn [mbind option_bind]. by rewrite Er, En. }
  eapply answer_ok; try done; [|lia]. rewrite length_app. cbn [length]. unfold zlen in *. lia.
Qed.

(** * Challenges as proxies write them *)

Inductive param := Quoted (name value : bytes) | Bare (name value : bytes) | Flag (name : bytes).
Definition name_of (p : param) : bytes := match p with Quoted n _ | Bare n _ | Flag n => n end.
Definition value_of (p : param) : bytes := match p with Quoted _ v | Bare _ v => v | Flag _ => [] end.
Definition render (p : param) : bytes :=
  match p with Quoted n v => n ++ [61] ++ quote ++ v ++ quote | Bare n v => n ++ [61] ++ v | Flag n => n end.
(** After the first, each parameter follows a comma and a space. *)
Fixpoint render_rest (ps : list param) : bytes :=
  match ps with [] => [] | p :: ps => 44 :: 32 :: render p ++ render_rest ps end.
Definition render_all (ps : list param) : bytes :=
  match ps with [] => [] | p :: ps => render p ++ render_rest ps end.

Definition token_char (c : Z) : Prop := 0 < c /\ isspace c = false /\ c <> 61 /\ c <> 44.
Definition param_ok (p : param) : Prop :=
  name_of p <> [] /\ Forall token_char (name_of p) /\
  match p with
  | Quoted _ v => Forall (fun c => 0 < c /\ c <> 34) v
  | Bare _ v => Forall (fun c => 0 < c /\ c <> 44) v /\ trim v = v /\
                match v with c :: _ => isspace c = false /\ c <> 34 | [] => True end
  | Flag _ => True
  end.

Lemma span_exact stop t c r : Forall (fun x => 0 < x /\ stop x = false) t -> c = 0 \/ stop c = true ->
  span stop (t ++ c :: r) = Some (t, c :: r).
Proof.
  intros Ht Hc. induction Ht as [|x t [Hx Hs] Ht IH]; cbn [app span].
  - destruct Hc as [-> | ->]; [done|]. by rewrite orb_true_r.
  - rewrite Hs. destruct (x =? 0) eqn:E; [b2p; lia|]. cbn [orb]. by rewrite IH.
Qed.
Lemma skip_space_exact c r : isspace c = false -> skip_space (c :: r) = Some (c :: r).
Proof. intros Hc. cbn. by rewrite Hc. Qed.
Lemma isspace_ends c : c = 0 \/ c = 44 \/ c = 61 \/ c = 34 -> isspace c = false.
Proof. by intros [->|[->|[->| ->]]]. Qed.

(** What is left after a parameter that [e] ends. *)
Definition after (e : Z) (rest : bytes) : bytes := if e =? 44 then rest else e :: rest.
(** What [extract_param] does with [x :: r] after a name. *)
Definition value_part (all name : bytes) (x : Z) (r : bytes) : option (option (bytes * bytes) * bytes) :=
  if (x =? 44) || (x =? 0) then Some (Some (name, []), if x =? 44 then r else x :: r)
  else if negb (x =? 61) then Some (None, all)
  else
    p ← skip_space r;
    c ← head p;
    if c =? 34 then
      '(value, p) ← span (fun c => c =? 34) (tail p);
      c ← head p;
      if c =? 0 then Some (None, all)
      else
        p ← skip_space (tail p);
        '(_, p) ← span (fun c => c =? 44) p;
        c ← head p;
        if c =? 44 then Some (Some (name, value), tail p)
        else if negb (c =? 0) then Some (None, all)
        else Some (Some (name, value), p)
    else
      '(t, p) ← span (fun c => c =? 44) p;
      c ← head p;
      Some (Some (name, trim t), if c =? 44 then tail p else p).

Lemma extract_name lead name x r : lead = [] \/ lead = [32] -> name <> [] -> Forall token_char name ->
  x = 61 \/ x = 44 \/ x = 0 ->
  extract_param (lead ++ name ++ x :: r) 44 = value_part (lead ++ name ++ x :: r) name x r.
Proof.
  intros Hlead Hne Hname Hx. set (stop := fun c => isspace c || (c =? 61) || (c =? 44)).
  assert (Hs1 : skip_space (lead ++ name ++ x :: r) = Some (name ++ x :: r)).
  { destruct name as [|c name]; [done|]. apply Forall_cons in Hname as [(_ & Hc & _) _].
    destruct Hlead as [-> | ->]; cbn [app skip_space]; [by rewrite Hc|]. change (isspace 32) with true. cbn iota. by rewrite Hc. }
  assert (Hh0 : exists c, head (name ++ x :: r) = Some c /\ c =? 0 = false).
  { destruct name as [|c name]; [done|]. apply Forall_cons in Hname as [(? & _) _]. exists c. split; [done|]. lia. }
  destruct Hh0 as (c0 & Hh0 & Hc0).
  assert (Hname' : Forall (fun x => 0 < x /\ stop x = false) name).
  { eapply Forall_impl; [exact Hname|]. intros y (Hy & Hsp & H1 & H2). split; [done|]. unfold stop. rewrite Hsp.
    destruct (y =? 61) eqn:E1, (y =? 44) eqn:E2; b2p; done. }
  unfold extract_param. rewrite Hs1. cbn [mbind option_bind]. rewrite Hh0. cbn [mbind option_bind].
  rewrite Hc0. fold stop. rewrite (span_exact stop name x r Hname') by (destruct Hx as [->|[->| ->]]; auto).
  cbn [mbind option_bind]. rewrite bool_decide_false by done.
  rewrite skip_space_exact by (destruct Hx as [->|[->| ->]]; done). done.
Qed.

Lemma quoted_value all name v e rest : e = 0 \/ e = 44 -> Forall (fun c => 0 < c /\ c <> 34) v ->
  value_part all name 61 (quote ++ v ++ quote ++ e :: rest) = Some (Some (name, v), after e rest).
Proof.
  intros He Hv. unfold value_part. cbn [Z.eqb Pos.eqb orb negb]. unfold quote. cbn [app].
  rewrite skip_space_exact by done. cbn [mbind option_bind head tail Z.eqb Pos.eqb].
  rewrite (span_exact (fun c => c =? 34) v 34).
  2:{ eapply Forall_impl; [exact Hv|]. intros x [? ?]. split; [done|lia]. } 2:{ by right. }
  cbn [mbind option_bind head tail Z.eqb Pos.eqb]. rewrite skip_space_exact by (apply isspace_ends; tauto).
  cbn [mbind option_bind]. unfold after. by destruct He as [-> | ->].
Qed.

Lemma bare_value all name v e rest : e = 0 \/ e = 44 -> Forall (fun c => 0 < c /\ c <> 44) v -> trim v = v ->
  match v with c :: _ => isspace c = false /\ c <> 34 | [] => True end ->
  value_part all name 61 (v ++ e :: rest) = Some (Some (name, v), after e rest).
Proof.
  intros He Hv Htr Hvh. unfold value_part. cbn [Z.eqb Pos.eqb orb negb].
  assert (Hsk : skip_space (v ++ e :: rest) = Some (v ++ e :: rest)).
  { destruct v as [|c v]; cbn [app]; apply skip_space_exact; [apply isspace_ends; tauto|apply Hvh]. }
  rewrite Hsk. cbn [mbind option_bind].
  assert (Hhd : exists c, head (v ++ e :: rest) = Some c /\ c =? 34 = false).
  { destruct v as [|c v]; [exists e; split; [done|]; destruct He as [-> | ->]; done|]. exists c. split; [done|]. lia. }
  destruct Hhd as (c & -> & Hc34). cbn [mbind option_bind]. rewrite Hc34.
  rewrite (span_exact (fun c => c =? 44) v e rest).
  2:{ eapply Forall_impl; [exact Hv|]. intros x [? ?]. split; [done|lia]. } 2:{ destruct He as [-> | ->]; [by left|by right]. }
  cbn [mbind option_bind head tail]. by rewrite Htr.
Qed.

Lemma extract_param_exact lead p e rest : lead = [] \/ lead = [32] -> param_ok p -> e = 0 \/ e = 44 ->
  extract_param (lead ++ render p ++ e :: rest) 44 = Some (Some (name_of p, value_of p), after e rest).
Proof.
  intros Hlead (Hne & Hname & Hp) He.
  destruct p as [n v|n v|n]; cbn [render name_of value_of] in *; rewrite <- ?app_assoc; cbn [app].
  - rewrite extract_name by auto. by apply quoted_value.
  - destruct Hp as (Hv & Htr & Hvh). rewrite extract_name by auto. by apply bare_value.
  - rewrite extract_name by (try done; tauto). unfold value_part, after. by destruct He as [-> | ->].
Qed.

Definition store_param (f : fields) (p : param) : fields := store f (name_of p) (value_of p).
Lemma name_content p : param_ok p -> content (name_of p).
Proof. intros (_ & Hn & _). eapply Forall_impl; [exact Hn|]. by intros c (? & _). Qed.

(** The parameters that follow one. *)
Lemma render_rest_end ps : exists e rest, render_rest ps ++ [0] = e :: rest /\ (e = 0 \/ e = 44) /\
  after e rest = match ps with [] => [0] | p :: ps => [32] ++ render p ++ render_rest ps ++ [0] end.
Proof.
  destruct ps as [|p ps]; [by exists 0, []; split_and!; [..|left|]|].
  exists 44, ([32] ++ render p ++ render_rest ps ++ [0]). split_and!; [|by right|done].
  cbn [render_rest app]. by rewrite <- app_assoc.
Qed.
Lemma read_params_exact ps : forall rounds lead p f, Forall param_ok (p :: ps) -> lead = [] \/ lead = [32] ->
  (S (length ps) < rounds)%nat ->
  read_params rounds (lead ++ render p ++ render_rest ps ++ [0]) f = Some (foldl store_param f (p :: ps)).
Proof.
  induction ps as [|p' ps IH]; intros rounds lead p f Hok Hlead Hr; apply Forall_cons in Hok as [Hp Hok];
    (destruct rounds as [|rounds]; [lia|]); cbn [read_params].
  - destruct (render_rest_end []) as (e & rest & -> & He & Haf). rewrite extract_param_exact by done.
    cbn [mbind option_bind]. rewrite take_param_ok by by apply name_content. cbn [mbind option_bind]. rewrite Haf.
    destruct rounds as [|rounds]; [cbn in Hr; lia|]. done.
  - destruct (render_rest_end (p' :: ps)) as (e & rest & -> & He & Haf). rewrite extract_param_exact by done.
    cbn [mbind option_bind]. rewrite take_param_ok by by apply name_content. cbn [mbind option_bind]. rewrite Haf.
    rewrite IH; [done|done|by right|]. cbn [length] in Hr. lia.
Qed.

(** The last value under a name or a beginning of it. *)
Definition last_value (s : string) (ps : list param) (o : option bytes) : option bytes :=
  foldl (fun o p => if abbreviates (name_of p) (str s) then Some (value_of p) else o) o ps.

Lemma abbreviates_first c name x s : abbreviates (c :: name) (x :: s) = true -> tolower c = tolower x.
Proof. unfold abbreviates, lower. rewrite bool_decide_eq_true. cbn. by intros [= ? _]. Qed.
Lemma fields_exact ps : forall f, Forall param_ok ps -> foldl store_param f ps =
  mk_fields (last_value "realm" ps (realm f)) (last_value "opaque" ps (opaque f))
    (last_value "nonce" ps (nonce f)) (last_value "qop" ps (qop f)).
Proof.
  induction ps as [|p ps IH]; intros f Hok; [by destruct f|]. apply Forall_cons in Hok as [(Hne & _ & _) Hok].
  cbn [foldl]. rewrite IH by done. unfold last_value. cbn [foldl].
  destruct (name_of p) as [|c name] eqn:En; [done|].
  assert (Hone : forall a b x y, abbreviates (c :: name) (str (String a x)) = true ->
     abbreviates (c :: name) (str (String b y)) = true -> tolower (Z.of_N (N_of_ascii a)) = tolower (Z.of_N (N_of_ascii b))).
  { intros a b x y Ha Hb. apply abbreviates_first in Ha, Hb. congruence. }
  unfold store_param, store. rewrite En.
  destruct (abbreviates _ (str "realm")) eqn:E1, (abbreviates _ (str "opaque")) eqn:E2,
    (abbreviates _ (str "nonce")) eqn:E3, (abbreviates _ (str "qop")) eqn:E4; try done;
    exfalso; first [discriminate (Hone _ _ _ _ E1 E2)|discriminate (Hone _ _ _ _ E1 E3)|discriminate (Hone _ _ _ _ E1 E4)
      |discriminate (Hone _ _ _ _ E2 E3)|discriminate (Hone _ _ _ _ E2 E4)|discriminate (Hone _ _ _ _ E3 E4)].
Qed.

(** C37: A challenge is read back as it was written: from a list of parameters,
    [name="value"], [name=value] or [name] alone, with commas between them, the code takes
    for each of realm, opaque, nonce and qop the value of the last one with that name, in any case
    of letters.  A shorter name counts as the one it begins, so [n] or [no] is taken for
    a nonce. *)
Theorem challenge_roundtrip ps :
  Forall param_ok ps ->
  read_params (S (length (render_all ps ++ [0]))) (render_all ps ++ [0]) no_fields =
  Some (mk_fields (last_value "realm" ps None) (last_value "opaque" ps None)
          (last_value "nonce" ps None) (last_value "qop" ps None)).
Proof.
  intros Hok. pose proof (fields_exact ps no_fields Hok) as Hf. cbn [realm opaque nonce qop no_fields] in Hf.
  rewrite <- Hf. clear Hf. destruct ps as [|p ps]; [done|].
  cbn [render_all]. rewrite <- app_assoc. apply (read_params_exact ps _ []); [done|by left|].
  assert (Hl : forall l, (length l <= length (render_rest l))%nat).
  { induction l as [|x l IH]; [done|]. cbn [render_rest length]. rewrite length_app. lia. }
  apply Forall_cons in Hok as [(Hne & _ & _) _]. pose proof (Hl ps).
  assert (0 < length (render p))%nat.
  { destruct p; cbn [render name_of] in *; rewrite ?length_app; destruct name; done || (cbn; lia). }
  rewrite !length_app. cbn [length]. lia.
Qed.

(** The witnesses check the conditions with a decision procedure. *)
Definition token_charb (c : Z) : bool := (0 <? c) && negb (isspace c) && negb (c =? 61) && negb (c =? 44).
Definition param_okb (p : param) : bool :=
  negb (bool_decide (name_of p = [])) && forallb token_charb (name_of p) &&
  match p with
  | Quoted _ v => forallb (fun c => (0 <? c) && negb (c =? 34)) v
  | Bare _ v => forallb (fun c => (0 <? c) && negb (c =? 44)) v && bool_decide (trim v = v) &&
                match v with c :: _ => negb (isspace c) && negb (c =? 34) | [] => true end
  | Flag _ => true
  end.
Lemma forallb_Forall (b : Z -> bool) (P : Z -> Prop) l : (forall c, b c = true -> P c) -> forallb b l = true -> Forall P l.
Proof. intros Hb. rewrite forallb_forall. intros Hl. apply Forall_forall. intros x Hx. apply Hb, Hl. by apply list_elem_of_In. Qed.
Lemma param_okb_ok p : param_okb p = true -> param_ok p.
Proof.
  unfold param_okb, param_ok. rewrite !andb_true_iff, negb_true_iff, bool_decide_eq_false. intros [[Hne Hn] Hp].
  split; [done|]. split.
  - eapply forallb_Forall; [|exact Hn]. unfold token_charb, token_char. intros c.
    rewrite !andb_true_iff, !negb_true_iff, Z.ltb_lt, !Z.eqb_neq. tauto.
  - destruct p as [n v|n v|n]; [| |done].
    + eapply forallb_Forall; [|exact Hp]. intros c. rewrite andb_true_iff, negb_true_iff, Z.ltb_lt, Z.eqb_neq. done.
    + rewrite !andb_true_iff, bool_decide_eq_true in Hp. destruct Hp as [[Hv Ht] Hh]. split; [|split; [done|]].
      * eapply forallb_Forall; [|exact Hv]. intros c. rewrite andb_true_iff, negb_true_iff, Z.ltb_lt, Z.eqb_neq. done.
      * destruct v as [|c v]; [done|]. by rewrite andb_true_iff, !negb_true_iff, Z.eqb_neq in Hh.
Qed.

Definition example_challenge : list param :=
  [Quoted (str "REALM") (str "a, b"); Flag (str "stale"); Bare (str "qop") (str "auth"); Quoted (str "no") (str "77")].
Lemma challenge_roundtrip_witness :
  Forall param_ok example_challenge /\
  read_params (S (length (render_all example_challenge ++ [0]))) (render_all example_challenge ++ [0]) no_fields =
  Some (mk_fields (Some (str "a, b")) None (Some (str "77")) (Some (str "auth"))).
Proof.
  assert (H : Forall param_ok example_challenge) by (repeat (apply List.Forall_cons; [apply param_okb_ok; vm_compute; reflexivity|]); constructor).
  split; [exact H|]. rewrite (challenge_roundtrip example_challenge H). vm_compute. reflexivity.
Defined.

Lemma digest_answer_witness :
  exists f, digest_authentication_encode (repeat 0 64) (str "realm=x, nonce=y" ++ [0]) (Some (str "me")) (Some (str "it"))
              (Some (str "GET")) (Some (str "/")) 1 (str "c") =
    Some (Some (answer f (str "me") (str "x") (str "it") (str "y") (str "GET") (str "/") (hex 8 1) (str "c"))).
Proof.
  destruct (digest_answer (repeat 0 64) (str "realm=x, nonce=y") (str "me") (str "it") (str "GET") (str "/") 1 (str "c"))
    as (f & Hf & Ha); [reflexivity|repeat constructor|vm_compute; congruence|].
  exists f. rewrite Ha. assert (He : read_params (S (length (str "realm=x, nonce=y" ++ [0]))) (str "realm=x, nonce=y" ++ [0]) no_fields =
    Some (mk_fields (Some (str "x")) None (Some (str "y")) None)) by (vm_compute; reflexivity).
  rewrite He in Hf. injection Hf as <-. reflexivity.
Defined.

(** [http-connect.c] passes on what follows the seventh byte of the header value: when
    that is just "Digest", the line is past the end of the string. *)
Example digest_past_end ctx user passwd method path count cnonce :
  digest_authentication_encode ctx [] user passwd method path count cnonce = None.
Proof. reflexivity. Qed.
End HttpAuth.
