(* ===== verification/RedParser.v ===== *)
(** The configuration parser of redsocks: [redsocks/parser.c].

    The model keeps the buffer of the parser as memory with the file behind it,
    the line by line reading, the moving of the rest of the buffer and the
    growing of the buffer.  The reference is a lexer over the whole text, and
    the theorems say that the two agree. *)

From Stdlib Require Import Ascii String.
From S2P Require Import Prelude CString.
Import CString.
Open Scope list_scope.

Module Parser.

(** ** Data *)

Inductive disclose_src_e :=
  DISCLOSE_NONE | DISCLOSE_X_FORWARDED_FOR | DISCLOSE_FORWARDED_IP | DISCLOSE_FORWARDED_IPPORT.
Inductive on_proxy_fail_e := ONFAIL_CLOSE | ONFAIL_FORWARD_HTTP_ERR.

Inductive parser_type :=
  | pt_bool | pt_pchar | pt_uint16 | pt_uint32 | pt_in_addr | pt_in_addr2
  | pt_disclose_src | pt_on_proxy_fail | pt_obsolete | pt_redsocks_max_accept_backoff.

(** What is written through the [addr] of an entry; addresses in host byte order.
    A [V_netmask] goes behind the address. *)
Inductive value :=
  | V_bool (b : bool) | V_pchar (s : bytes) | V_uint16 (x : Z) | V_uint32 (x : Z)
  | V_in_addr (x : Z) | V_netmask (x : Z)
  | V_disclose_src (x : disclose_src_e) | V_on_proxy_fail (x : on_proxy_fail_e).

(** [Env] is the memory behind the sections.  [addr] writes a value there, and
    has no result when the pointer is not valid.  The callbacks return 0 or -1
    and the messages they gave to [parser_error]. *)
Record parser_entry (Env : Type) := mk_entry {
  key : bytes;
  type : parser_type;
  addr : value -> Env -> option Env
}.
Arguments mk_entry {Env}. Arguments key {Env}. Arguments type {Env}. Arguments addr {Env}.

Record parser_section (Env : Type) := mk_section {
  name : bytes;
  onenter : option (Env -> option (Z * Env * list string));
  onexit : option (Env -> option (Z * Env * list string));
  entries : list (parser_entry Env)
}.
Arguments mk_section {Env}. Arguments name {Env}. Arguments onenter {Env}.
Arguments onexit {Env}. Arguments entries {Env}.

(** The part of the parser that a token acts on: of the context [error] and
    [sections], of the variables of [parser_run] the current section and the
    tokens.  [heap] answers the next allocations and [randoms] the next calls of
    [red_randui32]; when they are used up allocations succeed. *)
Record tokens (Env : Type) := mk_tokens {
  error : bool;
  heap : list bool;
  randoms : list Z;
  env : Env;
  sections : list (parser_section Env);
  section : option (parser_section Env);
  section_token : option bytes;
  key_token : option bytes;
  value_token : option bytes
}.
Arguments mk_tokens {Env}. Arguments error {Env}. Arguments heap {Env}. Arguments randoms {Env}.
Arguments env {Env}. Arguments sections {Env}. Arguments section {Env}.
Arguments section_token {Env}. Arguments key_token {Env}. Arguments value_token {Env}.
#[export] Instance eta_tokens Env : Eta (tokens Env) := fun p =>
  mk_tokens (error p) (heap p) (randoms p) (env p) (sections p) (section p)
    (section_token p) (key_token p) (value_token p).

(** A file that is read: what is left of it, whether reading it fails at the end,
    and [feof]. *)
Record file := mk_file { content : bytes; broken : bool; eof : bool }.
#[export] Instance eta_file : Eta file := fun f => mk_file (content f) (broken f) (eof f).

Record parser_context (Env : Type) := mk_context {
  fd : file;
  line : Z;
  size : Z;
  filled : Z;
  data : bytes;
  in_comment : bool;
  need_more_space : bool;
  need_more_data : bool;
  toks : tokens Env
}.
Arguments mk_context {Env}. Arguments fd {Env}. Arguments line {Env}. Arguments size {Env}.
Arguments filled {Env}. Arguments data {Env}. Arguments in_comment {Env}.
Arguments need_more_space {Env}. Arguments need_more_data {Env}. Arguments toks {Env}.
#[export] Instance eta_context Env : Eta (parser_context Env) := fun c =>
  mk_context (fd c) (line c) (size c) (filled c) (data c) (in_comment c)
    (need_more_space c) (need_more_data c) (toks c).

(** A message of [parser_error], by its format. *)
Inductive event := Message (fmt : string).

Definition QUOTE : Z := 34.      (* the double quote *)
Definition BACKSLASH : Z := 92.
Definition NEWLINE : Z := 10.
Definition SLASH : Z := 47.
Definition STAR : Z := 42.

Definition unescape (c : Z) : Z :=
  if c =? 110 then 10 else if c =? 116 then 9 else if c =? 114 then 13
  else if c =? BACKSLASH then BACKSLASH else if c =? 39 then 39 else if c =? QUOTE then QUOTE
  else 0.

(** ** Scanning

    [None] is the end of the string before the end of the token. *)

(** The length of the output for a string in quotes; [inl] is an unknown escape. *)
Fixpoint quoted_length (p : bytes) : option (unit + Z) :=
  match p with
  | [] => None
  | c :: r =>
      if c =? QUOTE then Some (inr 0)
      else if c =? BACKSLASH then
        match r with
        | [] => None
        | d :: r =>
            if unescape d =? 0 then Some (inl tt) else sum_map id Z.succ <$> quoted_length r
        end
      else sum_map id Z.succ <$> quoted_length r
  end.

(** The copy loop: the characters and the rest of the string. *)
Fixpoint quoted_copy (p : bytes) : option (bytes * bytes) :=
  match p with
  | [] => None
  | c :: r =>
      if c =? QUOTE then Some ([], r)
      else if c =? BACKSLASH then
        match r with
        | [] => None
        | d :: r => '(t, p) ← quoted_copy r; Some (unescape d :: t, p)
        end
      else '(t, p) ← quoted_copy r; Some (c :: t, p)
  end.

Fixpoint number_length (p : bytes) : option Z :=
  match p with
  | [] => None
  | c :: r =>
      if isdigit c || (c =? 46) then Z.succ <$> number_length r
      else if c =? SLASH then
        match r with
        | [] => None
        | d :: _ =>
            if isdigit d then Z.succ <$> number_length r
            else if (d =? SLASH) || (d =? STAR) then Some 0 else None
        end
      else Some 0
  end.

Fixpoint word_length (p : bytes) : option Z :=
  match p with
  | [] => None
  | c :: r =>
      if isalnum c || (c =? 95) || (c =? 46) || (c =? 45) then Z.succ <$> word_length r else Some 0
  end.

Definition punctuation (c : Z) : bool := (c =? 123) || (c =? 125) || (c =? 61) || (c =? 59).
Definition comment_start (p : bytes) : bool :=
  starts_with [SLASH; SLASH] p || starts_with [SLASH; STAR] p.

Section parser.
Context {Env : Type}.
(** The name service: the addresses of a host, or a failure. *)
Context (getaddrinfo : bytes -> option (list Z)).
Local Abbreviation T := (tokens Env).
Local Abbreviation C := (parser_context Env).

Definition parser_error (fmt : string) : M T event unit := error ::= true;; emit (Message fmt).

Definition malloc : M T event bool :=
  h ← gets heap;
  heap ::= tail h;;
  mret (default true (head h)).
Definition red_randui32 : M T event Z :=
  r ← gets randoms;
  randoms ::= tail r;;
  mret (u32 (default 0 (head r))).

(** The end of [gettoken]: [len + 1] octets are allocated and filled. *)
Definition new_token (len : Z) (copy : option (bytes * bytes)) (iter : bytes) : M T event (option bytes * bytes) :=
  ok ← malloc;
  if negb ok then parser_error "malloc failed";; mret (None, iter)
  else
    '(t, rest) ← must copy;
    _ ← must (mem_write 0 (t ++ [0]) (repeat 0 (Z.to_nat (len + 1))));
    mret (Some t, rest).
Definition copy_plain (len : Z) (p : bytes) : option (bytes * bytes) :=
  t ← mem_read 0 len p; Some (t, slice len (zlen p - len) p).

(** The string from [*iter] on; returns the token, or NULL, and [*iter] afterwards. *)
Definition gettoken (iter : bytes) : M T event (option bytes * bytes) :=
  let iter := skip_spaces iter in
  match iter with
  | [] => mret (None, iter)
  | c :: p =>
      if c =? QUOTE then
        match quoted_length p with
        | None => mret (None, iter)
        | Some (inl _) => parser_error "unknown escaped char after \\";; mret (None, iter)
        | Some (inr len) => new_token len (quoted_copy p) iter
        end
      else if isdigit c then
        match number_length iter with
        | None => mret (None, iter)
        | Some len => new_token len (copy_plain len iter) iter
        end
      else if isalpha c then
        match word_length iter with
        | None => mret (None, iter)
        | Some len => new_token len (copy_plain len iter) iter
        end
      else if punctuation c then new_token 1 (copy_plain 1 iter) iter
      else if comment_start iter then new_token 2 (copy_plain 2 iter) iter
      else parser_error "unexpected char";; mret (None, iter)
  end.

(** ** Values *)

(** [ *addr = v] *)
Definition store (e : parser_entry Env) (v : value) : M T event unit :=
  en ← gets env;
  en ← must (addr e v en);
  env ::= en.

(** The tables of names of [vp_pbool], [vp_disclose_src] and [vp_on_proxy_fail]. *)
Definition booleans : list (bytes * bool) :=
  [(str "ok", true); (str "on", true); (str "yes", true); (str "true", true);
   (str "off", false); (str "no", false); (str "false", false)].
Definition disclose_srcs : list (bytes * disclose_src_e) :=
  [(str "off", DISCLOSE_NONE); (str "no", DISCLOSE_NONE); (str "false", DISCLOSE_NONE);
   (str "X-Forwarded-For", DISCLOSE_X_FORWARDED_FOR); (str "Forwarded_ip", DISCLOSE_FORWARDED_IP);
   (str "Forwarded_ipport", DISCLOSE_FORWARDED_IPPORT)].
Definition on_proxy_fails : list (bytes * on_proxy_fail_e) :=
  [(str "close", ONFAIL_CLOSE); (str "forward_http_err", ONFAIL_FORWARD_HTTP_ERR)].
Fixpoint find_name {A} (l : list (bytes * A)) (token : bytes) : option A :=
  match l with [] => None | (n, x) :: l => if streq token n then Some x else find_name l token end.
Definition vp_name {A} (l : list (bytes * A)) (v : A -> value) (fmt : string)
    (e : parser_entry Env) (token : bytes) : M T event Z :=
  match find_name l token with
  | Some x => store e (v x);; mret 0
  | None => parser_error fmt;; mret (-1)
  end.
Definition vp_pbool := vp_name booleans V_bool "boolean is not parsed".
Definition vp_disclose_src := vp_name disclose_srcs V_disclose_src "disclose_src <%s> is not parsed".
Definition vp_on_proxy_fail := vp_name on_proxy_fails V_on_proxy_fail "on_proxy_fail <%s> is not parsed".

Definition vp_pchar (e : parser_entry Env) (token : bytes) : M T event Z :=
  ok ← malloc;
  if negb ok then parser_error "strdup failed";; mret (-1)
  else store e (V_pchar token);; mret 0.

Definition vp_uint16 (e : parser_entry Env) (token : bytes) : M T event Z :=
  let '(uli, rest) := strtoul token in
  if 0xFFFF <? uli then parser_error "integer out of 16bit range";; mret (-1)
  else if negb (streq rest []) then parser_error "integer is not parsed";; mret (-1)
  else store e (V_uint16 uli);; mret 0.

(** [strtoul] is converted to the 32 bits of [uli]. *)
Definition vp_uint32 (e : parser_entry Env) (token : bytes) : M T event Z :=
  let '(uli, rest) := strtoul token in
  if negb (streq rest []) then parser_error "integer is not parsed";; mret (-1)
  else store e (V_uint32 (u32 uli));; mret 0.

(** The two messages for a failed resolution are one here. *)
Definition vp_in_addr (e : parser_entry Env) (token : bytes) : M T event Z :=
  match inet_aton token with
  | Some ia => store e (V_in_addr ia);; mret 0
  | None =>
      match getaddrinfo token with
      | Some ainfo =>
          r ← red_randui32;
          assert (negb (zlen ainfo =? 0));;
          resolved ← must (ainfo !! Z.to_nat (r mod zlen ainfo));
          store e (V_in_addr resolved);;
          mret 0
      | None => parser_error "unable to resolve %s";; mret (-1)
      end
  end.

Definition vp_in_addr2 (e : parser_entry Env) (token : bytes) : M T event Z :=
  ok ← malloc;
  if negb ok then parser_error "strdup failed";; mret (-1)
  else
    let '(host, mask) :=
      match strchr SLASH token with
      | Some k => (slice 0 k token, Some (slice (k + 1) (zlen token - (k + 1)) token))
      | None => (token, None)
      end in
    retval ← (match inet_aton host with
              | Some ia => store e (V_in_addr ia);; mret 0
              | None => parser_error "invalid IP address";; mret (-1)
              end);
    match mask with
    | None => mret retval
    | Some mask =>
        let '(uli, rest) := strtoul mask in
        if starts_with [46] rest then
          match inet_aton mask with
          | Some ia => store e (V_netmask ia);; mret retval
          | None => parser_error "invalid IP address";; mret (-1)
          end
        else if (0 <? uli) && (uli <? 32) then
          store e (V_netmask (u32 (Z.shiftl (2 ^ 32 - 1) (32 - uli))));; mret retval
        else parser_error "number of netmask bits out of range";; mret (-1)
    end.

Definition vp_obsolete (e : parser_entry Env) (token : bytes) : M T event Z :=
  parser_error "obsolete key, delete it";; mret (-1).
Definition vp_redsocks_max_accept_backoff (e : parser_entry Env) (token : bytes) : M T event Z :=
  parser_error "max_accept_backoff is not per-port setting anymore, move it from `redsocks` to `base`";; mret (-1).

Definition value_parser_by_type (t : parser_type) : parser_entry Env -> bytes -> M T event Z :=
  match t with
  | pt_bool => vp_pbool
  | pt_pchar => vp_pchar
  | pt_uint16 => vp_uint16
  | pt_uint32 => vp_uint32
  | pt_in_addr => vp_in_addr
  | pt_in_addr2 => vp_in_addr2
  | pt_disclose_src => vp_disclose_src
  | pt_on_proxy_fail => vp_on_proxy_fail
  | pt_obsolete => vp_obsolete
  | pt_redsocks_max_accept_backoff => vp_redsocks_max_accept_backoff
  end.

(** ** Tokens *)

Fixpoint report (l : list string) : M T event unit :=
  match l with [] => mret tt | m :: l => parser_error m;; report l end.
Definition callback (f : option (Env -> option (Z * Env * list string))) (fmt : string) : M T event unit :=
  match f with
  | None => mret tt
  | Some f =>
      en ← gets env;
      '(r, en, messages) ← must (f en);
      env ::= en;;
      report messages;;
      when (r =? -1) (parser_error fmt)
  end.

Fixpoint find_section (l : list (parser_section Env)) (token : bytes) : option (parser_section Env) :=
  match l with [] => None | s :: l => if streq (name s) token then Some s else find_section l token end.
Fixpoint find_entry (l : list (parser_entry Env)) (token : bytes) : option (parser_entry Env) :=
  match l with [] => None | e :: l => if streq (key e) token then Some e else find_entry l token end.

Definition open_section : M T event unit :=
  p ← get;
  match section p, section_token p with
  | Some _, _ => parser_error "section-in-section is invalid"
  | None, None => parser_error "expected token before ``{''"
  | None, Some t =>
      (match find_section (sections p) t with
       | Some s => section ::= Some s;; callback (onenter s) "section->onenter failed"
       | None => parser_error "unknown section <%s>"
       end);;
      section_token ::= None
  end.

Definition close_section : M T event unit :=
  p ← get;
  match section p with
  | Some s => callback (onexit s) "section->onexit failed";; section ::= None
  | None => parser_error "can't close non-opened section"
  end.

Definition assignment_sign : M T event unit :=
  p ← get;
  match section p, key_token p with
  | None, _ => parser_error "assignment used outside of any section"
  | Some _, None => parser_error "assignment used without key"
  | Some _, Some _ => mret tt
  end.

Definition assign (s : parser_section Env) (key value : bytes) : M T event unit :=
  match find_entry (entries s) key with
  | Some e =>
      r ← value_parser_by_type (type e) e value;
      when (r =? -1) (parser_error "value <%s> can't be parsed for key <%s>")
  | None => parser_error "assignment with unknown key <%s>"
  end.

Definition end_assignment : M T event unit :=
  p ← get;
  (match section p, key_token p, value_token p with
   | None, _, _ => parser_error "assignment termination outside of any section"
   | Some _, Some _, None => parser_error "assignment has only key <%s> but no value"
   | Some s, Some k, Some v => assign s k v
   | Some _, None, _ => assert false
   end);;
  key_token ::= None;;
  value_token ::= None.

(** Any other token; true when it was kept. *)
Definition plain_token (token : bytes) : M T event bool :=
  p ← get;
  match section p, section_token p, key_token p, value_token p with
  | None, None, _, _ => section_token ::= Some token;; mret true
  | Some _, _, None, _ => key_token ::= Some token;; mret true
  | Some _, _, Some _, None => value_token ::= Some token;; mret true
  | _, _, _, _ =>
      parser_error "invalid token order: key_token=%s, value_token=%s, next token=%s";; mret false
  end.

(** All tokens but the beginnings of comments. *)
Definition config_token (token : bytes) : M T event bool :=
  if streq token (str "{") then open_section;; mret false
  else if streq token (str "}") then close_section;; mret false
  else if streq token (str "=") then assignment_sign;; mret false
  else if streq token (str ";") then end_assignment;; mret false
  else plain_token token.

(** ** The buffer *)

(** A conversion to [int] of a value that does not fit has no result. *)
Definition to_int (x : Z) : M C event Z := assert ((- 2 ^ 31 <=? x) && (x <? 2 ^ 31));; mret x.

Definition memmove (dst src n : Z) : M C event unit :=
  d ← gets data;
  l ← must (mem_read src n d);
  d ← must (mem_write dst l d);
  data ::= d.

Definition context_filled_set (val : Z) : M C event unit :=
  filled ::= val;;
  d ← gets data;
  d ← must (mem_write val [0] d);
  data ::= d.
Definition context_filled_add (shift : Z) : M C event unit :=
  f ← gets filled;
  context_filled_set (f + shift).

(** The characters up to the end of the line, at most [n]. *)
Fixpoint take_line (n : nat) (l : bytes) : bytes * bytes :=
  match n, l with
  | S n, c :: l => if c =? NEWLINE then ([c], l) else let '(t, r) := take_line n l in (c :: t, r)
  | _, _ => ([], l)
  end.
Definition ends_line (l : bytes) : bool := match last l with Some c => c =? NEWLINE | None => false end.

(** [fgets(s, n, f)]: what is stored at [s], or NULL, and the file afterwards. *)
Definition fgets (n : Z) (f : file) : option bytes * file :=
  let '(l, r) := take_line (Z.to_nat (n - 1)) (content f) in
  if (zlen l <? n - 1) && negb (ends_line l) then
    if broken f then (None, mk_file r true (eof f))
    else (if zlen l =? 0 then None else Some (l ++ [0]), mk_file r false true)
  else (Some (l ++ [0]), mk_file r (broken f) (eof f)).
(** [ferror] *)
Definition ferror (f : file) : bool := broken f && (zlen (content f) =? 0).

(** How a part of the loop body ends. *)
Inductive flow := Go | Continue | Return (r : Z).

Definition grow : M C event flow :=
  c ← get;
  if negb (need_more_space c) then mret Go
  else
    ok ← zoom toks malloc;
    if negb ok then zoom toks (parser_error "realloc failure");; mret (Return (-1))
    else
      data ::= (data c ++ repeat 0 (Z.to_nat (size c)));;
      size ::= (size c * 2);;
      need_more_space ::= false;;
      mret Go.

Definition read_line : M C event flow :=
  c ← get;
  if negb (need_more_data c) then mret Go
  else
    let sbegin := filled c in
    n ← to_int (size c - filled c);
    let '(s, f) := fgets n (fd c) in
    fd ::= f;;
    match s with
    | None =>
        if ferror f then zoom toks (parser_error "file read failure");; mret (Return (-1))
        else mret Continue
    | Some s =>
        d ← must (mem_write sbegin s (data c));
        data ::= d;;
        l ← must (c_string (slice sbegin (zlen d - sbegin) d));
        len ← to_int (zlen l);
        context_filled_add len;;
        if (0 <? len) && ends_line l then
          n ← gets line;
          n ← to_int (n + 1);
          line ::= n;;
          need_more_data ::= false;;
          mret Go
        else
          need_more_space ::= true;;
          mret Continue
    end.

(** The string at an offset of the buffer. *)
Definition string_at (iter : Z) : M C event bytes :=
  c ← get;
  l ← must (mem_read iter (zlen (data c) - iter) (data c));
  must (c_string l).

Definition skip_comment : M C event flow :=
  c ← get;
  if negb (in_comment c) then mret Go
  else
    s ← string_at 0;
    match strstr [STAR; SLASH] s with
    | Some k =>
        comment_len ← to_int (k + 2);
        memmove 0 comment_len (filled c - comment_len);;
        context_filled_add (- comment_len);;
        in_comment ::= false;;
        mret Go
    | None =>
        context_filled_set 0;;
        need_more_data ::= true;;
        mret Continue
    end.

(** A comment to the end of the line; [iter] is behind the two slashes, the result
    is [iter] afterwards. *)
Definition line_comment (iter : Z) : M C event Z :=
  s ← string_at iter;
  k ← must (strchr NEWLINE s);
  f ← gets filled;
  let endc := iter + k + 1 in
  let iter := iter - 2 in
  moved_len ← to_int (f - endc);
  memmove iter endc moved_len;;
  context_filled_add (- (endc - iter));;
  mret iter.

Definition open_comment (iter : Z) : M C event Z :=
  f ← gets filled;
  moved_len ← to_int iter;
  memmove 0 iter (f - moved_len);;
  context_filled_add (- moved_len);;
  in_comment ::= true;;
  mret 0.

(** The inner loop; [null] says that [token] is NULL, the result is [iter] and
    that of [token]. *)
Fixpoint token_loop (fuel : nat) (iter : Z) (null : bool) : M C event (Z * bool) :=
  match fuel with
  | O => ub
  | S fuel =>
      c ← get;
      if error (toks c) || in_comment c then mret (iter, null)
      else
        s ← string_at iter;
        '(token, rest) ← zoom toks (gettoken s);
        let iter := iter + (zlen s - zlen rest) in
        match token with
        | None => mret (iter, true)
        | Some token =>
            if streq token (str "//") then iter ← line_comment iter; token_loop fuel iter false
            else if streq token (str "/*") then iter ← open_comment iter; token_loop fuel iter false
            else stored ← zoom toks (config_token token); token_loop fuel iter stored
        end
  end.

Definition run_tokens : M C event flow :=
  c ← get;
  '(iter, null) ← token_loop (S (Z.to_nat (filled c))) 0 true;
  f ← gets filled;
  moved_len ← to_int iter;
  memmove 0 iter (f - moved_len);;
  context_filled_add (- moved_len);;
  when null (need_more_data ::= true);;
  mret Go.

Definition and_then (m1 m2 : M C event flow) : M C event flow :=
  r ← m1; match r with Go => m2 | _ => mret r end.

(** The body of the loop of [parser_run]. *)
Definition parser_iteration : M C event flow :=
  c ← get;
  assert (filled c <? size c);;
  and_then grow (and_then read_line (and_then skip_comment run_tokens)).

Fixpoint parser_loop (fuel : nat) : M C event (option Z) :=
  match fuel with
  | O => ub
  | S fuel =>
      c ← get;
      if error (toks c) || eof (fd c) then mret None
      else
        r ← parser_iteration;
        match r with Return r => mret (Some r) | _ => parser_loop fuel end
  end.

(** Errors that are seen at the end of the file. *)
Definition is_some {A} (o : option A) : bool := match o with Some _ => true | None => false end.
Definition end_of_file : M T event Z :=
  p ← get;
  when (is_some (section p)) (parser_error "unclosed section");;
  when (is_some (section_token p)) (parser_error "stale section_token");;
  when (is_some (key_token p)) (parser_error "stale key_token");;
  when (is_some (value_token p)) (parser_error "stale value_token");;
  e ← gets error;
  mret (if (e : bool) then -1 else 0).

(** The fuel for the outer loop; [parser_total] says that it suffices. *)
Definition parser_fuel (c : C) : nat := S (4 * length (content (fd c)) + 3).

Definition parser_run : M C event Z :=
  c ← get;
  r ← parser_loop (parser_fuel c);
  match r with
  | Some r => mret r
  | None => zoom toks end_of_file
  end.

(** [calloc] and [malloc] succeeded; [en], [answers] and [rs] are what is outside. *)
Definition parser_start (f : file) (en : Env) (answers : list bool) (rs : list Z) : C :=
  mk_context f 0 128 0 (repeat 0 128) false false true (mk_tokens false answers rs en [] None None None None).

Definition parser_add_section (s : parser_section Env) : M C event unit :=
  c ← get;
  toks ::= (toks c) <| sections := s :: sections (toks c) |>.

End parser.
End Parser.
