(* ===== verification/RedLexer.v ===== *)
(** What [redsocks/parser.c] computes: a lexer over the whole text.

    The reference knows no buffer: it splits the complete lines of the text into
    tokens and comments, hands the tokens to the handlers of RedParser.v one by
    one until there is an error, and makes the checks of the end of the file.
    The lemmas of this file say what the scanner gives when more text follows. *)

From Stdlib Require Import Ascii String.
From S2P Require Import Prelude CString RedParser.
Import CString Parser.
Open Scope list_scope.

Module Lexer.

(** [gettoken] without the allocation: a token, the end of the string before the
    end of a token, or an error. *)
Inductive scan := Tok (t rest : bytes) | Stop (rest : bytes) | Bad (fmt : string).

Definition scanned (s : option (bytes * bytes)) (iter : bytes) : scan :=
  match s with Some (t, rest) => Tok t rest | None => Stop iter end.
Definition split_at (len : option Z) (p : bytes) : option (bytes * bytes) :=
  n ← len; Some (slice 0 n p, slice n (zlen p - n) p).

Definition scan_token (iter : bytes) : scan :=
  let iter := skip_spaces iter in
  match iter with
  | [] => Stop iter
  | c :: p =>
      if c =? QUOTE then
        match quoted_length p with
        | Some (inl _) => Bad "unknown escaped char after \\"
        | _ => scanned (quoted_copy p) iter
        end
      else if isdigit c then scanned (split_at (number_length iter) iter) iter
      else if isalpha c then scanned (split_at (word_length iter) iter) iter
      else if punctuation c then scanned (split_at (Some 1) iter) iter
      else if comment_start iter then scanned (split_at (Some 2) iter) iter
      else Bad "unexpected char"
  end.

Definition after (k : Z) (p : bytes) : bytes := drop (Z.to_nat k) p.

(** The tokens of a text that are not in comments, up to the first error. *)
Fixpoint lex_fuel (n : nat) (p : bytes) : list bytes * option string :=
  match n with
  | O => ([], None)
  | S n =>
      match scan_token p with
      | Stop _ => ([], None)
      | Bad m => ([], Some m)
      | Tok t r =>
          if streq t (str "//") then
            match strchr NEWLINE r with Some k => lex_fuel n (after (k + 1) r) | None => ([], None) end
          else if streq t (str "/*") then
            match strstr [STAR; SLASH] r with Some k => lex_fuel n (after (k + 2) r) | None => ([], None) end
          else let '(ts, e) := lex_fuel n r in (t :: ts, e)
      end
  end.
Definition lex (p : bytes) : list bytes * option string := lex_fuel (S (length p)) p.

(** The complete lines of a text. *)
Fixpoint complete (p : bytes) : bytes :=
  match p with
  | [] => []
  | c :: p => match complete p with [] => if c =? NEWLINE then [c] else [] | q => c :: q end
  end.

Section reference.
Context {Env : Type} (getaddrinfo : bytes -> option (list Z)).
Local Abbreviation T := (tokens Env).

Fixpoint config_tokens (ts : list bytes) : M T event unit :=
  match ts with
  | [] => mret tt
  | t :: ts =>
      e ← gets error;
      if (e : bool) then mret tt else config_token getaddrinfo t;; config_tokens ts
  end.
Definition lexical_error (m : option string) : M T event unit :=
  e ← gets error;
  match m with Some m => when (negb e) (parser_error m) | None => mret tt end.
Definition run_lexed (l : list bytes * option string) : M T event Z :=
  config_tokens l.1;; lexical_error l.2;; end_of_file.

(** The reference for a file with the content [text]. *)
Definition parse_text (text : bytes) : M T event Z := run_lexed (lex (complete text)).
End reference.

(** ** Lengths *)

Lemma skip_spaces_split p : exists s, p = s ++ skip_spaces p /\ Forall (fun c => isspace c = true) s.
Proof.
  induction p as [|c p IH]; [by exists []|]. cbn. destruct (isspace c) eqn:E; [|by exists []].
  destruct IH as (s & Hs & Hf). exists (c :: s). cbn. rewrite <- Hs. split; [done|by constructor].
Qed.
Lemma skip_spaces_head p c r : skip_spaces p = c :: r -> isspace c = false.
Proof. induction p as [|d p IH]; [done|]. cbn. destruct (isspace d) eqn:E; [done|]. by intros [= -> ->]. Qed.
Lemma skip_spaces_idem p : skip_spaces (skip_spaces p) = skip_spaces p.
Proof.
  destruct (skip_spaces p) as [|c r] eqn:E; [done|]. cbn. by rewrite (skip_spaces_head _ _ _ E).
Qed.
Lemma skip_spaces_app p q : skip_spaces (p ++ q) = match skip_spaces p with [] => skip_spaces q | s => s ++ q end.
Proof. induction p as [|c p IH]; [done|]. cbn. by destruct (isspace c). Qed.

(** Induction for the loops that step over one or two characters. *)
Lemma list_length_ind {A} (P : list A -> Prop) :
  (forall p, (forall q, (length q < length p)%nat -> P q) -> P p) -> forall p, P p.
Proof.
  intros H p. remember (length p) as n eqn:E. revert p E. induction (Nat.lt_wf_0 n) as [n _ IH].
  intros p ->. apply H. intros q Hq. by eapply IH.
Qed.

(** ** The scanning loops when more text follows *)

Lemma quoted_copy_app q p t r : quoted_copy p = Some (t, r) -> quoted_copy (p ++ q) = Some (t, r ++ q).
Proof.
  revert t r. induction p as [p IH] using list_length_ind. intros t r.
  destruct p as [|c p]; [done|]. cbn. destruct (c =? QUOTE); [by intros [= <- <-]|].
  destruct (c =? BACKSLASH); [destruct p as [|d p]; [done|]|]; cbn;
    intros ([t' r'] & Hp & [= <- <-])%bind_Some; (erewrite IH by (cbn; eauto || lia)); cbn; done.
Qed.
Lemma quoted_copy_split p t r : quoted_copy p = Some (t, r) ->
  exists x, p = x ++ QUOTE :: r /\ zlen t <= zlen x.
Proof.
  revert t r. induction p as [p IH] using list_length_ind. intros t r.
  destruct p as [|c p]; [done|]. cbn. destruct (Z.eqb_spec c QUOTE) as [->|]; [intros [= <- <-]; by exists []|].
  destruct (c =? BACKSLASH); [destruct p as [|d p]; [done|]|]; cbn;
    intros ([t' r'] & Hp & [= <- <-])%bind_Some; (apply IH in Hp as (x & -> & Hx); [|cbn; lia]).
  - exists (c :: d :: x). rewrite !zlen_cons. split; [done|lia].
  - exists (c :: x). rewrite !zlen_cons. split; [done|lia].
Qed.
(** The two passes over a string agree. *)
Lemma quoted_length_copy p :
  match quoted_length p with
  | Some (inr n) => exists t r, quoted_copy p = Some (t, r) /\ n = zlen t
  | Some (inl _) => True
  | None => quoted_copy p = None
  end.
Proof.
  induction p as [p IH] using list_length_ind.
  destruct p as [|c p]; [done|]. cbn. destruct (c =? QUOTE); [by exists [], p|].
  destruct (c =? BACKSLASH).
  - destruct p as [|d p]; [done|]. destruct (unescape d =? 0) eqn:Ed; [done|].
    specialize (IH p ltac:(cbn; lia)). destruct (quoted_length p) as [[?|n]|]; cbn; [done| |by rewrite IH].
    destruct IH as (t & r & -> & ->). cbn. eexists _, _. split; [done|]. rewrite zlen_cons. lia.
  - specialize (IH p ltac:(cbn; lia)). destruct (quoted_length p) as [[?|n]|]; cbn; [done| |by rewrite IH].
    destruct IH as (t & r & -> & ->). cbn. eexists _, _. split; [done|]. rewrite zlen_cons. lia.
Qed.
Lemma quoted_length_app q p x : quoted_length p = Some x -> quoted_length (p ++ q) = Some x.
Proof.
  revert x. induction p as [p IH] using list_length_ind. intros x.
  destruct p as [|c p]; [done|]. cbn. destruct (c =? QUOTE); [done|].
  destruct (c =? BACKSLASH); [destruct p as [|d p]; [done|]; cbn; destruct (unescape d =? 0); [done|]|]; cbn;
    intros (y & Hy & ->)%fmap_Some; (erewrite IH by (cbn; eauto || lia)); done.
Qed.

(** The plain tokens end before a character that is not NUL. *)
Definition not_newline (p : bytes) : Prop := Forall (fun c => c <> NEWLINE) p.

Lemma number_length_app q p n : number_length p = Some n -> number_length (p ++ q) = Some n.
Proof.
  revert n. induction p as [|c p IH]; [done|]. intros n. cbn.
  destruct (isdigit c || (c =? 46)); [intros (y & Hy & ->)%fmap_Some; by rewrite (IH _ Hy)|].
  destruct (c =? SLASH); [|done]. destruct p as [|d p]; [done|]. cbn [app].
  destruct (isdigit d); [|done].
  intros (y & Hy & ->)%fmap_Some. change (d :: p ++ q) with ((d :: p) ++ q). by rewrite (IH _ Hy).
Qed.
Lemma number_length_split p n : number_length p = Some n ->
  exists t c r, p = t ++ c :: r /\ zlen t = n /\ not_newline t.
Proof.
  revert n. induction p as [|c p IH]; [done|]. intros n. cbn.
  assert (Hstep : c <> NEWLINE -> Z.succ <$> number_length p = Some n ->
    exists t c' r, c :: p = t ++ c' :: r /\ zlen t = n /\ not_newline t).
  { intros Hc (y & Hy & ->)%fmap_Some. destruct (IH _ Hy) as (t & d & r & -> & <- & Ht).
    exists (c :: t), d, r. split; [done|]. rewrite zlen_cons. split; [lia|by constructor]. }
  destruct (isdigit c || (c =? 46)) eqn:Ec.
  { apply Hstep. unfold NEWLINE. intros ->. done. }
  destruct (c =? SLASH) eqn:Es.
  - destruct p as [|d p]; [done|]. destruct (isdigit d); [apply Hstep; unfold NEWLINE; by intros ->|].
    destruct ((d =? SLASH) || (d =? STAR)); [|done]. intros [= <-]. exists [], c, (d :: p). by repeat constructor.
  - intros [= <-]. exists [], c, p. by repeat constructor.
Qed.
Lemma word_length_app q p n : word_length p = Some n -> word_length (p ++ q) = Some n.
Proof.
  revert n. induction p as [|c p IH]; [done|]. intros n. cbn.
  destruct (_ || _); [|done]. intros (y & Hy & ->)%fmap_Some. by rewrite (IH _ Hy).
Qed.
Lemma word_length_split p n : word_length p = Some n ->
  exists t c r, p = t ++ c :: r /\ zlen t = n /\ not_newline t.
Proof.
  revert n. induction p as [|c p IH]; [done|]. intros n. cbn.
  destruct (_ || _) eqn:Ec; [|intros [= <-]; exists [], c, p; by repeat constructor].
  intros (y & Hy & ->)%fmap_Some. destruct (IH _ Hy) as (t & d & r & -> & <- & Ht).
  exists (c :: t), d, r. split; [done|]. rewrite zlen_cons. split; [lia|]. constructor; [|done].
  unfold NEWLINE. intros ->. done.
Qed.

(** ** Complete lines *)

Lemma complete_app p q : complete (p ++ q) = match complete q with [] => complete p | l => p ++ l end.
Proof.
  induction p as [|c p IH]; cbn; [by destruct (complete q)|]. rewrite IH.
  destruct (complete q) as [|d l]; [done|]. by destruct p.
Qed.
Lemma complete_snoc p : complete (p ++ [NEWLINE]) = p ++ [NEWLINE].
Proof. by rewrite complete_app. Qed.
Lemma complete_none p : not_newline p -> complete p = [].
Proof. induction 1 as [|c p Hc _ IH]; [done|]. cbn. rewrite IH. by rewrite (proj2 (Z.eqb_neq _ _) Hc). Qed.
(** A text of complete lines is empty or ends with a newline. *)
Lemma complete_last p : complete p = p <-> p = [] \/ exists l, p = l ++ [NEWLINE].
Proof.
  split; [|intros [->|[l ->]]; [done|apply complete_snoc]].
  induction p as [|c p IH]; [by left|]. cbn. destruct (complete p) as [|d q] eqn:E.
  - destruct (Z.eqb_spec c NEWLINE) as [->|]; [|done]. intros [= <-]. right. by exists [].
  - intros [= <-]. right. destruct (IH eq_refl) as [?|[l ->]]; [done|]. by exists (c :: l).
Qed.
Lemma complete_suffix p q : complete (p ++ q) = p ++ q -> complete q = q.
Proof.
  intros [Hn|[l Hl]]%complete_last; apply complete_last; [left; by apply app_eq_nil in Hn as [_ ->]|].
  destruct q as [|c q _] using rev_ind; [by left|]. right. exists q.
  rewrite app_assoc in Hl. by apply app_inj_tail in Hl as [_ ->].
Qed.
(** Behind complete lines the others are found. *)
Lemma complete_behind p q : complete p = p -> complete (p ++ q) = p ++ complete q.
Proof. intros Hp. rewrite complete_app. destruct (complete q); [by rewrite app_nil_r|done]. Qed.
Lemma complete_newline p : complete p = p -> p <> [] -> NEWLINE ∈ p.
Proof. intros [?|[l ->]]%complete_last; [done|]. rewrite elem_of_app, list_elem_of_singleton. auto. Qed.

Lemma strchr_app c p q k : strchr c p = Some k -> strchr c (p ++ q) = Some k.
Proof.
  revert k. induction p as [|d p IH]; [done|]. intros k. cbn. destruct (d =? c); [done|].
  intros (y & Hy & ->)%fmap_Some. by rewrite (IH _ Hy).
Qed.
Lemma starts_with_app p s q : starts_with p s = true -> starts_with p (s ++ q) = true.
Proof. intros [r ->]%starts_with_spec. apply starts_with_spec. exists (r ++ q). by rewrite app_assoc. Qed.
Lemma starts_with_app_inv p s q :
  (length p <= length s)%nat -> starts_with p (s ++ q) = true -> starts_with p s = true.
Proof.
  revert s. induction p as [|c p IH]; [done|]. intros [|d s]; cbn; [lia|].
  intros ?. rewrite !andb_true_iff. intros [? ?]. split; [done|]. apply IH; [lia|done].
Qed.
Lemma strstr_app p s q k : strstr p s = Some k -> strstr p (s ++ q) = Some k.
Proof.
  revert k. induction s as [|c s IH]; intros k Hs.
  - cbn -[starts_with] in Hs. destruct (starts_with p []) eqn:E; [|done].
    apply (starts_with_app _ _ q) in E. injection Hs as <-. cbn in E. destruct q; cbn -[starts_with]; by rewrite E.
  - destruct (strstr_Some _ _ _ Hs) as (s1 & s2 & Hsp & _).
    change ((if starts_with p ((c :: s) ++ q) then Some 0 else Z.succ <$> strstr p (s ++ q)) = Some k).
    cbn -[starts_with] in Hs. destruct (starts_with p (c :: s)) eqn:E.
    + by rewrite (starts_with_app _ _ _ E).
    + destruct (starts_with p ((c :: s) ++ q)) eqn:E'.
      { apply starts_with_app_inv in E'; [congruence|]. rewrite Hsp, !length_app. lia. }
      apply fmap_Some in Hs as (y & Hy & ->). by rewrite (IH _ Hy).
Qed.
(** The end of a comment does not straddle lines. *)
Lemma strstr_behind p q : complete p = p -> strstr [STAR; SLASH] p = None ->
  strstr [STAR; SLASH] (p ++ q) = Z.add (zlen p) <$> strstr [STAR; SLASH] q.
Proof.
  induction p as [|c p IH]; intros Hp Hs.
  { cbn [app]. change (zlen (@nil Z)) with 0. by destruct (strstr _ q). }
  assert (Hp' : complete p = p) by by apply (complete_suffix [c]).
  change (strstr [STAR; SLASH] (c :: p)) with
    (if starts_with [STAR; SLASH] (c :: p) then Some 0 else Z.succ <$> strstr [STAR; SLASH] p) in Hs.
  change (strstr [STAR; SLASH] ((c :: p) ++ q)) with
    (if starts_with [STAR; SLASH] ((c :: p) ++ q) then Some 0 else Z.succ <$> strstr [STAR; SLASH] (p ++ q)).
  destruct (starts_with [STAR; SLASH] (c :: p)) eqn:E; [done|]. apply fmap_None in Hs.
  destruct (starts_with [STAR; SLASH] ((c :: p) ++ q)) eqn:E'.
  - destruct p as [|d p]; [|by apply starts_with_app_inv in E'; [congruence|cbn; lia]].
    apply complete_last in Hp as [?|[l Hl]]; [done|]. destruct l as [|? [|]]; try done.
    injection Hl as ->. done.
  - rewrite (IH Hp' Hs). destruct (strstr _ q); cbn; [|done]. rewrite zlen_cons. f_equal. lia.
Qed.

(** ** The scanner *)

(** A plain token of length [n]: not empty, on one line. *)
Definition plain (n : Z) (p : bytes) : Prop :=
  exists t c r, p = (t ++ [c]) ++ r /\ zlen (t ++ [c]) = n /\ c <> NEWLINE.

Lemma plain_intro t n p r : 0 < n -> p = t ++ r -> zlen t = n -> not_newline t -> plain n p.
Proof.
  intros Hn -> Ht Hnl. destruct t as [|c t _] using rev_ind; [rewrite zlen_nil in Ht; lia|].
  apply Forall_app in Hnl as [_ Hc]. apply Forall_inv in Hc. by exists t, c, r.
Qed.
Lemma number_plain c p n : isdigit c = true -> number_length (c :: p) = Some n -> plain n (c :: p).
Proof.
  intros Hc Hn. destruct (number_length_split _ _ Hn) as (t & d & r & Hp & Ht & Hnl).
  eapply plain_intro; [|exact Hp|exact Ht|exact Hnl]. cbn in Hn. rewrite Hc in Hn. cbn in Hn.
  apply fmap_Some in Hn as (y & Hy & ->). destruct (number_length_split _ _ Hy) as (t' & ? & ? & _ & <- & _). zlia.
Qed.
Lemma word_plain c p n : isalpha c = true -> word_length (c :: p) = Some n -> plain n (c :: p).
Proof.
  intros Hc Hn. destruct (word_length_split _ _ Hn) as (t & d & r & Hp & Ht & Hnl).
  eapply plain_intro; [|exact Hp|exact Ht|exact Hnl]. cbn in Hn. unfold isalnum in Hn. rewrite Hc in Hn. cbn in Hn.
  apply fmap_Some in Hn as (y & Hy & ->). destruct (word_length_split _ _ Hy) as (t' & ? & ? & _ & <- & _). zlia.
Qed.
Lemma punctuation_plain c p : punctuation c = true -> plain 1 (c :: p).
Proof. intros Hc. exists [], c, p. split_and!; [done..|]. unfold NEWLINE. by intros ->. Qed.
Lemma comment_plain p : comment_start p = true -> plain 2 p.
Proof. intros [[r ->]%starts_with_spec|[r ->]%starts_with_spec]%orb_true_iff; [by exists [SLASH], SLASH, r|by exists [SLASH], STAR, r]. Qed.

(** The lengths of plain tokens, and where the others go. *)
Inductive kind := Quoted (p : bytes) | Plain (n : option Z) | Unexpected.
Definition kind_of (c : Z) (p : bytes) : kind :=
  if c =? QUOTE then Quoted p
  else if isdigit c then Plain (number_length (c :: p))
  else if isalpha c then Plain (word_length (c :: p))
  else if punctuation c then Plain (Some 1)
  else if comment_start (c :: p) then Plain (Some 2)
  else Unexpected.

Lemma kind_plain c p n : kind_of c p = Plain (Some n) -> plain n (c :: p).
Proof.
  unfold kind_of. repeat case_match; intros [= Hn]; subst;
    eauto using number_plain, word_plain, punctuation_plain, comment_plain.
Qed.
Lemma split_at_plain n p : plain n p ->
  exists t c r, p = (t ++ [c]) ++ r /\ split_at (Some n) p = Some (t ++ [c], r) /\
    copy_plain n p = Some (t ++ [c], r) /\ zlen (t ++ [c]) = n /\ c <> NEWLINE.
Proof.
  intros (t & c & r & -> & <- & Hc). exists t, c, r. set (l := t ++ [c]).
  assert (H1 : slice 0 (zlen l) (l ++ r) = l) by by apply slice_app_l.
  assert (H2 : slice (zlen l) (zlen (l ++ r) - zlen l) (l ++ r) = r).
  { apply slice_app_r; [done|rewrite zlen_app; lia]. }
  split_and!; [done| | |done|done].
  - cbn. by rewrite H1, H2.
  - unfold copy_plain. rewrite mem_read_Some by (rewrite ?zlen_app; zlia). cbn. by rewrite H1, H2.
Qed.

Lemma scan_token_kind iter : scan_token iter =
  match skip_spaces iter with
  | [] => Stop []
  | c :: p =>
      match kind_of c p with
      | Quoted p =>
          match quoted_length p with
          | Some (inl _) => Bad "unknown escaped char after \\"
          | _ => scanned (quoted_copy p) (c :: p)
          end
      | Plain n => scanned (split_at n (c :: p)) (c :: p)
      | Unexpected => Bad "unexpected char"
      end
  end.
Proof. unfold scan_token, kind_of. destruct (skip_spaces iter) as [|c p]; [done|]. by repeat case_match. Qed.

Lemma kind_quoted c p p' : kind_of c p = Quoted p' -> c = QUOTE /\ p' = p.
Proof. unfold kind_of. destruct (Z.eqb_spec c QUOTE) as [->|]; [by intros [= ->]|]. by repeat case_match. Qed.

Lemma scan_split iter t r : scan_token iter = Tok t r ->
  exists x c, iter = x ++ c :: r /\ c <> NEWLINE /\ zlen t <= zlen x + 1.
Proof.
  rewrite scan_token_kind. destruct (skip_spaces_split iter) as (s & Hs & _).
  destruct (skip_spaces iter) as [|c p]; [done|]. subst iter. destruct (kind_of c p) as [p'|n|] eqn:Ek; [| |done].
  - apply kind_quoted in Ek as [-> ->]. intros Hq.
    assert (Hc : quoted_copy p = Some (t, r)).
    { destruct (quoted_length p) as [[]|]; [done|..]; destruct (quoted_copy p) as [[]|]; try done; by injection Hq as -> ->. }
    destruct (quoted_copy_split _ _ _ Hc) as (x & -> & Hx). exists (s ++ QUOTE :: x), QUOTE.
    rewrite <- app_assoc. rewrite zlen_app, zlen_cons. split; [done|]. split; [done|zlia].
  - destruct n as [n|]; [|done]. destruct (split_at_plain _ _ (kind_plain _ _ _ Ek)) as (t' & d & r' & -> & -> & _ & Hn & Hd).
    intros [= <- <-]. exists (s ++ t'), d. rewrite <- !app_assoc. split; [done|]. split; [done|]. rewrite !zlen_app, zlen_cons, zlen_nil. zlia.
Qed.

(** More text behind a string changes a token or an error only if the string is
    not made of complete lines. *)
Lemma kind_app c p q : kind_of c p <> Unexpected \/ complete (c :: p) = c :: p ->
  kind_of c (p ++ q) =
    match kind_of c p with
    | Quoted p => Quoted (p ++ q)
    | Plain (Some n) => Plain (Some n)
    | Plain None => Plain (if isdigit c then number_length (c :: p ++ q) else word_length (c :: p ++ q))
    | Unexpected => Unexpected
    end.
Proof.
  unfold kind_of. intros Hp. destruct (c =? QUOTE); [done|].
  destruct (isdigit c).
  { destruct (number_length (c :: p)) eqn:E; [|done]. by apply (number_length_app q) in E as <-. }
  destruct (isalpha c).
  { destruct (word_length (c :: p)) eqn:E; [|done]. by apply (word_length_app q) in E as <-. }
  destruct (punctuation c); [done|].
  assert (Hs : forall x, starts_with [SLASH; x] (c :: p ++ q) = true -> x <> NEWLINE ->
            complete (c :: p) = c :: p -> starts_with [SLASH; x] (c :: p) = true).
  { intros x Hx Hn Hc. destruct p as [|d p]; [|done].
    apply complete_last in Hc as [?|[l Hl]]; [done|]. destruct l as [|? [|]]; try done. by injection Hl as ->. }
  unfold comment_start in *.
  destruct (starts_with [SLASH; SLASH] (c :: p)) eqn:E1.
  { change (c :: p ++ q) with ((c :: p) ++ q). by rewrite (starts_with_app _ _ _ E1). }
  destruct (starts_with [SLASH; STAR] (c :: p)) eqn:E2.
  { change (c :: p ++ q) with ((c :: p) ++ q). rewrite (starts_with_app _ _ q E2). by rewrite orb_true_r. }
  destruct Hp as [Hp|Hp]; [done|].
  destruct (starts_with [SLASH; SLASH] (c :: p ++ q)) eqn:E3; [by rewrite Hs in E1|].
  destruct (starts_with [SLASH; STAR] (c :: p ++ q)) eqn:E4; [by rewrite Hs in E2|done].
Qed.

Lemma skip_spaces_complete p : complete p = p -> complete (skip_spaces p) = skip_spaces p.
Proof. intros Hp. destruct (skip_spaces_split p) as (s & Hs & _). rewrite Hs in Hp at 1 2. by apply complete_suffix in Hp. Qed.

Lemma scan_app p q t r : scan_token p = Tok t r -> scan_token (p ++ q) = Tok t (r ++ q).
Proof.
  rewrite !scan_token_kind, skip_spaces_app. destruct (skip_spaces p) as [|c s]; [done|]. cbn [app].
  destruct (kind_of c s) as [s'|[n|]|] eqn:Ek; [..|done].
  all: rewrite kind_app, Ek by (left; congruence).
  - destruct (kind_quoted _ _ _ Ek) as [-> ->]. pose proof (quoted_length_copy s) as Hl.
    destruct (quoted_length s) as [[]|] eqn:El; [done| |by rewrite Hl].
    destruct Hl as (t' & r' & Hc & ->). rewrite (quoted_length_app _ _ _ El), Hc. intros [= <- <-].
    by rewrite (quoted_copy_app _ _ _ _ Hc).
  - pose proof (kind_plain _ _ _ Ek) as Hp. destruct (split_at_plain _ _ Hp) as (t' & d & r' & Hs & -> & _ & Hn & Hd).
    intros [= <- <-]. change (c :: s ++ q) with ((c :: s) ++ q). rewrite Hs, <- app_assoc.
    destruct (split_at_plain n ((t' ++ [d]) ++ r' ++ q)) as (t2 & d2 & r2 & Heq & -> & _ & Hn2 & _).
    { by exists t', d, (r' ++ q). }
    assert (Hl : t' ++ [d] = t2 ++ [d2] /\ r' ++ q = r2).
    { apply app_inj_1; [|done]. unfold zlen in *. lia. }
    destruct Hl as [<- <-]. done.
  - done.
Qed.

Lemma scan_bad p q m : complete p = p -> scan_token p = Bad m -> scan_token (p ++ q) = Bad m.
Proof.
  intros Hp. rewrite !scan_token_kind, skip_spaces_app. apply skip_spaces_complete in Hp.
  destruct (skip_spaces p) as [|c s]; [done|]. cbn [app]. rewrite kind_app by by right.
  destruct (kind_of c s) as [s'|n|]; [| |done].
  - destruct (quoted_length s') as [x|] eqn:El.
    + rewrite (quoted_length_app _ _ _ El). destruct x; [done|]. by destruct (quoted_copy s') as [[]|].
    + by destruct (quoted_copy s') as [[]|].
  - by destruct (split_at n _) as [[]|].
Qed.

Lemma scan_stop p r : scan_token p = Stop r -> r = skip_spaces p /\ scan_token r = Stop r.
Proof.
  assert (H : forall q, scan_token p = Stop q -> q = skip_spaces p).
  { intros q. rewrite scan_token_kind. destruct (skip_spaces p) as [|c s]; [by intros [= <-]|].
    destruct (kind_of c s) as [s'|n|] eqn:Ek; [| |done].
    - destruct (kind_quoted _ _ _ Ek) as [-> ->]. destruct (quoted_length s) as [[]|]; [done|..]; destruct (quoted_copy s) as [[]|]; cbn [scanned]; by try intros [= <-].
    - destruct (split_at n _) as [[]|]; cbn [scanned]; by try intros [= <-]. }
  intros Hs. pose proof (H _ Hs) as ->. split; [done|]. rewrite <- Hs.
  by rewrite !scan_token_kind, skip_spaces_idem.
Qed.

(** ** The lexer *)

Lemma scan_shorter p t r : scan_token p = Tok t r -> (length r < length p)%nat.
Proof. intros (x & c & -> & _)%scan_split. rewrite length_app. cbn. lia. Qed.
Lemma after_shorter k p : (length (after k p) <= length p)%nat.
Proof. unfold after. rewrite length_drop. lia. Qed.

Lemma lex_fuel_enough n m p : (length p < n)%nat -> (length p < m)%nat -> lex_fuel n p = lex_fuel m p.
Proof.
  revert n m. induction p as [p IH] using list_length_ind. intros [|n] [|m] Hn Hm; try lia. cbn [lex_fuel].
  destruct (scan_token p) as [t r| |] eqn:Es; [|done..]. apply scan_shorter in Es.
  destruct (streq t (str "//")).
  { destruct (strchr NEWLINE r) as [k|]; [|done]. pose proof (after_shorter (k + 1) r). apply IH; lia. }
  destruct (streq t (str "/*")).
  { destruct (strstr _ r) as [k|]; [|done]. pose proof (after_shorter (k + 2) r). apply IH; lia. }
  rewrite (IH r ltac:(lia) n m) by lia. done.
Qed.

Lemma lex_step p : lex p =
  match scan_token p with
  | Stop _ => ([], None)
  | Bad m => ([], Some m)
  | Tok t r =>
      if streq t (str "//") then
        match strchr NEWLINE r with Some k => lex (after (k + 1) r) | None => ([], None) end
      else if streq t (str "/*") then
        match strstr [STAR; SLASH] r with Some k => lex (after (k + 2) r) | None => ([], None) end
      else (t :: (lex r).1, (lex r).2)
  end.
Proof.
  unfold lex at 1. cbn [lex_fuel]. destruct (scan_token p) as [t r| |] eqn:Es; [|done..]. apply scan_shorter in Es.
  destruct (streq t (str "//")).
  { destruct (strchr NEWLINE r) as [k|]; [|done]. pose proof (after_shorter (k + 1) r). apply lex_fuel_enough; lia. }
  destruct (streq t (str "/*")).
  { destruct (strstr _ r) as [k|]; [|done]. pose proof (after_shorter (k + 2) r). apply lex_fuel_enough; lia. }
  rewrite (lex_fuel_enough (length p) (S (length r)) r) by lia. fold (lex r). by destruct (lex r).
Qed.

(** Spaces in front do not matter. *)
Lemma lex_skip p : lex (skip_spaces p) = lex p.
Proof. rewrite lex_step, (lex_step p), !scan_token_kind, skip_spaces_idem. done. Qed.

Lemma wp_returns {S E A} (m : M S E A) x s : wp m (fun a s' t => (a, s', t) = x) s -> m s = Some x.
Proof. unfold wp. destruct (m s) as [[[a s'] t]|]; [by intros ->|done]. Qed.

(** [gettoken] is the scanner when allocation succeeds. *)
Section gettoken.
Context {Env : Type}.
Local Abbreviation T := (tokens Env).

Lemma new_token_ok len t r iter (p : T) : heap p = [] -> zlen t = len ->
  new_token len (Some (t, r)) iter p = Some ((Some t, r), p, []).
Proof.
  intros Hh <-. apply wp_returns. unfold new_token, malloc. do 5 mstep. rewrite Hh. cbn [head default negb].
  mstep. cbn [negb]. do 2 mstep; [done|]. cbn iota. mstep. eapply wp_must.
  { apply mem_write_Some; [lia|]. unfold zlen. rewrite length_app, repeat_length. cbn [length]. lia. }
  mstep. destruct p. cbn in Hh. by subst.
Qed.

Lemma gettoken_scan iter (p : T) : heap p = [] ->
  match scan_token iter with
  | Tok t r => gettoken iter p = Some ((Some t, r), p, [])
  | Stop r => gettoken iter p = Some ((None, r), p, [])
  | Bad m => gettoken iter p = Some ((None, skip_spaces iter), p <| error := true |>, [Message m])
  end.
Proof.
  intros Hh. rewrite scan_token_kind. unfold gettoken. destruct (skip_spaces iter) as [|c s]; [done|].
  pose proof (kind_plain c s) as Hpl. revert Hpl. unfold kind_of.
  assert (Hplain : forall n, (forall m, Plain n = Plain (Some m) -> plain m (c :: s)) ->
    match scanned (split_at n (c :: s)) (c :: s) with
    | Tok t r => match n with None => mret (None, c :: s) | Some m => new_token m (copy_plain m (c :: s)) (c :: s) end p = Some ((Some t, r), p, [])
    | Stop r => match n with None => mret (None, c :: s) | Some m => new_token m (copy_plain m (c :: s)) (c :: s) end p = Some ((None, r), p, [])
    | Bad m => False
    end).
  { intros [n|] Hn; [|done]. specialize (Hn n eq_refl).
    destruct (split_at_plain _ _ Hn) as (t & d & r & _ & -> & -> & Hz & _). cbn [scanned]. by apply new_token_ok. }
  destruct (c =? QUOTE); [intros _|destruct (isdigit c); [intros Hn|destruct (isalpha c); [intros Hn|
    destruct (punctuation c); [intros Hn|destruct (comment_start _); intros Hn; [|done]]]]].
  1: { pose proof (quoted_length_copy s) as Hl. destruct (quoted_length s) as [[[]|n]|]; [done| |by rewrite Hl].
       destruct Hl as (t & r & -> & ->). by apply new_token_ok. }
  all: specialize (Hplain _ Hn); by destruct (split_at _ _) as [[]|].
Qed.
End gettoken.

End Lexer.
