(* ===== verification/RedRun.v ===== *)
(** The parser of redsocks computes what the lexer says.

    The invariant of [parser_run] says what the buffer holds: the part of the
    text that was read and is not yet consumed, followed by a NUL.  What the
    reference gives for the buffer and the rest of the file is the same in every
    iteration, whatever the length of the lines and wherever the buffer was
    moved or grown. *)

From Stdlib Require Import Ascii String.
From S2P Require Import Prelude System CString RedParser RedLexer.
Import CString Parser Lexer.
Open Scope list_scope.

Module Run.

Section run.
Context {Env : Type} (getaddrinfo : bytes -> option (list Z)).
Local Abbreviation T := (tokens Env).
Local Abbreviation C := (parser_context Env).
Local Abbreviation config_token := (config_token getaddrinfo).
Implicit Types (p : T).
Local Abbreviation run_lexed := (run_lexed getaddrinfo).

(** ** The rest of the reference *)

(** From [p], [m] ends with the outcome [out] of the whole run, of which the
    messages [tr] have been given. *)
Definition behind (m : M T event Z) (out : Z * T * list event) (tr : list event) (p : T) : Prop :=
  exists t, m p = Some (out.1, t) /\ out.2 = tr ++ t.

Definition ref (q : bytes) : M T event Z := run_lexed (lex q).
Definition ref_comment (q : bytes) : M T event Z :=
  match strstr [STAR; SLASH] q with Some k => ref (after (k + 2) q) | None => end_of_file end.
Definition ref_rest (comment : bool) (q : bytes) : M T event Z := if comment then ref_comment q else ref q.

Lemma behind_ext m m' out tr p : m p = m' p -> behind m out tr p -> behind m' out tr p.
Proof. intros Heq. unfold behind. by rewrite Heq. Qed.
Lemma behind_bind {A} (m : M T event A) (f : A -> M T event Z) out tr p :
  behind (m ≫= f) out tr p -> exists a p' t, m p = Some (a, p', t) /\ behind (f a) out (tr ++ t) p'.
Proof.
  intros (t & Hm & Ht). unfold mbind, M_bind in Hm. destruct (m p) as [[[a p'] t1]|]; [|done].
  destruct (f a p') as [[[b p''] t2]|] eqn:Hf; [|done]. injection Hm as Hm <-.
  exists a, p', t1. split; [done|]. exists t2. rewrite Hf, <- app_assoc. split; [by rewrite Hm|done].
Qed.

Lemma bind_quiet {A B} (m : M T event A) (f : A -> M T event B) a p :
  m p = Some (a, p, []) -> (m ≫= f) p = f a p.
Proof. intros Hm. unfold mbind, M_bind. rewrite Hm. by destruct (f a p) as [[[]]|]. Qed.
Lemma bind_assoc {A B D} (m : M T event A) (f : A -> M T event B) (g : B -> M T event D) p :
  ((m ≫= f) ≫= g) p = (m ≫= (fun a => f a ≫= g)) p.
Proof.
  unfold mbind, M_bind. destruct (m p) as [[[a p1] t1]|]; [|done]. destruct (f a p1) as [[[b p2] t2]|]; [|done].
  destruct (g b p2) as [[[d p3] t3]|]; [|done]. by rewrite app_assoc.
Qed.

Lemma config_tokens_error l p : error p = true -> config_tokens getaddrinfo l p = Some (tt, p, []).
Proof. intros He. destruct l; [done|]. cbn [config_tokens]. by rewrite (bind_quiet _ _ (error p)), He. Qed.
Lemma lexical_error_done m p : error p = true \/ m = None -> lexical_error m p = Some (tt, p, []).
Proof.
  intros Hm. unfold lexical_error. rewrite (bind_quiet _ _ (error p)) by done.
  destruct m; [|done]. by destruct Hm as [-> |].
Qed.
Lemma run_lexed_error l p : error p = true -> run_lexed l p = end_of_file p.
Proof.
  intros He. unfold Lexer.run_lexed. rewrite (bind_quiet _ _ tt) by by apply config_tokens_error.
  by rewrite (bind_quiet _ _ tt) by (apply lexical_error_done; auto).
Qed.
Lemma run_lexed_nil p : run_lexed ([], None) p = end_of_file p.
Proof.
  unfold Lexer.run_lexed. rewrite (bind_quiet _ _ tt) by done.
  by rewrite (bind_quiet _ _ tt) by (apply lexical_error_done; auto).
Qed.
Lemma run_lexed_bad m p : error p = false -> run_lexed ([], Some m) p = (parser_error m;; end_of_file) p.
Proof.
  intros He. unfold Lexer.run_lexed. rewrite (bind_quiet _ _ tt) by done.
  cbn [fst snd]. unfold mbind, M_bind, lexical_error. cbn [gets]. unfold mbind, M_bind, gets. by rewrite He.
Qed.
Lemma run_lexed_cons t ts m p : error p = false ->
  run_lexed (t :: ts, m) p = (config_token t;; run_lexed (ts, m)) p.
Proof.
  intros He. unfold Lexer.run_lexed. cbn [fst snd config_tokens].
  rewrite bind_assoc, (bind_quiet _ _ (error p)), He by done. by rewrite bind_assoc.
Qed.

(** ** The buffer *)

Definition holds (c : C) (B : bytes) : Prop :=
  (exists junk, data c = B ++ 0 :: junk) /\ filled c = zlen B /\ size c = zlen (data c) /\
  Forall (fun x => x <> 0) B.

Lemma mem_read_app {A} n (l1 l2 l3 : list A) :
  n = zlen l2 -> mem_read (zlen l1) n (l1 ++ l2 ++ l3) = Some l2.
Proof.
  intros ->. rewrite mem_read_Some by (rewrite ?zlen_app; zlia).
  f_equal. rewrite slice_app_shift, Z.sub_diag by lia. by apply slice_app_l.
Qed.
Lemma mem_write_app {A} (l1 l2 l3 new : list A) :
  zlen new = zlen l2 -> mem_write (zlen l1) new (l1 ++ l2 ++ l3) = Some (l1 ++ new ++ l3).
Proof.
  intros Hn. rewrite mem_write_Some by (rewrite ?zlen_app; zlia). f_equal. unfold splice. rewrite Hn.
  unfold zlen. rewrite <- Nat2Z.inj_add, !Nat2Z.id, take_app_length. do 2 f_equal.
  by rewrite app_assoc, <- length_app, drop_app_length.
Qed.
(** Some octets at an offset, whatever they are. *)
Lemma split_len {A} (l : list A) n : 0 <= n <= zlen l -> exists l1 l2, l = l1 ++ l2 /\ zlen l1 = n.
Proof.
  intros Hn. exists (take (Z.to_nat n) l), (drop (Z.to_nat n) l). split; [by rewrite take_drop|]. by apply zlen_take.
Qed.

Lemma wp_filled_set B x junk c (Q : unit -> C -> list event -> Prop) :
  data c = B ++ x :: junk -> size c = zlen (data c) -> Forall (fun x => x <> 0) B ->
  (forall d, zlen d = zlen (data c) -> holds (c <| data := d |> <| filled := zlen B |>) B ->
     Q tt (c <| data := d |> <| filled := zlen B |>) []) ->
  wp (context_filled_set (zlen B)) Q c.
Proof.
  intros Hd Hs HB HQ. unfold context_filled_set. do 5 mstep. mstep.
  { sug. rewrite Hd. apply (mem_write_app B [x] junk [0]). done. }
  mstep. refine (HQ (B ++ [0] ++ junk) _ _).
  - rewrite Hd. unfold zlen. rewrite !length_app. cbn [length]. lia.
  - split_and!; sug; [by exists junk|done| |done].
    rewrite Hs, Hd. unfold zlen. rewrite !length_app. cbn [length]. lia.
Qed.
Lemma wp_filled_add B x junk c n (Q : unit -> C -> list event -> Prop) :
  filled c + n = zlen B -> data c = B ++ x :: junk -> size c = zlen (data c) -> Forall (fun x => x <> 0) B ->
  (forall d, zlen d = zlen (data c) -> holds (c <| data := d |> <| filled := zlen B |>) B ->
     Q tt (c <| data := d |> <| filled := zlen B |>) []) ->
  wp (context_filled_add n) Q c.
Proof. intros Hn Hd Hs HB HQ. unfold context_filled_add. do 2 mstep. rewrite Hn. by eapply wp_filled_set. Qed.

(** The part [X] of the buffer is deleted. *)
Lemma wp_delete {A} (m : M C event A) P X S c dst src n k (Q : A -> C -> list event -> Prop) :
  holds c (P ++ X ++ S) -> dst = zlen P -> src = zlen P + zlen X -> n = zlen S -> k = - zlen X ->
  (forall d, zlen d = zlen (data c) -> holds (c <| data := d |> <| filled := zlen (P ++ S) |>) (P ++ S) ->
     wp m Q (c <| data := d |> <| filled := zlen (P ++ S) |>)) ->
  wp (memmove dst src n;; context_filled_add k;; m) Q c.
Proof.
  intros ([junk Hd] & Hf & Hs & HB) -> -> -> -> HQ.
  assert (HB' : Forall (fun x => x <> 0) (P ++ S)).
  { rewrite !Forall_app in *. tauto. }
  unfold memmove. do 4 mstep. mstep.
  { rewrite Hd, <- !app_assoc, app_assoc, <- zlen_app. by apply mem_read_app. }
  mstep.
  destruct (split_len (X ++ S ++ 0 :: junk) (zlen S)) as (l1 & l2 & Hl & Hn); [rewrite !zlen_app, zlen_cons; zlia|].
  mstep.
  { rewrite Hd, <- !app_assoc, Hl. by apply mem_write_app. }
  mstep.
  assert (Hl2 : exists x l3, l2 = x :: l3).
  { destruct l2 as [|x l3]; [|by exists x, l3]. apply (f_equal zlen) in Hl.
    rewrite !zlen_app, zlen_cons, zlen_nil in Hl. zlia. }
  destruct Hl2 as (x & l3 & ->).
  assert (Hz : zlen (P ++ S ++ x :: l3) = zlen (data c)).
  { rewrite Hd, <- !app_assoc, Hl, !zlen_app. lia. }
  mstep. eapply (wp_filled_add (P ++ S) x l3); sug.
  - rewrite Hf, !zlen_app. lia.
  - by rewrite <- app_assoc.
  - by rewrite Hz.
  - done.
  - intros d Hd' Hh. eapply wp_mono; [apply HQ; [by rewrite Hd'|exact Hh]|]. done.
Qed.

Lemma wp_string_at P B c iter (Q : bytes -> C -> list event -> Prop) :
  holds c (P ++ B) -> iter = zlen P -> Q B c [] -> wp (string_at iter) Q c.
Proof.
  intros ([junk Hd] & Hf & Hs & HB) -> HQ. unfold string_at. do 3 mstep. mstep.
  { rewrite Hd, <- app_assoc, <- (app_nil_r (B ++ 0 :: junk)). apply mem_read_app.
    unfold zlen. rewrite !length_app. cbn [length]. lia. }
  apply Forall_app in HB as [_ HB]. mstep; [|exact HQ]. by apply c_string_app.
Qed.

(** ** Allocation keeps succeeding *)

Local Abbreviation keeps := (stays (fun p => heap p = [])).

Lemma keeps_config_token t : keeps (config_token t).
Proof.
  assert (He : forall fmt, keeps (parser_error fmt)) by (intros; unfold parser_error; repeat sstep).
  assert (Hm : keeps malloc).
  { intros p a p' u Hp. unfold malloc, mbind, M_bind. cbn. rewrite Hp. by intros [= _ <- _]. }
  assert (Hr : keeps red_randui32) by (unfold red_randui32; repeat sstep).
  assert (Hs : forall e v, keeps (store e v)) by (intros; unfold store; repeat sstep).
  assert (Hl : forall l, keeps (report l)).
  { induction l; cbn [report]; repeat first [apply He | assumption | sstep]. }
  assert (Hc : forall f fmt, keeps (callback f fmt)) by (intros; unfold callback; repeat first [apply He | apply Hl | sstep]).
  assert (Hv : forall ty e v, keeps (value_parser_by_type getaddrinfo ty e v)).
  { intros ty e v.
    destruct ty; cbn [value_parser_by_type];
      unfold vp_pbool, vp_disclose_src, vp_on_proxy_fail, vp_name, vp_pchar, vp_uint16, vp_uint32, vp_in_addr,
        vp_in_addr2, vp_obsolete, vp_redsocks_max_accept_backoff;
      repeat first [apply He | apply Hm | apply Hr | apply Hs | sstep]. }
  unfold Parser.config_token, open_section, close_section, assignment_sign, end_assignment, assign, plain_token.
  repeat first [apply He | apply Hc | apply Hv | sstep].
Qed.

(** ** The invariant

    [B] is the content of the buffer; [L] bounds the size of the file. *)

Section loop.
Context (L : Z) (HL : 0 <= L < 2 ^ 29) (out : Z * T * list event).
Implicit Types (c : C) (B : bytes) (tr : list event).

Definition unread c : bytes := content (fd c).

Record ok c B : Prop := {
  ok_holds : holds c B;
  ok_nul : Forall (fun x => x <> 0) (unread c);
  ok_len : zlen B + zlen (unread c) <= L;
  ok_line : 0 <= line c /\ line c + zlen (unread c) <= L;
  ok_max : 128 <= size c <= 2 * L + 128;
  ok_heap : heap (toks c) = [];
  ok_file : broken (fd c) = false
}.

(** What the reference still has to do. *)
Definition follows tr c B : Prop :=
  behind (if error (toks c) then end_of_file
          else ref_rest (in_comment c) (complete (B ++ unread c))) out tr (toks c).

(** At the head of the outer loop. *)
Record loop_inv tr c B : Prop := {
  li_ok : ok c B;
  li_follows : follows tr c B;
  li_space : need_more_space c = true -> need_more_data c = true /\ (eof (fd c) = true \/ zlen B + 1 = size c);
  li_whole : need_more_data c = false -> complete B = B;
  li_data : error (toks c) = false -> need_more_data c = true ->
    if in_comment c then complete B = [] else exists r, scan_token (complete B) = Stop r;
  li_comment : error (toks c) = false -> need_more_data c = false -> in_comment c = true;
  li_eof : eof (fd c) = true -> unread c = [] /\ need_more_data c = true
}.

(** With complete lines in the buffer. *)
Record ready tr c B : Prop := {
  r_ok : ok c B;
  r_follows : follows tr c B;
  r_whole : complete B = B;
  r_error : error (toks c) = false;
  r_space : need_more_space c = false;
  r_data : need_more_data c = false;
  r_eof : eof (fd c) = false
}.

(** The measure of the outer loop. *)
Definition weight c : Z :=
  4 * zlen (unread c) + 2 * filled c + Z.b2z (negb (need_more_space c)) +
  Z.b2z (negb (need_more_data c)) + 2 * Z.b2z (negb (eof (fd c))).

Lemma zoom_same {A} (m : M T event A) a t c :
  m (toks c) = Some (a, toks c, t) -> zoom toks m c = Some (a, c, t).
Proof. intros Hm. unfold zoom. rewrite Hm. by destruct c. Qed.
Lemma wp_same {A} (m : M C event A) a c (Q : A -> C -> list event -> Prop) t :
  m c = Some (a, c, t) -> Q a c t -> wp m Q c.
Proof. intros Hm HQ. unfold wp. by rewrite Hm. Qed.
Lemma wp_malloc c (Q : bool -> C -> list event -> Prop) :
  heap (toks c) = [] -> Q true c [] -> wp (zoom toks malloc) Q c.
Proof.
  intros Hh HQ. eapply wp_same; [|exact HQ]. apply zoom_same. apply wp_returns. unfold malloc. do 5 mstep.
  rewrite Hh. destruct (toks c). cbn in Hh. by subst.
Qed.
Lemma wp_to_int x c (Q : Z -> C -> list event -> Prop) :
  - 2 ^ 31 <= x < 2 ^ 31 -> Q x c [] -> wp (to_int x) Q c.
Proof. intros Hx HQ. unfold to_int. do 2 mstep; [lia|]. by mstep. Qed.

Lemma wp_grow tr c B (Q : flow -> C -> list event -> Prop) :
  loop_inv tr c B -> eof (fd c) = false ->
  (need_more_space c = false -> Q Go c []) ->
  (forall d, zlen d = size c * 2 -> size c = zlen B + 1 -> need_more_data c = true ->
     holds (c <| data := d |> <| size := size c * 2 |> <| need_more_space := false |>) B ->
     Q Go (c <| data := d |> <| size := size c * 2 |> <| need_more_space := false |>) []) ->
  wp grow Q c.
Proof.
  intros I He HQ0 HQ1. destruct (li_ok _ _ _ I) as [([junk Hd] & Hf & Hs & HB) _ _ _ Hm Hh _].
  unfold grow. do 2 mstep. apply wp_if; intros E; b2p; [mstep; by apply HQ0|].
  destruct (li_space _ _ _ I E) as [Hnmd [?|Hsz]]; [congruence|].
  mstep. apply wp_malloc; [done|]. cbn [negb]. do 7 mstep.
  assert (Hz : zlen (data c ++ repeat 0 (Z.to_nat (size c))) = size c * 2).
  { unfold zlen in *. rewrite length_app, repeat_length. lia. }
  refine (HQ1 (data c ++ repeat 0 (Z.to_nat (size c))) Hz ltac:(lia) Hnmd _). split_and!; sug; [|done|by rewrite Hz|done].
  exists (junk ++ repeat 0 (Z.to_nat (size c))). by rewrite Hd, <- app_assoc.
Qed.

(** ** Reading a line *)

Lemma take_line_spec n F : let '(l, r) := take_line n F in
  F = l ++ r /\ (length l <= n)%nat /\
  ((exists l0, l = l0 ++ [NEWLINE] /\ not_newline l0) \/ (not_newline l /\ (length l = n \/ r = []))).
Proof.
  revert n. induction F as [|c F IH]; intros [|n]; cbn.
  1-3: split; [done|]; split; [lia|]; right; split; [constructor|auto].
  destruct (Z.eqb_spec c NEWLINE) as [->|Hc].
  { split; [done|]. split; [cbn; lia|]. left. exists []. split; [done|constructor]. }
  specialize (IH n). destruct (take_line n F) as [l r]. destruct IH as (-> & Hl & Hcase).
  split; [done|]. split; [cbn; lia|]. destruct Hcase as [(l0 & -> & Hl0)|(Hnl & Hend)].
  - left. exists (c :: l0). split; [done|by constructor].
  - right. split; [by constructor|]. cbn. destruct Hend; auto.
Qed.
Lemma ends_line_snoc l : ends_line (l ++ [NEWLINE]) = true.
Proof. unfold ends_line. by rewrite last_snoc. Qed.
Lemma ends_line_none l : not_newline l -> ends_line l = false.
Proof.
  intros Hl. unfold ends_line. destruct (last l) as [c|] eqn:E; [|done].
  apply last_Some in E as [l' ->]. apply Forall_app in Hl as [_ Hc]. apply Forall_inv in Hc. by apply Z.eqb_neq.
Qed.

(** The answers of [fgets] for a file that can be read. *)
Inductive fgets_case (n : Z) (F : bytes) : option bytes * file -> Prop :=
  | fgets_line l r : F = (l ++ [NEWLINE]) ++ r -> zlen l + 2 <= n ->
      fgets_case n F (Some ((l ++ [NEWLINE]) ++ [0]), mk_file r false false)
  | fgets_part l r : F = l ++ r -> not_newline l -> zlen l + 1 = n ->
      fgets_case n F (Some (l ++ [0]), mk_file r false false)
  | fgets_last : not_newline F -> 0 < zlen F -> zlen F + 1 < n ->
      fgets_case n F (Some (F ++ [0]), mk_file [] false true)
  | fgets_end : F = [] -> fgets_case n F (None, mk_file [] false true).

Lemma fgets_spec n F : 1 <= n -> fgets_case n F (fgets n (mk_file F false false)).
Proof.
  intros Hn. unfold fgets. cbn [content broken eof]. pose proof (take_line_spec (Z.to_nat (n - 1)) F) as Hs.
  destruct (take_line _ F) as [l r]. destruct Hs as (HF & Hl & [(l0 & -> & Hl0)|(Hnl & Hend)]).
  - rewrite ends_line_snoc. rewrite andb_false_r. apply fgets_line; [done|].
    rewrite length_app in Hl. cbn in Hl. unfold zlen. lia.
  - rewrite (ends_line_none l) by done. rewrite andb_true_r. destruct (Z.ltb_spec (zlen l) (n - 1)).
    + destruct Hend as [?| ->]; [unfold zlen in *; lia|]. rewrite app_nil_r in HF. subst.
      destruct (Z.eqb_spec (zlen l) 0) as [Hz|].
      * apply zlen_zero in Hz as ->. by apply fgets_end.
      * apply fgets_last; [done|zlia|lia].
    + apply fgets_part; [done..|]. unfold zlen in *. lia.
Qed.

(** [fgets] stored [l] behind [B]. *)
Lemma wp_stored B l c f (k : bytes -> Z -> M C event flow) P :
  holds c B -> zlen B + zlen l + 1 <= size c -> Forall (fun x => x <> 0) l -> zlen l < 2 ^ 31 ->
  (forall d, zlen d = size c -> holds (c <| fd := f |> <| data := d |> <| filled := zlen (B ++ l) |>) (B ++ l) ->
     wp (k l (zlen l)) P (c <| fd := f |> <| data := d |> <| filled := zlen (B ++ l) |>)) ->
  wp (d ← must (mem_write (filled c) (l ++ [0]) (data c));
      data ::= d;;
      l ← must (c_string (slice (filled c) (zlen d - filled c) d));
      len ← to_int (zlen l);
      context_filled_add len;;
      k l len) P (c <| fd := f |>).
Proof.
  intros ([junk Hd] & Hf & Hs & HB) Hsz Hl Hmax HP. rewrite Hf.
  destruct (split_len (0 :: junk) (zlen l + 1)) as (X & junk' & HX & HzX).
  { rewrite Hs, Hd, zlen_app in Hsz. zlia. }
  set (d := (B ++ l) ++ 0 :: junk').
  assert (Hw : mem_write (zlen B) (l ++ [0]) (data c) = Some d).
  { rewrite Hd, HX. erewrite mem_write_app; [unfold d; by rewrite <- !app_assoc|]. rewrite zlen_app. exact (eq_sym HzX). }
  assert (Hz : zlen d = size c).
  { rewrite Hs, Hd, HX. unfold d, zlen in *. rewrite !length_app in *. cbn in *. lia. }
  do 2 mstep; [exact Hw|]. do 3 mstep. mstep.
  { assert (Hsl : slice (zlen B) (zlen d - zlen B) d = l ++ 0 :: junk').
    { unfold d. rewrite <- app_assoc. apply slice_app_r; [done|]. rewrite zlen_app. lia. }
    sug. rewrite Hsl. by apply c_string_app. }
  mstep. apply wp_to_int; [zlia|]. mstep.
  eapply (wp_filled_add (B ++ l) 0 junk'); sug.
  - by rewrite Hf, zlen_app.
  - done.
  - by rewrite Hz.
  - by apply Forall_app.
  - intros d' Hd' Hh. eapply wp_mono; [apply HP; [by rewrite Hd'|exact Hh]|]. done.
Qed.

Lemma complete_part B l : not_newline l -> complete (B ++ l) = complete B.
Proof. intros Hl. by rewrite complete_app, (complete_none l). Qed.

Section reading.
Context (tr : list event) (c : C) (B : bytes).
Context (K : ok c B) (F : follows tr c B) (He : error (toks c) = false) (Heof : eof (fd c) = false).
Context (Hnms : need_more_space c = false).

(** The state after [fgets] stored [l], of which the file has [r] left. *)
Definition stored l r e d : C :=
  c <| fd := mk_file r false e |> <| data := d |> <| filled := zlen (B ++ l) |>.

Lemma stored_ok l r e d : unread c = l ++ r -> zlen d = size c -> holds (stored l r e d) (B ++ l) ->
  ok (stored l r e d) (B ++ l) /\
  (0 < zlen l -> ok ((stored l r e d) <| line := line c + 1 |> <| need_more_data := false |>) (B ++ l)).
Proof using K.
  intros HF Hd Hh. destruct K as [_ Hn Hlen Hline Hm Hheap Hfile]. rewrite HF, zlen_app in *.
  apply Forall_app in Hn as [_ Hn].
  split; [|intros Hl]; (split; try done; unfold stored, unread; sug; rewrite ?zlen_app; zlia).
Qed.
Lemma stored_follows l r e d : unread c = l ++ r -> follows tr (stored l r e d) (B ++ l).
Proof using F. intros HF. unfold follows in *. unfold stored, unread in *. sug. by rewrite <- app_assoc, <- HF. Qed.

Lemma stored_line l r d : unread c = (l ++ [NEWLINE]) ++ r -> zlen d = size c ->
  holds (stored (l ++ [NEWLINE]) r false d) (B ++ l ++ [NEWLINE]) ->
  ready tr ((stored (l ++ [NEWLINE]) r false d) <| line := line c + 1 |> <| need_more_data := false |>) (B ++ l ++ [NEWLINE]).
Proof using K F He Hnms.
  intros HF Hd Hh. destruct (stored_ok _ _ _ _ HF Hd Hh) as [_ K'].
  split; try done.
  - apply K'. rewrite zlen_app. change (zlen [NEWLINE]) with 1. zlia.
  - exact (stored_follows _ r false d HF).
  - rewrite app_assoc. apply complete_snoc.
Qed.

Lemma stored_part l r e d : unread c = l ++ r -> not_newline l -> zlen d = size c ->
  holds (stored l r e d) (B ++ l) -> need_more_data c = true ->
  (if in_comment c then complete B = [] else exists x, scan_token (complete B) = Stop x) ->
  (if e : bool then r = [] else zlen (B ++ l) + 1 = size c) ->
  loop_inv tr ((stored l r e d) <| need_more_space := true |>) (B ++ l).
Proof using K F.
  intros HF Hnl Hd Hh Hnmd Hdat Hend. destruct (stored_ok _ _ _ _ HF Hd Hh) as [K' _].
  split; unfold stored; sug; try congruence.
  - by destruct K'.
  - exact (stored_follows l r e d HF).
  - intros _. split; [done|]. destruct e; auto.
  - intros _ _. by rewrite (complete_part B l Hnl).
  - intros ->. by split.
Qed.

Lemma end_inv : unread c = [] -> need_more_data c = true ->
  (if in_comment c then complete B = [] else exists x, scan_token (complete B) = Stop x) ->
  loop_inv tr (c <| fd := mk_file [] false true |>) B.
Proof using K F Hnms.
  intros HF Hnmd Hdat. split; try done; sug; try congruence.
  - destruct K. split; try done; unfold unread in *; sug; change (zlen (@nil Z)) with 0; zlia.
  - unfold follows, unread in *. sug. by rewrite <- HF.
Qed.

Lemma wp_read_line g (Q : flow -> C -> list event -> Prop) :
  0 <= g <= 1 -> (g = 1 -> zlen B + 2 <= size c /\ need_more_data c = true) ->
  (need_more_data c = true ->
     if in_comment c then complete B = [] else exists r, scan_token (complete B) = Stop r) ->
  (need_more_data c = false -> complete B = B) ->
  (forall c' B', loop_inv tr c' B' -> weight c' + g < weight c -> Q Continue c' []) ->
  (forall c' B', ready tr c' B' -> weight c' + g <= weight c -> Q Go c' []) ->
  wp read_line Q c.
Proof using K F He Heof Hnms HL.
  intros Hg Hsp Hdat Hwh HQC HQG.
  unfold read_line. do 2 mstep. apply wp_if; intros Hnmd; b2p.
  { mstep. eapply (HQG c B); [split; auto|].
    destruct (Z.eq_dec g 1) as [->|]; [destruct (Hsp eq_refl); congruence|lia]. }
  specialize (Hdat Hnmd). destruct (ok_holds _ _ K) as (Hdata & Hf & Hs & HB). pose proof (ok_max _ _ K) as Hmax.
  pose proof (ok_len _ _ K). pose proof (ok_line _ _ K). pose proof (ok_nul _ _ K) as Hn.
  assert (Hlt : filled c < size c).
  { destruct Hdata as [junk Hd]. rewrite Hs, Hd, Hf, zlen_app, zlen_cons. zlia. }
  mstep. apply wp_to_int; [zlia|].
  pose proof (fgets_spec (size c - filled c) (unread c) ltac:(lia)) as Hc.
  assert (Hfd : fd c = mk_file (unread c) false false).
  { pose proof (ok_file _ _ K). unfold unread. destruct (fd c). cbn in *. by subst. }
  rewrite Hfd. revert Hc. generalize (fgets (size c - filled c) (mk_file (unread c) false false)).
  intros sf Hc. destruct Hc as [l r HF Hl|l r HF Hnl Hl|Hnl Hpos Hl|HF]; cbn iota; do 2 mstep.
  - rewrite HF in Hn. apply Forall_app in Hn as [Hn _].
    assert (Hzl : zlen (l ++ [NEWLINE]) = zlen l + 1) by by rewrite zlen_app.
    assert (HzF : zlen (unread c) = zlen l + 1 + zlen r) by (rewrite HF, zlen_app; lia).
    eapply (wp_stored B (l ++ [NEWLINE]) c _ (fun l len => if (0 <? len) && ends_line l then _ else _)); [apply K|zlia|done|zlia|].
    intros d Hd Hh. rewrite ends_line_snoc. replace (0 <? _) with true by zlia.
    cbn [andb]. do 3 mstep. sug. apply wp_to_int; [zlia|]. do 5 mstep.
    refine (HQG _ _ (stored_line l r d HF Hd Hh) _).
    unfold weight, stored, unread in *. sug. rewrite Hnms, Hnmd, Heof, Hf, !zlen_app, Hzl in *. cbn. zlia.
  - assert (HzF : zlen (unread c) = zlen l + zlen r) by by rewrite HF, !zlen_app.
    rewrite HF in Hn. apply Forall_app in Hn as [Hn _].
    eapply (wp_stored B l c _ (fun l len => if (0 <? len) && ends_line l then _ else _)); [apply K|lia|done|zlia|].
    intros d Hd Hh. rewrite (ends_line_none l), andb_false_r by done. do 3 mstep.
    refine (HQC _ _ (stored_part l r false d HF Hnl Hd Hh Hnmd Hdat _) _); [rewrite zlen_app; lia|].
    unfold weight, stored, unread in *. sug. rewrite Hnms, Hnmd, Heof, Hf, !zlen_app. cbn.
    destruct (Z.eq_dec g 1) as [->|]; [destruct (Hsp eq_refl) as [? _]|]; zlia.
  - eapply (wp_stored B (unread c) c _ (fun l len => if (0 <? len) && ends_line l then _ else _)); [apply K|lia|done|zlia|].
    intros d Hd Hh. rewrite (ends_line_none (unread c)), andb_false_r by done. do 3 mstep.
    refine (HQC _ _ (stored_part (unread c) [] true d _ Hnl Hd Hh Hnmd Hdat eq_refl) _); [by rewrite app_nil_r|].
    unfold weight, stored, unread in *. sug. rewrite Hnms, Hnmd, Heof, Hf, !zlen_app. change (zlen (@nil Z)) with 0. cbn. zlia.
  - unfold ferror. cbn [broken andb]. mstep. refine (HQC _ _ (end_inv HF Hnmd Hdat) _).
    unfold weight, unread in *. sug. rewrite Hnms, Hnmd, Heof, Hf, HF. cbn. lia.
Qed.
End reading.

(** ** Comments *)

(** The buffer after the part [X] was deleted. *)
Lemma ok_delete c P X S d :
  ok c (P ++ X ++ S) -> zlen d = zlen (data c) ->
  holds (c <| data := d |> <| filled := zlen (P ++ S) |>) (P ++ S) ->
  ok (c <| data := d |> <| filled := zlen (P ++ S) |>) (P ++ S).
Proof.
  intros K Hd Hh. pose proof (ok_len _ _ K) as Hl. rewrite !zlen_app in Hl.
  split; try done; try apply K. unfold unread in *. sug. rewrite zlen_app. zlia.
Qed.
Lemma after_app (x q : bytes) k : k = zlen x -> after k (x ++ q) = q.
Proof. intros ->. unfold after, zlen. by rewrite Nat2Z.id, drop_app_length. Qed.

Lemma ref_comment_found s1 s2 q : strstr [STAR; SLASH] (s1 ++ [STAR; SLASH] ++ s2) = Some (zlen s1) ->
  ref_comment ((s1 ++ [STAR; SLASH] ++ s2) ++ q) = ref (s2 ++ q).
Proof.
  intros Hk. unfold ref_comment. rewrite (strstr_app _ _ _ _ Hk). f_equal.
  replace ((s1 ++ [STAR; SLASH] ++ s2) ++ q) with ((s1 ++ [STAR; SLASH]) ++ s2 ++ q) by by rewrite <- !app_assoc.
  apply after_app. by rewrite zlen_app.
Qed.
Lemma ref_comment_none B q : complete B = B -> strstr [STAR; SLASH] B = None ->
  ref_comment (B ++ q) = ref_comment q.
Proof.
  intros HB Hn. unfold ref_comment. rewrite strstr_behind by done. destruct (strstr _ q) as [k|] eqn:E; [|done]. cbn.
  f_equal. apply strstr_Some in E as (s1 & s2 & _ & ->). unfold after. rewrite drop_app_ge; unfold zlen; [f_equal|]; lia.
Qed.

Lemma wp_skip_comment tr c B (Q : flow -> C -> list event -> Prop) :
  ready tr c B ->
  (forall c' B', loop_inv tr c' B' -> weight c' < weight c -> Q Continue c' []) ->
  (forall c' B', ready tr c' B' -> in_comment c' = false -> weight c' <= weight c -> Q Go c' []) ->
  wp skip_comment Q c.
Proof.
  intros R HQC HQG. destruct (R) as [K F Hwh He Hnms Hnmd Heof]. pose proof (ok_holds _ _ K) as Hh.
  unfold skip_comment. do 2 mstep. apply wp_if; intros Hin; b2p; [mstep; by eapply HQG|].
  mstep. eapply (wp_string_at [] B); [exact Hh|done|]. unfold follows in F. rewrite He, Hin in F. cbn [ref_rest] in F.
  rewrite complete_behind in F by done. pose proof (ok_len _ _ K) as Hlen.
  destruct (strstr [STAR; SLASH] B) as [k|] eqn:Ek.
  - destruct (strstr_Some _ _ _ Ek) as (s1 & s2 & -> & ->). rewrite ref_comment_found in F by done.
    assert (Hs2 : complete s2 = s2) by by do 2 apply complete_suffix in Hwh.
    destruct (Hh) as (_ & Hf & _). mstep. apply wp_to_int; [rewrite !zlen_app in Hlen; zlia|].
    eapply (wp_delete _ [] (s1 ++ [STAR; SLASH]) s2); rewrite ?zlen_app in *; rewrite ?zlen_app in *; change (zlen [STAR; SLASH]) with 2 in *.
    + by rewrite <- app_assoc.
    + done.
    + done.
    + lia.
    + done.
    + intros d Hd Hh'. do 3 mstep.
      eapply (HQG (c <| data := d |> <| filled := zlen s2 |> <| in_comment := false |>) s2); [|done|].
      * pose proof (ok_delete c [] (s1 ++ [STAR; SLASH]) s2 d) as K'. rewrite <- app_assoc in K'.
        specialize (K' K Hd Hh'). split; try done; [by destruct K'|]. unfold follows. sug. rewrite He.
        unfold unread in *. sug. by rewrite complete_behind.
      * unfold weight, unread. sug. zlia.
  - rewrite ref_comment_none in F by done. destruct (Hh) as ([junk Hd] & Hf & Hs & HB).
    assert (Hd' : exists x j, data c = [] ++ x :: j) by (rewrite Hd; destruct B as [|x B]; by eexists _, _).
    destruct Hd' as (x & j & Hd'). mstep. eapply (wp_filled_set [] x j); [done..|constructor|].
    intros d Hz Hh'. do 3 mstep. eapply (HQC (c <| data := d |> <| filled := zlen [] |> <| need_more_data := true |>) []).
    + split; try done; sug; try congruence.
      * pose proof (ok_delete c [] B [] d) as K'. cbn [app] in K'. rewrite app_nil_r in K'. specialize (K' K Hz Hh'). by destruct K'.
      * unfold follows. sug. by rewrite He, Hin.
      * by rewrite Hin.
    + unfold weight, unread. sug. rewrite Hnmd, Hf. change (zlen (@nil Z)) with 0. cbn. zlia.
Qed.

(** ** Tokens *)

Lemma follows_ref tr c B : error (toks c) = false -> in_comment c = false -> complete B = B ->
  follows tr c B -> behind (ref (B ++ complete (unread c))) out tr (toks c).
Proof. unfold follows. intros -> -> HB. by rewrite complete_behind. Qed.

(** What the reference does at the next token. *)
Lemma ref_stop q r p : scan_token q = Stop r -> ref q p = ref r p.
Proof. intros [-> _]%scan_stop. unfold ref. by rewrite lex_skip. Qed.
Lemma ref_bad q m p : scan_token q = Bad m -> error p = false -> ref q p = (parser_error m;; end_of_file) p.
Proof. intros Hs He. unfold ref. rewrite lex_step, Hs. by apply run_lexed_bad. Qed.
Lemma ref_token q t r p : scan_token q = Tok t r -> error p = false ->
  streq t (str "//") = false -> streq t (str "/*") = false ->
  ref q p = (config_token t;; ref r) p.
Proof. intros Hs He H1 H2. unfold ref. rewrite lex_step, Hs, H1, H2, run_lexed_cons by done. by destruct (lex r). Qed.
Lemma ref_line_comment q r k p : scan_token q = Tok (str "//") r -> strchr NEWLINE r = Some k ->
  ref q p = ref (after (k + 1) r) p.
Proof. intros Hs Hk. unfold ref. by rewrite lex_step, Hs, Hk. Qed.
Lemma ref_open_comment q r p : scan_token q = Tok (str "/*") r -> ref q p = ref_comment r p.
Proof.
  intros Hs. unfold ref, ref_comment. rewrite lex_step, Hs. cbn -[strstr lex end_of_file].
  destruct (strstr _ r); [done|apply run_lexed_nil].
Qed.

(** The state [c'] differs from [c] in the buffer and by the effect of tokens. *)
Definition same_rest c c' : Prop :=
  fd c' = fd c /\ need_more_space c' = need_more_space c /\ need_more_data c' = need_more_data c.
#[local] Instance same_rest_preorder : PreOrder same_rest.
Proof. split; [done|]. intros c1 c2 c3 (H1 & H2 & H3) (H4 & H5 & H6). split_and!; congruence. Qed.

(** In the inner loop: [P] is consumed, [B] is not. *)
Record scanning tr c P B iter : Prop := {
  sc_ok : ok c (P ++ B);
  sc_follows : follows tr c B;
  sc_whole : complete B = B;
  sc_iter : iter = zlen P
}.

Lemma wp_line_comment tr c P B r iter (Q : Z -> C -> list event -> Prop) :
  scanning tr c P B (iter - (zlen B - zlen r)) -> error (toks c) = false -> in_comment c = false ->
  scan_token B = Tok (str "//") r ->
  (forall c' P' B' iter', scanning tr c' P' B' iter' -> same_rest c c' -> toks c' = toks c ->
     in_comment c' = false -> zlen B' < zlen B -> Q iter' c' []) ->
  wp (line_comment iter) Q c.
Proof.
  intros [K F Hwh Hi] He Hin Hs HQ. apply follows_ref in F; [|done..].
  destruct (scan_split _ _ _ Hs) as (x & y & -> & Hy & Hx). change (zlen (str "//")) with 2 in Hx.
  assert (Hwr : complete (y :: r) = y :: r) by by apply complete_suffix in Hwh.
  assert (Hr : NEWLINE ∈ r).
  { apply complete_newline in Hwr; [|done]. apply elem_of_cons in Hwr as [?|?]; [by subst|done]. }
  apply strchr_in in Hr as (r1 & r2 & -> & Hk & _).
  assert (HF : behind (ref (r2 ++ complete (unread c))) out tr (toks c)).
  { eapply behind_ext; [|exact F]. erewrite ref_line_comment; [|by apply scan_app|by apply strchr_app]. f_equal.
    replace ((r1 ++ NEWLINE :: r2) ++ complete (unread c)) with ((r1 ++ [NEWLINE]) ++ r2 ++ complete (unread c))
      by by rewrite <- !app_assoc.
    rewrite after_app; [done|]. by rewrite zlen_app. }
  destruct (split_len ((P ++ x) ++ [y]) (zlen P + zlen x - 1)) as (P' & Y & HPY & HzP).
  { rewrite !zlen_app. change (zlen [y]) with 1. zlia. }
  assert (HzY : zlen Y = 2).
  { apply (f_equal zlen) in HPY. rewrite !zlen_app in HPY. change (zlen [y]) with 1 in HPY. lia. }
  assert (Hbuf : P ++ x ++ y :: r1 ++ NEWLINE :: r2 = P' ++ (Y ++ r1 ++ [NEWLINE]) ++ r2).
  { change (y :: r1 ++ NEWLINE :: r2) with ([y] ++ r1 ++ [NEWLINE] ++ r2). rewrite !app_assoc in *. by rewrite HPY. }
  pose proof (ok_holds _ _ K) as Hh. pose proof (ok_len _ _ K) as Hlen. destruct (Hh) as (_ & Hf & _).
  rewrite !zlen_app, !zlen_cons, !zlen_app, !zlen_cons in *.
  assert (Hiter : iter = zlen P + zlen x + 1) by lia.
  unfold line_comment. mstep. eapply (wp_string_at ((P ++ x) ++ [y]) (r1 ++ NEWLINE :: r2)).
  { by rewrite <- !app_assoc. }
  { rewrite !zlen_app. exact Hiter. }
  do 2 mstep; [exact Hk|]. do 3 mstep. apply wp_to_int; [zlia|]. rewrite Hf.
  rewrite Hbuf in *. eapply (wp_delete _ P' (Y ++ r1 ++ [NEWLINE]) r2); [done| | | |..].
  - lia.
  - rewrite !zlen_app. change (zlen [NEWLINE]) with 1. lia.
  - lia.
  - rewrite !zlen_app. change (zlen [NEWLINE]) with 1. lia.
  - intros d Hd Hh'. mstep. cbn [app].
    assert (Hw2 : complete r2 = r2).
    { apply (complete_suffix (x ++ y :: r1 ++ [NEWLINE])). rewrite <- !app_assoc. cbn [app]. rewrite <- app_assoc. exact Hwh. }
    eapply (HQ _ P' r2); [split|by split_and!|done|done|zlia].
    + by apply (ok_delete c P' (Y ++ r1 ++ [NEWLINE])).
    + unfold follows. sug. rewrite He, Hin. unfold unread in *. sug. by rewrite complete_behind.
    + done.
    + lia.
Qed.

Lemma wp_open_comment tr c P B r iter (Q : Z -> C -> list event -> Prop) :
  scanning tr c P B (iter - (zlen B - zlen r)) -> error (toks c) = false -> in_comment c = false ->
  scan_token B = Tok (str "/*") r ->
  (forall c', scanning tr c' [] r 0 -> same_rest c c' -> toks c' = toks c -> in_comment c' = true ->
     zlen r < zlen B -> Q 0 c' []) ->
  wp (open_comment iter) Q c.
Proof.
  intros [K F Hwh Hi] He Hin Hs HQ. apply follows_ref in F; [|done..].
  destruct (scan_split _ _ _ Hs) as (x & y & -> & _ & _).
  assert (Hwr : complete r = r).
  { apply (complete_suffix (x ++ [y])). by rewrite <- app_assoc. }
  eapply behind_ext in F; [|eapply ref_open_comment; by apply scan_app].
  pose proof (ok_holds _ _ K) as Hh. pose proof (ok_len _ _ K) as Hlen. destruct (Hh) as (_ & Hf & _).
  assert (Hbuf : P ++ x ++ y :: r = [] ++ (P ++ x ++ [y]) ++ r) by by rewrite <- !app_assoc.
  rewrite !zlen_app, !zlen_cons in *.
  unfold open_comment. do 3 mstep. apply wp_to_int; [zlia|]. rewrite Hf, Hbuf in *.
  eapply (wp_delete _ [] (P ++ x ++ [y]) r); [done| | | |..]; rewrite ?zlen_app; change (zlen [y]) with 1; change (zlen (@nil Z)) with 0.
  1-4: lia.
  intros d Hd Hh'. do 3 mstep. cbn [app].
  pose proof (ok_delete c [] (P ++ x ++ [y]) r d K Hd Hh') as K'.
  eapply (HQ (c <| data := d |> <| filled := zlen ([] ++ r) |> <| in_comment := true |>)); [split|by split_and!|done|done|zlia].
  - by destruct K'.
  - unfold follows. sug. rewrite He. unfold unread in *. sug. by rewrite complete_behind.
  - done.
  - done.
Qed.

(** How the inner loop ends: [null] when more data is needed. *)
Record scanned_all c B (null : bool) : Prop := {
  sa_more : error (toks c) = false -> null = true ->
    in_comment c = false /\ exists r, scan_token B = Stop r;
  sa_comment : error (toks c) = false -> null = false -> in_comment c = true
}.

(** The three answers of the scanner. *)
Section answers.
Context (tr : list event) (c : C) (P B : bytes) (iter : Z).
Context (S : scanning tr c P B iter) (He : error (toks c) = false) (Hin : in_comment c = false).

Lemma scanning_stop r : scan_token B = Stop r ->
  exists P', scanning tr c P' r (iter + (zlen B - zlen r)) /\ zlen r <= zlen B.
Proof using S He Hin.
  destruct S as [K F Hwh Hi]. intros Es. pose proof (scan_stop _ _ Es) as [Hr _].
  destruct (skip_spaces_split B) as (sp & HB & _). rewrite <- Hr in HB. exists (P ++ sp).
  apply follows_ref in F; [|done..].
  assert (Hwr : complete r = r) by (rewrite HB in Hwh; by apply complete_suffix in Hwh).
  split; [split; [| |done|]|]; [by rewrite <- app_assoc, <- HB| |rewrite HB, Hi, !zlen_app; lia|rewrite HB, zlen_app; zlia].
  unfold follows. rewrite He, Hin, complete_behind by done. cbn [ref_rest]. eapply behind_ext; [|exact F].
  unfold ref. by rewrite <- (lex_skip (B ++ _)), <- (lex_skip (r ++ _)), !skip_spaces_app, Hr, skip_spaces_idem.
Qed.

Lemma scanning_bad m : scan_token B = Bad m ->
  exists P', let B' := skip_spaces B in
    scanning (tr ++ [Message m]) (c <| toks := (toks c) <| error := true |> |>) P' B' (iter + (zlen B - zlen B')) /\
    zlen B' <= zlen B.
Proof using S He Hin.
  destruct S as [K F Hwh Hi]. intros Es. destruct (skip_spaces_split B) as (sp & HB & _). exists (P ++ sp).
  assert (HBs : P ++ B = (P ++ sp) ++ skip_spaces B) by (rewrite <- app_assoc; by rewrite <- HB).
  apply follows_ref in F; [|done..]. eapply behind_ext in F; [|apply ref_bad; [by apply scan_bad|done]].
  apply behind_bind in F as ([] & p' & t0 & Hpe & F). cbn in Hpe. injection Hpe as <- <-.
  apply (f_equal zlen) in HB. rewrite zlen_app in HB.
  split; [split|zlia].
  - rewrite <- HBs. destruct K as [? ? ? ? ? ? ?]. by split.
  - exact F.
  - by apply skip_spaces_complete.
  - rewrite Hi, zlen_app. lia.
Qed.

Lemma scanning_token t r : scan_token B = Tok t r -> streq t (str "//") = false -> streq t (str "/*") = false ->
  exists st p' t0 P', config_token t (toks c) = Some (st, p', t0) /\
    scanning (tr ++ t0) (c <| toks := p' |>) P' r (iter + (zlen B - zlen r)).
Proof using S He Hin.
  destruct S as [K F Hwh Hi]. intros Es E1 E2. destruct (scan_split _ _ _ Es) as (x & y & HB & _ & _).
  apply follows_ref in F; [|done..]. eapply behind_ext in F; [|eapply ref_token; [by apply scan_app|done..]].
  apply behind_bind in F as (st & p' & t0 & Hct & F). exists st, p', t0, (P ++ x ++ [y]). split; [done|].
  pose proof (keeps_config_token _ _ _ _ _ (ok_heap _ _ K) Hct) as Hh'.
  assert (Hwr : complete r = r).
  { apply (complete_suffix (x ++ [y])). rewrite <- app_assoc. by rewrite HB in Hwh. }
  split; [| |done|].
  - replace ((P ++ x ++ [y]) ++ r) with (P ++ B) by (rewrite HB, <- !app_assoc; done). by destruct K.
  - unfold follows, unread in *. sug. rewrite Hin. destruct (error p') eqn:Ee.
    + eapply behind_ext; [|exact F]. unfold ref. by rewrite run_lexed_error.
    + by rewrite complete_behind.
  - rewrite HB, Hi, !zlen_app, zlen_cons. change (zlen [y]) with 1. lia.
Qed.
End answers.

Lemma wp_token_loop N fuel : forall tr c P B iter null (Q : Z * bool -> C -> list event -> Prop),
  scanning tr c P B iter -> (length B < fuel)%nat ->
  (error (toks c) = false -> in_comment c = true -> null = false) ->
  (if null : bool then zlen B <= N else zlen B < N) ->
  (forall c' P' B' iter' null' t,
     scanning (tr ++ t) c' P' B' iter' -> same_rest c c' -> scanned_all c' B' null' ->
     (if null' : bool then zlen B' <= N else zlen B' < N) -> Q (iter', null') c' t) ->
  wp (token_loop getaddrinfo fuel iter null) Q c.
Proof.
  induction fuel as [|fuel IH]; intros tr c P B iter null Q S Hfuel Hcom HN HQ; [lia|].
  assert (HN' : zlen B <= N) by (destruct null; lia).
  cbn [token_loop]. do 2 mstep. apply wp_if; intros E.
  { mstep. refine (HQ c P B iter null [] _ _ _ HN); [by rewrite app_nil_r|done|].
    split; intros He; rewrite He in E; cbn in E; intros ->; [by discriminate Hcom|done]. }
  apply orb_false_iff in E as [He Hin]. destruct (S) as [K F Hwh Hi].
  mstep. eapply (wp_string_at P B); [apply K|done|]. mstep.
  pose proof (gettoken_scan B (toks c) (ok_heap _ _ K)) as Hg.
  assert (Hnext : forall c' P' B' iter' null' t0 (Q' : Z * bool -> C -> list event -> Prop),
    scanning (tr ++ t0) c' P' B' iter' -> same_rest c c' -> (in_comment c' = true -> null' = false) -> zlen B' < zlen B ->
    (forall x c2 t, Q x c2 (t0 ++ t) -> Q' x c2 t) ->
    wp (token_loop getaddrinfo fuel iter' null') Q' c').
  { intros c' P' B' iter' null' t0 Q' S' Hsame Hc' Hlt HQ'.
    eapply (IH (tr ++ t0)); [exact S'|unfold zlen in *; lia|auto|destruct null'; lia|]. intros c2 P2 B2 iter2 null2 t2 S2 Hs2 Ha H1.
    apply HQ'. eapply HQ; [by rewrite app_assoc|by trans c'|done..]. }
  destruct (scan_token B) as [t r|r|m] eqn:Es.
  - eapply wp_same; [apply zoom_same; exact Hg|]. cbn iota.
    assert (Hlt : zlen r < zlen B) by (apply scan_shorter in Es; unfold zlen; lia).
    assert (Hi' : scanning tr c P B (iter + (zlen B - zlen r) - (zlen B - zlen r))).
    { replace (_ - _) with iter by lia. exact S. }
    apply wp_if; intros E1; [apply streq_spec in E1 as ->|apply wp_if; intros E2; [apply streq_spec in E2 as ->|]].
    + mstep. eapply wp_line_comment; [done..|]. intros c' P' B' iter' S' Hsame Ht Hin' Hlt'.
      eapply (Hnext c' P' B' iter' false []); [by rewrite app_nil_r|done|done|done|]. intros; exact H.
    + mstep. eapply wp_open_comment; [done..|]. intros c' S' Hsame Ht Hin' _.
      eapply (Hnext c' [] r 0 false []); [by rewrite app_nil_r|done|done|done|]. intros; exact H.
    + destruct (scanning_token _ _ _ _ _ S He Hin _ _ Es E1 E2) as (st & p' & t0 & P' & Hct & S').
      mstep. apply wp_zoom. unfold wp. rewrite Hct.
      eapply (Hnext _ _ _ _ st t0); [exact S'|by split_and!|by sug; rewrite Hin|done|]. intros; exact H.
  - destruct (scanning_stop _ _ _ _ _ S He Hin _ Es) as (P' & S' & Hle). apply scan_stop in Es as [_ Es].
    eapply wp_same; [apply zoom_same; exact Hg|]. cbn iota. mstep.
    refine (HQ c P' r _ true [] _ _ _ _); [by rewrite app_nil_r|done|split; [by eauto|done]|lia].
  - destruct (scanning_bad _ _ _ _ _ S He Hin _ Es) as (P' & S' & Hle).
    apply wp_zoom. unfold wp at 1. rewrite Hg. cbn iota. mstep.
    refine (HQ _ P' _ _ true [Message m] S' _ _ _); [by split_and!|by split|lia].
Qed.

Lemma loop_inv_scanned tr c B null : ok c B -> follows tr c B -> complete B = B -> scanned_all c B null ->
  need_more_space c = false -> need_more_data c = null -> eof (fd c) = false -> loop_inv tr c B.
Proof.
  intros K F Hwh [Hm Hc] Hs Hd He. split; try done; try congruence.
  - intros Herr Hn. rewrite Hd in Hn. destruct (Hm Herr Hn) as [-> Hr]. by rewrite Hwh.
  - intros Herr Hn. apply Hc; congruence.
Qed.

Lemma wp_run_tokens tr c B (Q : flow -> C -> list event -> Prop) :
  ready tr c B -> in_comment c = false ->
  (forall c' B' t, loop_inv (tr ++ t) c' B' -> weight c' < weight c -> Q Go c' t) ->
  wp (run_tokens getaddrinfo) Q c.
Proof.
  intros [K F Hwh He Hnms Hnmd Heof] Hin HQ. destruct (ok_holds _ _ K) as (_ & Hf & _).
  unfold run_tokens. do 3 mstep.
  eapply (wp_token_loop (zlen B) _ tr c [] B); [by split|rewrite Hf; unfold zlen; lia|congruence|lia|].
  intros c' P' B' iter' null' t S (Hfd & Hs' & Hd') Ha H1. destruct S as [K' F' Hwh' ->]. cbn iota.
  destruct (ok_holds _ _ K') as (_ & Hf' & _). pose proof (ok_len _ _ K') as Hlen. rewrite zlen_app in *.
  do 3 mstep. apply wp_to_int; [zlia|]. rewrite Hf'.
  eapply (wp_delete _ [] P' B'); [apply K'|done|done|lia|done|]. intros d Hd Hh. cbn [app] in *.
  pose proof (ok_delete c' [] P' B' d K' Hd Hh) as K2. cbn [app] in K2.
  assert (F2 : follows (tr ++ t) (c' <| data := d |> <| filled := zlen B' |>) B') by exact F'.
  destruct null'; cbn [when]; do 3 mstep.
  - eapply (HQ (c' <| data := d |> <| filled := zlen B' |> <| need_more_data := true |>) B'); [|].
    + rewrite !app_nil_r. eapply (loop_inv_scanned _ _ _ true); try done; [by destruct K2|by destruct Ha|..]; sug; congruence.
    + unfold weight, unread. sug. rewrite Hfd, Hs', Hnms, Hnmd, Hf. cbn. lia.
  - eapply (HQ (c' <| data := d |> <| filled := zlen B' |>) B').
    + rewrite !app_nil_r. eapply (loop_inv_scanned _ _ _ false); try done; [by destruct Ha|..]; sug; congruence.
    + unfold weight, unread. sug. rewrite Hfd, Hs', Hd', Hf. lia.
Qed.

(** ** The outer loop *)

Lemma wp_iteration tr c B (Q : flow -> C -> list event -> Prop) :
  loop_inv tr c B -> error (toks c) = false -> eof (fd c) = false ->
  (forall f c' B' t, f = Go \/ f = Continue -> loop_inv (tr ++ t) c' B' -> weight c' < weight c -> Q f c' t) ->
  wp (parser_iteration getaddrinfo) Q c.
Proof.
  intros I He Heof HQ. destruct (li_ok _ _ _ I) as [([junk Hd] & Hf & Hs & HB) Hnul Hlen Hline Hmax Hheap Hfile].
  unfold parser_iteration, and_then. do 2 mstep. do 2 mstep.
  { apply Z.ltb_lt. rewrite Hs, Hd, Hf, zlen_app, zlen_cons. zlia. }
  assert (Hrest : forall c1 g, 0 <= g <= 1 -> ok c1 B -> follows tr c1 B -> error (toks c1) = false ->
    eof (fd c1) = false -> need_more_space c1 = false -> weight c1 <= weight c + g ->
    (g = 1 -> zlen B + 2 <= size c1 /\ need_more_data c1 = true) ->
    (need_more_data c1 = true -> if in_comment c1 then complete B = [] else exists r, scan_token (complete B) = Stop r) ->
    (need_more_data c1 = false -> complete B = B) ->
    wp (r ← read_line; match r with Go => (r ← skip_comment; match r with Go => run_tokens getaddrinfo | _ => mret r end) | _ => mret r end) Q c1).
  { intros c1 g Hg K1 F1 He1 Heof1 Hs1 Hw Hg1 Hd1 Hwh1. mstep.
    eapply (wp_read_line tr c1 B K1 F1 He1 Heof1 Hs1 g); try done.
    - intros c' B' I' Hw'. mstep. eapply (HQ _ c' B' []); [by right|by rewrite app_nil_r|lia].
    - intros c' B' R Hw'. mstep. eapply (wp_skip_comment tr c' B'); [done|..].
      + intros c2 B2 I2 Hw2. mstep. eapply (HQ _ c2 B2 []); [by right|by rewrite app_nil_r|lia].
      + intros c2 B2 R2 Hin2 Hw2. eapply wp_run_tokens; [exact R2|done|].
        intros c3 B3 t I3 Hw3. cbn [app]. eapply HQ; [by left|exact I3|lia]. }
  mstep. eapply wp_grow; [exact I|done|..].
  - intros Hnms. eapply wp_mono; [apply (Hrest c 0)|done]; try done; [apply I|apply I|lia|by apply I|apply I].
  - intros d Hz Hsz Hnmd Hh. eapply wp_mono; [eapply (Hrest _ 1); [lia|..]|]; sug; try done.
    + split; try done. sug. zlia.
    + apply I.
    + unfold weight, unread. sug. destruct (need_more_space c); cbn; lia.
    + intros _. split; [lia|done].
    + intros _. by apply I.
    + congruence.
Qed.

Lemma wp_parser_loop fuel : forall tr c B (Q : option Z -> C -> list event -> Prop),
  loop_inv tr c B -> weight c < Z.of_nat fuel ->
  (forall c' t, behind end_of_file out (tr ++ t) (toks c') -> Q None c' t) ->
  wp (parser_loop getaddrinfo fuel) Q c.
Proof.
  induction fuel as [|fuel IH]; intros tr c B Q I Hfuel HQ.
  - exfalso. destruct (ok_holds _ _ (li_ok _ _ _ I)) as (_ & Hf & _). unfold weight in Hfuel.
    rewrite Hf in Hfuel. destruct (need_more_space c), (need_more_data c), (eof (fd c)); cbn in Hfuel; zlia.
  - cbn [parser_loop]. do 2 mstep. apply wp_if; intros E.
    + mstep. apply HQ. rewrite app_nil_r. pose proof (li_follows _ _ _ I) as F. unfold follows in F.
      destruct (error (toks c)) eqn:He; [done|]. cbn [orb] in E. destruct (li_eof _ _ _ I E) as [Hu Hnmd].
      rewrite Hu, app_nil_r in F. pose proof (li_data _ _ _ I He Hnmd) as Hdat.
      destruct (in_comment c); cbn [ref_rest] in F.
      * rewrite Hdat in F. exact F.
      * destruct Hdat as [r Hr]. eapply behind_ext; [|exact F]. unfold ref. rewrite lex_step, Hr. apply run_lexed_nil.
    + apply orb_false_iff in E as [He Heof]. mstep. eapply wp_iteration; [exact I|done..|].
      intros f c' B' t Hf I' Hw.
      assert (Hnext : wp (parser_loop getaddrinfo fuel) (fun b s t2 => Q b s ([] ++ t ++ t2)) c').
      { eapply IH; [exact I'|lia|]. intros c2 t2 HF. apply HQ. cbn [app]. by rewrite app_assoc. }
      by destruct Hf as [-> | ->].
Qed.
End loop.


(** ** The whole run *)

(** What comes out of the parser is what the reference gives. *)
Definition outcome (r : option (Z * C * list event)) : option (Z * T * list event) :=
  match r with Some (r, c, t) => Some (r, toks c, t) | None => None end.

(** The parser with its sections, before it runs. *)
Definition ready_to_run (c : C) (text : bytes) : Prop :=
  exists junk, c = mk_context (mk_file text false false) 0 128 0 (0 :: junk) false false true (toks c) /\
    zlen junk = 127 /\ error (toks c) = false /\ heap (toks c) = [].

Lemma parser_run_lexed text c x :
  ready_to_run c text -> Forall (fun b => b <> 0) text -> zlen text < 2 ^ 29 ->
  parse_text getaddrinfo text (toks c) = Some x ->
  outcome (parser_run getaddrinfo c) = Some x.
Proof.
  intros (junk & Hc & Hj & He & Hh) Hn Hl Hx.
  assert (K : ok (zlen text) c []).
  { rewrite Hc. split; try done; unfold unread; cbn [fd content toks size line broken].
    - split_and!; [by exists junk|done| |constructor]. cbn [size data]. rewrite zlen_cons. lia.
    - zlia. }
  assert (I : loop_inv (zlen text) x [] c []).
  { split; [done|..]; rewrite Hc; cbn; try done.
    - unfold follows. cbn [toks in_comment]. rewrite He. destruct x as [[r p] t]. by exists t.
    - intros _ _. by exists []. }
  assert (Hw : wp (parser_run getaddrinfo) (fun r c' t => (r, toks c', t) = x) c).
  { unfold parser_run. do 3 mstep.
    eapply (wp_parser_loop (zlen text) ltac:(zlia) x); [exact I| |].
    - rewrite Hc. unfold weight, unread, parser_fuel, zlen. cbn -[Nat.mul Nat.add]. lia.
    - intros c' t (t2 & Hend & Ht). apply wp_zoom. unfold wp. rewrite Hend. destruct x as [[r p] t3]. cbn in *.
      by rewrite Ht. }
  unfold wp in Hw. destruct (parser_run _ c) as [[[r c'] t]|]; [|done]. cbn. by rewrite Hw.
Qed.

(** The program: it adds its sections and parses a file. *)
Fixpoint add_sections (ss : list (parser_section Env)) : M C event unit :=
  match ss with [] => mret tt | s :: ss => parser_add_section s;; add_sections ss end.
Definition run_config (ss : list (parser_section Env)) (f : file) (en : Env) (answers : list bool) (rs : list Z) :=
  outcome ((add_sections ss;; parser_run getaddrinfo) (parser_start f en answers rs)).

(** The state of the tokens between sections. *)
Definition clean (answers : list bool) (rs : list Z) (ss : list (parser_section Env)) (en : Env) : T :=
  mk_tokens false answers rs en ss None None None None.
Definition start_with (f : file) (answers : list bool) (rs : list Z) (ss : list (parser_section Env)) (en : Env) : C :=
  mk_context f 0 128 0 (repeat 0 128) false false true (clean answers rs ss en).

Lemma add_sections_start f answers rs ss ss0 en :
  add_sections ss (start_with f answers rs ss0 en) = Some (tt, start_with f answers rs (reverse ss ++ ss0) en, []).
Proof.
  revert ss0. induction ss as [|s ss IH]; intros ss0; [done|]. cbn [add_sections].
  rewrite (bind_moves _ _ tt _ (start_with f answers rs (s :: ss0) en)) by done. by rewrite IH, reverse_cons, <- app_assoc.
Qed.
Lemma run_config_start ss f en answers rs :
  run_config ss f en answers rs = outcome (parser_run getaddrinfo (start_with f answers rs (reverse ss) en)).
Proof.
  unfold run_config. change (parser_start f en answers rs) with (start_with f answers rs [] en).
  by rewrite (bind_moves _ _ _ _ _ (add_sections_start f answers rs ss [] en)), app_nil_r.
Qed.
Lemma start_ready text rs ss en : ready_to_run (start_with (mk_file text false false) [] rs ss en) text.
Proof. by exists (repeat 0 127). Qed.

(** C5: a file that is read line by line through the growing and shrinking buffer
    gives the result, the settings and the messages of the reference, which cuts
    the whole text into tokens at once: no comment, string or long line is cut at
    the boundary of the buffer, whatever the sections.  The loop ends, leaves no
    access out of the buffer and no conversion that overflows. *)
Theorem parser_reads_text (ss : list (parser_section Env)) (text : bytes) (en : Env) (rs : list Z) x
    (Hz : Forall (fun c => c <> 0) text) (Hl : zlen text < 2 ^ 29)
    (Hx : parse_text getaddrinfo text (clean [] rs (reverse ss) en) = Some x) :
  run_config ss (mk_file text false false) en [] rs = Some x.
Proof. rewrite run_config_start. by eapply parser_run_lexed; [apply start_ready|..]. Qed.

End run.

(** A section that keeps its values, and a text of several lines that does not fit
    the first buffer. *)
Definition example_section : parser_section (list value) :=
  mk_section (str "s") None None [mk_entry (str "k") pt_pchar (fun v l => Some (v :: l))].
Definition example_text : bytes :=
  str "s { // " ++ repeat 46 200 ++ [NEWLINE] ++ str "k = /* { */ " ++ [QUOTE] ++ str "v }" ++ [QUOTE] ++ str "; /*" ++ [NEWLINE] ++
  str "} */ }" ++ [NEWLINE].
Lemma parser_reads_text_witness :
  run_config (fun _ => None) [example_section] (mk_file example_text false false) [] [] [] =
    Some (0, clean [] [] [example_section] [V_pchar (str "v }")], []).
Proof.
  apply (parser_reads_text (fun _ => None) [example_section] example_text [] []).
  - unfold example_text. apply (bool_decide_eq_true_1 _). by vm_compute.
  - by vm_compute.
  - by vm_compute.
Defined.

End Run.
