(* ===== verification/RedInv.v ===== *)
(** Invariants of the configuration, whatever the file.

    What the callbacks and the entries of the sections keep holds in the end when
    the parser reports no error: no file, no failure of an allocation or of the
    name service and no order of tokens leads around them. *)

From Stdlib Require Import Ascii String.
From S2P Require Import Prelude System CString RedParser.
Import CString Parser.
Open Scope list_scope.

Module ConfInv.

Section invariant.
Context {Env : Type} (getaddrinfo : bytes -> option (list Z)).
Context (ss : list (parser_section Env)).
(** [Inside s] holds in section [s], [Outside] between sections. *)
Context (Inside : parser_section Env -> Env -> Prop) (Outside : Env -> Prop).
Context (Henter : forall s en f r en' ms, s ∈ ss -> Outside en -> onenter s = Some f ->
           f en = Some (r, en', ms) -> r <> -1 -> Inside s en').
Context (Henter_none : forall s en, s ∈ ss -> onenter s = None -> Outside en -> Inside s en).
Context (Haddr : forall s e v en en', s ∈ ss -> e ∈ entries s -> Inside s en -> addr e v en = Some en' -> Inside s en').
Context (Hexit : forall s en f r en' ms, s ∈ ss -> Inside s en -> onexit s = Some f ->
           f en = Some (r, en', ms) -> r <> -1 -> Outside en').
Context (Hexit_none : forall s en, s ∈ ss -> onexit s = None -> Inside s en -> Outside en).
Local Abbreviation T := (tokens Env).
Local Abbreviation C := (parser_context Env).
Implicit Types p : T.

Definition in_section s p : Prop :=
  sections p = ss /\ section p = Some s /\ s ∈ ss /\ (error p = true \/ Inside s (env p)).
Definition between p : Prop := sections p = ss /\ section p = None /\ (error p = true \/ Outside (env p)).
Definition conf_inv p : Prop := between p \/ exists s, in_section s p.

Lemma find_section_in (l : list (parser_section Env)) t s : find_section l t = Some s -> s ∈ l.
Proof. induction l as [|x l IH]; [done|]. cbn. rewrite elem_of_cons. destruct (streq _ _); [intros [= ->]|]; auto. Qed.
Lemma find_entry_in (l : list (parser_entry Env)) t e : find_entry l t = Some e -> e ∈ l.
Proof. induction l as [|x l IH]; [done|]. cbn. rewrite elem_of_cons. destruct (streq _ _); [intros [= ->]|]; auto. Qed.

(** What only reports an error or answers an allocation. *)
Definition harmless (J : T -> Prop) : Prop :=
  (forall p, J p -> J (p <| error := true |>)) /\
  (forall p h, J p -> J (p <| heap := h |>)) /\ (forall p r, J p -> J (p <| randoms := r |>)).

Lemma stays_error (J : T -> Prop) fmt : harmless J -> stays J (parser_error fmt).
Proof. intros (H & _). unfold parser_error. repeat sstep. apply stays_same. intros p. exact (H p). Qed.
Lemma stays_malloc J : harmless J -> stays J malloc.
Proof.
  intros (_ & H & _). unfold malloc. apply stays_bind; [sstep|intros h]. apply stays_bind; [|intros ?; sstep].
  apply stays_modify. auto.
Qed.
Lemma stays_random J : harmless J -> stays J red_randui32.
Proof.
  intros (_ & _ & H). unfold red_randui32. apply stays_bind; [sstep|intros h]. apply stays_bind; [|intros ?; sstep].
  apply stays_modify. auto.
Qed.
Lemma harmless_in s : harmless (in_section s).
Proof. unfold in_section. split_and!; intros; sug; naive_solver. Qed.
Lemma harmless_inv : harmless conf_inv.
Proof. unfold conf_inv, between, in_section. split_and!; intros; sug; naive_solver. Qed.
#[local] Hint Resolve stays_error stays_malloc stays_random harmless_in harmless_inv : core.

Lemma stays_store s e v : e ∈ entries s -> stays (in_section s) (store e v).
Proof using Haddr.
  intros He p a p' t (H1 & H2 & H3 & H4). unfold store, mbind, M_bind, gets, must. cbn.
  destruct (addr e v (env p)) as [en|] eqn:E; [|done]. cbn. intros [= _ <- _]. split_and!; sug; try done.
  destruct H4; [by left|]. right. by eapply Haddr.
Qed.
Lemma stays_assign s k v : stays (in_section s) (assign getaddrinfo s k v).
Proof using All.
  unfold assign. destruct (find_entry (entries s) k) as [e|] eqn:E; [|auto]. apply find_entry_in in E.
  apply stays_bind; [|intros r; repeat first [solve [auto] | sstep]].
  destruct (type e); cbn [value_parser_by_type];
    unfold vp_pbool, vp_disclose_src, vp_on_proxy_fail, vp_name, vp_pchar, vp_uint16, vp_uint32, vp_in_addr,
      vp_in_addr2, vp_obsolete, vp_redsocks_max_accept_backoff;
    repeat first [by apply stays_store | solve [auto] | sstep].
Qed.

Lemma report_spec l p a p' t : report l p = Some (a, p', t) ->
  exists e, p' = p <| error := e |> /\ (e = false -> error p = false).
Proof.
  revert p a p' t. induction l as [|m l IH]; intros p a p' t; cbn [report].
  - intros [= _ <- _]. exists (error p). split; [by destruct p|done].
  - unfold parser_error, mbind, M_bind. cbn. destruct (report (Env := Env) l _) as [[[b p2] t2]|] eqn:E; [|done]. intros [= _ <- _].
    apply IH in E as (e & -> & He). exists e. split; [done|]. intros ->. by specialize (He eq_refl).
Qed.
Lemma callback_spec f fmt p a p' t : callback (Some f) fmt p = Some (a, p', t) ->
  exists r en ms e, f (env p) = Some (r, en, ms) /\ p' = p <| env := en |> <| error := e |> /\
    (e = false -> error p = false /\ r <> -1).
Proof.
  unfold callback, mbind, M_bind, gets, must. cbn. destruct (f (env p)) as [[[r en] ms]|] eqn:E; [|done]. cbn.
  destruct (report (Env := Env) ms _) as [[[b p2] t2]|] eqn:Er; [|done]. apply report_spec in Er as (e & -> & He).
  destruct (Z.eqb_spec r (-1)) as [Hr|Hr]; cbn; intros [= _ <- _].
  - by exists r, en, ms, true.
  - exists r, en, ms, e. split_and!; [done|done|]. intros He'. by specialize (He He').
Qed.

(** Entering and leaving a section. *)
Lemma enter_section s p a p' t : between p -> s ∈ ss ->
  callback (onenter s) "section->onenter failed" (p <| section := Some s |>) = Some (a, p', t) -> in_section s p'.
Proof using All.
  intros (Hs & Hn & Ho) Hin. destruct (onenter s) as [f|] eqn:Ef.
  - intros (r & en & ms & e & Hf & -> & He)%callback_spec. sua. split_and!; sug; try done.
    destruct e; [by left|right]. destruct (He eq_refl) as [He' Hr]. destruct Ho as [?|Ho]; [congruence|]. by eapply Henter.
  - cbn. intros [= _ <- _]. split_and!; sug; try done. destruct Ho; [by left|right; by apply Henter_none].
Qed.
Lemma leave_section s p a p' t : in_section s p ->
  callback (onexit s) "section->onexit failed" p = Some (a, p', t) -> between (p' <| section := None |>).
Proof using All.
  intros (Hs & Hn & Hin & Ho). destruct (onexit s) as [f|] eqn:Ef.
  - intros (r & en & ms & e & Hf & -> & He)%callback_spec. sua. split_and!; sug; try done.
    destruct e; [by left|right]. destruct (He eq_refl) as [He' Hr]. destruct Ho as [?|Ho]; [congruence|]. by eapply Hexit.
  - cbn. intros [= _ <- _]. split_and!; sug; try done. destruct Ho; [by left|right; by eapply Hexit_none].
Qed.

(** What a handler does after it looked at the state. *)
Lemma stays_get (J : T -> Prop) {A} (f : T -> M T event A) :
  (forall p a p' t, J p -> f p p = Some (a, p', t) -> J p') -> stays J (p ← get; f p).
Proof.
  intros H p a p' t Hp. unfold mbind, M_bind, get. destruct (f p p) as [[[b p2] t2]|] eqn:E; [|done].
  intros [= _ <- _]. by eapply H.
Qed.
Lemma stays_inv_error fmt : stays conf_inv (parser_error fmt).
Proof using All. apply stays_error, harmless_inv. Qed.
(** The tokens that are kept are of no concern. *)
Lemma inv_tokens p a b c : conf_inv p ->
  conf_inv (p <| section_token := a |>) /\ conf_inv (p <| key_token := b |>) /\ conf_inv (p <| value_token := c |>).
Proof using All. unfold conf_inv, between, in_section. sug. naive_solver. Qed.

Lemma stays_open : stays conf_inv open_section.
Proof using All.
  apply stays_get. intros p a p' t HJ.
  destruct (section p) as [s0|] eqn:Es; [by apply stays_inv_error|].
  destruct (section_token p) as [t0|] eqn:Et; [|by apply stays_inv_error].
  destruct HJ as [HJ|(s & _ & ? & _)]; [|congruence]. pose proof HJ as (Hss & _).
  destruct (find_section (sections p) t0) as [s|] eqn:Ef.
  - apply find_section_in in Ef. rewrite Hss in Ef. unfold mbind, M_bind, modify. cbn.
    destruct (callback _ _ _) as [[[b p2] t2]|] eqn:Ec; [|done]. intros [= _ <- _].
    apply inv_tokens; [exact None|exact None|]. right. exists s. by eapply enter_section.
  - apply (stays_bind conf_inv); [apply stays_inv_error|intros _|by left].
    apply stays_modify. intros q Hq. by apply inv_tokens; [exact None|exact None|].
Qed.
Lemma stays_close : stays conf_inv close_section.
Proof using All.
  apply stays_get. intros p a p' t HJ. destruct (section p) as [s0|] eqn:Es; [|by apply stays_inv_error].
  destruct HJ as [(_ & ? & _)|(s & HJ)]; [congruence|]. pose proof HJ as (_ & Hs & _). rewrite Es in Hs. injection Hs as ->.
  unfold mbind, M_bind, modify. destruct (callback _ _ p) as [[[b p2] t2]|] eqn:Ec; [|done]. cbn. intros [= _ <- _].
  left. by eapply leave_section.
Qed.
Lemma stays_end : stays conf_inv (end_assignment getaddrinfo).
Proof using All.
  assert (Hrest : stays conf_inv (key_token ::= None;; value_token ::= None : M T event unit)).
  { apply stays_bind; [|intros _]; apply stays_modify; intros q Hq; by apply inv_tokens; [exact None..|]. }
  apply stays_get. intros p a p' t HJ.
  destruct (section p) as [s0|] eqn:Es, (key_token p) as [k|] eqn:Ek; [destruct (value_token p) as [v|] eqn:Ev|..].
  2,4,5: by apply (stays_bind conf_inv); [apply stays_inv_error|intros _; exact Hrest|].
  2: done.
  destruct HJ as [(_ & ? & _)|(s & HJ)]; [congruence|]. pose proof HJ as (_ & Hs & _). rewrite Es in Hs. injection Hs as ->.
  unfold mbind at 1, M_bind at 1. destruct (assign _ s k v p) as [[[b p2] t2]|] eqn:Ea; [|done].
  apply stays_assign in Ea; [|done]. intros Hr.
  destruct (Hrest p2 a p' (drop (length t2) t)); [right; by exists s| |by left|by right].
  revert Hr. generalize ((key_token ::= None;; value_token ::= None : M T event unit) p2).
  intros [[[c p3] t3]|]; [|done]. intros [= <- <- <-]. by rewrite drop_app_length.
Qed.
Lemma stays_config_token t : stays conf_inv (config_token getaddrinfo t).
Proof using All.
  unfold config_token, assignment_sign, plain_token.
  repeat first [apply stays_open | apply stays_close | apply stays_end | apply stays_inv_error |
    apply stays_modify; intros q Hq; by apply inv_tokens; [exact None..|] | sstep].
Qed.

(** ** The parser *)

Local Abbreviation JC := (fun c : C => conf_inv (toks c)).

Lemma stays_toks {A} (m : M T event A) : stays conf_inv m -> stays JC (zoom toks m).
Proof using All. by apply stays_zoom. Qed.
Lemma stays_gettoken iter : stays conf_inv (gettoken (Env := Env) iter).
Proof using All.
  assert (Hn : forall len copy i, stays conf_inv (new_token (Env := Env) len copy i)).
  { intros len copy i. unfold new_token. repeat first [apply stays_inv_error | apply stays_malloc, harmless_inv | sstep]. }
  unfold gettoken. cbv zeta. repeat first [apply Hn | apply stays_inv_error | sstep].
Qed.
Ltac cstep :=
  first [ apply stays_toks, stays_inv_error | apply stays_toks, stays_malloc, harmless_inv
        | apply stays_toks, stays_gettoken | apply stays_toks, stays_config_token | sstep ].

Lemma stays_token_loop fuel iter null : stays JC (token_loop getaddrinfo fuel iter null).
Proof using All.
  revert iter null. induction fuel as [|fuel IH]; intros iter null; cbn [token_loop]; [by sstep|].
  unfold string_at, line_comment, open_comment, string_at, to_int, memmove, context_filled_add, context_filled_set.
  repeat first [apply IH | cstep].
Qed.
Lemma stays_iteration : stays JC (parser_iteration getaddrinfo).
Proof using All.
  unfold parser_iteration, and_then, grow, read_line, skip_comment, run_tokens, string_at, to_int, memmove,
    context_filled_add, context_filled_set.
  repeat first [apply stays_token_loop | cstep].
Qed.
Lemma stays_parser_loop fuel : stays JC (parser_loop getaddrinfo fuel).
Proof using All.
  induction fuel as [|fuel IH]; cbn [parser_loop]; [by sstep|]. repeat first [apply IH | apply stays_iteration | cstep].
Qed.

(** *** The result *)

Definition gives {S E A} (P : A -> Prop) (m : M S E A) : Prop :=
  forall s a s' t, m s = Some (a, s', t) -> P a.
Lemma gives_bind {S E A B} (P : B -> Prop) (m : M S E A) (f : A -> M S E B) :
  (forall a, gives P (f a)) -> gives P (m ≫= f).
Proof.
  intros Hf s b s' t. unfold mbind, M_bind. destruct (m s) as [[[a s1] t1]|]; [|done].
  destruct (f a s1) as [[[b' s2] t2]|] eqn:E2; [|done]. intros [= <- _ _]. by eapply Hf.
Qed.
Lemma gives_ret {S E A} (P : A -> Prop) (a : A) : P a -> gives P (mret a : M S E A).
Proof. by intros H s b s' t [= <- _ _]. Qed.
Ltac gstep :=
  match goal with
  | |- gives _ (mbind _ _) => apply gives_bind; intros ?
  | |- gives _ (mret _) => apply gives_ret
  | |- gives _ (if ?b then _ else _) => destruct b
  | |- gives _ (match ?x with _ => _ end) => destruct x
  end.

(** The parser returns early only with -1. *)
Definition no_success (f : flow) : Prop := match f with Return r => r = -1 | _ => True end.
Lemma gives_and_then (m1 m2 : M C event flow) :
  gives no_success m1 -> gives no_success m2 -> gives no_success (and_then m1 m2).
Proof.
  intros H1 H2 s a s' t. unfold and_then, mbind, M_bind. destruct (m1 s) as [[[f s1] t1]|] eqn:E1; [|done].
  apply H1 in E1. destruct f; cbn.
  - destruct (m2 s1) as [[[f s2] t2]|] eqn:E2; [|done]. intros [= <- _ _]. by eapply H2.
  - by intros [= <- _ _].
  - by intros [= <- _ _].
Qed.
Lemma gives_iteration : gives no_success (parser_iteration (Env := Env) getaddrinfo).
Proof.
  unfold parser_iteration. apply gives_bind; intros c. apply gives_bind; intros _.
  repeat apply gives_and_then; unfold grow, read_line, skip_comment, run_tokens; by repeat gstep.
Qed.
Lemma loop_result fuel (c : C) r (c' : C) t : parser_loop getaddrinfo fuel c = Some (Some r, c', t) -> r = -1.
Proof.
  revert c t. induction fuel as [|fuel IH]; intros c t; cbn [parser_loop]; [done|].
  unfold mbind, M_bind, get. destruct (_ || _); [done|].
  destruct (parser_iteration _ c) as [[[f c1] t1]|] eqn:E; [|done]. apply gives_iteration in E.
  destruct f; cbn in E.
  1,2: destruct (parser_loop _ fuel c1) as [[[r2 c2] t2]|] eqn:E2; [|done]; intros [= -> -> _]; by eapply IH.
  subst. by intros [= <- _ _].
Qed.

Lemma end_result p p' t : end_of_file p = Some (0, p', t) -> p' = p /\ error p = false /\ section p = None.
Proof.
  unfold end_of_file, mbind, M_bind, get, gets, when, parser_error. destruct p as [e h r en sl s st kt vt]. cbn.
  destruct s, st, kt, vt; cbn; try done. destruct e; [done|]. by intros [= <- _].
Qed.

(** When the parser returns 0, what is promised between sections holds. *)
Lemma accepted (c c' : C) t : sections (toks c) = ss -> section (toks c) = None -> Outside (env (toks c)) ->
  parser_run getaddrinfo c = Some (0, c', t) -> Outside (env (toks c')).
Proof using All.
  intros Hs Hn Ho. unfold parser_run, mbind, M_bind, get.
  destruct (parser_loop _ _ c) as [[[o c1] t1]|] eqn:El; [|done].
  pose proof (stays_parser_loop _ _ _ _ _ (or_introl (conj Hs (conj Hn (or_intror Ho)))) El) as HJ.
  destruct o as [r|]; [apply loop_result in El as ->; done|].
  unfold zoom. destruct (end_of_file (toks c1)) as [[[r p'] t2]|] eqn:Ee; [|done]. intros [= -> <- _]. sug.
  apply end_result in Ee as (-> & He & Hsec).
  destruct HJ as [(_ & _ & [?|?])|(s & _ & ? & _)]; congruence.
Qed.

End invariant.
End ConfInv.
