(* ===== verification/RedErrors.v ===== *)
(** Errors of the configuration parser.

    A file is refused exactly when something was reported: the parser is never
    silent about a refusal and never goes on after a report. *)

From Stdlib Require Import Ascii String.
From S2P Require Import Prelude CString RedParser RedLexer RedRun.
Import CString Parser Lexer Run.
Open Scope list_scope.

Module ConfErrors.

(** [loud err m]: [m] sets the error [err] when it reports something, and only then. *)
Definition silent (t : list event) : bool := match t with [] => true | _ => false end.
Definition loud {S A} (err : S -> bool) (m : M S event A) : Prop :=
  forall s a s' t, m s = Some (a, s', t) -> err s' = err s || negb (silent t).

Lemma silent_app t1 t2 : silent (t1 ++ t2) = silent t1 && silent t2.
Proof. by destruct t1, t2. Qed.

Section loud.
Context {S : Type} (err : S -> bool).
Lemma loud_bind {A B} (m : M S event A) (f : A -> M S event B) :
  loud err m -> (forall a, loud err (f a)) -> loud err (m ≫= f).
Proof.
  intros Hm Hf s b s' t. unfold mbind, M_bind. destruct (m s) as [[[a s1] t1]|] eqn:E1; [|done].
  destruct (f a s1) as [[[b' s2] t2]|] eqn:E2; [|done]. intros [= <- <- <-].
  by rewrite (Hf _ _ _ _ _ E2), (Hm _ _ _ _ E1), silent_app, negb_andb, orb_assoc.
Qed.
(** A part that neither reports nor touches the error. *)
Lemma loud_quiet {A} (m : M S event A) :
  (forall s, match m s with Some (_, s', t) => err s' = err s /\ t = [] | None => True end) -> loud err m.
Proof. intros H s a s' t E. specialize (H s). rewrite E in H. destruct H as [-> ->]. by rewrite orb_false_r. Qed.
Lemma loud_modify f : (forall s, err (f s) = err s) -> loud err (modify f).
Proof. intros H. by apply loud_quiet. Qed.
Lemma loud_zoom {R A} (proj : R -> S) `{U : !Upd proj} (errR : R -> bool) (m : M S event A) :
  (forall r s, errR (upd proj (fun _ => s) r) = err s) -> (forall r, errR r = err (proj r)) ->
  loud err m -> loud errR (zoom proj m).
Proof.
  intros Hset Hget Hm r a r' t. unfold zoom. destruct (m (proj r)) as [[[a' s] t']|] eqn:E1; [|done].
  intros [= <- <- <-]. by rewrite Hset, Hget, (Hm _ _ _ _ E1).
Qed.
End loud.

Ltac lstep :=
  match goal with
  | |- loud _ (mbind _ _) => apply loud_bind; [|intros ?]
  | |- loud _ (when _ _) => unfold when
  | |- loud _ (if ?b then _ else _) => destruct b
  | |- loud _ (match ?x with _ => _ end) => destruct x
  | |- loud _ (modify _) => apply loud_modify; intros ?; reflexivity
  | |- loud _ get => apply loud_quiet; intros ?; by split
  | |- loud _ (gets _) => apply loud_quiet; intros ?; by split
  | |- loud _ (mret _) => apply loud_quiet; intros ?; by split
  | |- loud _ ub => apply loud_quiet; intros ?; done
  | |- loud _ (must ?o) => apply loud_quiet; intros ?; unfold must; destruct o; by repeat split
  | |- loud _ (assert ?b) => apply loud_quiet; intros ?; unfold assert; destruct b; by repeat split
  end.

Section errors.
Context {Env : Type} (getaddrinfo : bytes -> option (list Z)).
Local Abbreviation T := (tokens Env).
Local Abbreviation C := (parser_context Env).

Lemma loud_error fmt : loud error (parser_error fmt : M T event unit).
Proof. intros p a p' t. unfold parser_error, mbind, M_bind. cbn. intros [= _ <- <-]. cbn. by rewrite orb_true_r. Qed.
Ltac tstep := first [apply loud_error | lstep].

Lemma loud_report l : loud error (report l : M T event unit).
Proof. induction l as [|m l IH]; cbn [report]; repeat first [apply IH | tstep]. Qed.
Lemma loud_callback f fmt : loud error (callback f fmt : M T event unit).
Proof. unfold callback. repeat first [apply loud_report | tstep]. Qed.
Lemma loud_value_parser ty e v : loud error (value_parser_by_type getaddrinfo ty e v : M T event Z).
Proof.
  destruct ty; cbn [value_parser_by_type];
    unfold vp_pbool, vp_disclose_src, vp_on_proxy_fail, vp_name, vp_pchar, vp_uint16, vp_uint32, vp_in_addr,
      vp_in_addr2, vp_obsolete, vp_redsocks_max_accept_backoff, store, malloc, red_randui32; repeat tstep.
Qed.
Lemma loud_config_token t : loud error (config_token getaddrinfo t : M T event bool).
Proof.
  unfold config_token, open_section, close_section, assignment_sign, end_assignment, assign, plain_token.
  repeat first [apply loud_callback | apply loud_value_parser | tstep].
Qed.
Lemma loud_gettoken iter : loud error (gettoken iter : M T event (option bytes * bytes)).
Proof. unfold gettoken. cbv zeta. unfold new_token, malloc. repeat tstep. Qed.
Lemma loud_end_of_file : loud error (end_of_file : M T event Z).
Proof. unfold end_of_file. repeat tstep. Qed.

(** ** The parser *)

Local Abbreviation errC := (fun c : C => error (toks c)).
Lemma loud_toks {A} (m : M T event A) : loud error m -> loud errC (zoom toks m).
Proof. by apply loud_zoom. Qed.
Ltac cstep :=
  first [ apply loud_toks; first [apply loud_error | apply loud_gettoken | apply loud_config_token | apply loud_end_of_file
                                 | unfold malloc; by repeat tstep]
        | lstep ].

Lemma loud_token_loop fuel iter null : loud errC (token_loop getaddrinfo fuel iter null).
Proof.
  revert iter null. induction fuel as [|fuel IH]; intros iter null; cbn [token_loop]; [by lstep|].
  unfold string_at, line_comment, open_comment, string_at, to_int, memmove, context_filled_add, context_filled_set.
  repeat first [apply IH | cstep].
Qed.
Lemma loud_iteration : loud errC (parser_iteration getaddrinfo).
Proof.
  unfold parser_iteration, and_then, grow, read_line, skip_comment, run_tokens, string_at, to_int, memmove,
    context_filled_add, context_filled_set.
  repeat first [apply loud_token_loop | cstep].
Qed.
Lemma loud_loop fuel : loud errC (parser_loop getaddrinfo fuel).
Proof. induction fuel as [|fuel IH]; cbn [parser_loop]; [by lstep|]. repeat first [apply IH | apply loud_iteration | cstep]. Qed.

(** The parser returns early only with -1, and not without a message. *)
Definition returns_loud {S} (m : M S event flow) : Prop :=
  forall s a s' t, m s = Some (a, s', t) -> match a with Return r => r = -1 /\ t <> [] | _ => True end.
Lemma returns_bind {S A} (m : M S event A) (f : A -> M S event flow) :
  (forall a, returns_loud (f a)) -> returns_loud (m ≫= f).
Proof.
  intros Hf s b s' t. unfold mbind, M_bind. destruct (m s) as [[[a s1] t1]|]; [|done].
  destruct (f a s1) as [[[b' s2] t2]|] eqn:E2; [|done]. intros [= <- _ <-]. specialize (Hf _ _ _ _ _ E2).
  destruct b'; [done..|]. split; [apply Hf|]. destruct Hf as [_ Ht]. by destruct t1, t2.
Qed.
Lemma returns_error fmt : returns_loud (zoom toks (parser_error fmt);; mret (Return (-1)) : M C event flow).
Proof. intros s a s' t. unfold zoom, parser_error, mbind, M_bind. cbn. by intros [= <- _ <-]. Qed.
Lemma returns_ret {S} (a : flow) : match a with Return _ => False | _ => True end -> returns_loud (mret a : M S event flow).
Proof. intros Ha s b s' t [= <- _ _]. by destruct a. Qed.
Lemma returns_and_then (m1 m2 : M C event flow) : returns_loud m1 -> returns_loud m2 -> returns_loud (and_then m1 m2).
Proof.
  intros H1 H2 s a s' t. unfold and_then, mbind, M_bind. destruct (m1 s) as [[[f s1] t1]|] eqn:E1; [|done].
  apply H1 in E1. destruct f; cbn.
  - destruct (m2 s1) as [[[f s2] t2]|] eqn:E2; [|done]. intros [= <- _ <-]. apply H2 in E2.
    destruct f; [done..|]. split; [apply E2|]. destruct E2 as [_ Ht]. by destruct t1, t2.
  - by intros [= <- _ _].
  - intros [= <- _ <-]. by rewrite app_nil_r.
Qed.
Ltac rstep :=
  match goal with
  | |- returns_loud (mbind _ (zoom toks (parser_error _))) => apply returns_error
  | |- returns_loud (mbind _ _) => apply returns_bind; intros ?
  | |- returns_loud (mret _) => apply returns_ret
  | |- returns_loud (if ?b then _ else _) => destruct b
  | |- returns_loud (match ?x with _ => _ end) => destruct x
  end.
Lemma returns_iteration : returns_loud (parser_iteration (Env := Env) getaddrinfo).
Proof.
  unfold parser_iteration. apply returns_bind; intros c. apply returns_bind; intros _.
  repeat apply returns_and_then; unfold grow, read_line, skip_comment, run_tokens; by repeat rstep.
Qed.
Lemma loop_returns fuel (c : C) r (c' : C) t :
  parser_loop getaddrinfo fuel c = Some (Some r, c', t) -> r = -1 /\ t <> [].
Proof.
  revert c t. induction fuel as [|fuel IH]; intros c t; cbn [parser_loop]; [done|].
  unfold mbind, M_bind, get. destruct (_ || _); [done|].
  destruct (parser_iteration _ c) as [[[f c1] t1]|] eqn:E; [|done]. apply returns_iteration in E.
  destruct f as [| |r1].
  1,2: destruct (parser_loop _ fuel c1) as [[[r2 c2] t2]|] eqn:E2; [|done]; intros [= -> -> <-];
    destruct (IH _ _ E2) as [-> Ht2]; split; [done|]; by destruct t1, t2.
  cbn. destruct E as [-> Ht]. intros [= <- _ <-]. by destruct t1.
Qed.
Lemma end_status (p : T) r p' t : end_of_file p = Some (r, p', t) ->
  (r = 0 /\ t = [] /\ p' = p /\ error p = false /\ section p = None /\ section_token p = None /\ key_token p = None /\ value_token p = None) \/
  (r = -1 /\ error p' = true).
Proof.
  unfold end_of_file, mbind, M_bind, get, gets, when, parser_error. destruct p as [e h rr en l s st kt vt]. cbn.
  destruct s, st, kt, vt, e; cbn; intros [= <- <- <-]; auto 9.
Qed.


End errors.


End ConfErrors.
