(* ===== verification/RedText.v ===== *)
(** Configuration files that are written and read back.

    [print_config] writes sections of keys and values, every value as a string in
    quotes; [load_config] says what the entries mean, without tokens or text. *)

From Stdlib Require Import Ascii String.
From S2P Require Import Prelude CString RedParser RedLexer RedRun.
Import CString Parser Lexer Run.
Open Scope list_scope.

Module ConfText.

(** ** The text *)

Definition is_word (s : bytes) : bool :=
  match s with
  | c :: _ => isalpha c && forallb (fun c => isalnum c || (c =? 95) || (c =? 46) || (c =? 45)) s
  | [] => false
  end.
(** A value that the parser does not take for a token of its own, even in quotes. *)
Definition is_value (v : bytes) : bool :=
  forallb (fun t => negb (streq v (str t))) ["//"; "/*"; "{"; "}"; "="; ";"]%string && forallb (fun c => negb (c =? 0)) v.

Definition escape (v : bytes) : bytes :=
  v ≫= (fun c => if (c =? QUOTE) || (c =? BACKSLASH) then [BACKSLASH; c] else [c]).

Definition entry := (bytes * bytes)%type.
Definition print_entry (e : entry) : bytes :=
  [9] ++ e.1 ++ [32; 61; 32; QUOTE] ++ escape e.2 ++ [QUOTE; 59; NEWLINE].
Definition section_text := (bytes * list entry)%type.
Definition print_section (s : section_text) : bytes :=
  s.1 ++ [32; 123; NEWLINE] ++ (s.2 ≫= print_entry) ++ [125; NEWLINE].
Definition print_config (cfg : list section_text) : bytes := cfg ≫= print_section.

Definition good_config (cfg : list section_text) : bool :=
  forallb (fun s => is_word s.1 && forallb (fun e => is_word e.1 && is_value e.2) s.2) cfg.

Definition entry_tokens (e : entry) : list bytes := [e.1; [61]; e.2; [59]].
Definition section_tokens (s : section_text) : list bytes := s.1 :: [123] :: (s.2 ≫= entry_tokens) ++ [[125]].

(** ** The meaning *)

Section load.
Context {Env : Type}.
Implicit Types (en : Env).

(** The values an entry is set to. *)
Definition parse_value (t : parser_type) (v : bytes) : option (list value) :=
  match t with
  | pt_bool => b ← find_name booleans v; Some [V_bool b]
  | pt_disclose_src => x ← find_name disclose_srcs v; Some [V_disclose_src x]
  | pt_on_proxy_fail => x ← find_name on_proxy_fails v; Some [V_on_proxy_fail x]
  | pt_pchar => Some [V_pchar v]
  | pt_uint16 => match strtoul v with (x, []) => if x <? 65536 then Some [V_uint16 x] else None | _ => None end
  | pt_uint32 => match strtoul v with (x, []) => Some [V_uint32 (u32 x)] | _ => None end
  | pt_in_addr => a ← inet_aton v; Some [V_in_addr a]
  | _ => None
  end.

Fixpoint set_all (e : parser_entry Env) (vs : list value) (en : Env) : option Env :=
  match vs with [] => Some en | v :: vs => addr e v en ≫= set_all e vs end.
Definition load_entry (s : parser_section Env) (en : Env) (e : entry) : option Env :=
  pe ← find_entry (entries s) e.1; vs ← parse_value (type pe) e.2; set_all pe vs en.
Definition load_callback (f : option (Env -> option (Z * Env * list string))) (en : Env) : option Env :=
  match f with
  | None => Some en
  | Some f => match f en with Some (r, en', []) => if r =? -1 then None else Some en' | _ => None end
  end.
Fixpoint load_entries (s : parser_section Env) (es : list entry) (en : Env) : option Env :=
  match es with [] => Some en | e :: es => load_entry s en e ≫= load_entries s es end.
Definition load_section (ss : list (parser_section Env)) (en : Env) (t : section_text) : option Env :=
  s ← find_section ss t.1; en ← load_callback (onenter s) en; en ← load_entries s t.2 en; load_callback (onexit s) en.
Fixpoint load_config (ss : list (parser_section Env)) (cfg : list section_text) (en : Env) : option Env :=
  match cfg with [] => Some en | t :: cfg => load_section ss en t ≫= load_config ss cfg end.
End load.

(** ** Scanning what was printed *)

Lemma lex_space c p : isspace c = true -> lex (c :: p) = lex p.
Proof. intros Hc. rewrite <- (lex_skip (c :: p)). cbn. rewrite Hc. apply lex_skip. Qed.
Lemma lex_token p t r : scan_token p = Tok t r -> streq t (str "//") = false -> streq t (str "/*") = false ->
  lex p = (t :: (lex r).1, (lex r).2).
Proof. intros Hs H1 H2. by rewrite lex_step, Hs, H1, H2. Qed.

Lemma word_length_word s c r : forallb (fun c => isalnum c || (c =? 95) || (c =? 46) || (c =? 45)) s = true ->
  isalnum c || (c =? 95) || (c =? 46) || (c =? 45) = false ->
  word_length (s ++ c :: r) = Some (zlen s).
Proof.
  intros Hs Hc. induction s as [|d s IH]; cbn in *; [by rewrite Hc|].
  apply andb_true_iff in Hs as [Hd Hs]. rewrite Hd, IH by done. cbn. by rewrite zlen_cons, <- Z.add_1_l.
Qed.
Lemma scan_word s c r : is_word s = true -> isalnum c || (c =? 95) || (c =? 46) || (c =? 45) = false ->
  scan_token (s ++ c :: r) = Tok s (c :: r).
Proof.
  destruct s as [|d s]; [done|]. unfold is_word. rewrite andb_true_iff. intros [Hd Hs] Hc.
  pose proof (word_length_word (d :: s) c r Hs Hc) as Hw. unfold scan_token. cbn [app skip_spaces] in *.
  assert (Hn : isspace d = false /\ (d =? QUOTE) = false /\ isdigit d = false).
  { unfold isalpha, isspace, isdigit, QUOTE in *. lia. }
  destruct Hn as (-> & -> & ->). rewrite Hd, Hw. unfold split_at. cbn -[zlen].
  change (d :: s ++ c :: r) with ((d :: s) ++ c :: r). rewrite slice_app_l by done.
  rewrite slice_app_r; [done|done|rewrite zlen_app; lia].
Qed.
Lemma scan_punctuation c r : punctuation c = true -> scan_token (c :: r) = Tok [c] r.
Proof.
  intros Hc. rewrite scan_token_kind. cbn [skip_spaces].
  assert (Hn : isspace c = false) by (unfold punctuation, isspace in *; lia). rewrite Hn.
  assert (Hk : kind_of c r = Plain (Some 1)).
  { unfold kind_of. rewrite Hc. assert (H : (c =? QUOTE) = false /\ isdigit c = false /\ isalpha c = false)
      by (unfold punctuation, isdigit, isalpha, QUOTE in *; lia). by destruct H as (-> & -> & ->). }
  rewrite Hk. cbn -[zlen]. f_equal. rewrite zlen_cons. replace (1 + zlen r - 1) with (zlen r) by lia.
  by apply (slice_app_r 1 (zlen r) [c] r).
Qed.
Lemma escape_cons c v : escape (c :: v) = (if (c =? QUOTE) || (c =? BACKSLASH) then [BACKSLASH; c] else [c]) ++ escape v.
Proof. done. Qed.
Lemma quoted_escape v r :
  quoted_length (escape v ++ QUOTE :: r) = Some (inr (zlen v)) /\ quoted_copy (escape v ++ QUOTE :: r) = Some (v, r).
Proof.
  induction v as [|c v [IH1 IH2]]; [done|]. rewrite escape_cons, zlen_cons, Z.add_1_l.
  destruct (Z.eqb_spec c QUOTE) as [->|Hq]; [|destruct (Z.eqb_spec c BACKSLASH) as [->|Hb]]; cbn [orb app].
  - cbn. rewrite IH1, IH2. done.
  - cbn. rewrite IH1, IH2. done.
  - apply Z.eqb_neq in Hq, Hb. cbn [quoted_length quoted_copy]. rewrite Hq, Hb, IH1, IH2. done.
Qed.
Lemma scan_quoted v r : scan_token (QUOTE :: escape v ++ QUOTE :: r) = Tok v r.
Proof. unfold scan_token. cbn [skip_spaces]. change (isspace QUOTE) with false. cbn iota. rewrite Z.eqb_refl.
  destruct (quoted_escape v r) as [-> ->]. done. Qed.

Lemma lex_word s c r : is_word s = true -> isalnum c || (c =? 95) || (c =? 46) || (c =? 45) = false ->
  lex (s ++ c :: r) = (s :: (lex (c :: r)).1, (lex (c :: r)).2).
Proof.
  intros Hs Hc. apply lex_token; [by apply scan_word|..]; apply bool_decide_eq_false; intros ->; done.
Qed.
Lemma lex_punctuation c r : punctuation c = true -> lex (c :: r) = ([c] :: (lex r).1, (lex r).2).
Proof. intros Hc. apply lex_token; [by apply scan_punctuation|..]; by apply bool_decide_eq_false. Qed.
Lemma value_not v t : is_value v = true -> t ∈ ["//"; "/*"; "{"; "}"; "="; ";"]%string -> streq v (str t) = false.
Proof.
  unfold is_value. rewrite andb_true_iff, forallb_forall. intros [H _] Ht. apply list_elem_of_In in Ht.
  apply negb_true_iff. by apply H.
Qed.
Lemma lex_quoted v r : is_value v = true -> lex (QUOTE :: escape v ++ QUOTE :: r) = (v :: (lex r).1, (lex r).2).
Proof. intros Hv. apply lex_token; [apply scan_quoted|..]; apply value_not; [done|set_solver|done|set_solver]. Qed.

Definition good_entry (e : entry) : bool := is_word e.1 && is_value e.2.

Lemma lex_entry e r : good_entry e = true ->
  lex (print_entry e ++ r) = (entry_tokens e ++ (lex r).1, (lex r).2).
Proof.
  destruct e as [k v]. unfold good_entry, print_entry, entry_tokens. rewrite andb_true_iff. intros [Hk Hv]. cbn [fst snd] in *.
  rewrite <- !app_assoc. cbn [app]. rewrite lex_space by done. rewrite lex_word by done.
  rewrite lex_space, lex_punctuation, lex_space by done.
  rewrite lex_quoted, lex_punctuation, lex_space by done. done.
Qed.
Lemma lex_entries es r : forallb good_entry es = true ->
  lex ((es ≫= print_entry) ++ r) = ((es ≫= entry_tokens) ++ (lex r).1, (lex r).2).
Proof.
  induction es as [|e es IH]; cbn -[lex print_entry entry_tokens]; [by destruct (lex r)|]. rewrite andb_true_iff. intros [He Hes].
  change (mbind print_entry es) with (es ≫= print_entry). rewrite <- app_assoc, lex_entry, (IH Hes) by done. cbn [fst snd].
  by rewrite <- app_assoc.
Qed.
Lemma lex_config cfg r : good_config cfg = true -> lex (print_config cfg ++ r) = ((cfg ≫= section_tokens) ++ (lex r).1, (lex r).2).
Proof.
  unfold print_config. induction cfg as [|[n es] cfg IH]; cbn -[lex print_section section_tokens]; [by destruct (lex r)|].
  rewrite !andb_true_iff. intros [[Hn Hes] Hcfg]. change (mbind print_section cfg) with (cfg ≫= print_section).
  rewrite <- app_assoc. unfold print_section at 1. cbn [fst snd]. rewrite <- !app_assoc. cbn [app].
  rewrite lex_word, lex_space, lex_punctuation, lex_space by done. rewrite lex_entries by done.
  rewrite lex_punctuation, lex_space, (IH Hcfg) by done. cbn [fst snd app]. unfold section_tokens at 2. cbn [fst snd].
  cbn [app]. by rewrite <- !app_assoc.
Qed.

(** Every printed line is complete. *)
Lemma complete_tail p q : complete q <> [] -> complete (p ++ q) = p ++ complete q.
Proof.
  intros Hq. induction p as [|c p IH]; [done|]. cbn. rewrite IH.
  destruct (p ++ complete q) as [|d l] eqn:E; [|done]. by apply app_eq_nil in E as [_ ?].
Qed.
Lemma complete_line p : complete (p ++ [NEWLINE]) = p ++ [NEWLINE].
Proof. by rewrite complete_tail. Qed.
Lemma complete_config cfg : complete (print_config cfg) = print_config cfg.
Proof.
  destruct cfg as [|s cfg _] using rev_ind; [done|]. unfold print_config. rewrite bind_app. cbn. rewrite app_nil_r.
  unfold print_section. rewrite !app_assoc. change [125; NEWLINE] with ([125] ++ [NEWLINE]). rewrite !app_assoc. apply complete_line.
Qed.

(** Nothing that is printed ends a string. *)
Local Abbreviation text := (Forall (fun c : Z => c <> 0)).
Lemma word_text s : is_word s = true -> text s.
Proof.
  destruct s as [|c s]; [done|]. unfold is_word. rewrite andb_true_iff, forallb_forall. intros [_ H].
  apply Forall_forall. intros x Hx%list_elem_of_In. specialize (H x Hx). unfold isalnum, isalpha, isdigit in H. lia.
Qed.
Lemma escape_text v : is_value v = true -> text (escape v).
Proof.
  unfold is_value, escape. rewrite andb_true_iff, (forallb_forall _ v). intros [_ H].
  apply Forall_bind, Forall_forall. intros x Hx%list_elem_of_In. specialize (H x Hx).
  cbn. destruct ((x =? QUOTE) || (x =? BACKSLASH)); repeat constructor; try done; lia.
Qed.
Lemma config_text cfg : good_config cfg = true -> text (print_config cfg).
Proof.
  unfold good_config, print_config. rewrite forallb_forall. intros H. apply Forall_bind, Forall_forall.
  intros [n es] [Hn%word_text Hes]%list_elem_of_In%H%andb_true_iff. unfold print_section. cbn [fst snd] in *.
  rewrite forallb_forall in Hes. repeat apply Forall_app_2; try done; try (by repeat constructor).
  apply Forall_bind, Forall_forall. intros [k v] [Hk%word_text Hv%escape_text]%list_elem_of_In%Hes%andb_true_iff.
  unfold print_entry. cbn [fst snd] in *. repeat apply Forall_app_2; try done; by repeat constructor.
Qed.

(** ** Handling what was printed *)

Section handle.
Context {Env : Type} (getaddrinfo : bytes -> option (list Z)) (rs : list Z) (ss : list (parser_section Env)).
Local Abbreviation T := (tokens Env).
Implicit Types (p : T) (en : Env) (s : parser_section Env).

Local Abbreviation clean := (clean [] rs ss).
(** Within a section. *)
Definition inside s en : T := mk_tokens false [] rs en ss (Some s) None None None.

Lemma config_tokens_step t ts b p p' : error p = false -> config_token getaddrinfo t p = Some (b, p', []) ->
  config_tokens getaddrinfo (t :: ts) p = config_tokens getaddrinfo ts p'.
Proof. intros He Ht. cbn [config_tokens]. rewrite (bind_moves _ _ (error p) p p), He by done. apply (bind_moves (config_token getaddrinfo t) (fun _ => config_tokens getaddrinfo ts) b p p' Ht). Qed.

Lemma store_sets e v p en : addr e v (env p) = Some en -> store e v p = Some (tt, p <| env := en |>, []).
Proof. intros Ha. unfold store, mbind, M_bind, gets, must. cbn. by rewrite Ha. Qed.
Lemma set_one e v en en' : set_all e [v] en = Some en' -> addr e v en = Some en'.
Proof. cbn. by intros (x & Hx & [= ->])%bind_Some. Qed.

Lemma store_one e v p en : set_all e [v] (env p) = Some en ->
  (store e v;; mret 0 : M T event Z) p = Some (0, p <| env := en |>, []).
Proof. intros Ha%set_one. by rewrite (bind_moves _ _ _ _ _ (store_sets _ _ _ _ Ha)). Qed.

Lemma value_parser_ok e v vs p en : heap p = [] -> parse_value (type e) v = Some vs ->
  set_all e vs (env p) = Some en ->
  value_parser_by_type getaddrinfo (type e) e v p = Some (0, p <| env := en |>, []).
Proof.
  intros Hh Hv Hs. destruct (type e); cbn iota beta delta [parse_value] in Hv; cbn [value_parser_by_type]; try done.
  1,5-7: apply bind_Some in Hv as (b & Hb & [= <-]);
    unfold vp_pbool, vp_disclose_src, vp_on_proxy_fail, vp_name, vp_in_addr; rewrite Hb; by apply store_one.
  - injection Hv as <-. unfold vp_pchar.
    assert (Hm : malloc p = Some (true, p, [])).
    { unfold malloc, mbind, M_bind, gets, modify. cbn. rewrite Hh. cbn. destruct p. cbn in *. by subst. }
    rewrite (bind_moves _ _ _ _ _ Hm). by apply store_one.
  - unfold vp_uint16. destruct (strtoul v) as [x [|]]; [|done]. destruct (Z.ltb_spec x 65536); [|done]. injection Hv as <-.
    replace (0xFFFF <? x) with false by lia. by apply store_one.
  - unfold vp_uint32. destruct (strtoul v) as [x [|]]; [|done]. injection Hv as <-. by apply store_one.
Qed.

Lemma callback_ok f fmt p en : load_callback f (env p) = Some en -> error p = false ->
  callback f fmt p = Some (tt, p <| env := en |>, []).
Proof.
  intros Hf He. destruct f as [f|]; unfold load_callback in Hf.
  - unfold callback, mbind, M_bind, gets, must. cbn. destruct (f (env p)) as [[[r en'] [|]]|]; [|done..].
    destruct (r =? -1) eqn:Hr; [done|]. by injection Hf as <-.
  - injection Hf as <-. by destruct p.
Qed.

Lemma word_not k t : is_word k = true -> t ∈ ["{"; "}"; "="; ";"]%string -> streq k (str t) = false.
Proof.
  intros Hk Ht. apply bool_decide_eq_false. intros ->. repeat (apply elem_of_cons in Ht as [->|Ht]; [done|]). by apply elem_of_nil in Ht.
Qed.
(** A token that is no punctuation. *)
Lemma config_token_plain t p : (forall x, x ∈ ["{"; "}"; "="; ";"]%string -> streq t (str x) = false) ->
  config_token getaddrinfo t p = plain_token t p.
Proof. intros Ht. unfold config_token. rewrite !Ht by set_solver. done. Qed.

Lemma end_assignment_ok s k v p p' : section p = Some s -> key_token p = Some k -> value_token p = Some v ->
  assign getaddrinfo s k v p = Some (tt, p', []) ->
  end_assignment getaddrinfo p = Some (tt, p' <| key_token := None |> <| value_token := None |>, []).
Proof.
  intros Hs Hk Hv Ha. unfold end_assignment. rewrite (bind_moves _ _ p p p) by done. rewrite Hs, Hk, Hv.
  by rewrite (bind_moves _ _ _ _ _ Ha).
Qed.
Lemma entry_ok s e ts en en' : good_entry e = true -> load_entry s en e = Some en' ->
  config_tokens getaddrinfo (entry_tokens e ++ ts) (inside s en) = config_tokens getaddrinfo ts (inside s en').
Proof.
  destruct e as [k v]. unfold good_entry, load_entry, entry_tokens. cbn [fst snd]. rewrite andb_true_iff.
  intros [Hk Hv] (pe & Hpe & (vs & Hvs & Hset)%bind_Some)%bind_Some. cbn [app].
  rewrite (config_tokens_step _ _ true _ ((inside s en) <| key_token := Some k |>)); [|done|].
  2: { rewrite config_token_plain; [done|]. intros. by apply word_not. }
  rewrite (config_tokens_step _ _ false _ ((inside s en) <| key_token := Some k |>)) by done.
  rewrite (config_tokens_step _ _ true _ ((inside s en) <| key_token := Some k |> <| value_token := Some v |>)); [|done|].
  2: { rewrite config_token_plain; [done|]. intros x Hx. apply value_not; [done|set_solver]. }
  apply (config_tokens_step _ _ false); [done|]. set (p := (inside s en) <| key_token := Some k |> <| value_token := Some v |>).
  assert (Ha : assign getaddrinfo s k v p = Some (tt, p <| env := en' |>, [])).
  { unfold assign. rewrite Hpe. rewrite (bind_moves _ _ _ _ _ (value_parser_ok pe v vs p en' eq_refl Hvs Hset)). done. }
  change (config_token getaddrinfo [59] p) with ((end_assignment getaddrinfo;; mret false : M T event bool) p).
  by rewrite (bind_moves _ _ _ _ _ (end_assignment_ok s k v p _ eq_refl eq_refl eq_refl Ha)).
Qed.
Lemma entries_ok s es ts en en' : forallb good_entry es = true -> load_entries s es en = Some en' ->
  config_tokens getaddrinfo ((es ≫= entry_tokens) ++ ts) (inside s en) = config_tokens getaddrinfo ts (inside s en').
Proof.
  revert en. induction es as [|e es IH]; intros en; cbn [forallb load_entries]; [by intros _ [= ->]|].
  rewrite andb_true_iff. intros [He Hes] (en1 & H1 & H2)%bind_Some.
  cbn [mbind list_bind]. change (mbind entry_tokens es) with (es ≫= entry_tokens). rewrite <- app_assoc.
  erewrite entry_ok by done. by apply IH.
Qed.
Lemma open_section_ok s n en en' : find_section ss n = Some s -> load_callback (onenter s) en = Some en' ->
  open_section ((clean en) <| section_token := Some n |>) = Some (tt, inside s en', []).
Proof.
  intros Hs Hf. set (p := (clean en) <| section_token := Some n |>). unfold open_section.
  rewrite (bind_moves _ _ p p p) by done. change (section p) with (@None (parser_section Env)).
  change (section_token p) with (Some n). change (sections p) with ss. cbn iota. rewrite Hs.
  rewrite (bind_moves _ _ tt p ((inside s en') <| section_token := Some n |>)); [done|].
  rewrite (bind_moves _ _ tt p (p <| section := Some s |>)) by done. by rewrite (callback_ok _ _ _ en').
Qed.
Lemma section_ok t ts en en' : is_word t.1 && forallb good_entry t.2 = true -> load_section ss en t = Some en' ->
  config_tokens getaddrinfo (section_tokens t ++ ts) (clean en) = config_tokens getaddrinfo ts (clean en').
Proof.
  destruct t as [n es]. unfold load_section, section_tokens. cbn [fst snd]. rewrite andb_true_iff. intros [Hn Hes].
  intros (s & Hs & (en1 & H1 & (en2 & H2 & H3)%bind_Some)%bind_Some)%bind_Some. cbn [app].
  rewrite (config_tokens_step _ _ true _ ((clean en) <| section_token := Some n |>)); [|done|].
  2: { rewrite config_token_plain; [done|]. intros. by apply word_not. }
  rewrite (config_tokens_step _ _ false _ (inside s en1)); [|done|].
  2: { set (p := (clean en) <| section_token := Some n |>).
    change (config_token getaddrinfo [123] p) with ((open_section;; mret false : M T event bool) p).
    by rewrite (bind_moves _ _ _ _ _ (open_section_ok s n en en1 Hs H1)). }
  rewrite <- app_assoc. erewrite entries_ok by done. cbn [app]. apply (config_tokens_step _ _ false); [done|].
  change (config_token getaddrinfo [125] (inside s en2)) with
    ((close_section;; mret false : M T event bool) (inside s en2)).
  assert (Hc : close_section (inside s en2) = Some (tt, clean en', [])).
  { unfold close_section. rewrite (bind_moves _ _ (inside s en2) _ (inside s en2)) by done. cbn [section inside].
    rewrite (bind_moves _ _ tt _ (inside s en')); [done|]. by rewrite (callback_ok _ _ _ en'). }
  by rewrite (bind_moves _ _ _ _ _ Hc).
Qed.
Lemma sections_ok cfg ts en en' : good_config cfg = true -> load_config ss cfg en = Some en' ->
  config_tokens getaddrinfo ((cfg ≫= section_tokens) ++ ts) (clean en) = config_tokens getaddrinfo ts (clean en').
Proof.
  revert en. induction cfg as [|t cfg IH]; intros en; cbn [good_config forallb load_config]; [by intros _ [= ->]|].
  rewrite andb_true_iff. intros [He Hes] (en1 & H1 & H2)%bind_Some.
  cbn [mbind list_bind]. change (mbind section_tokens cfg) with (cfg ≫= section_tokens). rewrite <- app_assoc.
  erewrite section_ok by done. by apply IH.
Qed.
(** What is written is what the reference reads, with no error and no message. *)
Lemma parse_printed cfg en en' : good_config cfg = true -> load_config ss cfg en = Some en' ->
  parse_text getaddrinfo (print_config cfg) (clean en) = Some (0, clean en', []).
Proof.
  intros Hg Hl. unfold parse_text. rewrite complete_config by done.
  pose proof (lex_config cfg [] Hg) as Hx. rewrite !app_nil_r in Hx. change (lex []) with (@nil bytes, @None string) in Hx.
  rewrite Hx. unfold run_lexed. cbn [fst snd].
  pose proof (sections_ok cfg [] en en' Hg Hl) as Hs. rewrite app_nil_r in Hs. change (config_tokens getaddrinfo [] (clean en')) with (Some (tt, clean en', @nil event)) in Hs.
  rewrite (bind_moves _ _ _ _ _ Hs). done.
Qed.

(** And so does the parser. *)
Lemma parser_reads_printed cfg c en en' : good_config cfg = true -> zlen (print_config cfg) < 2 ^ 29 ->
  load_config ss cfg en = Some en' -> ready_to_run c (print_config cfg) -> toks c = clean en ->
  outcome (parser_run getaddrinfo c) = Some (0, clean en', []).
Proof.
  intros Hg Hz Hl Hr Hc. eapply parser_run_lexed; [done|by apply config_text|done|]. rewrite Hc. by apply parse_printed.
Qed.
End handle.

End ConfText.
