(* ===== verification/RedConfig.v ===== *)
(** The sections of the configuration of redsocks: [base.c] and [redsocks.c].

    The entries of a section are pointers into the instance that is configured;
    [onenter] makes the instance and [onexit] completes and checks it.  The other
    subsystems are not part of the Android build. *)

From Stdlib Require Import Ascii String.
From S2P Require Import Prelude NetInt CString RedParser RedLexer RedRun RedInv.
Import CString Parser Lexer Run ConfInv.
Open Scope list_scope.

Module Config.

(** ** The state *)

Inductive redirector_subsys := redir_iptables | redir_generic.

Record base_instance := mk_base {
  configured : Z;
  chroot : option bytes;
  user : option bytes;
  group : option bytes;
  redirector_name : option bytes;
  redirector : option redirector_subsys;
  log_name : option bytes;
  log_debug : bool;
  log_info : bool;
  daemon : bool;
  tcp_keepalive_time : Z;
  tcp_keepalive_probes : Z;
  tcp_keepalive_intvl : Z;
  rlimit_nofile : Z;
  conn_max : Z;
  idle_timeout : Z;
  max_accept_backoff_ms : Z
}.
#[export] Instance eta_base : Eta base_instance := fun b =>
  mk_base (configured b) (chroot b) (user b) (group b) (redirector_name b) (redirector b) (log_name b)
    (log_debug b) (log_info b) (daemon b) (tcp_keepalive_time b) (tcp_keepalive_probes b) (tcp_keepalive_intvl b)
    (rlimit_nofile b) (conn_max b) (idle_timeout b) (max_accept_backoff_ms b).

Inductive relay_subsys := http_connect | http_relay | socks4 | socks5.
#[export] Instance relay_subsys_eq_dec : EqDecision relay_subsys.
Proof. solve_decision. Defined.
#[export] Instance disclose_src_eq_dec : EqDecision disclose_src_e.
Proof. solve_decision. Defined.
#[export] Instance on_proxy_fail_eq_dec : EqDecision on_proxy_fail_e.
Proof. solve_decision. Defined.

(** Addresses are in host byte order; a port is the value of its 16 bits of memory. *)
Record redsocks_config := mk_config {
  bind_addr : Z;
  bind_port : Z;
  relay_addr : Z;
  relay_port : Z;
  config_type : option bytes;
  login : option bytes;
  password : option bytes;
  listenq : Z;
  use_splice : bool;
  disclose_src : disclose_src_e;
  on_proxy_fail : on_proxy_fail_e
}.
#[export] Instance eta_config : Eta redsocks_config := fun c =>
  mk_config (bind_addr c) (bind_port c) (relay_addr c) (relay_port c) (config_type c) (login c)
    (password c) (listenq c) (use_splice c) (disclose_src c) (on_proxy_fail c).

Record redsocks_instance := mk_instance { config : redsocks_config; relay_ss : option relay_subsys }.
#[export] Instance eta_instance : Eta redsocks_instance := fun i => mk_instance (config i) (relay_ss i).

(** The static variables: [instance] of base.c, [instances] of redsocks.c and the
    [data] of its section, with the answers of [calloc] and [is_splice_good]. *)
Record program := mk_program {
  base : base_instance;
  instances : list redsocks_instance;
  section_data : option redsocks_instance;
  callocs : list bool;
  splice_good : bool
}.
#[export] Instance eta_program : Eta program := fun p =>
  mk_program (base p) (instances p) (section_data p) (callocs p) (splice_good p).

(** ** base *)

Definition base_zero : base_instance :=
  mk_base 0 None None None None None None false false false 0 0 0 0 0 0 0.

Definition base_addr (set : value -> base_instance -> option base_instance) (v : value) (p : program) : option program :=
  b ← set v (base p); Some (p <| base := b |>).
(** A pointer of the type that the parser of the entry writes. *)
Definition to_pchar {R} (f : R -> bytes -> R) (v : value) (r : R) : option R :=
  match v with V_pchar s => Some (f r s) | _ => None end.
Definition to_bool {R} (f : R -> bool -> R) (v : value) (r : R) : option R :=
  match v with V_bool b => Some (f r b) | _ => None end.
Definition to_uint16 {R} (f : R -> Z -> R) (v : value) (r : R) : option R :=
  match v with V_uint16 x => Some (f r x) | _ => None end.
Definition to_uint32 {R} (f : R -> Z -> R) (v : value) (r : R) : option R :=
  match v with V_uint32 x => Some (f r x) | _ => None end.
Definition to_in_addr {R} (f : R -> Z -> R) (v : value) (r : R) : option R :=
  match v with V_in_addr x => Some (f r x) | _ => None end.

Definition base_entries : list (parser_entry program) :=
  [ mk_entry (str "chroot") pt_pchar (base_addr (to_pchar (fun b s => b <| chroot := Some s |>)));
    mk_entry (str "user") pt_pchar (base_addr (to_pchar (fun b s => b <| user := Some s |>)));
    mk_entry (str "group") pt_pchar (base_addr (to_pchar (fun b s => b <| group := Some s |>)));
    mk_entry (str "redirector") pt_pchar (base_addr (to_pchar (fun b s => b <| redirector_name := Some s |>)));
    mk_entry (str "log") pt_pchar (base_addr (to_pchar (fun b s => b <| log_name := Some s |>)));
    mk_entry (str "log_debug") pt_bool (base_addr (to_bool (fun b x => b <| log_debug := x |>)));
    mk_entry (str "log_info") pt_bool (base_addr (to_bool (fun b x => b <| log_info := x |>)));
    mk_entry (str "daemon") pt_bool (base_addr (to_bool (fun b x => b <| daemon := x |>)));
    mk_entry (str "tcp_keepalive_time") pt_uint16 (base_addr (to_uint16 (fun b x => b <| tcp_keepalive_time := x |>)));
    mk_entry (str "tcp_keepalive_probes") pt_uint16 (base_addr (to_uint16 (fun b x => b <| tcp_keepalive_probes := x |>)));
    mk_entry (str "tcp_keepalive_intvl") pt_uint16 (base_addr (to_uint16 (fun b x => b <| tcp_keepalive_intvl := x |>)));
    mk_entry (str "rlimit_nofile") pt_uint32 (base_addr (to_uint32 (fun b x => b <| rlimit_nofile := x |>)));
    mk_entry (str "redsocks_conn_max") pt_uint32 (base_addr (to_uint32 (fun b x => b <| conn_max := x |>)));
    mk_entry (str "connpres_idle_timeout") pt_uint32 (base_addr (to_uint32 (fun b x => b <| idle_timeout := x |>)));
    mk_entry (str "max_accept_backoff") pt_uint32 (base_addr (to_uint32 (fun b x => b <| max_accept_backoff_ms := x |>))) ].

Definition base_onenter (p : program) : option (Z * program * list string) :=
  if negb (configured (base p) =? 0) then Some (-1, p, ["only one instance of base is valid"%string])
  else
    Some (0, p <| base := base_zero <| configured := 1 |> <| max_accept_backoff_ms := 60000 |>
                                    <| idle_timeout := 7440 |> |>, []).

Definition redirector_subsystems : list (bytes * redirector_subsys) :=
  [(str "iptables", redir_iptables); (str "generic", redir_generic)].

Definition base_onexit (p : program) : option (Z * program * list string) :=
  if max_accept_backoff_ms (base p) =? 0 then
    Some (-1, p, ["`max_accept_backoff` must be positive, 0 ms is too low"%string])
  else
    match redirector_name (base p) with
    | Some n =>
        let p := match find_name redirector_subsystems n with
                 | Some ss => p <| base := (base p) <| redirector := Some ss |> |>
                 | None => p
                 end in
        match redirector (base p) with
        | Some _ => Some (0, p, [])
        | None => Some (-1, p, ["invalid `redirector` set <%s>"%string])
        end
    | None => Some (-1, p, ["no `redirector` set"%string])
    end.

Definition base_conf_section : parser_section program :=
  mk_section (str "base") (Some base_onenter) (Some base_onexit) base_entries.

(** ** redsocks *)

Definition INADDR_LOOPBACK : Z := 0x7f000001.
Definition SOMAXCONN : Z := 128.

(** The entries point into the instance; outside of the section they are NULL. *)
Definition config_addr (set : value -> redsocks_config -> option redsocks_config) (v : value) (p : program) : option program :=
  i ← section_data p;
  c ← set v (config i);
  Some (p <| section_data := Some (i <| config := c |>) |>).

Definition redsocks_entries : list (parser_entry program) :=
  [ mk_entry (str "local_ip") pt_in_addr (config_addr (to_in_addr (fun c x => c <| bind_addr := x |>)));
    mk_entry (str "local_port") pt_uint16 (config_addr (to_uint16 (fun c x => c <| bind_port := x |>)));
    mk_entry (str "ip") pt_in_addr (config_addr (to_in_addr (fun c x => c <| relay_addr := x |>)));
    mk_entry (str "port") pt_uint16 (config_addr (to_uint16 (fun c x => c <| relay_port := x |>)));
    mk_entry (str "type") pt_pchar (config_addr (to_pchar (fun c s => c <| config_type := Some s |>)));
    mk_entry (str "login") pt_pchar (config_addr (to_pchar (fun c s => c <| login := Some s |>)));
    mk_entry (str "password") pt_pchar (config_addr (to_pchar (fun c s => c <| password := Some s |>)));
    mk_entry (str "listenq") pt_uint16 (config_addr (to_uint16 (fun c x => c <| listenq := x |>)));
    mk_entry (str "splice") pt_bool (config_addr (to_bool (fun c b => c <| use_splice := b |>)));
    mk_entry (str "disclose_src") pt_disclose_src
      (config_addr (fun v c => match v with V_disclose_src x => Some (c <| disclose_src := x |>) | _ => None end));
    mk_entry (str "on_proxy_fail") pt_on_proxy_fail
      (config_addr (fun v c => match v with V_on_proxy_fail x => Some (c <| on_proxy_fail := x |>) | _ => None end)) ].

Definition default_config (splice : bool) : redsocks_config :=
  mk_config INADDR_LOOPBACK 0 INADDR_LOOPBACK 0 None None None SOMAXCONN splice DISCLOSE_NONE ONFAIL_CLOSE.

Definition redsocks_onenter (p : program) : option (Z * program * list string) :=
  let ok := default true (head (callocs p)) in
  let p := p <| callocs := tail (callocs p) |> in
  if negb ok then Some (-1, p, ["Not enough memory"%string])
  else Some (0, p <| section_data := Some (mk_instance (default_config (splice_good p)) None) |>, []).

Definition relay_subsystems : list (bytes * relay_subsys) :=
  [(str "http-connect", http_connect); (str "http-relay", http_relay); (str "socks4", socks4); (str "socks5", socks5)].

Definition redsocks_onexit (p : program) : option (Z * program * list string) :=
  instance ← section_data p;
  let p := p <| section_data := None |> in
  let c := config instance in
  let c := c <| bind_port := NetInt.hton16 (bind_port c) |> <| relay_port := NetInt.hton16 (relay_port c) |> in
  match config_type c with
  | None => Some (-1, p, ["no `type` for redsocks"%string])
  | Some t =>
      match find_name relay_subsystems t with
      | None => Some (-1, p, ["invalid `type` <%s> for redsocks"%string])
      | Some ss =>
          let p := p <| instances := mk_instance c (Some ss) :: instances p |> in
          if negb (bool_decide (disclose_src c = DISCLOSE_NONE)) && negb (bool_decide (ss = http_connect)) then
            Some (-1, p, ["only `http-connect` supports `disclose_src` at the moment"%string])
          else if negb (bool_decide (on_proxy_fail c = ONFAIL_CLOSE)) && negb (bool_decide (ss = http_connect)) then
            Some (-1, p, ["only `http-connect` supports `on_proxy_fail` at the moment"%string])
          else Some (0, p, [])
      end
  end.

Definition redsocks_conf_section : parser_section program :=
  mk_section (str "redsocks") (Some redsocks_onenter) (Some redsocks_onexit) redsocks_entries.

(** ** [main] *)

Definition start_program (allocs : list bool) (splice : bool) : program :=
  mk_program base_zero [] None allocs splice.

(** The sections are added in the order of [subsystems]. *)
Definition parse_config (getaddrinfo : bytes -> option (list Z)) (f : file) (answers : list bool) (rs : list Z)
    (allocs : list bool) (splice : bool) : option (Z * tokens program * list event) :=
  run_config getaddrinfo [redsocks_conf_section; base_conf_section] f (start_program allocs splice) answers rs.

(** ** What an accepted file promises *)

(** The base section is complete. *)
Definition base_ok (b : base_instance) : Prop :=
  configured b = 1 -> max_accept_backoff_ms b <> 0 /\ exists n ss, redirector_name b = Some n /\ redirector b = Some ss.
(** An instance has the relay of its type, and what only http-connect can do. *)
Definition instance_ok (i : redsocks_instance) : Prop :=
  exists t ss, config_type (config i) = Some t /\ relay_ss i = Some ss /\ find_name relay_subsystems t = Some ss /\
    (disclose_src (config i) <> DISCLOSE_NONE \/ on_proxy_fail (config i) <> ONFAIL_CLOSE -> ss = http_connect) /\
    0 <= bind_port (config i) < 65536 /\ 0 <= relay_port (config i) < 65536.
Definition Outside (p : program) : Prop :=
  (configured (base p) = 0 \/ configured (base p) = 1) /\ base_ok (base p) /\ Forall instance_ok (instances p).
Definition Inside (s : parser_section program) (p : program) : Prop :=
  Forall instance_ok (instances p) /\
  if streq (name s) (str "base") then configured (base p) = 1
  else (configured (base p) = 0 \/ configured (base p) = 1) /\ base_ok (base p).

Local Abbreviation ss := [base_conf_section; redsocks_conf_section].

(** The two sections. *)
Ltac sections_of Hs :=
  apply elem_of_cons in Hs as [->|Hs]; [|apply elem_of_cons in Hs as [->|Hs]; [|by apply elem_of_nil in Hs]].

Lemma keep_enter s en f r en' ms : s ∈ ss -> Outside en -> onenter s = Some f -> f en = Some (r, en', ms) -> r <> -1 -> Inside s en'.
Proof.
  intros Hs (H1 & H2 & H3) Hf. sections_of Hs; injection Hf as <-.
  - unfold base_onenter. destruct (negb _); [by intros [= <- _ _]|]. intros [= _ <- _] _. done.
  - unfold redsocks_onenter. destruct (negb _); [by intros [= <- _ _]|]. intros [= _ <- _] _. done.
Qed.
Lemma keep_addr s e v en en' : s ∈ ss -> e ∈ entries s -> Inside s en -> addr e v en = Some en' -> Inside s en'.
Proof.
  intros Hs He. sections_of Hs.
  - assert (Ha : exists set, addr e = base_addr set /\ forall v b b', set v b = Some b' -> configured b' = configured b).
    { cbn [entries base_conf_section] in He. unfold base_entries in He.
      repeat (apply elem_of_cons in He as [->|He]; [eexists; split; [reflexivity|]; intros [] b1 b2; cbn; intros [= <-]; done|]).
      by apply elem_of_nil in He. }
    destruct Ha as (set & -> & Hset). intros (H1 & H2) (x & Hx & [= <-])%bind_Some. split; [done|].
    change (configured (base en) = 1) in H2. change (configured x = 1). by rewrite (Hset _ _ _ Hx).
  - assert (Ha : exists set, addr e = config_addr set).
    { cbn [entries redsocks_conf_section] in He. unfold redsocks_entries in He.
      repeat (apply elem_of_cons in He as [->|He]; [by eexists|]). by apply elem_of_nil in He. }
    destruct Ha as (set & ->). intros (H1 & H2) (i & _ & (c & _ & [= <-])%bind_Some)%bind_Some. done.
Qed.
Lemma redsocks_exit en r en' ms : Forall instance_ok (instances en) -> redsocks_onexit en = Some (r, en', ms) -> r <> -1 ->
  base en' = base en /\ Forall instance_ok (instances en').
Proof.
  unfold redsocks_onexit. intros Hi (i & _ & H)%bind_Some. revert H. cbv zeta.
  destruct (config_type _) as [t|] eqn:Et; [|by intros [= <- _ _]].
  destruct (find_name _ t) as [sub|] eqn:Ef; [|by intros [= <- _ _]].
  destruct (_ && _) eqn:E1; [by intros [= <- _ _]|]. destruct (_ && _) eqn:E2 in |- *; [by intros [= <- _ _]|].
  intros [= _ <- _] _. split; [done|]. cbn [instances]. apply Forall_cons. split; [|done].
  exists t, sub. cbn [config relay_ss]. split_and!; [done|done|done| |apply NetInt.hton16_range..].
  intros [Hd|Hf]; [apply andb_false_iff in E1 as [E|E]|apply andb_false_iff in E2 as [E|E]];
    apply negb_false_iff, bool_decide_eq_true in E; done.
Qed.
Lemma keep_exit s en f r en' ms : s ∈ ss -> Inside s en -> onexit s = Some f -> f en = Some (r, en', ms) -> r <> -1 -> Outside en'.
Proof.
  intros Hs (H1 & H2) Hf. sections_of Hs; injection Hf as <-.
  - change (configured (base en) = 1) in H2. unfold base_onexit. destruct (Z.eqb_spec (max_accept_backoff_ms (base en)) 0) as [|Hb]; [by intros [= <- _ _]|].
    destruct (redirector_name (base en)) as [n|] eqn:En; [|by intros [= <- _ _]]. cbv zeta.
    set (en2 := match find_name _ n with Some _ => _ | None => _ end).
    destruct (redirector (base en2)) as [x|] eqn:Er; [|by intros [= <- _ _]]. intros [= _ <- _] _.
    assert (He : instances en2 = instances en /\ configured (base en2) = 1 /\ redirector_name (base en2) = Some n /\
      max_accept_backoff_ms (base en2) = max_accept_backoff_ms (base en)) by (subst en2; by destruct (find_name _ n)).
    destruct He as (He1 & He2 & He3 & He4). split_and!; [by right| |by rewrite He1]. intros _. rewrite He4. split; [done|].
    by exists n, x.
  - intros He Hr. destruct (redsocks_exit _ _ _ _ H1 He Hr) as [Hb Hi]. destruct H2 as (H2 & H3). split_and!; by rewrite ?Hb.
Qed.

Definition example_file : file :=
  mk_file (str "base {redirector=iptables;} redsocks {type=http-connect; disclose_src=Forwarded_ip;}" ++ [NEWLINE]) false false.

End Config.
