(* ===== verification/RedSettings.v ===== *)
(** Settings that are written as a configuration and read back.

    [base_text] and [redsocks_text] write a whole record as a section, numbers in
    decimal and addresses as four octets; the program that reads the file has the
    same settings. *)

From Stdlib Require Import Ascii String.
From S2P Require Import Prelude ParseNumber NetInt CString RedParser RedLexer RedRun RedText RedConfig.
Import NetInt CString Parser Lexer Run ConfText Config.
Open Scope list_scope.

Module Settings.

(** ** Numbers and addresses *)

Definition decimal (x : Z) : bytes := default [] (Num.generate_decimal_repr_loop Num.ROUNDS x []).
Definition octet (a i : Z) : Z := Z.shiftr a (8 * i) mod 256.
Definition dotted (a : Z) : bytes :=
  decimal (octet a 3) ++ [46] ++ decimal (octet a 2) ++ [46] ++ decimal (octet a 1) ++ [46] ++ decimal (octet a 0).

Lemma decimal_prints x : 0 <= x < 2 ^ 64 -> Num.prints x (decimal x).
Proof.
  intros Hx. destruct (Num.generate_loop_spec 19 x []) as (s & Hs & _ & Hp).
  { split; [lia|]. assert (2 ^ 64 < 10 ^ Z.of_nat 20) by by vm_compute. lia. }
  unfold decimal, Num.ROUNDS. rewrite Hs. by rewrite app_nil_r.
Qed.

(** Numbers end at the end of the string or at a dot. *)
Definition number_ends (r : bytes) : Prop := r = [] \/ exists r', r = 46 :: r'.

Lemma digits_decimal s r a : forallb Num.is_digit s = true -> number_ends r ->
  digits 10 a (s ++ r) = (Num.dec_from a s, r).
Proof.
  intros Hs Hr. revert a. induction s as [|c s IH]; intros a; cbn [app].
  - by destruct Hr as [->|(r' & ->)].
  - cbn [forallb] in Hs. apply andb_true_iff in Hs as [Hc%Num.is_digit_spec Hs]. cbn [digits].
    assert (Hv : digit_value c = c - 48) by (unfold digit_value, isdigit; by replace ((48 <=? c) && (c <=? 57)) with true by lia).
    rewrite Hv. replace (c - 48 <? 10) with true by lia. rewrite IH by done. unfold Num.dec_from. cbn [fold_left].
    by rewrite (Z.mul_comm a).
Qed.
Lemma strtoul_decimal x r : 0 <= x < 2 ^ 64 -> number_ends r -> strtoul (decimal x ++ r) = (x, r).
Proof.
  intros Hx Hr. destruct (decide (x = 0)) as [->|H0].
  { destruct Hr as [->|([|c r'] & ->)]; done. }
  destruct (decimal_prints x Hx) as (Hd & Hv & Hh & Hne). specialize (Hh H0).
  pose proof (digits_decimal _ _ 0 Hd Hr) as Hdig. fold (Num.dec_val (decimal x)) in Hdig. rewrite Hv in Hdig.
  destruct (decimal x) as [|c s]; [done|]. cbn [forallb] in Hd. apply andb_true_iff in Hd as [Hc%Num.is_digit_spec _].
  assert (Hc' : c <> 48) by (intros ->; done). cbn [app] in *. unfold strtoul. cbn [skip_spaces].
  assert (Hs : isspace c = false) by (unfold isspace; lia). rewrite Hs. cbn [starts_with].
  replace (45 =? c) with false by lia. replace (43 =? c) with false by lia. cbn [andb orb].
  assert (Hq : strtoul_digits (c :: s ++ r) = Some (digits 10 0 (c :: s ++ r))).
  { assert (H : c = 49 \/ c = 50 \/ c = 51 \/ c = 52 \/ c = 53 \/ c = 54 \/ c = 55 \/ c = 56 \/ c = 57) by lia.
    by repeat (destruct H as [->|H]; [done|]); subst. }
  rewrite Hq, Hdig. by replace (ULONG_MAX <? x) with false by (unfold ULONG_MAX; lia).
Qed.
Lemma strtoul_number x : 0 <= x < 2 ^ 64 -> strtoul (decimal x) = (x, []).
Proof. intros Hx. rewrite <- (app_nil_r (decimal x)). apply strtoul_decimal; [done|by left]. Qed.

Lemma aton_part n x r : 0 <= x < 2 ^ 64 ->
  aton_parts (S n) (decimal x ++ [46] ++ r) = cons x <$> aton_parts n r.
Proof.
  intros Hx. pose proof (strtoul_decimal x ([46] ++ r) Hx ltac:(right; by exists r)) as Hs.
  destruct (decimal_prints x Hx) as (Hd & _ & _ & Hne). destruct (decimal x) as [|c s]; [done|].
  cbn [forallb] in Hd. apply andb_true_iff in Hd as [Hc _]. cbn [app aton_parts] in *.
  change (isdigit c) with (Num.is_digit c). by rewrite Hc, Hs.
Qed.
Lemma aton_last n x : 0 <= x < 2 ^ 64 -> aton_parts (S n) (decimal x) = Some [x].
Proof.
  intros Hx. pose proof (strtoul_number x Hx) as Hs.
  destruct (decimal_prints x Hx) as (Hd & _ & _ & Hne). destruct (decimal x) as [|c s]; [done|].
  cbn [forallb] in Hd. apply andb_true_iff in Hd as [Hc _]. cbn [aton_parts].
  change (isdigit c) with (Num.is_digit c). by rewrite Hc, Hs.
Qed.
Lemma inet_aton_dotted a : 0 <= a < 2 ^ 32 -> inet_aton (dotted a) = Some a.
Proof.
  intros Ha. assert (Ho : forall i, 0 <= octet a i < 256) by (intros i; apply Z.mod_pos_bound; lia).
  assert (Ho' : forall i, 0 <= octet a i < 2 ^ 64) by (intros i; specialize (Ho i); lia).
  unfold inet_aton, dotted. rewrite !aton_part, aton_last by done. cbn [fmap option_fmap option_map mbind option_bind aton_value].
  pose proof (Ho 0). pose proof (Ho 1). pose proof (Ho 2). pose proof (Ho 3).
  repeat match goal with |- context [?x <? ?y] => replace (x <? y) with true by (symmetry; apply Z.ltb_lt; cbn; lia) end.
  cbn [fmap option_fmap option_map]. f_equal. unfold octet. cbn -[Z.shiftr Z.modulo].
  rewrite !Z.shiftr_div_pow2 by lia.
  change (2 ^ (8 * 3)) with 16777216. change (2 ^ (8 * 2)) with 65536. change (2 ^ (8 * 1)) with 256. change (2 ^ (8 * 0)) with 1.
  change (256 ^ (4 - 1)) with 16777216. change (256 ^ (4 - 1 - 1)) with 65536. change (256 ^ (4 - 1 - 1 - 1)) with 256.
  Z.to_euclidean_division_equations. lia.
Qed.

(** ** Sections *)

Definition yes_no (b : bool) : bytes := str (if b then "yes" else "no").
Definition opt (k : string) (o : option bytes) : list entry := match o with Some v => [(str k, v)] | None => [] end.

Definition base_text (b : base_instance) : section_text :=
  (str "base",
   opt "chroot" (chroot b) ++ opt "user" (user b) ++ opt "group" (group b) ++
   opt "redirector" (redirector_name b) ++ opt "log" (log_name b) ++
   [(str "log_debug", yes_no (log_debug b)); (str "log_info", yes_no (log_info b)); (str "daemon", yes_no (daemon b));
    (str "tcp_keepalive_time", decimal (tcp_keepalive_time b)); (str "tcp_keepalive_probes", decimal (tcp_keepalive_probes b));
    (str "tcp_keepalive_intvl", decimal (tcp_keepalive_intvl b)); (str "rlimit_nofile", decimal (rlimit_nofile b));
    (str "redsocks_conn_max", decimal (conn_max b)); (str "connpres_idle_timeout", decimal (idle_timeout b));
    (str "max_accept_backoff", decimal (max_accept_backoff_ms b))]).

Definition disclose_src_name (d : disclose_src_e) : bytes :=
  str match d with
      | DISCLOSE_NONE => "no" | DISCLOSE_X_FORWARDED_FOR => "X-Forwarded-For"
      | DISCLOSE_FORWARDED_IP => "Forwarded_ip" | DISCLOSE_FORWARDED_IPPORT => "Forwarded_ipport"
      end.
Definition on_proxy_fail_name (f : on_proxy_fail_e) : bytes :=
  str match f with ONFAIL_CLOSE => "close" | ONFAIL_FORWARD_HTTP_ERR => "forward_http_err" end.

Definition redsocks_text (c : redsocks_config) : section_text :=
  (str "redsocks",
   [(str "local_ip", dotted (bind_addr c)); (str "local_port", decimal (bind_port c));
    (str "ip", dotted (relay_addr c)); (str "port", decimal (relay_port c))] ++
   opt "type" (config_type c) ++ opt "login" (login c) ++ opt "password" (password c) ++
   [(str "listenq", decimal (listenq c)); (str "splice", yes_no (use_splice c));
    (str "disclose_src", disclose_src_name (disclose_src c));
    (str "on_proxy_fail", on_proxy_fail_name (on_proxy_fail c))]).

(** What the program accepts as settings. *)
Definition in_range (n : Z) (x : Z) : Prop := 0 <= x < n.
Definition good_string (o : option bytes) : Prop := match o with Some v => is_value v = true | None => True end.
Record good_base (b : base_instance) : Prop := {
  gb_configured : configured b = 1;
  gb_strings : Forall good_string [chroot b; user b; group b; redirector_name b; log_name b];
  gb_redirector : exists n, redirector_name b = Some n /\ find_name redirector_subsystems n = redirector b /\ redirector b <> None;
  gb_16 : Forall (in_range (2 ^ 16)) [tcp_keepalive_time b; tcp_keepalive_probes b; tcp_keepalive_intvl b];
  gb_32 : Forall (in_range (2 ^ 32)) [rlimit_nofile b; conn_max b; idle_timeout b; max_accept_backoff_ms b];
  gb_backoff : max_accept_backoff_ms b <> 0
}.
Record good_redsocks (c : redsocks_config) (ss : relay_subsys) : Prop := {
  gr_strings : Forall good_string [config_type c; login c; password c];
  gr_type : exists t, config_type c = Some t /\ find_name relay_subsystems t = Some ss;
  gr_addrs : Forall (in_range (2 ^ 32)) [bind_addr c; relay_addr c];
  gr_16 : Forall (in_range (2 ^ 16)) [bind_port c; relay_port c; listenq c];
  gr_disclose : disclose_src c = DISCLOSE_NONE \/ ss = http_connect;
  gr_fail : on_proxy_fail c = ONFAIL_CLOSE \/ ss = http_connect
}.

(** ** Loading *)

Section load_entries.
Context {Env : Type} (s : parser_section Env) (Hkeys : NoDup (key <$> entries s)).

Lemma find_entry_nth (l : list (parser_entry Env)) i e : NoDup (key <$> l) -> l !! i = Some e -> find_entry l (key e) = Some e.
Proof.
  revert i. induction l as [|x l IH]; intros i Hl Hi; [done|]. cbn in Hl |- *. apply NoDup_cons in Hl as [Hx Hl].
  destruct i as [|i]; [injection Hi as ->; unfold streq; by rewrite bool_decide_true|].
  cbn in Hi. unfold streq. rewrite bool_decide_false; [by eapply IH|]. intros Hk. apply Hx. rewrite Hk.
  by eapply list_elem_of_fmap_2, list_elem_of_lookup_2.
Qed.
(** The entries are written in the order of the table; [put x] is the state in
    which the record that is configured is [x]. *)
Context {R : Type} (put : R -> Env).
Lemma load_value i k t f v w x x' es : entries s !! i = Some (mk_entry (str k) t f) ->
  parse_value t v = Some [w] -> f w (put x) = Some (put x') ->
  load_entries s ((str k, v) :: es) (put x) = load_entries s es (put x').
Proof using Hkeys.
  intros Hf Hv Hs. cbn [load_entries]. unfold load_entry. cbn [fst snd].
  pose proof (find_entry_nth _ _ _ Hkeys Hf) as He. cbn [key] in He. rewrite He. cbn. rewrite Hv. cbn. by rewrite Hs.
Qed.
Lemma load_opt i k o f x x' es : entries s !! i = Some (mk_entry (str k) pt_pchar f) ->
  match o with Some v => f (V_pchar v) (put x) | None => Some (put x) end = Some (put x') ->
  load_entries s (opt k o ++ es) (put x) = load_entries s es (put x').
Proof using Hkeys.
  intros Hf Hg. destruct o as [v|]; [|by injection Hg as ->]. by eapply (load_value i k _ _ _ _ _ _ _ Hf).
Qed.
End load_entries.

Lemma parse_bool b : parse_value pt_bool (yes_no b) = Some [V_bool b].
Proof. by destruct b. Qed.
Lemma parse_uint16 x : in_range (2 ^ 16) x -> parse_value pt_uint16 (decimal x) = Some [V_uint16 x].
Proof.
  intros Hx. unfold in_range in Hx. unfold parse_value. rewrite strtoul_number by lia. by replace (x <? 65536) with true by lia.
Qed.
Lemma parse_uint32 x : in_range (2 ^ 32) x -> parse_value pt_uint32 (decimal x) = Some [V_uint32 x].
Proof.
  intros Hx. unfold in_range in Hx. unfold parse_value. rewrite strtoul_number by lia. unfold u32. by rewrite Z.mod_small.
Qed.
Lemma parse_in_addr a : in_range (2 ^ 32) a -> parse_value pt_in_addr (dotted a) = Some [V_in_addr a].
Proof. intros Ha. unfold parse_value. by rewrite inet_aton_dotted. Qed.
Lemma parse_disclose d : parse_value pt_disclose_src (disclose_src_name d) = Some [V_disclose_src d].
Proof. by destruct d. Qed.
Lemma parse_fail f : parse_value pt_on_proxy_fail (on_proxy_fail_name f) = Some [V_on_proxy_fail f].
Proof. by destruct f. Qed.
Create HintDb settings.
#[local] Hint Resolve parse_bool parse_uint16 parse_uint32 parse_in_addr parse_disclose parse_fail : settings.

(** The entry number [i] of the table is found, its value parsed and set. *)
Ltac load_field H put i f :=
  lazymatch goal with
  | |- context [load_entries _ (opt ?k ?o ++ ?es) (put ?x)] =>
      erewrite (load_opt _ H put i k o _ x (x <| f := o |>) es); [|reflexivity|by destruct o]
  | |- context [load_entries _ ((str ?k, ?v) :: ?es) (put ?x)] =>
      erewrite (load_value _ H put i k _ _ v _ x (x <| f := _ |>) es); [|reflexivity|solve [eauto with settings]|reflexivity]
  end.

Lemma base_keys : NoDup (key <$> entries base_conf_section).
Proof. apply (bool_decide_eq_true_1 _). by vm_compute. Qed.
Lemma redsocks_keys : NoDup (key <$> entries redsocks_conf_section).
Proof. apply (bool_decide_eq_true_1 _). by vm_compute. Qed.

Lemma load_base b p : good_base b -> configured (base p) = 0 ->
  load_section [base_conf_section; redsocks_conf_section] p (base_text b) = Some (p <| base := b |>).
Proof.
  intros [Hc _ (n & Hn & Hr & Hr') H16 H32 Hb] Hp. 
  rewrite !Forall_cons in H16; repeat setoid_rewrite Forall_cons in H32. destruct_and!.
  unfold load_section. change (find_section _ _) with (Some base_conf_section). cbn [mbind option_bind].
  cbn [onenter base_conf_section load_callback]. unfold base_onenter. rewrite Hp. cbn [Z.eqb negb mbind option_bind].
  unfold base_text. cbn [snd]. pose (put := fun b => p <| base := b |>).
  match goal with |- context [load_entries _ _ (upd base (fun _ => ?x) p)] => change (upd base (fun _ => x) p) with (put x) end.
  load_field base_keys put 0%nat chroot.
  load_field base_keys put 1%nat user.
  load_field base_keys put 2%nat group.
  load_field base_keys put 3%nat redirector_name.
  load_field base_keys put 4%nat log_name.
  load_field base_keys put 5%nat log_debug.
  load_field base_keys put 6%nat log_info.
  load_field base_keys put 7%nat daemon.
  load_field base_keys put 8%nat tcp_keepalive_time.
  load_field base_keys put 9%nat tcp_keepalive_probes.
  load_field base_keys put 10%nat tcp_keepalive_intvl.
  load_field base_keys put 11%nat rlimit_nofile.
  load_field base_keys put 12%nat conn_max.
  load_field base_keys put 13%nat idle_timeout.
  load_field base_keys put 14%nat max_accept_backoff_ms.
  match goal with |- context [put ?x] => assert (Hx : x = b <| redirector := None |>) by (destruct b; cbn in *; by subst) end.
  rewrite Hx. cbn [load_entries mbind option_bind onexit base_conf_section load_callback]. unfold base_onexit.
  change (base (put (b <| redirector := None |>))) with (b <| redirector := None |>).
  change (max_accept_backoff_ms (b <| redirector := None |>)) with (max_accept_backoff_ms b).
  change (redirector_name (b <| redirector := None |>)) with (redirector_name b).
  replace (max_accept_backoff_ms b =? 0) with false by lia. rewrite Hn, Hr. destruct (redirector b) as [ss|] eqn:E; [|done].
  cbn. f_equal. unfold put. destruct p, b. cbn in *. by subst.
Qed.

Definition loaded (c : redsocks_config) (ss : relay_subsys) : redsocks_instance :=
  mk_instance (c <| bind_port := hton16 (bind_port c) |> <| relay_port := hton16 (relay_port c) |>) (Some ss).

Lemma only_http `{EqDecision A} (x y : A) (ss : relay_subsys) : x = y \/ ss = http_connect ->
  negb (bool_decide (x = y)) && negb (bool_decide (ss = http_connect)) = false.
Proof.
  intros [-> | ->]; [by rewrite bool_decide_true|]. rewrite (bool_decide_true (http_connect = http_connect)) by done. apply andb_false_r.
Qed.
Lemma load_redsocks c ss p : good_redsocks c ss -> callocs p = [] -> section_data p = None ->
  load_section [base_conf_section; redsocks_conf_section] p (redsocks_text c) =
  Some (p <| instances := loaded c ss :: instances p |>).
Proof.
  intros [_ (t & Ht & Hss) Ha H16 Hd Hf] Hp Hs. rewrite !Forall_cons in Ha; repeat setoid_rewrite Forall_cons in H16. destruct_and!.
  unfold load_section. change (find_section _ _) with (Some redsocks_conf_section). cbn [mbind option_bind].
  pose (put := fun c => p <| section_data := Some (mk_instance c None) |>).
  assert (Hq : redsocks_onenter p = Some (0, put (default_config (splice_good p)), [])).
  { unfold redsocks_onenter, put. rewrite Hp. destruct p. cbn in *. by subst. }
  cbn [onenter redsocks_conf_section load_callback]. rewrite Hq. cbn [Z.eqb mbind option_bind].
  unfold redsocks_text. cbn [snd app].
  load_field redsocks_keys put 0%nat bind_addr.
  load_field redsocks_keys put 1%nat bind_port.
  load_field redsocks_keys put 2%nat relay_addr.
  load_field redsocks_keys put 3%nat relay_port.
  load_field redsocks_keys put 4%nat config_type.
  load_field redsocks_keys put 5%nat login.
  load_field redsocks_keys put 6%nat password.
  load_field redsocks_keys put 7%nat listenq.
  load_field redsocks_keys put 8%nat use_splice.
  load_field redsocks_keys put 9%nat disclose_src.
  load_field redsocks_keys put 10%nat on_proxy_fail.
  match goal with |- context [put ?x] => assert (Hx : x = c) by by destruct c end.
  rewrite Hx. cbn [load_entries mbind option_bind onexit redsocks_conf_section load_callback]. unfold redsocks_onexit.
  change (section_data (put c)) with (Some (mk_instance c None)). cbn [mbind option_bind config].
  change (config_type (c <| bind_port := hton16 (bind_port c) |> <| relay_port := hton16 (relay_port c) |>)) with (config_type c).
  change (disclose_src (c <| bind_port := hton16 (bind_port c) |> <| relay_port := hton16 (relay_port c) |>)) with (disclose_src c).
  change (on_proxy_fail (c <| bind_port := hton16 (bind_port c) |> <| relay_port := hton16 (relay_port c) |>)) with (on_proxy_fail c).
  rewrite Ht, Hss.
  rewrite !only_http by done. cbn. f_equal. unfold put, loaded. destruct p. cbn in *. by subst.
Qed.

(** A base section and sections of redsocks. *)
Definition program_text (b : base_instance) (cs : list (redsocks_config * relay_subsys)) : bytes :=
  print_config (base_text b :: (redsocks_text ∘ fst <$> cs)).

Lemma load_instances cs p : Forall (fun x => good_redsocks x.1 x.2) cs -> callocs p = [] -> section_data p = None ->
  load_config [base_conf_section; redsocks_conf_section] (redsocks_text ∘ fst <$> cs) p =
  Some (p <| instances := reverse ((fun x => loaded x.1 x.2) <$> cs) ++ instances p |>).
Proof.
  intros Hcs. revert p. induction Hcs as [|[c ss] cs Hc Hcs IH]; intros p Hp Hs; [by destruct p|].
  cbn [fmap list_fmap load_config]. cbn [fst snd] in *. change ((redsocks_text ∘ fst) (c, ss)) with (redsocks_text c).
  rewrite (load_redsocks c ss) by done. cbn [mbind option_bind].
  etrans; [by apply IH|]. rewrite reverse_cons, <- app_assoc. by destruct p.
Qed.

Lemma good_entry_value k v : is_word (str k) = true -> is_value v = true -> good_entry (str k, v) = true.
Proof. intros Hk Hv. unfold good_entry. cbn [fst snd]. by rewrite Hk, Hv. Qed.
Lemma good_opt k o : is_word (str k) = true -> good_string o -> forallb good_entry (opt k o) = true.
Proof. intros Hk Ho. destruct o as [v|]; [|done]. cbn. by rewrite good_entry_value. Qed.
(** Digits and dots are no tokens of the parser. *)
Lemma value_of_digits v : forallb (fun c => Num.is_digit c || (c =? 46)) v = true -> v <> [] -> is_value v = true.
Proof.
  intros Hv Hn. unfold is_value. apply andb_true_iff. split; apply forallb_forall.
  - intros t Ht. apply negb_true_iff, bool_decide_eq_false. intros ->.
    repeat (destruct Ht as [<-|Ht]; [done|]). destruct Ht.
  - rewrite forallb_forall in Hv. intros c Hc%Hv. unfold Num.is_digit in Hc. lia.
Qed.
Lemma value_decimal x : 0 <= x < 2 ^ 64 -> is_value (decimal x) = true.
Proof.
  intros (Hd & _ & _ & Hn)%decimal_prints. apply value_of_digits; [|done]. rewrite forallb_forall in Hd |- *.
  intros c Hc%Hd. by rewrite Hc.
Qed.
Lemma value_dotted a : is_value (dotted a) = true.
Proof.
  assert (Ho : forall i, forallb (fun c => Num.is_digit c || (c =? 46)) (decimal (octet a i)) = true).
  { intros i. destruct (decimal_prints (octet a i)) as (Hd & _).
    { pose proof (Z.mod_pos_bound (Z.shiftr a (8 * i)) 256). unfold octet. lia. }
    rewrite forallb_forall in Hd |- *. intros c Hc%Hd. by rewrite Hc. }
  apply value_of_digits; [|by unfold dotted; destruct (decimal (octet a 3))].
  unfold dotted. by rewrite !forallb_app, !Ho.
Qed.
Lemma value_names : (forall b, is_value (yes_no b) = true) /\ (forall d, is_value (disclose_src_name d) = true) /\
  (forall f, is_value (on_proxy_fail_name f) = true).
Proof. by split_and!; intros []. Qed.

Lemma good_base_text b : good_base b -> is_word (base_text b).1 && forallb good_entry (base_text b).2 = true.
Proof.
  intros [_ Hs _ H16 H32 _]. rewrite !Forall_cons in Hs. repeat setoid_rewrite Forall_cons in H16.
  repeat setoid_rewrite Forall_cons in H32. unfold in_range in *. destruct_and!. destruct value_names as (Hb & _ & _).
  apply andb_true_iff. split; [done|]. unfold base_text. cbn [snd]. rewrite !forallb_app, !good_opt by done.
  cbn [forallb andb]. by rewrite !good_entry_value by (done || (apply value_decimal; lia)).
Qed.
Lemma good_redsocks_text c ss : good_redsocks c ss ->
  is_word (redsocks_text c).1 && forallb good_entry (redsocks_text c).2 = true.
Proof.
  intros [Hs _ _ H16 _ _]. rewrite !Forall_cons in Hs. repeat setoid_rewrite Forall_cons in H16.
  unfold in_range in *. destruct_and!. destruct value_names as (Hb & Hd & Hf).
  apply andb_true_iff. split; [done|]. unfold redsocks_text. cbn [snd]. rewrite !forallb_app, !good_opt by done.
  cbn [forallb andb]. by rewrite !good_entry_value by (done || apply value_dotted || (apply value_decimal; lia)).
Qed.
Lemma good_program_text b cs : good_base b -> Forall (fun x => good_redsocks x.1 x.2) cs ->
  good_config (base_text b :: (redsocks_text ∘ fst <$> cs)) = true.
Proof.
  intros Hb Hcs. unfold good_config. cbn [forallb]. apply andb_true_iff. split; [by apply good_base_text|].
  induction Hcs as [|[c ss] cs Hc Hcs IH]; [done|]. cbn [fmap list_fmap forallb]. apply andb_true_iff. split; [|done].
  by eapply good_redsocks_text.
Qed.

Definition settled (b : base_instance) (cs : list (redsocks_config * relay_subsys)) (p : program) : program :=
  p <| base := b |> <| instances := reverse ((fun x => loaded x.1 x.2) <$> cs) |>.
Lemma load_program b cs splice : good_base b -> Forall (fun x => good_redsocks x.1 x.2) cs ->
  load_config [base_conf_section; redsocks_conf_section] (base_text b :: (redsocks_text ∘ fst <$> cs)) (start_program [] splice) =
  Some (settled b cs (start_program [] splice)).
Proof.
  intros Hb Hcs. cbn [load_config]. rewrite load_base by done. cbn [mbind option_bind].
  etrans; [by apply load_instances|]. by rewrite app_nil_r.
Qed.

(** C16: settings that are written as a configuration, all of the base section and
    any number of redsocks sections with their strings in quotes, are what the
    program has after it read the file: every field of every record, the ports in
    network byte order and the instances in reverse order, with no message. *)
Theorem config_roundtrip (getaddrinfo : bytes -> option (list Z)) (b : base_instance)
    (cs : list (redsocks_config * relay_subsys)) (rs : list Z) (splice : bool)
    (Hb : good_base b) (Hcs : Forall (fun x => good_redsocks x.1 x.2) cs) (Hl : zlen (program_text b cs) < 2 ^ 29) :
  exists p, parse_config getaddrinfo (mk_file (program_text b cs) false false) [] rs [] splice = Some (0, p, []) /\
    base (env p) = b /\ instances (env p) = reverse ((fun x => loaded x.1 x.2) <$> cs).
Proof.
  eexists. split; [unfold parse_config; rewrite run_config_start|].
  - eapply (parser_reads_printed getaddrinfo rs _ (base_text b :: (redsocks_text ∘ fst <$> cs)));
      [by apply good_program_text|done|by apply load_program|apply start_ready|done].
  - done.
Qed.

Definition example_base : base_instance :=
  mk_base 1 None (Some (str "nobody")) None (Some (str "iptables")) (Some redir_iptables) (Some (str "stderr"))
    true false false 0 0 0 1024 128 7440 60000.
Definition example_redsocks : redsocks_config :=
  mk_config 0x7f000001 8123 0x0a010203 1080 (Some (str "socks5")) (Some (str "user name"))
    (Some [QUOTE; 97; BACKSLASH; 61]) 128 true DISCLOSE_NONE ONFAIL_CLOSE.

Lemma config_roundtrip_witness : exists p,
  parse_config (fun _ => None) (mk_file (program_text example_base [(example_redsocks, socks5)]) false false) [] [] [] true =
    Some (0, p, []) /\
  base (env p) = example_base /\ instances (env p) = [loaded example_redsocks socks5].
Proof.
  apply (config_roundtrip (fun _ => None) example_base [(example_redsocks, socks5)] [] true).
  - split; [done|repeat constructor|by exists (str "iptables")| | |done];
      repeat (apply Forall_cons_2; [unfold in_range; cbn; lia|]); constructor.
  - apply Forall_cons_2; [|constructor]. cbn [fst snd].
    split; [repeat constructor|by exists (str "socks5")| | |by left|by left];
      repeat (apply Forall_cons_2; [unfold in_range; cbn; lia|]); constructor.
  - by vm_compute.
Defined.

End Settings.
