(* ===== verification/RedPressure.v ===== *)
(** Connection pressure in redsocks: the end of [redsocks.c].

    When there are too many connections, or no descriptors for another one, idle
    clients are dropped, or the listeners are disabled for a random time that
    doubles.  Clients are addresses in a heap, so that one that was freed is not
    used again; times are microseconds. *)

From stdpp Require Import gmap.
From S2P Require Import Prelude System.
Open Scope list_scope.

Module Pressure.

(** ** The state *)

Record redsocks_client := mk_client { last_event : Z; fds : nat }.
Record redsocks_instance := mk_instance { listener : bool; clients : list Z }.
#[export] Instance eta_instance : Eta redsocks_instance := fun i => mk_instance (listener i) (clients i).

(** [accept_backoff_ev] is the delay for which the timer was armed. *)
Record pressure := mk_pressure {
  redsocks_conn : Z;
  accept_backoff_ms : Z;
  accept_backoff_ev : option Z;
  instances : list redsocks_instance;
  heap : gmap Z redsocks_client
}.
#[export] Instance eta_pressure : Eta pressure := fun p =>
  mk_pressure (redsocks_conn p) (accept_backoff_ms p) (accept_backoff_ev p) (instances p) (heap p).

Inductive event := Accepting | Backoff (delay : Z) | Dropped (client : Z).

(** What a handler asks the system: the time, a random number, and whether a
    socket can be made. *)
Record inputs := mk_inputs { now : Z; random : Z; socket_ok : bool }.

Section pressure.
(** [base]: the settings. *)
Context (redsocks_conn_max connpres_idle_timeout max_accept_backoff_ms : Z).
Local Abbreviation P := pressure.

(** ** The listeners *)

Definition accept_enable : M P event unit :=
  modify (upd instances (fmap (fun i => i <| listener := true |>)));;
  emit Accepting.

Definition conn_pressure_lowered : M P event unit :=
  p ← get;
  if redsocks_conn_max <=? redsocks_conn p then mret tt
  else
    match accept_backoff_ev p with
    | Some _ => accept_backoff_ev ::= None;; accept_enable
    | None => mret tt
    end.

(** Successful calls of [redsocks_close]. *)
Fixpoint redsocks_close (n : nat) : M P event unit :=
  match n with O => mret tt | S n => conn_pressure_lowered;; redsocks_close n end.

(** ** The clients *)

Definition listed (a : Z) (p : P) : bool := existsb (fun i => bool_decide (a ∈ clients i)) (instances p).
Definition list_del (a : Z) (i : redsocks_instance) : redsocks_instance :=
  i <| clients := List.filter (fun b => negb (b =? a)) (clients i) |>.

Definition redsocks_conn_list_del (a : Z) : M P event unit :=
  p ← get;
  when (listed a p) (redsocks_conn ::= redsocks_conn p - 1;; modify (upd instances (fmap (list_del a))));;
  conn_pressure_lowered.

(** Access to a client that was not freed. *)
Definition use (a : Z) : M P event redsocks_client := h ← gets heap; must (h !! a).

(** The descriptors of the client are its sockets and pipes; [RedPump.v] has which. *)
Definition redsocks_drop_client (a : Z) : M P event unit :=
  c ← use a;
  redsocks_close (fds c);;
  redsocks_conn_list_del a;;
  modify (upd heap (delete a));;
  emit (Dropped a).

Definition redsocks_touch_client (a t : Z) : M P event unit :=
  c ← use a;
  modify (upd heap (insert a (mk_client t (fds c)))).

(** ** Idle connections *)

Definition max_idle : Z := connpres_idle_timeout * 1000000.

(** The clients of one instance; the result is [best_next]. *)
Fixpoint drop_idle_clients (now : Z) (l : list Z) (best_next : Z) : M P event Z :=
  match l with
  | [] => mret best_next
  | a :: l =>
      c ← use a;
      let idle := now - last_event c in
      if (idle <=? 0) || (max_idle <=? idle) then
        redsocks_drop_client a;;
        drop_idle_clients now l 0
      else
        let delay := max_idle - idle in
        drop_idle_clients now l (if delay <? best_next then delay else best_next)
  end.
Fixpoint drop_idle_instances (now : Z) (l : list nat) (best_next : Z) : M P event Z :=
  match l with
  | [] => mret best_next
  | k :: l =>
      il ← gets instances;
      i ← must (il !! k);
      best_next ← drop_idle_clients now (clients i) best_next;
      drop_idle_instances now l best_next
  end.
Definition drop_idle_connections (now : Z) : M P event Z :=
  assert (0 <? connpres_idle_timeout);;
  il ← gets instances;
  drop_idle_instances now (seq 0 (length il)) max_idle.

(** ** Pressure *)

Definition conn_pressure_ongoing (inp : inputs) : M P event bool :=
  n ← gets redsocks_conn;
  if redsocks_conn_max <=? n then mret true else mret (negb (socket_ok inp)).

Definition clamp_value (value min_val max_val : Z) : Z :=
  let value := if value <? min_val then min_val else value in
  if max_val <? value then max_val else value.

(** The listeners are disabled for a random time, or until the next client is idle. *)
Definition back_off (next : Z) (inp : inputs) : M P event unit :=
  ms ← gets accept_backoff_ms;
  let ms := clamp_value (u32 (u32 (ms * 2) + 1)) 1 max_accept_backoff_ms in
  accept_backoff_ms ::= ms;;
  assert (negb (ms =? 0));;
  let delay := u32 (random inp mod ms + 1) in
  let tvdelay := delay * 1000 in
  let tvdelay := if negb (next =? 0) && (next <? tvdelay) then next else tvdelay in
  accept_backoff_ev ::= Some tvdelay;;
  modify (upd instances (fmap (fun i => i <| listener := false |>)));;
  emit (Backoff tvdelay).

Definition conn_pressure (inp : inputs) : M P event unit :=
  next ← (if connpres_idle_timeout =? 0 then mret 0 else drop_idle_connections (now inp));
  if negb (connpres_idle_timeout =? 0) && (next =? 0) then mret tt else back_off next inp.

(** The callback of the timer, which is not pending any more. *)
Definition redsocks_accept_backoff (inp : inputs) : M P event unit :=
  accept_backoff_ev ::= None;;
  ongoing ← conn_pressure_ongoing inp;
  if (ongoing : bool) then conn_pressure inp else accept_enable.

(** ** Accepting *)

Definition redsocks_conn_list_add (k : nat) (a : Z) (inp : inputs) : M P event unit :=
  p ← get;
  assert (negb (listed a p));;
  assert (redsocks_conn p <? redsocks_conn_max);;
  i ← must (instances p !! k);
  instances ::= <[k := i <| clients := a :: clients i |>]> (instances p);;
  redsocks_conn ::= redsocks_conn p + 1;;
  when (redsocks_conn_max <=? redsocks_conn p + 1) (conn_pressure inp).

(** How far accepting a connection comes: [accept] fails, for want of descriptors
    or otherwise; a call on the new descriptor or [calloc] fails; the client has no
    [bufferevent] yet; it cannot be enabled; its relay cannot be connected, where
    [n] descriptors are closed; it can. *)
Inductive outcome :=
  | Not_accepted (no_fd : bool)
  | No_client
  | No_bufferevent
  | Not_enabled
  | No_relay (n : nat)
  | Connected.

(** The client is allocated at [a] and touched at time [t]. *)
Definition redsocks_accept_client (k : nat) (a t : Z) (o : outcome) (inp : inputs) : M P event unit :=
  n ← gets redsocks_conn;
  assert (n <? redsocks_conn_max);;
  match o with
  | Not_accepted no_fd => when no_fd (conn_pressure inp)
  | _ =>
      accept_backoff_ms ::= 0;;
      match o with
      | No_client => redsocks_close 1
      | _ =>
          modify (upd heap (insert a (mk_client t 0)));;
          match o with
          | No_bufferevent => redsocks_drop_client a;; redsocks_close 1
          | _ =>
              modify (upd heap (insert a (mk_client t 1)));;
              redsocks_conn_list_add k a inp;;
              c ← use a;
              match o with
              | Not_enabled => redsocks_drop_client a
              | No_relay n => redsocks_close n;; redsocks_drop_client a
              | _ => modify (upd heap (insert a (mk_client (last_event c) 2)))
              end
          end
      end
  end.

(** ** The environment *)

(** A connection at a listener, the timer, the end of a client, and what is done
    with the descriptors of one. *)
Inductive action :=
  | Accept (k : nat) (a t : Z) (o : outcome) (inp : inputs)
  | Timer (inp : inputs)
  | Drop (a : Z)
  | Touch (a t : Z)
  | Open (a : Z) (n : nat)
  | Close (a : Z).

Definition exec_action (act : action) : M P event unit :=
  match act with
  | Accept k a t o inp => redsocks_accept_client k a t o inp
  | Timer inp => redsocks_accept_backoff inp
  | Drop a => redsocks_drop_client a
  | Touch a t => redsocks_touch_client a t
  | Open a n => c ← use a; modify (upd heap (insert a (mk_client (last_event c) (n + fds c))))
  | Close a => c ← use a; modify (upd heap (insert a (mk_client (last_event c) (pred (fds c)))));; redsocks_close 1
  end.

(** A random number is 32 bits. *)
Definition good_inputs (inp : inputs) : bool := (0 <=? random inp) && (random inp <? 2 ^ 32).
(** Between touching a new client and looking for idle ones the clock moves on,
    but not by the time of an idle one. *)
Definition clock_moved (t : Z) (inp : inputs) : bool :=
  (connpres_idle_timeout =? 0) || ((t <? now inp) && (now inp <? t + max_idle)).

Definition allowed (p : P) (act : action) : bool :=
  match act with
  | Accept k a t o inp =>
      match instances p !! k with Some i => listener i | None => false end &&
      negb (bool_decide (is_Some (heap p !! a))) && good_inputs inp && clock_moved t inp
  | Timer inp => bool_decide (is_Some (accept_backoff_ev p)) && good_inputs inp
  | Drop a | Touch a _ | Open a _ | Close a => bool_decide (is_Some (heap p !! a))
  end.
#[export] Instance pressure_system : System pressure action event := { enabled := allowed; exec := exec_action }.

(** [n] instances that listen. *)
Definition start (n : nat) : P := mk_pressure 0 0 None (repeat (mk_instance true []) n) ∅.

(** ** The invariant *)

Context (Hmax : 0 < redsocks_conn_max) (Hidle : 0 <= connpres_idle_timeout) (Hback : 0 < max_accept_backoff_ms < 2 ^ 32).

Definition lists (p : P) : list (list Z) := clients <$> instances p.
Record good (p : P) : Prop := {
  g_nodup : NoDup (concat (lists p));
  g_heap : forall a, is_Some (heap p !! a) <-> a ∈ concat (lists p);
  g_conn : redsocks_conn p = zlen (concat (lists p));
  g_max : redsocks_conn p <= redsocks_conn_max;
  g_backoff : 0 <= accept_backoff_ms p <= max_accept_backoff_ms
}.

(** Connections are accepted, or will be after a delay, or never again. *)
Inductive status := Listening | Waiting (delay : Z) | Deaf.
Definition listening (b : bool) (p : P) : Prop := Forall (fun i => listener i = b) (instances p).
Definition is_status (st : status) (p : P) : Prop :=
  match st with
  | Listening => listening true p /\ accept_backoff_ev p = None
  | Waiting d => listening false p /\ accept_backoff_ev p = Some d /\ 0 < d <= max_accept_backoff_ms * 1000
  | Deaf => listening false p /\ accept_backoff_ev p = None
  end.
Definition after (st : status) : status := match st with Deaf => Deaf | _ => Listening end.

(** What does not concern the listeners is the same. *)
Definition same_clients (p p' : P) : Prop :=
  lists p' = lists p /\ heap p' = heap p /\ redsocks_conn p' = redsocks_conn p /\ accept_backoff_ms p' = accept_backoff_ms p.
Lemma same_good p p' : same_clients p p' -> good p -> good p'.
Proof. intros (Hl & Hh & Hc & Hb) [H1 H2 H3 H4 H5]. split; rewrite ?Hl, ?Hh, ?Hc, ?Hb; done. Qed.
Lemma good_set p p' : good p -> lists p' = lists p -> heap p' = heap p -> redsocks_conn p' = redsocks_conn p ->
  0 <= accept_backoff_ms p' <= max_accept_backoff_ms -> good p'.
Proof. intros [H1 H2 H3 H4 H5] Hl Hh Hc Hb. split; rewrite ?Hl, ?Hh, ?Hc; done. Qed.
Lemma same_refl p : same_clients p p.
Proof. done. Qed.
Lemma same_clients_trans p1 p2 p3 : same_clients p1 p2 -> same_clients p2 p3 -> same_clients p1 p3.
Proof. intros (H1 & H2 & H3 & H4) (H5 & H6 & H7 & H8). split_and!; congruence. Qed.

Lemma set_listener_lists (b : bool) (l : list redsocks_instance) :
  clients <$> ((fun i => i <| listener := b |>) <$> l) = clients <$> l.
Proof. rewrite <- list_fmap_compose. by apply list_fmap_ext. Qed.
Lemma set_listener_all (b : bool) (l : list redsocks_instance) :
  Forall (fun i => listener i = b) ((fun i => i <| listener := b |>) <$> l).
Proof. apply Forall_fmap, Forall_true. done. Qed.

Implicit Types Q : unit -> P -> list event -> Prop.

Lemma wp_enable p Q : (forall p' t, same_clients p p' -> accept_backoff_ev p' = accept_backoff_ev p -> listening true p' -> Q tt p' t) ->
  wp accept_enable Q p.
Proof.
  intros HQ. unfold accept_enable. mstep. mstep. mstep. apply HQ; [|done|].
  - split_and!; try done. apply set_listener_lists.
  - apply set_listener_all.
Qed.
Definition lowered (st : status) (p : P) : status := if redsocks_conn_max <=? redsocks_conn p then st else after st.
Lemma wp_lowered st p Q : is_status st p ->
  (forall p' t, same_clients p p' -> is_status (lowered st p) p' -> Q tt p' t) -> wp conn_pressure_lowered Q p.
Proof.
  intros Hst HQ. unfold conn_pressure_lowered, lowered in *. do 2 mstep. destruct (redsocks_conn_max <=? redsocks_conn p).
  { mstep. by apply HQ. }
  destruct st as [|d|]; cbn [is_status after] in *.
  - destruct Hst as [Hl Ht]. rewrite Ht. mstep. by apply HQ.
  - destruct Hst as (Hl & Ht & _). rewrite Ht. mstep. mstep. apply wp_enable. intros p' t Hs Ht' Hl'. by apply HQ.
  - destruct Hst as [Hl Ht]. rewrite Ht. mstep. by apply HQ.
Qed.
Lemma lowered_twice st p p' : redsocks_conn p' = redsocks_conn p -> lowered (lowered st p) p' = lowered st p.
Proof. unfold lowered. intros ->. destruct (_ <=? _); [done|]. by destruct st. Qed.
Lemma wp_close n st p Q : is_status st p ->
  (forall p' t, same_clients p p' -> is_status (match n with O => st | S _ => lowered st p end) p' -> Q tt p' t) -> wp (redsocks_close n) Q p.
Proof.
  revert st p Q. induction n as [|n IH]; intros st p Q Hst HQ; cbn [redsocks_close].
  - mstep. by apply HQ.
  - mstep. apply (wp_lowered st); [done|]. intros p1 t1 Hs1 Hst1. apply (IH (lowered st p)); [done|].
    intros p2 t2 Hs2 Hst2. apply HQ; [by eapply same_clients_trans|]. destruct n; [done|].
    by rewrite lowered_twice in Hst2 by apply Hs1.
Qed.

(** ** Dropping a client *)

Definition remove (a : Z) : list Z -> list Z := List.filter (fun b => negb (b =? a)).
Lemma elem_of_remove a x l : x ∈ remove a l <-> x ∈ l /\ x <> a.
Proof.
  unfold remove. rewrite !list_elem_of_In, filter_In. intuition lia.
Qed.
Lemma remove_absent a l : a ∉ l -> remove a l = l.
Proof.
  induction l as [|b l IH]; [done|]. rewrite not_elem_of_cons. intros [Hb Hl]. cbn.
  replace (b =? a) with false by lia. cbn. by rewrite (IH Hl).
Qed.
Lemma remove_nodup a l : NoDup l -> NoDup (remove a l) /\ (a ∈ l -> zlen (remove a l) = zlen l - 1).
Proof.
  induction 1 as [|b l Hb Hl [IH1 IH2]]; [split; [constructor|by intros ?%elem_of_nil]|]. cbn.
  destruct (Z.eqb_spec b a) as [->|Hab]; cbn.
  - fold (remove a l). rewrite remove_absent by done. split; [done|]. intros _. rewrite zlen_cons. lia.
  - fold (remove a l). split.
    + constructor; [|done]. rewrite elem_of_remove. by intros [? _].
    + rewrite elem_of_cons. intros [?|Ha]; [congruence|]. rewrite !zlen_cons, IH2 by done. lia.
Qed.
Lemma concat_remove a ls : concat (remove a <$> ls) = remove a (concat ls).
Proof. apply concat_filter_map. Qed.
Lemma lists_del a (l : list redsocks_instance) : clients <$> (list_del a <$> l) = remove a <$> (clients <$> l).
Proof. rewrite <- !list_fmap_compose. by apply list_fmap_ext. Qed.

Lemma listed_spec a p : listed a p = true <-> a ∈ concat (lists p).
Proof.
  unfold listed, lists. rewrite existsb_exists, list_elem_of_In, in_concat. split.
  - intros (i & Hi & Ha). apply bool_decide_eq_true in Ha. exists (clients i).
    split; [by apply in_map|by apply list_elem_of_In].
  - intros (l & Hl & Ha). apply in_map_iff in Hl as (i & <- & Hi). exists i. split; [done|]. apply bool_decide_eq_true.
    by apply list_elem_of_In.
Qed.

(** What is left after [a] was dropped. *)
Record dropped (a : Z) (p p' : P) : Prop := {
  d_lists : lists p' = remove a <$> lists p;
  d_heap : heap p' = delete a (heap p);
  d_conn : redsocks_conn p' = redsocks_conn p - 1;
  d_backoff : accept_backoff_ms p' = accept_backoff_ms p
}.
Lemma dropped_good a p p' : dropped a p p' -> good p -> a ∈ concat (lists p) -> good p'.
Proof.
  intros [Hl Hh Hc Hb] [H1 H2 H3 H4 H5] Ha. destruct (remove_nodup a _ H1) as [Hn Hz].
  split; rewrite ?Hl, ?Hh, ?Hc, ?Hb, ?concat_remove; [done| |rewrite Hz by done; lia|lia|done].
  intros x. rewrite elem_of_remove, lookup_delete_is_Some, H2. naive_solver.
Qed.
Lemma after_lowered st p p' : redsocks_conn p' < redsocks_conn_max -> lowered (lowered st p) p' = after st.
Proof. unfold lowered. intros H. replace (redsocks_conn_max <=? redsocks_conn p') with false by lia. destruct (_ <=? _); by destruct st. Qed.

Lemma wp_drop a st p Q : good p -> is_status st p -> is_Some (heap p !! a) ->
  (forall p' t, dropped a p p' -> is_status (after st) p' -> Q tt p' t) -> wp (redsocks_drop_client a) Q p.
Proof.
  intros Hg Hst [c Hc] HQ. assert (Ha : a ∈ concat (lists p)) by (apply (g_heap _ Hg); by exists c).
  unfold redsocks_drop_client, use. mstep. mstep. mstep. mstep; [exact Hc|]. mstep.
  apply (wp_close (fds c) st); [done|]. intros p1 t1 Hs1 Hst1. pose proof Hs1 as (Hl1 & Hh1 & Hc1 & Hb1).
  unfold redsocks_conn_list_del. do 2 mstep. mstep. mstep.
  assert (Hin : listed a p1 = true) by (apply listed_spec; by rewrite Hl1). rewrite Hin. cbn [when]. do 3 mstep.
  set (st1 := match fds c with O => st | S _ => lowered st p end) in *.
  assert (Hst2 : after st1 = after st) by (subst st1; unfold lowered; destruct (fds c); [done|]; destruct (redsocks_conn_max <=? redsocks_conn p); by destruct st).
  eapply (wp_lowered st1).
  { destruct st1; cbn in *; unfold listening, upd in *; cbn; (split; [by apply Forall_fmap; eapply Forall_impl; [apply Hst1|]|apply Hst1]). }
  intros p2 t2 (Hl2 & Hh2 & Hc2 & Hb2) Hst'. sug. mstep. mstep. mstep. apply HQ.
  - split.
    + etrans; [exact Hl2|]. rewrite <- Hl1. exact (lists_del a (instances p1)).
    + change (heap (p2 <| heap := delete a (heap p2) |>)) with (delete a (heap p2)). by rewrite Hh2, <- Hh1.
    + etrans; [exact Hc2|]. by rewrite <- Hc1.
    + etrans; [exact Hb2|]. by rewrite <- Hb1.
  - rewrite <- Hst2. unfold lowered in Hst'. unfold upd in Hst'. cbn in Hst'.
    pose proof (g_max _ Hg). replace (redsocks_conn_max <=? redsocks_conn p1 - 1) with false in Hst' by lia.
    destruct st1; exact Hst'.
Qed.

(** ** Dropping idle clients *)

Definition fresh (now : Z) (c : redsocks_client) : Prop := 0 < now - last_event c < max_idle.

(** Only clients were dropped. *)
Definition shrunk (p p' : P) : Prop :=
  heap p' ⊆ heap p /\ Forall2 subseteq (lists p') (lists p).
Lemma shrunk_refl p : shrunk p p.
Proof. split; [done|]. by apply Forall_Forall2_diag, Forall_true. Qed.
Lemma shrunk_trans p1 p2 p3 : shrunk p1 p2 -> shrunk p2 p3 -> shrunk p1 p3.
Proof.
  intros [H1 H2] [H3 H4]. split; by etrans.
Qed.
Lemma dropped_shrunk a p p' : dropped a p p' -> shrunk p p'.
Proof.
  intros [Hl Hh _ _]. split; [rewrite Hh; apply delete_subseteq|]. rewrite Hl. apply Forall2_fmap_l, Forall_Forall2_diag, Forall_true.
  intros l x. by intros [? _]%elem_of_remove.
Qed.

Lemma NoDup_concat_lookup (ls : list (list Z)) k l : NoDup (concat ls) -> ls !! k = Some l -> NoDup l.
Proof.
  revert k. induction ls as [|m ls IH]; intros k; [done|]. cbn. rewrite NoDup_app. intros (Hm & _ & Hls).
  destruct k as [|k]; cbn; [by intros [= <-]|]. by apply IH.
Qed.

Section idle.
Context (now : Z) (p0 : P) (st0 : status) (Hpos : 0 < connpres_idle_timeout).

(** While the idle clients are dropped: none of the others is, and [best] is 0
    when some was. *)
Record idling (best : Z) (p : P) : Prop := {
  i_good : good p;
  i_shrunk : shrunk p0 p;
  i_fresh : forall a c, heap p0 !! a = Some c -> fresh now c -> heap p !! a = Some c;
  i_backoff : accept_backoff_ms p = accept_backoff_ms p0;
  i_best : (0 < best <= max_idle /\ redsocks_conn p = redsocks_conn p0 /\ is_status st0 p) \/
           (best = 0 /\ redsocks_conn p < redsocks_conn p0 /\ is_status (after st0) p)
}.
Definition only_fresh (l : list Z) (p : P) : Prop := forall a c, a ∈ l -> heap p !! a = Some c -> fresh now c.
Lemma only_fresh_shrunk l p p' : shrunk p p' -> only_fresh l p -> only_fresh l p'.
Proof. intros [Hs _] Hf a c Ha Hc. apply (Hf a c Ha). by eapply lookup_weaken. Qed.

Lemma idling_drop best p p' a c st : idling best p -> heap p !! a = Some c -> ~ fresh now c ->
  is_status st p -> after st = after st0 -> dropped a p p' -> is_status (after st) p' -> idling 0 p'.
Proof.
  intros [Hg Hs Hf Hb Hbest] Ha Hc Hst Hst0 Hd Hst'. pose proof (dropped_shrunk _ _ _ Hd) as Hs'. split.
  - eapply dropped_good; [done..|]. apply (g_heap _ Hg). by exists c.
  - by eapply shrunk_trans.
  - intros x cx Hx Hfx. rewrite (d_heap _ _ _ Hd), lookup_delete_ne; [by apply Hf|]. intros ->.
    apply Hc. assert (Some c = Some cx) as [= ->] by (rewrite <- Ha; by apply Hf). done.
  - by rewrite (d_backoff _ _ _ Hd).
  - right. rewrite (d_conn _ _ _ Hd), <- Hst0. split_and!; [done| |done]. destruct Hbest as [(_ & ? & _)|(_ & ? & _)]; lia.
Qed.

Lemma wp_idle_clients l best p (Q : Z -> P -> list event -> Prop) :
  idling best p -> NoDup l -> (forall a, a ∈ l -> is_Some (heap p !! a)) ->
  (forall best' p' t, idling best' p' -> shrunk p p' -> only_fresh l p' -> Q best' p' t) ->
  wp (drop_idle_clients now l best) Q p.
Proof using All.
  revert best p Q. induction l as [|a l IH]; intros best p Q HJ Hl Hh HQ; cbn [drop_idle_clients].
  { mstep. apply HQ; [done|apply shrunk_refl|]. by intros a c ?%elem_of_nil. }
  apply NoDup_cons in Hl as [Ha Hl]. destruct (Hh a ltac:(set_solver)) as [c Hc]. unfold use.
  do 3 mstep. mstep; [exact Hc|].
  mstep.
  - mstep. assert (Hst : exists st, is_status st p /\ after st = after st0).
    { destruct (i_best _ _ HJ) as [(_ & _ & ?)|(_ & _ & ?)]; [by exists st0|exists (after st0)]. split; [done|by destruct st0]. }
    destruct Hst as (st & Hst & Hst0). apply (wp_drop a st); [apply HJ|done|by exists c|]. intros p1 t1 Hd Hst1.
    assert (HJ1 : idling 0 p1). { eapply idling_drop; [done..| |done|done|done|done]. unfold fresh. lia. }
    assert (Hh1 : heap p1 = delete a (heap p)) by apply Hd.
    apply IH; [done|done| |].
    + intros b Hb. rewrite Hh1, lookup_delete_ne by (intros ->; done). apply Hh. set_solver.
    + intros best' p' t Hj Hs Hf. apply HQ; [done|by eapply shrunk_trans; [eapply dropped_shrunk|]|].
      intros b cb [->|Hb]%elem_of_cons Hcb; [|by eapply Hf]. exfalso.
      assert (Hx : heap p1 !! a = Some cb) by (eapply lookup_weaken; [exact Hcb|apply Hs]).
      by rewrite Hh1, lookup_delete_eq in Hx.
  - assert (Hf : fresh now c) by (unfold fresh; lia). apply IH.
    + destruct HJ as [H1 H2 H3 H4 H5]. split; try done. unfold fresh in Hf. destruct H5 as [(? & ?)|(-> & ?)]; [left|right].
      * split; [|done]. destruct (_ <? _) eqn:E; lia.
      * split; [|done]. destruct (_ <? _) eqn:E; lia.
    + done.
    + intros b Hb. apply Hh. set_solver.
    + intros best' p' t Hj Hs Hfl. apply HQ; [done|done|]. intros b cb [->|Hb]%elem_of_cons Hcb; [|by eapply Hfl].
      assert (Hx : heap p !! a = Some cb) by (eapply lookup_weaken; [exact Hcb|apply Hs]).
      rewrite Hc in Hx. by injection Hx as <-.
Qed.
Lemma only_fresh_lists p p' k i i' : shrunk p p' -> lists p !! k = Some i -> lists p' !! k = Some i' ->
  only_fresh i p' -> only_fresh i' p'.
Proof.
  intros [_ Hs] Hi Hi' Hf a c Ha. apply Hf. destruct (Forall2_lookup_l _ _ _ _ _ Hs Hi') as (j & Hj & Hsub).
  rewrite Hi in Hj. injection Hj as <-. by apply Hsub.
Qed.
Lemma shrunk_lookup p p' k i : shrunk p p' -> lists p !! k = Some i -> exists i', lists p' !! k = Some i'.
Proof. intros [_ Hs] Hi. destruct (Forall2_lookup_r _ _ _ _ _ Hs Hi) as (j & Hj & _). by exists j. Qed.

Lemma wp_idle_instances l best p (Q : Z -> P -> list event -> Prop) :
  idling best p -> (forall k, k ∈ l -> is_Some (lists p !! k)) ->
  (forall best' p' t, idling best' p' -> shrunk p p' ->
     (forall k i, k ∈ l -> lists p' !! k = Some i -> only_fresh i p') -> Q best' p' t) ->
  wp (drop_idle_instances now l best) Q p.
Proof using All.
  revert best p Q. induction l as [|k l IH]; intros best p Q HJ Hl HQ; cbn [drop_idle_instances].
  { mstep. apply HQ; [done|apply shrunk_refl|]. by intros k i ?%elem_of_nil. }
  destruct (Hl k ltac:(set_solver)) as [li Hli]. pose proof Hli as Hli0. unfold lists in Hli.
  apply list_lookup_fmap_Some in Hli as (i & -> & Hi). do 2 mstep. mstep. mstep; [exact Hi|]. mstep.
  pose proof (i_good _ _ HJ) as Hg. apply wp_idle_clients; [done| | |].
  - apply (NoDup_concat_lookup (lists p) k); [apply Hg|done].
  - intros a Ha. apply (g_heap _ Hg), list_elem_of_In, in_concat. exists (clients i). rewrite <- !list_elem_of_In.
    split; [|done]. by eapply list_elem_of_lookup_2.
  - intros best1 p1 t1 HJ1 Hs1 Hf1. apply IH; [done| |].
    + intros j Hj. destruct (Hl j ltac:(set_solver)) as [lj Hlj]. destruct (shrunk_lookup _ _ _ _ Hs1 Hlj) as [lj' ?]. by exists lj'.
    + intros best' p' t HJ' Hs' Hf'. apply HQ; [done|by eapply shrunk_trans|]. intros j lj [->|Hj]%elem_of_cons Hlj; [|by eapply Hf'].
      eapply (only_fresh_lists p p'); [by eapply shrunk_trans|exact Hli0|exact Hlj|by eapply only_fresh_shrunk].
Qed.
End idle.

(** The idle clients are dropped, and no others. *)
Definition idle_dropped (now : Z) (p p' : P) : Prop :=
  forall a c, heap p' !! a = Some c <-> heap p !! a = Some c /\ fresh now c.
Lemma wp_drop_idle now st p (Q : Z -> P -> list event -> Prop) :
  good p -> is_status st p -> 0 < connpres_idle_timeout ->
  (forall best p' t, good p' -> idle_dropped now p p' -> accept_backoff_ms p' = accept_backoff_ms p ->
     (0 < best <= max_idle /\ redsocks_conn p' = redsocks_conn p /\ is_status st p') \/
     (best = 0 /\ redsocks_conn p' < redsocks_conn p /\ is_status (after st) p') -> Q best p' t) ->
  wp (drop_idle_connections now) Q p.
Proof using All.
  intros Hg Hst Hpos HQ. unfold drop_idle_connections. mstep. apply wp_assert; [lia|]. do 2 mstep.
  apply (wp_idle_instances now p st); [done|split; try done| |].
  - left. split_and!; try done. unfold max_idle. lia.
  - intros k [_ Hk]%elem_of_seq. unfold lists. rewrite list_lookup_fmap. apply fmap_is_Some, lookup_lt_is_Some. lia.
  - intros best p' t [Hg' Hs Hf Hb Hbest] _ Hl. apply HQ; [done| |done|done]. intros a c. split.
    + intros Hc. split; [eapply lookup_weaken; [exact Hc|apply Hs]|].
      assert (Ha : a ∈ concat (lists p')) by (apply (g_heap _ Hg'); by exists c).
      apply list_elem_of_In, in_concat in Ha as (i & Hi & Hai). apply list_elem_of_In in Hai, Hi.
      apply list_elem_of_lookup_1 in Hi as (k & Hk). eapply (Hl k i); [|exact Hk|exact Hai|exact Hc].
      apply elem_of_seq. split; [lia|]. destruct Hs as [_ Hs]. apply Forall2_length in Hs. apply lookup_lt_Some in Hk.
      unfold lists in *. rewrite !length_fmap in *. lia.
    + intros [Hc Hfc]. by apply Hf.
Qed.

(** ** Pressure *)

Lemma clamp_range v : 1 <= clamp_value v 1 max_accept_backoff_ms <= max_accept_backoff_ms.
Proof using Hback.
  unfold clamp_value. destruct (Z.ltb_spec v 1); [|destruct (Z.ltb_spec max_accept_backoff_ms v)];
    repeat match goal with |- context [if ?b then _ else _] => destruct b eqn:? end; lia.
Qed.
Lemma delay_range rnd v : 0 <= rnd < 2 ^ 32 ->
  0 < u32 (rnd mod clamp_value v 1 max_accept_backoff_ms + 1) <= max_accept_backoff_ms.
Proof using Hback.
  intros Hr. pose proof (clamp_range v) as Hc. pose proof (Z.mod_pos_bound rnd (clamp_value v 1 max_accept_backoff_ms) ltac:(lia)).
  unfold u32. rewrite Z.mod_small by lia. lia.
Qed.

(** The idle clients are dropped if there is a time for that. *)
Definition relieved (now : Z) (p p' : P) : Prop :=
  if connpres_idle_timeout =? 0 then heap p' = heap p else idle_dropped now p p'.
Lemma relieved_kept now p p' a c : relieved now p p' -> heap p !! a = Some c ->
  connpres_idle_timeout = 0 \/ fresh now c -> heap p' !! a = Some c.
Proof.
  unfold relieved. destruct (Z.eqb_spec connpres_idle_timeout 0) as [|H0]; [by intros ->|].
  intros Hd Ha [?|Hf]; [done|]. by apply Hd.
Qed.

(** The rest of [conn_pressure]. *)
Lemma wp_back_off next inp st p Q : good p -> is_status st p -> 0 <= next -> good_inputs inp = true ->
  (forall p' t d, good p' -> heap p' = heap p -> redsocks_conn p' = redsocks_conn p -> is_status (Waiting d) p' -> Q tt p' t) ->
  wp (back_off next inp) Q p.
Proof using Hback Hmax Hidle.
  intros Hg Hst Hn Hi HQ. unfold good_inputs in Hi. apply andb_true_iff in Hi as [Hi1 Hi2].
  unfold back_off. mstep. mstep. set (v := u32 (u32 (accept_backoff_ms p * 2) + 1)). pose proof (clamp_range v) as Hc.
  pose proof (delay_range (random inp) v ltac:(lia)) as Hd. cbv zeta.
  do 2 mstep. mstep. apply wp_assert; [lia|]. do 4 mstep. eapply HQ.
  - eapply good_set; [exact Hg|apply set_listener_lists|done..|]. sug. lia.
  - done.
  - done.
  - split; [apply set_listener_all|]. split; [done|].
    destruct (negb (next =? 0) && (next <? _)) eqn:E; [|lia]. apply andb_true_iff in E as [? ?]. lia.
Qed.

Lemma wp_pressure inp st p Q : good p -> is_status st p -> good_inputs inp = true ->
  (forall p' t, good p' -> relieved (now inp) p p' ->
     (exists d, is_status (Waiting d) p' /\ redsocks_conn p' = redsocks_conn p) \/
     (0 < connpres_idle_timeout /\ redsocks_conn p' < redsocks_conn p /\ is_status (after st) p') -> Q tt p' t) ->
  wp (conn_pressure inp) Q p.
Proof using All.
  intros Hg Hst Hi HQ. unfold conn_pressure. mstep. destruct (Z.eqb_spec connpres_idle_timeout 0) as [H0|H0].
  - mstep. cbn [negb andb]. eapply (wp_back_off 0); [done..|]. intros p' t d Hg' Hh Hc Hst'. apply HQ; [done| |].
    + unfold relieved. by replace (connpres_idle_timeout =? 0) with true by lia.
    + left. by exists d.
  - apply (wp_drop_idle (now inp) st); [done|done|lia|]. intros best p1 t1 Hg1 Hd1 Hb1 Hbest. cbn [negb andb].
    assert (Hr : forall p', heap p' = heap p1 -> relieved (now inp) p p').
    { intros p' Hh. unfold relieved, idle_dropped. replace (connpres_idle_timeout =? 0) with false by lia. by rewrite Hh. }
    destruct Hbest as [(Hb & Hc & Hst1)|(-> & Hc & Hst1)].
    + replace (best =? 0) with false by lia. eapply (wp_back_off best); [done|done|lia|done|].
      intros p' t d Hg' Hh Hc' Hst'. apply HQ; [done|auto|]. left. exists d. split; [done|lia].
    + cbn [Z.eqb]. apply wp_ret, HQ; [done|auto|]. right. split_and!; [lia|done..].
Qed.

(** ** The handlers *)

(** What holds between handlers: the listeners are off for good only if idle
    clients are dropped. *)
Definition ok (p : P) : Prop :=
  good p /\ exists st, is_status st p /\ (st = Listening -> redsocks_conn p < redsocks_conn_max) /\
    (st = Deaf -> 0 < connpres_idle_timeout).

Lemma good_touch p a c : good p -> is_Some (heap p !! a) -> good (upd heap (insert a c) p).
Proof.
  intros [H1 H2 H3 H4 H5] Ha. split; try done. intros x. change (heap (upd heap (insert a c) p)) with (<[a := c]> (heap p)).
  rewrite lookup_insert_is_Some. destruct (decide (a = x)) as [->|]; [rewrite <- H2|]; naive_solver.
Qed.
Lemma ok_touch p a c : ok p -> is_Some (heap p !! a) -> ok (upd heap (insert a c) p).
Proof. intros (Hg & st & Hst & H1 & H2) Ha. split; [by apply good_touch|]. exists st. split; [|done]. by destruct st. Qed.
Lemma ok_lowered p st : good p -> is_status (lowered st p) p -> (st = Deaf -> 0 < connpres_idle_timeout) ->
  (st = Listening -> redsocks_conn p < redsocks_conn_max) -> ok p.
Proof.
  intros Hg Hst Hd Hl. split; [done|]. exists (lowered st p). split; [done|]. unfold lowered.
  destruct (Z.leb_spec redsocks_conn_max (redsocks_conn p)); destruct st; cbn; split; auto; (done || lia).
Qed.
Lemma wp_close_ok n p Q : ok p -> (forall p' t, ok p' -> same_clients p p' -> Q tt p' t) -> wp (redsocks_close n) Q p.
Proof.
  intros (Hg & st & Hst & H1 & H2) HQ. apply (wp_close n st); [done|]. intros p' t Hs Hst'. apply HQ; [|done].
  pose proof Hs as (_ & _ & Hc & _). assert (Hg' : good p') by by eapply same_good.
  destruct n; [split; [done|]; exists st; rewrite Hc; done|].
  apply (ok_lowered p' st); [done| |done|by rewrite Hc]. unfold lowered in *. by rewrite Hc.
Qed.
Lemma wp_drop_ok a p Q : ok p -> is_Some (heap p !! a) -> (forall p' t, ok p' -> dropped a p p' -> Q tt p' t) ->
  wp (redsocks_drop_client a) Q p.
Proof using All.
  intros (Hg & st & Hst & H1 & H2) Ha HQ. apply (wp_drop a st); [done..|]. intros p' t Hd Hst'. apply HQ; [|done].
  split; [by eapply dropped_good; [..|apply (g_heap _ Hg)]|]. exists (after st). split; [done|].
  rewrite (d_conn _ _ _ Hd). pose proof (g_max _ Hg). split; [lia|]. destruct st; auto; done.
Qed.
Lemma wp_pressure_ok inp p Q : ok p -> good_inputs inp = true -> 
  (forall p' t, ok p' -> relieved (now inp) p p' -> Q tt p' t) -> wp (conn_pressure inp) Q p.
Proof using All.
  intros (Hg & st & Hst & H1 & H2) Hi HQ. apply (wp_pressure inp st); [done..|]. intros p' t Hg' Hr Hcase. apply HQ; [|done].
  split; [done|]. destruct Hcase as [(d & Hw & _)|(Ht & Hc & Hst')].
  - exists (Waiting d). done.
  - exists (after st). split; [done|]. pose proof (g_max _ Hg). split; [lia|done].
Qed.

Lemma wp_timer inp p Q : ok p -> is_Some (accept_backoff_ev p) -> good_inputs inp = true ->
  (forall p' t, ok p' -> Q tt p' t) -> wp (redsocks_accept_backoff inp) Q p.
Proof using All.
  intros (Hg & st & Hst & H1 & H2) [d Hd] Hi HQ. unfold redsocks_accept_backoff, conn_pressure_ongoing.
  assert (Hdeaf : is_status Deaf (p <| accept_backoff_ev := None |>)).
  { destruct st; cbn in Hst; [destruct Hst; congruence| |destruct Hst; congruence]. by destruct Hst. }
  assert (Hg' : good (p <| accept_backoff_ev := None |>)) by by apply (same_good p).
  set (p1 := p <| accept_backoff_ev := None |>) in *. do 4 mstep.
  assert (Hpress : wp (conn_pressure inp) (fun _ p' _ => ok p') p1).
  { apply (wp_pressure inp Deaf); [done..|]. intros p' t Hg1 _ [(d' & Hw & _)|(Ht & _ & Hd')]; (split; [done|]).
    - by exists (Waiting d').
    - by exists Deaf. }
  mstep. mstep; mstep; cbn iota.
  - eapply wp_mono; [exact Hpress|]. intros [] p' t Hok. by apply HQ.
  - destruct (negb (socket_ok inp)); [eapply wp_mono; [exact Hpress|]; intros [] p' t Hok; by apply HQ|].
    apply wp_enable. intros p' t Hs Ht Hl. apply HQ. split; [by eapply same_good|]. exists Listening.
    split_and!; [split; [done|by rewrite Ht]|intros _; destruct Hs as (_ & _ & -> & _); sua; cbn in *; lia|done].
Qed.

Lemma listed_lists p k i : instances p !! k = Some i -> lists p !! k = Some (clients i).
Proof. intros Hi. unfold lists. by rewrite list_lookup_fmap, Hi. Qed.
Lemma concat_insert (ls : list (list Z)) k l a : ls !! k = Some l -> concat (<[k := a :: l]> ls) ≡ₚ a :: concat ls.
Proof.
  revert k. induction ls as [|m ls IH]; intros k; [done|]. destruct k as [|k]; cbn.
  - by intros [= ->].
  - intros Hk. rewrite IH by done. by rewrite Permutation_middle.
Qed.

(** The client [a], allocated and not yet in a list. *)
Definition with_client (a : Z) (c : redsocks_client) (p : P) : P := upd heap (insert a c) p.
Lemma wp_list_add k a c inp p Q : ok p -> redsocks_conn p < redsocks_conn_max -> heap p !! a = None ->
  (exists i, instances p !! k = Some i /\ listener i = true) -> good_inputs inp = true ->
  connpres_idle_timeout = 0 \/ fresh (now inp) c ->
  (forall p' t, ok p' -> heap p' !! a = Some c -> Q tt p' t) ->
  wp (redsocks_conn_list_add k a inp) Q (with_client a c p).
Proof using All.
  intros (Hg & st & Hst & H1 & H2) Hlt Ha (i & Hi & Hli) Hin Hf HQ. set (p1 := with_client a c p).
  assert (Hna : a ∉ concat (lists p)) by (rewrite <- (g_heap _ Hg), Ha; by intros [? ?]).
  unfold redsocks_conn_list_add. do 2 mstep. mstep. apply wp_assert.
  { apply negb_true_iff, not_true_iff_false. by rewrite listed_spec. }
  mstep. apply wp_assert; [apply Z.ltb_lt; exact Hlt|]. mstep. mstep; [exact Hi|]. do 4 mstep.
  set (p2 := upd redsocks_conn _ _). pose proof (concat_insert _ _ _ a (listed_lists _ _ _ Hi)) as Hperm.
  assert (Hl2 : lists p2 = <[k := a :: clients i]> (lists p)) by exact (list_fmap_insert clients (instances p) k (i <| clients := a :: clients i |>)).
  assert (Hg2 : good p2).
  { destruct Hg as [G1 G2 G3 G4 G5]. split; rewrite ?Hl2; try done.
    - rewrite Hperm. by constructor.
    - intros x. rewrite Hperm, elem_of_cons, <- G2. change (heap p2) with (<[a := c]> (heap p)). rewrite lookup_insert_is_Some'. naive_solver.
    - change (redsocks_conn p2) with (redsocks_conn p + 1). unfold zlen in *. rewrite Hperm. cbn [length]. lia.
    - change (redsocks_conn p2) with (redsocks_conn p + 1). lia. }
  assert (Hst2 : st = Listening /\ is_status Listening p2).
  { assert (Hst' : st = Listening).
    { destruct st; [done|..]; destruct Hst as [Hall _]; exfalso; unfold listening in Hall; rewrite Forall_lookup in Hall;
        specialize (Hall _ _ Hi); congruence. }
    subst st. split; [done|]. destruct Hst as [Hall Ht]. split; [|exact Ht]. apply Forall_insert; [exact Hall|exact Hli]. }
  destruct Hst2 as [-> Hst2]. change (redsocks_conn p1) with (redsocks_conn p).
  assert (Hc2 : heap p2 !! a = Some c) by apply lookup_insert_eq.
  mstep.
  - apply (wp_pressure inp Listening); [done..|]. intros p' t Hg' Hr Hcase. apply HQ; [|by eapply relieved_kept].
    split; [done|]. destruct Hcase as [(d & Hw & _)|(Ht & Hc & Hst')]; [by exists (Waiting d)|]. exists Listening.
    split; [done|]. pose proof (g_max _ Hg2). split; [lia|done].
  - apply HQ; [|done]. split; [done|]. exists Listening. split; [done|]. change (redsocks_conn p2) with (redsocks_conn p + 1). split; [lia|done].
Qed.

(** A client that never came to a list leaves nothing. *)
Lemma wp_drop_unlisted a t p Q : ok p -> heap p !! a = None -> (forall p' t, ok p' -> Q tt p' t) ->
  wp (redsocks_drop_client a) Q (with_client a (mk_client t 0) p).
Proof using All.
  intros (Hg & st & Hst & H1 & H2) Ha HQ. set (p1 := with_client a (mk_client t 0) p).
  assert (Hna : listed a p1 = false).
  { apply not_true_iff_false. rewrite listed_spec. change (lists p1) with (lists p). rewrite <- (g_heap _ Hg), Ha. by intros [? ?]. }
  unfold redsocks_drop_client, use. do 3 mstep. mstep; [apply lookup_insert_eq|]. mstep. cbn [fds redsocks_close]. do 2 mstep.
  unfold redsocks_conn_list_del. do 2 mstep. mstep. rewrite Hna. cbn [when]. mstep.
  apply (wp_lowered st); [by destruct st|]. intros p2 t2 (Hl2 & Hh2 & Hc2 & Hb2) Hst2. do 3 mstep. apply HQ.
  apply (ok_lowered _ st); [|unfold lowered in *; sug; rewrite Hc2; destruct st, (_ <=? _); exact Hst2|done|].
  - apply (good_set p); [done|exact Hl2| |exact Hc2|sug; rewrite Hb2; apply Hg].
    sug. rewrite Hh2. apply delete_insert_id, Ha.
  - intros Hl. sug. rewrite Hc2. auto.
Qed.

Lemma wp_accept k a t o inp p Q : ok p -> allowed p (Accept k a t o inp) = true ->
  (forall p' t, ok p' -> Q tt p' t) -> wp (redsocks_accept_client k a t o inp) Q p.
Proof using All.
  intros Hok Hal HQ. cbn in Hal. rewrite !andb_true_iff, negb_true_iff in Hal. destruct Hal as [[[Hli Ha] Hin] Hcl].
  destruct (instances p !! k) as [i|] eqn:Hi; [|done]. apply bool_decide_eq_false in Ha. apply eq_None_not_Some in Ha.
  assert (Hlt : redsocks_conn p < redsocks_conn_max).
  { destruct Hok as (_ & st & Hst & H1 & _). apply H1. destruct st; [done|..]; destruct Hst as [Hall _]; exfalso;
      unfold listening in Hall; rewrite Forall_lookup in Hall; specialize (Hall _ _ Hi); congruence. }
  assert (Hok1 : ok (p <| accept_backoff_ms := 0 |>)).
  { destruct Hok as (Hg & st & Hst & H1). split; [apply (good_set p); try done; sug; lia|]. exists st. by destruct st. }
  set (p1 := p <| accept_backoff_ms := 0 |>) in *.
  assert (Hf : connpres_idle_timeout = 0 \/ fresh (now inp) (mk_client t 1)).
  { unfold clock_moved in Hcl. unfold fresh. cbn [last_event]. apply orb_true_iff in Hcl as [?|?]; [left|right]; lia. }
  assert (Hadd : forall Q' : unit -> P -> list event -> Prop,
    (forall p' t', ok p' -> heap p' !! a = Some (mk_client t 1) -> Q' tt p' t') ->
    wp (redsocks_conn_list_add k a inp) Q' (with_client a (mk_client t 1) p1)).
  { intros Q' HQ'. apply wp_list_add; [done|exact Hlt|exact Ha|by exists i|done|done|done]. }
  assert (Hins : upd heap (insert a (mk_client t 1)) (upd heap (insert a (mk_client t 0)) p1) = with_client a (mk_client t 1) p1).
  { unfold with_client, upd. cbn. by rewrite insert_insert_eq. }
  unfold redsocks_accept_client. mstep. mstep. mstep. apply wp_assert; [by apply Z.ltb_lt|].
  destruct o; cbn iota.
  - mstep; [|by apply HQ]. apply wp_pressure_ok; [done|done|]. intros; by apply HQ.
  - do 2 mstep. apply wp_close_ok; [done|]. intros; by apply HQ.
  - do 2 mstep. fold p1. do 2 mstep. mstep. apply wp_drop_unlisted; [done|done|]. intros p2 t2 Hok2. apply wp_close_ok; [done|].
    intros; by apply HQ.
  - do 6 mstep. fold p1. rewrite Hins. mstep. apply Hadd. intros p2 t2 Hok2 Hc2. unfold use. do 3 mstep. mstep; [exact Hc2|].
    apply wp_drop_ok; [done|by eexists|]. intros; by apply HQ.
  - do 6 mstep. fold p1. rewrite Hins. mstep. apply Hadd. intros p2 t2 Hok2 Hc2. unfold use. do 3 mstep. mstep; [exact Hc2|].
    mstep. apply wp_close_ok; [done|]. intros p3 t3 Hok3 (_ & Hh3 & _).
    apply wp_drop_ok; [done|rewrite Hh3; by eexists|]. intros; by apply HQ.
  - do 6 mstep. fold p1. rewrite Hins. mstep. apply Hadd. intros p2 t2 Hok2 Hc2. unfold use. do 3 mstep. mstep; [exact Hc2|].
    mstep. apply HQ. apply ok_touch; [done|by eexists].
Qed.

Lemma pressure_step_ok p act : ok p -> allowed p act = true -> wp (exec_action act) (fun _ p' _ => ok p') p.
Proof using All.
  intros Hok Hal. destruct act as [k a t o inp|inp|a|a t|a n|a]; cbn [exec_action].
  - by apply wp_accept.
  - cbn in Hal. apply andb_true_iff in Hal as [Hd%bool_decide_eq_true Hin]. by apply wp_timer.
  - cbn in Hal. apply bool_decide_eq_true in Hal. by apply wp_drop_ok.
  - cbn in Hal. apply bool_decide_eq_true in Hal as [c Hc]. unfold redsocks_touch_client, use. do 3 mstep.
    mstep; [exact Hc|]. mstep. apply ok_touch; [done|by exists c].
  - cbn in Hal. apply bool_decide_eq_true in Hal as [c Hc]. unfold use. do 3 mstep.
    mstep; [exact Hc|]. mstep. apply ok_touch; [done|by exists c].
  - cbn in Hal. apply bool_decide_eq_true in Hal as [c Hc]. unfold use. do 3 mstep.
    mstep; [exact Hc|]. do 2 mstep. apply wp_close_ok; [|done]. apply ok_touch; [done|by exists c].
Qed.

Lemma start_ok n : ok (start n).
Proof using All.
  assert (Hl : concat (lists (start n)) = []) by (unfold lists; cbn; induction n; done).
  split; [split; rewrite ?Hl; cbn; try lia|].
  - constructor.
  - intros a. rewrite lookup_empty. split; [by intros [? ?]|by intros ?%elem_of_nil].
  - done.
  - exists Listening. split; [|cbn; split; [intros _; lia|done]]. split; [|done]. unfold listening. cbn. clear Hl. induction n as [|n IH]; cbn; [by apply Forall_nil|apply Forall_cons; split; [done|exact IH]].
Qed.

(** Without a listener and without the timer nothing brings them back. *)
Definition deaf (p : P) : Prop := good p /\ is_status Deaf p.
Lemma deaf_touch p a c : deaf p -> is_Some (heap p !! a) -> deaf (upd heap (insert a c) p).
Proof. intros [Hg Hd] Ha. split; [by apply good_touch|exact Hd]. Qed.
Lemma deaf_step p act : deaf p -> allowed p act = true -> wp (exec_action act) (fun _ p' _ => deaf p') p.
Proof using All.
  intros Hdf Hal. pose proof Hdf as [Hg Hd]. pose proof Hd as [Hl Ht].
  destruct act as [k a t o inp|inp|a|a t|a n|a]; cbn [exec_action]; cbn in Hal.
  - exfalso. rewrite !andb_true_iff in Hal. destruct Hal as [[[Hli _] _] _]. destruct (instances p !! k) as [i|] eqn:Hi; [|done].
    unfold listening in Hl. rewrite Forall_lookup in Hl. specialize (Hl _ _ Hi). congruence.
  - exfalso. rewrite Ht in Hal. apply andb_true_iff in Hal as [Hal _]. apply bool_decide_eq_true in Hal as [? ?]. done.
  - apply bool_decide_eq_true in Hal. apply (wp_drop a Deaf); [done..|]. intros p' t Hdr Hst'. split; [|done].
    by eapply dropped_good; [..|apply (g_heap _ Hg)].
  - apply bool_decide_eq_true in Hal as [c Hc]. unfold redsocks_touch_client, use. do 3 mstep.
    mstep; [exact Hc|]. mstep. apply deaf_touch; [done|by exists c].
  - apply bool_decide_eq_true in Hal as [c Hc]. unfold use. do 3 mstep.
    mstep; [exact Hc|]. mstep. apply deaf_touch; [done|by exists c].
  - apply bool_decide_eq_true in Hal as [c Hc]. unfold use. do 3 mstep. mstep; [exact Hc|]. do 2 mstep.
    destruct (deaf_touch p a (mk_client (last_event c) (pred (fds c))) Hdf ltac:(by exists c)) as [Hg1 Hd1].
    apply (wp_close 1 Deaf); [done|]. intros p' t Hs Hst'. split; [by eapply same_good|].
    unfold lowered in Hst'. by destruct (_ <=? _) in Hst'.
Qed.
Lemma deaf_forever p tr p' : deaf p -> reach p tr p' -> deaf p'.
Proof using All.
  intros Hd. apply (reach_inv (fun _ => deaf)); [|done]. intros tr1 p1 act Hd1 Hal. by apply deaf_step.
Qed.

Lemma reach_ok n tr p : reach (start n) tr p -> ok p.
Proof using All.
  apply (reach_inv (fun _ => ok)); [|apply start_ok]. intros tr1 p1 act H1 Hal. by apply pressure_step_ok.
Qed.
Lemma start_safe n : safe (start n).
Proof using All.
  apply (inv_safe (fun _ => ok)); [|apply start_ok]. intros tr1 p1 act H1 Hal. by apply pressure_step_ok.
Qed.
End pressure.



(** C19: two flaws of the code.  When the timer of the back-off finds the limit still
    reached and idle clients are dropped, the listeners stay disabled and the timer
    is not armed again: no connection is accepted any more, although there is room,
    whatever happens later.  And when the clock does not move on while the last
    allowed client is accepted, this client counts as idle and is freed before it
    is used. *)
Theorem accept_flaws : let sys := pressure_system 1 1 1000 in
  (exists tr p, reach (sys := sys) (start 1) tr p /\ redsocks_conn p = 0 /\
     forall tr' p', reach (sys := sys) p tr' p' -> listening false p' /\ accept_backoff_ev p' = None) /\
  exec (System := sys) (Accept 0 7 5 Connected (mk_inputs 5 0 true)) (start 1) = None.
Proof.
  split; [|by vm_compute]. set (acts := [Accept 0 7 0 Connected (mk_inputs 1 0 true); Timer (mk_inputs 2000000 0 true)]).
  assert (H : (fun x => (redsocks_conn x.1, accept_backoff_ev x.1, listener <$> instances x.1)) <$>
    run (sys := pressure_system 1 1 1000) acts (start 1) = Some (0, None, [false])) by by vm_compute.
  apply fmap_Some in H as ([p tr] & Hrun & [= Hc Ht Hl]). exists tr, p. cbn [fst] in *.
  pose proof (run_reach _ _ _ _ Hrun) as Hr. split_and!; [exact Hr|done|].
  assert (Hd : deaf 1 1000 p).
  { split; [by eapply reach_ok in Hr as [Hg _]|]. split; [|done]. unfold listening. destruct (instances p) as [|i [|]]; try done.
    injection Hl as Hl. by apply Forall_singleton. }
  intros tr' p' Hr'. by apply deaf_forever in Hr' as [_ ?].
Qed.

End Pressure.
