(* ===== verification/RedPump.v ===== *)
(** The relay of redsocks with splice: the pump of [redsocks.c].

    The data of a connection is moved between the sockets through two pipes.  What
    the handshake left in the buffers of libevent is written first.  The fields of
    [redsocks_pump] are grouped by the direction of the data: a request goes from the
    client to the relay, a reply from the relay to the client. *)

From S2P Require Import Prelude System.
Open Scope list_scope.

Module Pump.

(** ** The state *)

Inductive side := Client | Relay.
Inductive dir := Request | Reply.
Definition src (d : dir) : side := match d with Request => Client | Reply => Relay end.
Definition dst (d : dir) : side := match d with Request => Relay | Reply => Client end.
#[export] Instance side_eq_dec : EqDecision side.
Proof. solve_decision. Defined.
#[export] Instance dir_eq_dec : EqDecision dir.
Proof. solve_decision. Defined.

(** An event of libevent: initialised, waiting for the socket, to be called anyway. *)
Record ev := mk_ev { assigned : bool; added : bool; active : bool }.
#[export] Instance eta_ev : Eta ev := fun e => mk_ev (assigned e) (added e) (active e).

(** A pipe: its ends, -1 when they are not open, the counter of the pump and what is
    in the pipe. *)
Record splice_pipe := mk_pipe { read : bool; write : bool; size : Z; content : bytes }.
#[export] Instance eta_pipe : Eta splice_pipe := fun p => mk_pipe (read p) (write p) (size p) (content p).

(** One direction: [output] of the bufferevent at its end and [input] of the one at
    its beginning, the pipe, EV_READ of the source and EV_WRITE of the destination
    in [evshut], the event that reads and the one that writes. *)
Record half := mk_half {
  output : bytes;
  input : bytes;
  pipe : splice_pipe;
  shut_src : bool;
  shut_dst : bool;
  evsrc : ev;
  evdst : ev
}.
#[export] Instance eta_half : Eta half := fun h =>
  mk_half (output h) (input h) (pipe h) (shut_src h) (shut_dst h) (evsrc h) (evdst h).

(** A bufferevent, NULL when it was freed; whether it still has the descriptor. *)
Record bufferevent := mk_buf { alive : bool; has_fd : bool }.
#[export] Instance eta_buf : Eta bufferevent := fun b => mk_buf (alive b) (has_fd b).

Record redsocks_pump := mk_pump {
  request : half;
  reply : half;
  client : bufferevent;
  relay : bufferevent;
  freed : bool
}.
#[export] Instance eta_pump : Eta redsocks_pump := fun p =>
  mk_pump (request p) (reply p) (client p) (relay p) (freed p).

Inductive fd := Socket (s : side) | Pipe_read (d : dir) | Pipe_write (d : dir).
Inductive event :=
  | Received (s : side) (l : bytes)
  | Sent (s : side) (l : bytes)
  | Shutdown_rd (s : side)
  | Shutdown_wr (s : side)
  | Opened (f : fd)
  | Close (f : fd).

Local Abbreviation P := redsocks_pump.

Definition of_dir (d : dir) (p : P) : half := match d with Request => request p | Reply => reply p end.
Definition set_dir (d : dir) (f : half -> half) (p : P) : P :=
  match d with Request => upd request f p | Reply => upd reply f p end.
Definition buf_of (s : side) (p : P) : bufferevent := match s with Client => client p | Relay => relay p end.
Definition set_buf (s : side) (f : bufferevent -> bufferevent) (p : P) : P :=
  match s with Client => upd client f p | Relay => upd relay f p end.
Definition on (d : dir) (f : half -> half) : M P event unit := modify (set_dir d f).

(** The pump was not freed. *)
Definition use : M P event P := p ← get; assert (negb (freed p));; mret p.

Definition shut_both (p : P) : bool :=
  shut_src (request p) && shut_dst (request p) && shut_src (reply p) && shut_dst (reply p).

(** ** Events *)

Definition event_add (e : ev) : ev := e <| added := true |>.
Definition event_del (e : ev) : ev := e <| added := false |> <| active := false |>.
Definition event_active (e : ev) : ev := e <| active := true |>.

(** ** The end *)

(** [redsocks_close] *)
Definition redsocks_close (f : fd) : M P event unit := emit (Close f).

Definition redsocks_bufferevent_free (s : side) : M P event unit :=
  p ← get;
  modify (set_buf s (fun b => mk_buf false false));;
  when (has_fd (buf_of s p)) (redsocks_close (Socket s)).

Definition close_pipe (d : dir) : M P event unit :=
  p ← get;
  when (read (pipe (of_dir d p))) (redsocks_close (Pipe_read d));;
  when (write (pipe (of_dir d p))) (redsocks_close (Pipe_write d)).

(** The events of one side and its descriptor. *)
Definition close_side (s : side) (reader writer : dir) : M P event unit :=
  p ← get;
  let fd := assigned (evsrc (of_dir reader p)) in
  when fd (on reader (fun h => h <| evsrc := event_del (evsrc h) |>));;
  when (assigned (evdst (of_dir writer p))) (on writer (fun h => h <| evdst := event_del (evdst h) |>));;
  when fd (redsocks_close (Socket s)).

(** [use_splice]; the log and [fini] of the protocol, which frees its own data, are
    left out, and the lists of clients are in [RedPressure.v]. *)
Definition redsocks_drop_client : M P event unit :=
  p ← use;
  when (alive (client p)) (redsocks_bufferevent_free Client);;
  when (alive (relay p)) (redsocks_bufferevent_free Relay);;
  close_pipe Request;;
  close_pipe Reply;;
  close_side Client Request Reply;;
  close_side Relay Reply Request;;
  freed ::= true.

(** ** Writing *)

(** What [evbuffer_write] and [splice] do: they move [n] bytes, if there are as many;
    they would block; they fail. *)
Inductive io := Moved (n : nat) | Would_block | Failed.

Inductive flow := Next | Decide (has_data can_write : bool) | Gone.

(** One buffer of [ebsrc]: the output of the destination or the input of the source. *)
Inductive ebsrc := Out | In.
Definition owner (d : dir) (b : ebsrc) : side := match b with Out => dst d | In => src d end.
Definition buffer (b : ebsrc) (h : half) : bytes := match b with Out => output h | In => input h end.
Definition set_buffer (b : ebsrc) (l : bytes) (h : half) : half :=
  match b with Out => h <| output := l |> | In => h <| input := l |> end.

Definition write_buffer (d : dir) (b : ebsrc) (r : io) : M P event flow :=
  p ← use;
  if negb (alive (buf_of (owner d b) p)) then mret Next
  else
    let l := buffer b (of_dir d p) in
    if zlen l =? 0 then mret Next
    else
      match r with
      | Would_block => mret (Decide true false)
      | Failed => redsocks_drop_client;; mret Gone
      | Moved n =>
          on d (set_buffer b (drop n l));;
          emit (Sent (dst d) (take n l));;
          if zlen l <=? Z.of_nat n then mret Next else mret (Decide true false)
      end.

Definition write_pipe (d : dir) (r : io) : M P event flow :=
  p ← use;
  let pi := pipe (of_dir d p) in
  let avail := size pi in
  if avail =? 0 then mret (Decide false true)
  else
    assert (read pi);;
    match r with
    | Would_block => mret (Decide true false)
    | Failed => redsocks_drop_client;; mret Gone
    | Moved n =>
        let l := take (Nat.min n (Z.to_nat avail)) (content pi) in
        on d (fun h => h <| pipe := pi <| size := avail - zlen l |> <| content := drop (length l) (content pi) |> |>);;
        emit (Sent (dst d) l);;
        if zlen l =? avail then mret (Decide false true) else mret (Decide true false)
    end.

Definition and_then (m1 m2 : M P event flow) : M P event flow :=
  r ← m1; match r with Next => m2 | _ => mret r end.

(** After the writes. *)
Definition decide_events (d : dir) (has_data can_write : bool) : M P event unit :=
  p ← use;
  let h := of_dir d p in
  assert (negb (can_write && has_data));;
  if negb can_write && has_data then
    on d (fun h => h <| evsrc := event_del (evsrc h) |>);;
    on d (fun h => h <| evdst := event_add (evdst h) |>)
  else if can_write && negb has_data then
    on d (fun h => h <| evsrc := event_add (evsrc h) |>);;
    on d (fun h => h <| evdst := event_del (evdst h) |>)
  else if negb can_write && negb has_data then
    on d (fun h => h <| evsrc := event_del (evsrc h) |>);;
    on d (fun h => h <| evdst := event_del (evdst h) |>)
  else mret tt.
Definition decide_shutdown (d : dir) (has_data can_write : bool) : M P event unit :=
  p ← use;
  let h := of_dir d p in
  if negb has_data && shut_src h && negb (shut_dst h) then
    emit (Shutdown_wr (dst d));;
    on d (fun h => h <| shut_dst := true |>);;
    assert (size (pipe h) =? 0);;
    redsocks_close (Pipe_read d);;
    on d (fun h => h <| pipe := (pipe h) <| read := false |> |>);;
    redsocks_close (Pipe_write d);;
    on d (fun h => h <| pipe := (pipe h) <| write := false |> |>);;
    p ← get;
    if shut_both p then redsocks_drop_client else decide_events d has_data false
  else decide_events d has_data can_write.

Definition redsplice_write_cb (d : dir) (r0 r1 r2 : io) : M P event unit :=
  r ← and_then (write_buffer d Out r0) (and_then (write_buffer d In r1) (write_pipe d r2));
  match r with
  | Decide has_data can_write => decide_shutdown d has_data can_write
  | _ => mret tt
  end.

(** ** Reading *)

(** [splice] into the pipe: bytes, the end of the file, would block, fails. *)
Inductive input_result := Got (l : bytes) | Got_eof | In_block | In_failed.

Definition redsplice_read_cb (d : dir) (r : input_result) : M P event unit :=
  p ← use;
  assert (write (pipe (of_dir d p)));;
  match r with
  | In_block => on d (fun h => h <| evsrc := event_del (evsrc h) |>)
  | In_failed => redsocks_drop_client
  | Got_eof =>
      emit (Shutdown_rd (src d));;
      on d (fun h => h <| shut_src := true |>);;
      on d (fun h => h <| evsrc := event_del (evsrc h) |>);;
      on d (fun h => h <| evdst := event_active (evdst h) |>)
  | Got l =>
      emit (Received (src d) l);;
      on d (fun h => h <| pipe := (pipe h) <| size := size (pipe h) + zlen l |> <| content := content (pipe h) ++ l |> |>);;
      on d (fun h => h <| evdst := event_active (evdst h) |>)
  end.

(** ** Callbacks *)

(** A bufferevent with nothing in it is freed; its descriptor belongs to the pump. *)
Definition bufferevent_free_unused (s : side) (ins outs : dir) : M P event unit :=
  p ← use;
  if alive (buf_of s p) && (zlen (input (of_dir ins p)) =? 0) && (zlen (output (of_dir outs p)) =? 0)
  then modify (set_buf s (fun b => b <| alive := false |>)) else mret tt.
Definition redsocks_touch_pump : M P event unit :=
  bufferevent_free_unused Client Request Reply;;
  bufferevent_free_unused Relay Reply Request.

(** libevent calls a write event because it is added or active, and it is not active
    any more; a read event is never made active. *)
Definition redsplice_write (d : dir) (r0 r1 r2 : io) : M P event unit :=
  on d (fun h => h <| evdst := (evdst h) <| active := false |> |>);;
  redsocks_touch_pump;;
  redsplice_write_cb d r0 r1 r2.
Definition redsplice_read (d : dir) (r : input_result) : M P event unit :=
  redsocks_touch_pump;;
  redsplice_read_cb d r.

(** ** The beginning *)

(** What fails: [bufferevent_disable] of the two, [pipe2] of the two. *)
Record start_result := mk_start { disable_client : bool; disable_relay : bool; pipe2_request : bool; pipe2_reply : bool }.

Definition pipe2 (d : dir) (ok : bool) : M P event bool :=
  when ok (
    on d (fun h => h <| pipe := mk_pipe true true 0 [] |>);;
    emit (Opened (Pipe_read d));;
    emit (Opened (Pipe_write d)));;
  mret ok.
Definition event_assign (d : dir) : M P event unit :=
  on d (fun h => h <| evsrc := mk_ev true false false |> <| evdst := mk_ev true false false |>).

(** The result is true for an error. *)
Definition redsocks_start_splicepump (r : start_result) : M P event bool :=
  _ ← use;
  if negb (disable_client r) || negb (disable_relay r) then mret true
  else
    ok1 ← pipe2 Request (pipe2_request r);
    if negb ok1 then mret true
    else
      ok2 ← pipe2 Reply (pipe2_reply r);
      if negb ok2 then mret true
      else
        event_assign Request;;
        event_assign Reply;;
        modify (set_buf Relay (fun b => b <| has_fd := false |>));;
        modify (set_buf Client (fun b => b <| has_fd := false |>));;
        on Reply (fun h => h <| evdst := event_active (evdst h) |>);;
        on Request (fun h => h <| evdst := event_active (evdst h) |>);;
        on Request (fun h => h <| evsrc := event_add (evsrc h) |>);;
        on Reply (fun h => h <| evsrc := event_add (evsrc h) |>);;
        mret false.
Definition redsocks_start_relay (r : start_result) : M P event unit :=
  error ← redsocks_start_splicepump r;
  when error redsocks_drop_client.

(** ** The environment *)

(** The start; libevent calls a write or a read event; another part of the program
    drops the client, for instance because it is idle. *)
Inductive action :=
  | Start (r : start_result)
  | Write (d : dir) (r0 r1 r2 : io)
  | Read (d : dir) (r : input_result)
  | Drop.

Definition exec_action (a : action) : M P event unit :=
  match a with
  | Start r => redsocks_start_relay r
  | Write d r0 r1 r2 => redsplice_write d r0 r1 r2
  | Read d r => redsplice_read d r
  | Drop => redsocks_drop_client
  end.

(** Reading would only block when the pipe is full, and does not give no bytes. *)
Definition possible (r : input_result) (h : half) : bool :=
  match r with Got l => negb (zlen l =? 0) | In_block => negb (zlen (content (pipe h)) =? 0) | _ => true end.
Definition started (p : P) : bool := assigned (evsrc (request p)).
Definition allowed (p : P) (a : action) : bool :=
  negb (freed p) &&
  match a with
  | Start _ => negb (started p)
  | Write d _ _ _ => added (evdst (of_dir d p)) || active (evdst (of_dir d p))
  | Read d r => added (evsrc (of_dir d p)) && possible r (of_dir d p)
  | Drop => true
  end.
#[export] Instance pump_system : System P action event := { enabled := allowed; exec := exec_action }.

(** After the handshake: what is in the buffers, and whether a side already closed. *)
Definition new_half (out inp : bytes) (eof : bool) : half :=
  mk_half out inp (mk_pipe false false 0 []) eof false (mk_ev false false false) (mk_ev false false false).
Definition new_pump (relay_output client_input client_output relay_input : bytes) (client_eof relay_eof : bool) : P :=
  mk_pump (new_half relay_output client_input client_eof) (new_half client_output relay_input relay_eof)
    (mk_buf true true) (mk_buf true true) false.

(** ** What the events say *)

Definition received (s : side) : list event -> bytes :=
  mbind (fun e => match e with Received s' l => if decide (s' = s) then l else [] | _ => [] end).
Definition sent (s : side) : list event -> bytes :=
  mbind (fun e => match e with Sent s' l => if decide (s' = s) then l else [] | _ => [] end).
Definition closed : list event -> list fd := mbind (fun e => match e with Close f => [f] | _ => [] end).
Definition opened : list event -> list fd := mbind (fun e => match e with Opened f => [f] | _ => [] end).
Definition is_shutdown (s : side) (e : event) : bool := match e with Shutdown_wr s' => bool_decide (s' = s) | _ => false end.
Definition shut (s : side) : list event -> bool := existsb (is_shutdown s).

Lemma received_app s t1 t2 : received s (t1 ++ t2) = received s t1 ++ received s t2.
Proof. apply bind_app. Qed.
Lemma sent_by_app s t1 t2 : sent s (t1 ++ t2) = sent s t1 ++ sent s t2.
Proof. apply bind_app. Qed.
Lemma closed_app t1 t2 : closed (t1 ++ t2) = closed t1 ++ closed t2.
Proof. apply bind_app. Qed.
Lemma opened_app t1 t2 : opened (t1 ++ t2) = opened t1 ++ opened t2.
Proof. apply bind_app. Qed.
Lemma shut_app s t1 t2 : shut s (t1 ++ t2) = shut s t1 || shut s t2.
Proof. apply existsb_app. Qed.
#[local] Hint Rewrite received_app sent_by_app closed_app opened_app shut_app : trace.

(** ** Updates *)

Lemma of_set d f p : of_dir d (set_dir d f p) = f (of_dir d p).
Proof. by destruct d. Qed.
Lemma of_set_other d d' f p : d' <> d -> of_dir d' (set_dir d f p) = of_dir d' p.
Proof. by destruct d, d'. Qed.
Lemma buf_set_dir d f s p : buf_of s (set_dir d f p) = buf_of s p.
Proof. by destruct d, s. Qed.
Lemma freed_set_dir d f p : freed (set_dir d f p) = freed p.
Proof. by destruct d. Qed.
Lemma set_set d f g p : set_dir d f (set_dir d g p) = set_dir d (fun h => f (g h)) p.
Proof. by destruct d. Qed.
Lemma set_const d f p : set_dir d f p = set_dir d (fun _ => f (of_dir d p)) p.
Proof. by destruct d. Qed.

Lemma wp_use p (Q : P -> P -> list event -> Prop) : freed p = false -> Q p p [] -> wp use Q p.
Proof. intros Hf HQ. unfold use. do 2 mstep. mstep. apply wp_assert; [by rewrite Hf|]. by mstep. Qed.

(** ** Descriptors *)

Definition opt_fd (b : bool) (f : fd) : list fd := if b then [f] else [].
Definition pipe_fds (d : dir) (p : P) : list fd :=
  opt_fd (read (pipe (of_dir d p))) (Pipe_read d) ++ opt_fd (write (pipe (of_dir d p))) (Pipe_write d).
Definition owned (p : P) : list fd := [Socket Client; Socket Relay] ++ pipe_fds Request p ++ pipe_fds Reply p.
(** A socket belongs to its bufferevent, and after the start to its events. *)
Definition sockets (st : bool) (p : P) : Prop :=
  (forall d, assigned (evsrc (of_dir d p)) = st /\ assigned (evdst (of_dir d p)) = st) /\
  forall s, (st = true -> has_fd (buf_of s p) = false) /\ (st = false -> buf_of s p = mk_buf true true).

Definition closes (l : list fd) : list event := Close <$> l.
Lemma wp_close_if (b : bool) f p (Q : unit -> P -> list event -> Prop) : Q tt p (closes (opt_fd b f)) -> wp (when b (redsocks_close f)) Q p.
Proof. intros HQ. destruct b; [by apply wp_emit|by apply wp_ret]. Qed.
Lemma wp_close_pipe d p (Q : unit -> P -> list event -> Prop) : Q tt p (closes (pipe_fds d p)) -> wp (close_pipe d) Q p.
Proof.
  intros HQ. unfold close_pipe. do 2 mstep. mstep. apply wp_close_if. apply wp_close_if. unfold pipe_fds in HQ.
  unfold closes in *. by rewrite fmap_app in HQ.
Qed.
Lemma wp_free_buffer s (b : bool) p (Q : unit -> P -> list event -> Prop) :
  Q tt (if b then set_buf s (fun _ => mk_buf false false) p else p) (closes (opt_fd (b && has_fd (buf_of s p)) (Socket s))) ->
  wp (when b (redsocks_bufferevent_free s)) Q p.
Proof.
  intros HQ. destruct b; cbn [when]; [|by mstep]. unfold redsocks_bufferevent_free. do 2 mstep. do 2 mstep. by apply wp_close_if.
Qed.
Lemma wp_close_side s r w p (Q : unit -> P -> list event -> Prop) : r <> w ->
  (forall p', (forall d, pipe (of_dir d p') = pipe (of_dir d p) /\ assigned (evsrc (of_dir d p')) = assigned (evsrc (of_dir d p)) /\
      assigned (evdst (of_dir d p')) = assigned (evdst (of_dir d p))) ->
     Q tt p' (closes (opt_fd (assigned (evsrc (of_dir r p))) (Socket s)))) -> wp (close_side s r w) Q p.
Proof.
  intros Hrw HQ. unfold close_side, on, redsocks_close. do 2 mstep. cbv zeta.
  destruct (assigned (evsrc (of_dir r p))), (assigned (evdst (of_dir w p))); cbn [when]; msteps; apply HQ; intros d; destruct d, r, w; done.
Qed.
Lemma wp_drop_client st p (Q : unit -> P -> list event -> Prop) : freed p = false -> sockets st p ->
  (forall p' l, freed p' = true -> l ≡ₚ owned p -> Q tt p' (closes l)) -> wp redsocks_drop_client Q p.
Proof.
  intros Hf [Hev Hbuf] HQ. unfold redsocks_drop_client. mstep. apply wp_use; [done|].
  mstep. apply wp_free_buffer. set (p1 := if alive (client p) then _ else p).
  assert (H1 : forall d, of_dir d p1 = of_dir d p) by (intros d; subst p1; by destruct (alive (client p)), d).
  assert (Hr : relay p1 = relay p) by (subst p1; by destruct (alive (client p))).
  mstep. apply wp_free_buffer. set (p2 := if alive (relay p) then _ else p1).
  assert (H2 : forall d, of_dir d p2 = of_dir d p) by (intros d; rewrite <- H1; subst p2; by destruct (alive (relay p)), d).
  mstep. apply wp_close_pipe. mstep. apply wp_close_pipe.
  mstep. apply wp_close_side; [done|]. intros p3 H3. mstep. apply wp_close_side; [done|]. intros p4 H4. mstep.
  set (l1 := opt_fd (alive (client p) && _) _). set (l2 := opt_fd (alive (relay p) && _) _).
  set (l3 := pipe_fds Request _). set (l4 := pipe_fds Reply _). set (l5 := opt_fd (assigned _) (Socket Client)). set (l6 := opt_fd (assigned _) (Socket Relay)).
  replace (closes l1 ++ _) with (closes (l1 ++ l2 ++ l3 ++ l4 ++ l5 ++ l6)).
  2: { unfold closes. by rewrite !fmap_app, app_nil_r. }
  apply HQ; [done|]. unfold owned.
  assert (H34 : l3 = pipe_fds Request p /\ l4 = pipe_fds Reply p) by (subst l3 l4; unfold pipe_fds; by rewrite !H2).
  destruct H34 as [-> ->].
  assert (H5 : l5 = opt_fd st (Socket Client)) by (subst l5; by rewrite H2, (proj1 (Hev Request))).
  assert (H6 : l6 = opt_fd st (Socket Relay)).
  { subst l6. by rewrite (proj1 (proj2 (H3 Reply))), H2, (proj1 (Hev Reply)). }
  rewrite H5, H6. subst l1 l2. change (buf_of Client p) with (client p). change (buf_of Relay p1) with (relay p1). rewrite Hr.
  destruct (Hbuf Client) as [Hc1 Hc2], (Hbuf Relay) as [Hr1 Hr2]. cbn [buf_of] in *. destruct st; cbn [opt_fd].
  - rewrite (Hc1 eq_refl), (Hr1 eq_refl), !andb_false_r. cbn [opt_fd app]. by rewrite app_assoc, Permutation_app_comm.
  - rewrite (Hc2 eq_refl), (Hr2 eq_refl). cbn. by rewrite !app_nil_r.
Qed.

(** ** One direction *)

Definition pending (h : half) : bytes := output h ++ input h ++ content (pipe h).

Definition idle_events (h : half) : Prop := added (evsrc h) = false /\ added (evdst h) = false /\ active (evdst h) = false.
Definition ends (b : bool) (h : half) : Prop := read (pipe h) = b /\ write (pipe h) = b.
(** Before the start; then some event is waited for or called that moves the data,
    until all is written and the end is passed on. *)
Definition progress (st : bool) (h : half) : Prop :=
  assigned (evsrc h) = st /\ assigned (evdst h) = st /\
  if negb st then shut_dst h = false /\ ends false h /\ content (pipe h) = [] /\ idle_events h
  else if shut_dst h then shut_src h = true /\ pending h = [] /\ ends false h /\ idle_events h
  else ends true h /\
       (added (evdst h) = true \/ active (evdst h) = true \/ (added (evsrc h) = true /\ pending h = [])).

Record half_ok (st out_alive in_alive : bool) (h : half) : Prop := {
  h_progress : progress st h;
  h_size : size (pipe h) = zlen (content (pipe h));
  h_out : out_alive = false -> output h = [];
  h_in : in_alive = false -> input h = []
}.
Definition alive_at (s : side) (p : P) : bool := alive (buf_of s p).
Definition dir_ok (st : bool) (p : P) (d : dir) : Prop := half_ok st (alive_at (dst d) p) (alive_at (src d) p) (of_dir d p).

(** The data of a direction is what was there, or was received, and it is sent or pending. *)
Section history.
Context (p0 : P).
Definition start_data (d : dir) : bytes := pending (of_dir d p0).
Definition flow_ok (tr : list event) (p : P) (d : dir) : Prop :=
  start_data d ++ received (src d) tr = sent (dst d) tr ++ pending (of_dir d p) /\ shut (dst d) tr = shut_dst (of_dir d p).

Definition delivered (tr : list event) (d : dir) : Prop :=
  (exists rest, start_data d ++ received (src d) tr = sent (dst d) tr ++ rest) /\
  (shut (dst d) tr = true -> start_data d ++ received (src d) tr = sent (dst d) tr).

(** The end of the direction was not passed on. *)
Definition open_dir (d : dir) (p : P) : Prop := shut_dst (of_dir d p) = false.
(** Between callbacks, and at the end. *)
Definition inv (tr : list event) (p : P) : Prop :=
  if freed p then closed tr ≡ₚ [Socket Client; Socket Relay] ++ opened tr /\ forall d, delivered tr d
  else
    sockets (started p) p /\ (forall d, dir_ok (started p) p d) /\ (forall d, flow_ok tr p d) /\ (exists d, open_dir d p) /\
    closed tr ++ owned p ≡ₚ [Socket Client; Socket Relay] ++ opened tr.

Lemma flow_delivered tr p st d : dir_ok st p d -> flow_ok tr p d -> delivered tr d.
Proof.
  intros [Hp _ _ _] [Hd Hs]. split; [by exists (pending (of_dir d p))|]. rewrite Hs, Hd. intros Hsh.
  destruct Hp as (_ & _ & Hp). destruct st; cbn [negb] in Hp.
  - rewrite Hsh in Hp. destruct Hp as (_ & -> & _). by rewrite app_nil_r.
  - destruct Hp as [Hp _]. congruence.
Qed.
(** *** Steps *)

Definition note (tr : list event) (e : event) : list event := tr ++ [e].
Lemma foldl_note tr t : foldl note tr t = tr ++ t.
Proof. revert tr. induction t as [|e t IH]; intros tr; cbn; [by rewrite app_nil_r|]. rewrite IH. unfold note. by rewrite <- app_assoc. Qed.
Implicit Types Q : unit -> list event -> P -> Prop.

Definition balance (tr : list event) (p : P) : Prop := closed tr ++ owned p ≡ₚ [Socket Client; Socket Relay] ++ opened tr.

Lemma trace_closes l : (forall s, received s (closes l) = [] /\ sent s (closes l) = [] /\ shut s (closes l) = false) /\
  closed (closes l) = l /\ opened (closes l) = [].
Proof.
  induction l as [|f l [IH1 [IH2 IH3]]]; [done|]. split_and!.
  - intros s. exact (IH1 s).
  - change (closed (closes (f :: l))) with (f :: closed (closes l)). by rewrite IH2.
  - exact IH3.
Qed.
Lemma delivered_quiet tr t d : (forall s, received s t = [] /\ sent s t = [] /\ shut s t = false) -> delivered tr d -> delivered (tr ++ t) d.
Proof.
  intros Ht [[rest H1] H2]. unfold delivered. autorewrite with trace. destruct (Ht (src d)) as (-> & _ & _), (Ht (dst d)) as (_ & -> & ->).
  rewrite !app_nil_r, orb_false_r. split; [by exists rest|done].
Qed.
Lemma wph_drop_pump st tr p Q : freed p = false -> sockets st p -> balance tr p -> (forall d, delivered tr d) ->
  (forall tr' p', inv tr' p' -> freed p' = true -> Q tt tr' p') -> wph note redsocks_drop_client Q tr p.
Proof.
  intros Hf Hs Hb Hd HQ. apply (wp_drop_client st); [done..|]. intros p' l Hf' Hl. rewrite foldl_note. apply HQ; [|done].
  destruct (trace_closes l) as (H1 & H2 & H3). unfold inv. rewrite Hf'. autorewrite with trace. rewrite H2, H3, app_nil_r, Hl.
  split; [exact Hb|]. intros d. by apply delivered_quiet.
Qed.

Definition flip (d : dir) : dir := match d with Request => Reply | Reply => Request end.
Lemma dir_cases d (R : dir -> Prop) : R d -> R (flip d) -> forall d', R d'.
Proof. by destruct d; intros H1 H2 []. Qed.

(** While a direction is written. *)
Record writing (d : dir) (tr : list event) (p : P) : Prop := {
  w_freed : freed p = false;
  w_sockets : sockets true p;
  w_balance : balance tr p;
  w_other : dir_ok true p (flip d);
  w_flow : forall d', flow_ok tr p d';
  w_shut : shut_dst (of_dir d p) = false;
  w_ends : ends true (of_dir d p);
  w_size : size (pipe (of_dir d p)) = zlen (content (pipe (of_dir d p)));
  w_out : alive_at (dst d) p = false -> output (of_dir d p) = [];
  w_in : alive_at (src d) p = false -> input (of_dir d p) = []
}.
Lemma writing_open d tr p : writing d tr p -> exists d', open_dir d' p.
Proof. intros H. exists d. apply (w_shut _ _ _ H). Qed.
Lemma writing_delivered d tr p : writing d tr p -> forall d', delivered tr d'.
Proof.
  intros H. apply (dir_cases d).
  - destruct (w_flow _ _ _ H d) as [Hd Hs]. split; [by eexists|]. rewrite Hs, (w_shut _ _ _ H). done.
  - eapply flow_delivered; [apply (w_other _ _ _ H)|apply (w_flow _ _ _ H)].
Qed.
Lemma flip_ne d : flip d <> d.
Proof. by destruct d. Qed.
Lemma dst_flip d : dst (flip d) = src d.
Proof. by destruct d. Qed.
Lemma src_flip d : src (flip d) = dst d.
Proof. by destruct d. Qed.
Lemma src_ne_dst d : src d <> dst d.
Proof. by destruct d. Qed.

Lemma sockets_set d f p st : sockets st p -> assigned (evsrc (f (of_dir d p))) = st -> assigned (evdst (f (of_dir d p))) = st ->
  sockets st (set_dir d f p).
Proof.
  intros [He Hb] H1 H2. split; [|intros s; rewrite buf_set_dir; apply Hb].
  apply (dir_cases d); [by rewrite of_set|]. rewrite of_set_other by apply flip_ne. apply He.
Qed.
Lemma pipe_fds_set d d' f p : (d' = d -> read (pipe (f (of_dir d p))) = read (pipe (of_dir d p)) /\ write (pipe (f (of_dir d p))) = write (pipe (of_dir d p))) ->
  pipe_fds d' (set_dir d f p) = pipe_fds d' p.
Proof.
  intros H. unfold pipe_fds. destruct (decide (d' = d)) as [->|Hd]; [|by rewrite of_set_other].
  rewrite of_set. by destruct (H eq_refl) as [-> ->].
Qed.
Lemma owned_set d f p : read (pipe (f (of_dir d p))) = read (pipe (of_dir d p)) ->
  write (pipe (f (of_dir d p))) = write (pipe (of_dir d p)) -> owned (set_dir d f p) = owned p.
Proof. intros H1 H2. unfold owned. by rewrite !pipe_fds_set. Qed.
Lemma dir_ok_other d d' f st p : d' <> d -> dir_ok st p d' -> dir_ok st (set_dir d f p) d'.
Proof. intros Hd. unfold dir_ok, alive_at. by rewrite !buf_set_dir, of_set_other. Qed.

(** Bytes are taken from the beginning of what is pending. *)
Lemma writing_sent d tr p f l : writing d tr p ->
  pending (of_dir d p) = l ++ pending (f (of_dir d p)) ->
  (let h := of_dir d p in let h' := f h in
   shut_src h' = shut_src h /\ shut_dst h' = shut_dst h /\ evsrc h' = evsrc h /\ evdst h' = evdst h /\
   read (pipe h') = read (pipe h) /\ write (pipe h') = write (pipe h) /\ size (pipe h') = zlen (content (pipe h')) /\
   (output h = [] -> output h' = []) /\ (input h = [] -> input h' = [])) ->
  writing d (tr ++ [Sent (dst d) l]) (set_dir d f p).
Proof.
  intros [H1 H2 H3 H4 H5 H6 H7 H8 H9 H10] Hp (E1 & E2 & E3 & E4 & E5 & E6 & E7 & E8 & E9). split.
  - by rewrite freed_set_dir.
  - apply sockets_set; [done|..]; rewrite ?E3, ?E4; apply H2.
  - unfold balance. rewrite owned_set by done. autorewrite with trace. cbn. by rewrite !app_nil_r.
  - by apply dir_ok_other; [apply flip_ne|].
  - apply (dir_cases d).
    + destruct (H5 d) as [F1 F2]. split; autorewrite with trace; rewrite of_set.
      * cbn. rewrite decide_True, !app_nil_r, <- app_assoc, <- Hp by done. exact F1.
      * cbn. by rewrite orb_false_r, E2.
    + destruct (H5 (flip d)) as [F1 F2]. split; autorewrite with trace; rewrite of_set_other by apply flip_ne.
      * cbn. rewrite dst_flip in *. rewrite decide_False by (intros E; by apply (src_ne_dst d)). by rewrite !app_nil_r.
      * cbn. by rewrite orb_false_r.
  - by rewrite of_set, E2.
  - rewrite of_set. unfold ends in *. by rewrite E5, E6.
  - by rewrite of_set.
  - unfold alive_at. rewrite buf_set_dir, of_set. auto.
  - unfold alive_at. rewrite buf_set_dir, of_set. auto.
Qed.
Lemma app_nil_inv3 {A} (l1 l2 l3 : list A) : l1 ++ l2 ++ l3 = [] -> l1 = [] /\ l2 = [] /\ l3 = [].
Proof. intros [-> [-> ->]%app_eq_nil]%app_eq_nil. done. Qed.

(** *** Writing *)

Lemma wph_use_pump tr p (Q : P -> list event -> P -> Prop) : freed p = false -> Q p tr p -> wph note use Q tr p.
Proof. intros Hf HQ. apply wp_use; [done|]. exact HQ. Qed.

Lemma wph_write_drop d tr p (Q : flow -> list event -> P -> Prop) : writing d tr p ->
  (forall tr' p', inv tr' p' -> Q Gone tr' p') -> wph note (redsocks_drop_client;; mret Gone) Q tr p.
Proof.
  intros Hw HQ. hstep. apply (wph_drop_pump true); [apply Hw..|by eapply writing_delivered|]. intros tr' p' Hi _. hstep. by apply HQ.
Qed.
Lemma drop_all {A} n (l : list A) : (zlen l <=? Z.of_nat n) = true -> drop n l = [].
Proof. intros H. apply drop_ge. unfold zlen in H. lia. Qed.
Lemma drop_some {A} n (l : list A) : (zlen l <=? Z.of_nat n) = false -> drop n l <> [].
Proof. intros H E. apply (f_equal length) in E. rewrite length_drop in E. unfold zlen in H. cbn in E. lia. Qed.

Lemma wph_write_buffer d b r tr p (Q : flow -> list event -> P -> Prop) : writing d tr p ->
  (b = In -> output (of_dir d p) = []) ->
  (forall tr' p', writing d tr' p' -> output (of_dir d p') = [] -> (b = In -> input (of_dir d p') = []) -> Q Next tr' p') ->
  (forall tr' p', writing d tr' p' -> pending (of_dir d p') <> [] -> Q (Decide true false) tr' p') ->
  (forall tr' p', inv tr' p' -> Q Gone tr' p') -> wph note (write_buffer d b r) Q tr p.
Proof.
  intros Hw Hout HN HD HG. unfold write_buffer. hstep. apply wph_use_pump; [apply Hw|].
  assert (Hnext : buffer b (of_dir d p) = [] -> Q Next tr p).
  { intros Hb. apply HN; [done|destruct b; [exact Hb|auto]|by intros ->]. }
  hstep.
  { hstep. apply Hnext. apply negb_true_iff in H. destruct b; cbn [buffer owner] in *; [by apply (w_out _ _ _ Hw)|by apply (w_in _ _ _ Hw)]. }
  cbv zeta. hstep; [hstep; apply Hnext, zlen_zero; lia|]. set (l := buffer b (of_dir d p)) in *.
  assert (Hne : l <> []) by (intros E; rewrite E in *; done).
  destruct r as [n| |]; [|hstep; apply HD; [done|]|by apply (wph_write_drop d)].
  2: { unfold pending. intros (Ho & Hi & _)%app_nil_inv3. subst l. by destruct b. }
  unfold on. hstep. hstep. hstep. hstep. unfold note.
  assert (Hw' : writing d (tr ++ [Sent (dst d) (take n l)]) (set_dir d (set_buffer b (drop n l)) p)).
  { apply writing_sent; [done| |].
    - unfold pending, l. destruct b; cbn [buffer set_buffer]; sug.
      + by rewrite (app_assoc (take n _)), take_drop.
      + rewrite Hout by done. cbn. by rewrite (app_assoc (take n _)), take_drop.
    - subst l. destruct b; cbn [buffer set_buffer]; split_and!; try done; try apply Hw;
        sug; intros E; rewrite E; apply drop_nil. }
  hstep; hstep.
  - apply HN; [done|rewrite of_set; destruct b; cbn [set_buffer]; sug; [by apply drop_all|by apply Hout]|].
    intros ->. rewrite of_set. cbn. by apply drop_all.
  - apply HD; [done|]. rewrite of_set. intros (Ho & Hi & _)%app_nil_inv3. destruct b; cbn in *; [by eapply drop_some|by eapply drop_some].
Qed.

Lemma wph_write_pipe d r tr p (Q : flow -> list event -> P -> Prop) : writing d tr p ->
  output (of_dir d p) = [] -> input (of_dir d p) = [] ->
  (forall tr' p', writing d tr' p' -> pending (of_dir d p') = [] -> Q (Decide false true) tr' p') ->
  (forall tr' p', writing d tr' p' -> pending (of_dir d p') <> [] -> Q (Decide true false) tr' p') ->
  (forall tr' p', inv tr' p' -> Q Gone tr' p') -> wph note (write_pipe d r) Q tr p.
Proof.
  intros Hw Ho Hi HN HD HG. unfold write_pipe. hstep. apply wph_use_pump; [apply Hw|]. cbv zeta.
  pose proof (w_size _ _ _ Hw) as Hs. pose proof (w_ends _ _ _ Hw) as [He _].
  assert (Hp : pending (of_dir d p) = content (pipe (of_dir d p))) by (unfold pending; by rewrite Ho, Hi).
  hstep.
  { hstep. apply HN; [done|]. rewrite Hp. apply zlen_zero. lia. }
  assert (Hne : pending (of_dir d p) <> []) by (rewrite Hp; intros E; rewrite E in Hs; cbn in Hs; unfold zlen in Hs; cbn in Hs; lia).
  hstep. apply wph_assert; [done|]. destruct r as [n| |]; [|hstep; by apply HD|by apply (wph_write_drop d)].
  set (c := content (pipe (of_dir d p))) in *. set (l := take (Nat.min n _) c). unfold on. hstep. hstep. hstep. hstep. unfold note.
  assert (Hl : zlen (drop (length l) c) = size (pipe (of_dir d p)) - zlen l).
  { rewrite Hs. unfold zlen. rewrite length_drop. subst l. rewrite length_take. lia. }
  assert (Hc : c = l ++ drop (length l) c).
  { subst l. rewrite length_take. unfold zlen in Hs. rewrite Hs, Nat2Z.id. rewrite <- (take_drop (Nat.min n (length c)) c) at 1.
    f_equal. f_equal. lia. }
  match goal with |- context [set_dir d ?f p] => set (g := f) end.
  assert (Hg : pending (g (of_dir d p)) = drop (length l) c) by (unfold pending; subst g; sug; by rewrite Ho, Hi).
  assert (Hw' : writing d (tr ++ [Sent (dst d) l]) (set_dir d g p)).
  { apply writing_sent; [done|by rewrite Hp, Hg|]. subst g. by split_and!. }
  hstep; hstep.
  - apply HN; [done|]. rewrite of_set, Hg. apply zlen_zero. lia.
  - apply HD; [done|]. rewrite of_set, Hg. intros E. rewrite E in Hl. unfold zlen in *. cbn in Hl. lia.
Qed.

(** *** After the writes *)

Lemma inv_intro tr p : freed p = false -> sockets true p -> balance tr p -> (forall d, dir_ok true p d) ->
  (forall d, flow_ok tr p d) -> (exists d, open_dir d p) -> inv tr p.
Proof.
  intros Hf Hs Hb Hd Hfl Ho. unfold inv. rewrite Hf. assert (Hst : started p = true) by apply (proj1 Hs Request). by rewrite Hst.
Qed.
(** A direction receives [l] and its events are set. *)
Definition silent (t : list event) : Prop :=
  (forall s, sent s t = [] /\ shut s t = false) /\ closed t = [] /\ opened t = [].
Lemma set_half d tr t l p f : freed p = false -> sockets true p -> balance tr p -> dir_ok true p (flip d) -> (forall d', flow_ok tr p d') -> (exists d', open_dir d' p) ->
  silent t -> received (src d) t = l -> received (dst d) t = [] ->
  (let h := of_dir d p in let h' := f h in
   pending h' = pending h ++ l /\ read (pipe h') = read (pipe h) /\ write (pipe h') = write (pipe h) /\ shut_dst h' = shut_dst h) ->
  half_ok true (alive_at (dst d) p) (alive_at (src d) p) (f (of_dir d p)) -> inv (tr ++ t) (set_dir d f p).
Proof.
  intros Hf Hs Hb Ho Hfl [d' Hop] (T1 & T2 & T3) R1 R2 (E1 & E2 & E3 & E4) Hok. apply inv_intro.
  - by rewrite freed_set_dir.
  - apply sockets_set; [done|apply Hok..].
  - unfold balance. rewrite owned_set by done. autorewrite with trace. by rewrite T2, T3, !app_nil_r.
  - apply (dir_cases d); [|by apply dir_ok_other; [apply flip_ne|]]. unfold dir_ok, alive_at. by rewrite !buf_set_dir, of_set.
  - apply (dir_cases d); unfold flow_ok; autorewrite with trace; [rewrite of_set|rewrite of_set_other by apply flip_ne].
    + destruct (Hfl d) as [F1 F2], (T1 (dst d)) as [-> ->]. rewrite R1, E1, E4, app_nil_r, orb_false_r. split; [|done].
      by rewrite !app_assoc, F1.
    + destruct (Hfl (flip d)) as [F1 F2], (T1 (dst (flip d))) as [-> ->]. rewrite src_flip, R2, !app_nil_r, orb_false_r.
      by rewrite src_flip in F1.
  - exists d'. unfold open_dir in *. destruct (decide (d' = d)) as [->|]; [by rewrite of_set, E4|by rewrite of_set_other].
Qed.
Lemma set_events d tr p f : freed p = false -> sockets true p -> balance tr p -> dir_ok true p (flip d) -> (forall d', flow_ok tr p d') -> (exists d', open_dir d' p) ->
  (let h := of_dir d p in let h' := f h in
   output h' = output h /\ input h' = input h /\ pipe h' = pipe h /\ shut_src h' = shut_src h /\ shut_dst h' = shut_dst h) ->
  half_ok true (alive_at (dst d) p) (alive_at (src d) p) (f (of_dir d p)) -> inv tr (set_dir d f p).
Proof.
  intros Hf Hs Hb Ho Hfl Hop (E1 & E2 & E3 & E4 & E5) Hok. rewrite <- (app_nil_r tr). apply (set_half d tr [] []); try done.
  unfold pending. rewrite E1, E2, E3, E5. by rewrite app_nil_r.
Qed.

Lemma progress_open h : assigned (evsrc h) = true -> assigned (evdst h) = true -> shut_dst h = false -> ends true h ->
  added (evdst h) = true \/ active (evdst h) = true \/ (added (evsrc h) = true /\ pending h = []) -> progress true h.
Proof. intros H1 H2 H3 H4 H5. unfold progress. by rewrite H3. Qed.
Lemma progress_done h : assigned (evsrc h) = true -> assigned (evdst h) = true -> shut_dst h = true -> shut_src h = true ->
  pending h = [] -> ends false h -> idle_events h -> progress true h.
Proof. intros H1 H2 H3 H4 H5. unfold progress. by rewrite H3. Qed.

Lemma wph_decide_events d (has_data : bool) tr p Q : writing d tr p ->
  (if has_data then pending (of_dir d p) <> [] else pending (of_dir d p) = []) ->
  (forall tr' p', inv tr' p' -> Q tt tr' p') -> wph note (decide_events d has_data (negb has_data)) Q tr p.
Proof.
  intros Hw Hp HQ. unfold decide_events, on. hstep. apply wph_use_pump; [apply Hw|]. cbv zeta.
  hstep. apply wph_assert; [by destruct has_data|]. pose proof (w_sockets _ _ _ Hw) as [Ha _]. destruct (Ha d) as [Ha1 Ha2].
  destruct has_data; cbn [negb andb]; do 3 hstep; apply HQ; rewrite set_set; apply set_events; try apply Hw; try done; try by (eapply writing_open; exact Hw).
  - split; [|apply Hw..]. apply progress_open; [exact Ha1|exact Ha2|exact (w_shut _ _ _ Hw)|exact (w_ends _ _ _ Hw)|]. by left.
  - split; [|apply Hw..]. apply progress_open; [exact Ha1|exact Ha2|exact (w_shut _ _ _ Hw)|exact (w_ends _ _ _ Hw)|]. right. by right.
Qed.

Lemma owned_closed d f p : ends true (of_dir d p) -> ends false (f (of_dir d p)) ->
  owned p ≡ₚ [Pipe_read d; Pipe_write d] ++ owned (set_dir d f p).
Proof.
  intros [H1 H2] [H3 H4]. unfold owned, pipe_fds. destruct d; cbn [of_dir set_dir] in *; sug; rewrite H1, H2, H3, H4; cbn [opt_fd app].
  all: solve_Permutation.
Qed.
Lemma not_both d p : shut_both p = false -> shut_dst (of_dir d p) = true -> shut_src (of_dir d p) = true ->
  dir_ok true p (flip d) -> exists d', open_dir d' p.
Proof.
  intros Hb H1 H2 [(_ & _ & Hp) _ _ _]. exists (flip d). unfold open_dir, shut_both in *. cbn [negb] in Hp.
  destruct (shut_dst (of_dir (flip d) p)) eqn:E; [|done]. destruct Hp as [Hp _].
  destruct d; cbn [flip of_dir] in *; by rewrite H1, H2, E, Hp in Hb.
Qed.
Lemma wph_decide_shutdown d (has_data : bool) tr p Q : writing d tr p ->
  (if has_data then pending (of_dir d p) <> [] else pending (of_dir d p) = []) ->
  (forall tr' p', inv tr' p' -> Q tt tr' p') -> wph note (decide_shutdown d has_data (negb has_data)) Q tr p.
Proof.
  intros Hw Hp HQ. unfold decide_shutdown. hstep. apply wph_use_pump; [apply Hw|]. cbv zeta.
  hstep; [|by apply wph_decide_events]. destruct has_data; [done|]. apply andb_true_iff in H as [Hsrc _]. cbn in Hsrc.
  unfold on, redsocks_close. do 4 hstep. hstep.
  pose proof (app_nil_inv3 _ _ _ Hp) as (Hpo & Hpi & Hpc). pose proof (w_ends _ _ _ Hw) as [He1 He2].
  apply wph_assert; [rewrite (w_size _ _ _ Hw), Hpc; done|]. do 8 hstep. hstep. hstep. rewrite !set_set.
  match goal with |- context [set_dir d ?f p] => set (g := f) end. unfold note. rewrite <- !app_assoc. cbn [app].
  set (tr2 := tr ++ _). set (p2 := set_dir d g p).
  assert (Hf2 : freed p2 = false) by (subst p2; rewrite freed_set_dir; apply Hw).
  assert (Hs2 : sockets true p2).
  { apply sockets_set; [apply Hw|..]; subst g; sug; apply (proj1 (w_sockets _ _ _ Hw)). }
  assert (Ho2 : dir_ok true p2 (flip d)) by (apply dir_ok_other; [apply flip_ne|apply Hw]).
  assert (Hb2 : balance tr2 p2).
  { unfold balance, tr2. autorewrite with trace. change (closed [_; _; _]) with [Pipe_read d; Pipe_write d].
    change (opened [_; _; _]) with (@nil fd). rewrite app_nil_r, <- app_assoc.
    pose proof (owned_closed d g p (conj He1 He2) (conj eq_refl eq_refl)) as Hoc. fold p2 in Hoc. rewrite <- Hoc. apply Hw. }
  assert (Hfl2 : forall d', flow_ok tr2 p2 d').
  { apply (dir_cases d); unfold flow_ok, tr2, p2; autorewrite with trace; [rewrite of_set|rewrite of_set_other by apply flip_ne].
    - destruct (w_flow _ _ _ Hw d) as [F1 F2]. cbn. rewrite !app_nil_r, bool_decide_true, orb_true_r by done. split; [|done].
      exact F1.
    - destruct (w_flow _ _ _ Hw (flip d)) as [F1 F2]. cbn. rewrite !app_nil_r, dst_flip, bool_decide_false, orb_false_r by (intros E; by apply (src_ne_dst d)).
      rewrite dst_flip in *. done. }
  assert (Hdone : forall f, (let h := f (g (of_dir d p)) in assigned (evsrc h) = true /\ assigned (evdst h) = true /\ shut_dst h = true /\
     shut_src h = true /\ pending h = [] /\ pipe h = pipe (g (of_dir d p)) /\ output h = [] /\ input h = [] /\ idle_events h) ->
     half_ok true (alive_at (dst d) p2) (alive_at (src d) p2) (f (g (of_dir d p)))).
  { intros f (E1 & E2 & E3 & E4 & E5 & E6 & E7 & E8 & E9). split; [apply progress_done; try done; by unfold ends; rewrite E6| |done|done].
    rewrite E6. subst g. sug. apply Hw. }
  hstep.
  - apply (wph_drop_pump true); [done..| |by intros; apply HQ].
    apply (dir_cases d).
    + destruct (Hfl2 d) as [F1 F2]. split; [by eexists|]. intros _. rewrite F1. subst p2. rewrite of_set.
      change (pending (g (of_dir d p))) with (pending (of_dir d p)). by rewrite Hp, app_nil_r.
    + by eapply flow_delivered.
  - unfold decide_events, on. hstep. apply wph_use_pump; [done|]. cbv zeta. hstep. apply wph_assert; [done|]. cbn [negb andb].
    do 3 hstep. apply HQ. rewrite set_set. apply set_events; try done; [apply (not_both d); subst p2; rewrite ?of_set; done|]. assert (Hg2 : of_dir d p2 = g (of_dir d p)) by apply of_set. rewrite !Hg2.
    apply (Hdone (fun h => h <| evsrc := event_del (evsrc h) |> <| evdst := event_del (evdst h) |>)).
    destruct (proj1 (w_sockets _ _ _ Hw) d) as [Ha1 Ha2]. by split_and!.
Qed.
(** *** Unused bufferevents *)

Definition touched (p p' : P) : Prop :=
  (forall d, of_dir d p' = of_dir d p) /\ freed p' = freed p /\
  forall s, has_fd (buf_of s p') = has_fd (buf_of s p) /\
    (alive_at s p' = false -> alive_at s p = false \/
       forall d, (dst d = s -> output (of_dir d p) = []) /\ (src d = s -> input (of_dir d p) = [])).
Lemma wph_unused s ins outs tr p Q : freed p = false -> src ins = s -> dst outs = s ->
  (forall p', touched p p' -> Q tt tr p') -> wph note (bufferevent_free_unused s ins outs) Q tr p.
Proof.
  intros Hf Hi Ho HQ. unfold bufferevent_free_unused. hstep. apply wph_use_pump; [done|]. hstep; hstep; apply HQ.
  - rewrite !andb_true_iff in H. destruct H as [[_ H1] H2]. split_and!; [by destruct s; intros []|by destruct s|].
    intros s'. split; [by destruct s, s'|]. intros Ha. destruct (decide (s' = s)) as [->|Hne]; [right|left].
    + intros d. split; intros Hd; apply zlen_zero.
      * assert (d = outs) as -> by (destruct d, outs, s; done). lia.
      * assert (d = ins) as -> by (destruct d, ins, s; done). lia.
    + rewrite <- Ha. by destruct s, s'.
  - split_and!; [done..|]. intros s'. split; [done|by left].
Qed.
Lemma touched_trans p1 p2 p3 : touched p1 p2 -> touched p2 p3 -> touched p1 p3.
Proof.
  intros (A1 & A2 & A3) (B1 & B2 & B3). split_and!; [intros d; by rewrite B1|by rewrite B2|]. intros s.
  destruct (A3 s) as [A4 A5], (B3 s) as [B4 B5]. split; [by rewrite B4|]. intros [H|H]%B5; [auto|]. right. intros d. by rewrite <- !A1.
Qed.
Lemma wph_touch_pump tr p Q : freed p = false -> (forall p', touched p p' -> Q tt tr p') -> wph note redsocks_touch_pump Q tr p.
Proof.
  intros Hf HQ. unfold redsocks_touch_pump. hstep. apply wph_unused; [done..|]. intros p1 H1.
  apply wph_unused; [by rewrite (proj1 (proj2 H1))|done..|]. intros p2 H2. apply HQ. by eapply touched_trans.
Qed.
Lemma touched_dir st p p' d : touched p p' -> dir_ok st p d -> dir_ok st p' d.
Proof.
  intros (T1 & _ & T3) [H1 H2 H3 H4]. unfold dir_ok. rewrite T1. split; [done|done|..]; intros Ha.
  - destruct (proj2 (T3 (dst d)) Ha) as [?|H]; [auto|]. by apply H.
  - destruct (proj2 (T3 (src d)) Ha) as [?|H]; [auto|]. by apply H.
Qed.
Lemma touched_sockets p p' : touched p p' -> sockets true p -> sockets true p'.
Proof.
  intros (T1 & _ & T3) [H1 H2]. split; [intros d; by rewrite T1|]. intros s. split; [|done]. rewrite (proj1 (T3 s)). apply H2.
Qed.
Lemma touched_balance tr p p' : touched p p' -> balance tr p -> balance tr p'.
Proof. intros (T1 & _) H. unfold balance, owned, pipe_fds. by rewrite !T1. Qed.
Lemma touched_flow tr p p' d : touched p p' -> flow_ok tr p d -> flow_ok tr p' d.
Proof. intros (T1 & _). unfold flow_ok. by rewrite T1. Qed.
Lemma touched_writing d tr p p' : touched p p' -> writing d tr p -> writing d tr p'.
Proof.
  intros Ht [H1 H2 H3 H4 H5 H6 H7 H8 H9 H10]. pose proof Ht as (T1 & T2 & T3). split; rewrite ?T1, ?T2; try done.
  - by eapply touched_sockets.
  - by eapply touched_balance.
  - by eapply touched_dir.
  - intros d'. by eapply touched_flow.
  - intros Ha. destruct (proj2 (T3 (dst d)) Ha) as [?|H]; [auto|]. by apply H.
  - intros Ha. destruct (proj2 (T3 (src d)) Ha) as [?|H]; [auto|]. by apply H.
Qed.
(** *** The callbacks *)

Lemma inv_parts tr p : freed p = false -> inv tr p ->
  sockets (started p) p /\ (forall d, dir_ok (started p) p d) /\ (forall d, flow_ok tr p d) /\ (exists d, open_dir d p) /\ balance tr p.
Proof. intros Hf. unfold inv. by rewrite Hf. Qed.
(** An event of a direction is only called when it can be written. *)
Lemma progress_live st h : progress st h -> added (evdst h) || active (evdst h) || added (evsrc h) = true ->
  st = true /\ shut_dst h = false /\ ends true h.
Proof.
  intros (_ & _ & Hp) He. destruct st; cbn [negb] in Hp.
  - destruct (shut_dst h); [|by destruct Hp]. destruct Hp as (_ & _ & _ & E1 & E2 & E3). by rewrite E1, E2, E3 in He.
  - destruct Hp as (_ & _ & _ & E1 & E2 & E3). by rewrite E1, E2, E3 in He.
Qed.
Lemma inv_writing d tr p : freed p = false -> inv tr p ->
  added (evdst (of_dir d p)) || active (evdst (of_dir d p)) || added (evsrc (of_dir d p)) = true -> writing d tr p.
Proof.
  intros Hf (Hs & Hd & Hfl & Ho & Hb)%inv_parts He; [|done]. destruct (Hd d) as [Hp H1 H2 H3].
  destruct (progress_live _ _ Hp He) as (Hst & E1 & E2). rewrite Hst in *. by split.
Qed.
(** Another state of the event that writes. *)
Lemma writing_evdst d tr p f : writing d tr p ->
  (let h := of_dir d p in let h' := f h in assigned (evdst h') = assigned (evdst h) /\ h' = h <| evdst := evdst h' |>) ->
  writing d tr (set_dir d f p).
Proof.
  intros Hw [E1 E2]. destruct Hw as [H1 H2 H3 H4 H5 H6 H7 H8 H9 H10].
  assert (Hh : of_dir d (set_dir d f p) = (of_dir d p) <| evdst := evdst (f (of_dir d p)) |>) by (by rewrite of_set).
  split; unfold alive_at in *; rewrite ?buf_set_dir, ?freed_set_dir, ?Hh; try done.
  - apply sockets_set; [done|rewrite E2; apply (proj1 H2)|rewrite E1; apply (proj1 H2)].
  - unfold balance. rewrite owned_set; [done|by rewrite E2..].
  - apply dir_ok_other; [apply flip_ne|done].
  - apply (dir_cases d); unfold flow_ok; [rewrite Hh; apply (H5 d)|rewrite of_set_other by apply flip_ne; apply H5].
Qed.

Lemma wph_write d r0 r1 r2 tr p Q : freed p = false -> inv tr p ->
  added (evdst (of_dir d p)) || active (evdst (of_dir d p)) = true ->
  (forall tr' p', inv tr' p' -> Q tt tr' p') -> wph note (redsplice_write d r0 r1 r2) Q tr p.
Proof.
  intros Hf Hi He HQ. assert (Hw : writing d tr p) by (apply inv_writing; [done..|by rewrite He]).
  unfold redsplice_write, on. do 2 hstep. hstep.
  apply (writing_evdst d tr p (fun h => h <| evdst := (evdst h) <| active := false |> |>)) in Hw; [|done].
  apply wph_touch_pump; [apply Hw|]. intros p1 Ht. pose proof (touched_writing _ _ _ _ Ht Hw) as Hw1.
  unfold redsplice_write_cb. hstep. unfold and_then. hstep.
  assert (Hend : forall tr' p' (b : bool), writing d tr' p' -> (if b then pending (of_dir d p') <> [] else pending (of_dir d p') = []) ->
     wph note (decide_shutdown d b (negb b)) Q tr' p') by (intros; by apply wph_decide_shutdown).
  apply wph_write_buffer; [done..| | |].
  - intros tr2 p2 Hw2 Ho _. hstep. apply wph_write_buffer; [done..| | |].
    + intros tr3 p3 Hw3 Ho3 Hi3. apply wph_write_pipe; [done|done|by apply Hi3|..].
      * intros. by apply (Hend _ _ false).
      * intros. by apply (Hend _ _ true).
      * intros. hstep. by apply HQ.
    + intros. hstep. by apply (Hend _ _ true).
    + intros. hstep. hstep. by apply HQ.
  - intros. hstep. by apply (Hend _ _ true).
  - intros. hstep. hstep. by apply HQ.
Qed.
Lemma wph_read d r tr p Q : freed p = false -> inv tr p -> added (evsrc (of_dir d p)) = true -> possible r (of_dir d p) = true ->
  (forall tr' p', inv tr' p' -> Q tt tr' p') -> wph note (redsplice_read d r) Q tr p.
Proof.
  intros Hf Hi He Hr HQ. assert (Hw0 : writing d tr p) by (apply inv_writing; [done..|by rewrite He, orb_true_r]).
  pose proof (inv_parts _ _ Hf Hi) as (_ & Hd0 & _). specialize (Hd0 d).
  unfold redsplice_read. hstep. apply wph_touch_pump; [done|]. intros p1 Ht.
  pose proof (touched_writing _ _ _ _ Ht Hw0) as Hw. pose proof (touched_dir _ _ _ _ Ht Hd0) as Hd. destruct Ht as (T1 & _).
  rewrite <- T1 in Hr. clear Hi He Hw0 Hd0 Hf. destruct (h_progress _ _ _ _ Hd) as (_ & _ & Hp).
  pose proof (w_sockets _ _ _ Hw) as [Ha _]. destruct (Ha d) as [Ha1 Ha2]. pose proof (w_ends _ _ _ Hw) as [E1 E2].
  unfold redsplice_read_cb, on. hstep. apply wph_use_pump; [apply Hw|]. hstep. apply wph_assert; [done|].
  assert (Hst : started p = true) by (generalize (proj1 (Ha Request)); by rewrite T1).
  rewrite Hst in Hp. cbn [negb] in Hp. rewrite (w_shut _ _ _ Hw) in Hp. destruct r as [l| | |]; cbn [possible] in Hr.
  - do 4 hstep. hstep. unfold note. apply HQ. rewrite set_set. apply (set_half d tr _ l); try apply Hw; try done; try by (eapply writing_open; exact Hw).
    + cbn. by rewrite decide_True, app_nil_r.
    + cbn. rewrite decide_False; [done|]. apply src_ne_dst.
    + cbv zeta. split_and!; try done. unfold pending. sug. by rewrite !app_assoc.
    + split; [apply progress_open; try done; [by apply (w_shut _ _ _ Hw)|auto]|..]; try apply Hw.
      sug. rewrite (w_size _ _ _ Hw). unfold zlen. rewrite length_app. lia.
  - do 6 hstep. hstep. unfold note. apply HQ. rewrite !set_set. apply (set_half d tr _ []); try apply Hw; try done; try by (eapply writing_open; exact Hw).
    + cbv zeta. split_and!; try done. by rewrite app_nil_r.
    + split; [apply progress_open; try done; [by apply (w_shut _ _ _ Hw)|auto]|..]; apply Hw.
  - hstep. apply HQ. apply set_events; try apply Hw; try done; try by (eapply writing_open; exact Hw).
    split; [apply progress_open; try done; [by apply (w_shut _ _ _ Hw)|]|..]; try apply Hw.
    destruct Hp as [_ [Hp|[Hp|[_ Hp]]]]; [by left|by right; left|].
    apply app_nil_inv3 in Hp as (_ & _ & Hc). by rewrite Hc in Hr.
  - apply (wph_drop_pump true); [apply Hw..|by eapply writing_delivered|]. auto.
Qed.
(** *** The start *)

Record starting (opens : dir -> bool) (tr : list event) (p : P) : Prop := {
  b_freed : freed p = false;
  b_sockets : sockets false p;
  b_balance : balance tr p;
  b_flow : forall d, flow_ok tr p d;
  b_dir : forall d, let h := of_dir d p in
    shut_dst h = false /\ ends (opens d) h /\ content (pipe h) = [] /\ size (pipe h) = 0 /\ idle_events h
}.
Lemma inv_starting tr p : freed p = false -> inv tr p -> started p = false -> starting (fun _ => false) tr p.
Proof.
  intros Hf (Hs & Hd & Hfl & _ & Hb)%inv_parts Hst; [|done]. rewrite Hst in *. split; try done. intros d.
  destruct (Hd d) as [(_ & _ & H1 & H2 & H3 & H4) H5 _ _]. cbv zeta. split_and!; try done. by rewrite H5, H3.
Qed.
Lemma wph_start_drop opens tr p Q : starting opens tr p -> (forall tr' p', inv tr' p' -> Q tt tr' p') ->
  wph note redsocks_drop_client Q tr p.
Proof.
  intros H HQ. apply (wph_drop_pump false); [apply H..| |auto]. intros d. destruct (b_flow _ _ _ H d) as [F1 F2].
  split; [by eexists|]. rewrite F2. destruct (b_dir _ _ _ H d) as [-> _]. done.
Qed.
Lemma owned_opened d f p : ends false (of_dir d p) -> ends true (f (of_dir d p)) ->
  owned (set_dir d f p) ≡ₚ [Pipe_read d; Pipe_write d] ++ owned p.
Proof.
  intros [H1 H2] [H3 H4]. unfold owned, pipe_fds. destruct d; cbn [of_dir set_dir] in *; sug; rewrite H1, H2, H3, H4; cbn [opt_fd app].
  all: solve_Permutation.
Qed.
Lemma wph_pipe2 d ok opens tr p (Q : bool -> list event -> P -> Prop) : starting opens tr p -> opens d = false ->
  (ok = true -> forall tr' p', starting (fun d' => bool_decide (d' = d) || opens d') tr' p' -> Q true tr' p') ->
  (ok = false -> Q false tr p) -> wph note (pipe2 d ok) Q tr p.
Proof.
  intros H Ho H1 H2. unfold pipe2, on. hstep. hstep; [|hstep; subst ok; by apply H2]. do 5 hstep. hstep. subst ok. apply H1; [done|].
  unfold note. rewrite <- app_assoc. cbn [app].
  set (g := fun h : half => h <| pipe := mk_pipe true true 0 [] |>). destruct (b_dir _ _ _ H d) as (D1 & D2 & D3 & D4 & D5). rewrite Ho in D2.
  split.
  - rewrite freed_set_dir. apply H.
  - apply sockets_set; [apply H|apply (proj1 (b_sockets _ _ _ H))..].
  - unfold balance. autorewrite with trace. change (closed [_; _]) with (@nil fd).
    change (opened [_; _]) with [Pipe_read d; Pipe_write d]. rewrite app_nil_r, (owned_opened d g p D2 (conj eq_refl eq_refl)).
    pose proof (b_balance _ _ _ H) as Hb. unfold balance in Hb.
    rewrite (app_assoc [Socket Client; Socket Relay] (opened tr)), <- Hb. solve_Permutation.
  - apply (dir_cases d); unfold flow_ok; autorewrite with trace; [rewrite of_set|rewrite of_set_other by apply flip_ne].
    + destruct (b_flow _ _ _ H d) as [F1 F2]. cbn. rewrite !app_nil_r, orb_false_r. split; [|done]. rewrite F1.
      unfold pending. subst g. sug. by rewrite D3.
    + destruct (b_flow _ _ _ H (flip d)) as [F1 F2]. cbn. by rewrite !app_nil_r, orb_false_r.
  - apply (dir_cases d); cbv zeta.
    + rewrite of_set, bool_decide_true by done. by split_and!.
    + rewrite of_set_other, bool_decide_false by apply flip_ne. apply (b_dir _ _ _ H (flip d)).
Qed.
Lemma wph_start r tr p Q : freed p = false -> inv tr p -> started p = false ->
  (forall tr' p', inv tr' p' -> Q tt tr' p') -> wph note (redsocks_start_relay r) Q tr p.
Proof.
  intros Hf Hi Hst HQ. pose proof (inv_starting _ _ Hf Hi Hst) as H0. unfold redsocks_start_relay, redsocks_start_splicepump.
  assert (Herr : forall opens tr' p', starting opens tr' p' -> wph note (when true redsocks_drop_client) Q tr' p').
  { intros opens tr' p' Hs. cbn [when]. by eapply wph_start_drop. }
  hstep. hstep. apply wph_use_pump; [done|]. hstep; [hstep; by eapply Herr|]. hstep. eapply wph_pipe2; [done|done| |].
  2: { intros _. cbn [negb]. hstep. by eapply Herr. }
  intros _ tr1 p1 H1. cbn [negb]. hstep. eapply wph_pipe2; [done|done| |].
  2: { intros _. cbn [negb]. hstep. by eapply Herr. }
  intros _ tr2 p2 H2. cbn [negb]. clear p tr Hf Hi Hst H0 H1. unfold event_assign, on. do 16 hstep. hstep. cbn [when]. apply HQ.
  destruct H2 as [B1 [_ B2] B3 B4 B5]. destruct (B2 Client) as [_ Hc], (B2 Relay) as [_ Hr]. specialize (Hc eq_refl). specialize (Hr eq_refl).
  destruct p2 as [rq rp cl re fr]. cbn [buf_of client relay freed] in *. subst cl re fr.
  destruct (B5 Request) as (R1 & [R2 R2'] & R3 & R4 & R5), (B5 Reply) as (P1 & [P2 P2'] & P3 & P4 & P5). cbn in R2, R2', P2, P2'.
  apply inv_intro; [done| |done| | |by exists Request].
  - split; [by intros []|]. intros []; split; done.
  - intros []; split; try done; try (apply progress_open; try done; by auto).
    + exact (eq_trans R4 (f_equal zlen (eq_sym R3))).
    + exact (eq_trans P4 (f_equal zlen (eq_sym P3))).
  - intros []; [apply (B4 Request)|apply (B4 Reply)].
Qed.
Lemma inv_step tr p a : inv tr p -> allowed p a = true ->
  wph note (exec_action a) (fun _ tr' p' => inv tr' p') tr p.
Proof.
  intros Hi (Hf & Ha)%andb_true_iff. apply negb_true_iff in Hf. destruct a as [r|d r0 r1 r2|d r|]; cbn [exec_action].
  - apply wph_start; [done|done|by apply negb_true_iff|done].
  - by apply wph_write.
  - apply andb_true_iff in Ha as [Ha1 Ha2]. by apply wph_read.
  - pose proof (inv_parts _ _ Hf Hi) as (Hs & Hd & Hfl & _ & Hb). apply (wph_drop_pump (started p)); try done.
    intros d. by eapply flow_delivered.
Qed.
End history.

Lemma pump_inv_new ro ci co ri ceof reof : let p0 := new_pump ro ci co ri ceof reof in inv p0 [] p0.
Proof.
  cbv zeta. split_and!; [|intros d..|by exists Request|done].
  - split; [by intros []|]. by intros [].
  - destruct d; (split; [|done..]); split_and!; done.
  - destruct d; split; try done; cbn; by rewrite app_nil_r.
Qed.
Lemma reach_pump_inv p0 tr p : inv p0 [] p0 -> reach p0 tr p -> inv p0 tr p.
Proof.
  intros H0 Hr. refine (reach_inv (inv p0) _ p0 tr p H0 Hr). clear. intros tr p a Hi Ha.
  pose proof (inv_step p0 tr p a Hi Ha) as H. eapply wp_mono; [exact H|]. cbn. intros _ p' t. by rewrite foldl_note.
Qed.
Lemma pump_safe p0 : inv p0 [] p0 -> safe p0.
Proof.
  intros H0. refine (inv_safe (inv p0) _ p0 H0). clear. intros tr p a Hi Ha.
  pose proof (inv_step p0 tr p a Hi Ha) as H. eapply wp_mono; [exact H|]. cbn. intros _ p' t. by rewrite foldl_note.
Qed.

(** The next step of a direction. *)
Definition waits_to_write (d : dir) (p : P) : Prop := forall r0 r1 r2, enabled p (Write d r0 r1 r2) = true.
Definition waits_to_read (d : dir) (p : P) : Prop := forall l, l <> [] -> enabled p (Read d (Got l)) = true.
Lemma progress_waits d p : freed p = false -> started p = true -> progress true (of_dir d p) ->
  shut_dst (of_dir d p) = true /\ pending (of_dir d p) = [] \/ waits_to_write d p \/ (pending (of_dir d p) = [] /\ waits_to_read d p).
Proof.
  intros Hf Hst (_ & _ & Hp). cbn [negb] in Hp. destruct (shut_dst (of_dir d p)); [by left; destruct Hp as (_ & Hp & _)|right].
  destruct Hp as [_ [Hp|[Hp|[Hp1 Hp2]]]].
  - left. intros r0 r1 r2. change (allowed p (Write d r0 r1 r2) = true). unfold allowed. by rewrite Hf, Hp.
  - left. intros r0 r1 r2. change (allowed p (Write d r0 r1 r2) = true). unfold allowed. by rewrite Hf, Hp, orb_true_r.
  - right. split; [done|]. intros l Hl. change (allowed p (Read d (Got l)) = true). unfold allowed. rewrite Hf, Hp1. cbn.
    destruct l; [done|]. by apply negb_true_iff, Z.eqb_neq.
Qed.


End Pump.
