(* ===== verification/RedClient.v ===== *)
(** A connection of redsocks: the client of [redsocks.c], from the connection to the
    proxy to the relay of its data by the bufferevents of libevent.

    What is said to the proxy in between is a [relay_subsys]; the class
    [RelayProtocol] is what this file relies on.  [RedSocks.v] has the instances.
    The fields of [redsocks_client] are grouped by the two sides. *)

From S2P Require Import Prelude System.
Open Scope list_scope.

Module Conn.

(** ** The state *)

Inductive side := Client | Relay.
Definition other (s : side) : side := match s with Client => Relay | Relay => Client end.
#[export] Instance side_eq_dec : EqDecision side.
Proof. solve_decision. Defined.
Inductive how := SHUT_RD | SHUT_WR.
#[export] Instance how_eq_dec : EqDecision how.
Proof. solve_decision. Defined.

(** A bufferevent: its buffers; whether EV_READ and EV_WRITE are enabled; whether the
    event of writing is pending; [wm_read] and the high end of [wm_write].  And EV_READ
    and EV_WRITE in the [evshut] of its side. *)
Record bufferevent := mk_bufferevent {
  input : bytes;
  output : bytes;
  can_read : bool;
  can_write : bool;
  ev_write : bool;
  read_low : Z;
  read_high : Z;
  write_high : Z;
  shut_read : bool;
  shut_write : bool
}.
#[export] Instance eta_bufferevent : Eta bufferevent := fun b =>
  mk_bufferevent (input b) (output b) (can_read b) (can_write b) (ev_write b) (read_low b) (read_high b)
    (write_high b) (shut_read b) (shut_write b).

(** The callbacks of the two: those of the client are NULL but when [Pumping]; [relay]
    is NULL when there is [No_relay]. *)
Inductive callbacks := No_relay | Connecting | Talking | Pumping.
#[export] Instance callbacks_eq_dec : EqDecision callbacks.
Proof. solve_decision. Defined.

(** [red_payload]: only SOCKS5 has one. *)
Record socks5_client := mk_socks5 { do_password : bool; to_skip : Z }.

Record redsocks_client := mk_client {
  client : bufferevent;
  relay : bufferevent;
  cbs : callbacks;
  state : Z;
  payload : socks5_client;
  freed : bool
}.
#[export] Instance eta_client : Eta redsocks_client := fun c =>
  mk_client (client c) (relay c) (cbs c) (state c) (payload c) (freed c).

Inductive event :=
  | Connect
  | Received (s : side) (l : bytes)
  | Sent (s : side) (l : bytes)
  | Shutdown (s : side) (h : how)
  | Close (s : side).

Local Abbreviation C := redsocks_client.
Definition buf (s : side) (c : C) : bufferevent := match s with Client => client c | Relay => relay c end.
Definition set_buf (s : side) (f : bufferevent -> bufferevent) (c : C) : C :=
  match s with Client => upd client f c | Relay => upd relay f c end.
Definition on (s : side) (f : bufferevent -> bufferevent) : M C event unit := modify (set_buf s f).

(** The client was not freed. *)
Definition use : M C event C := c ← get; assert (negb (freed c));; mret c.
Definition redsocks_touch_client : M C event unit := _ ← use; mret tt.

(** ** libevent *)

Definition bufferevent_enable (s : side) (r w : bool) : M C event unit :=
  on s (fun b => b <| can_read := can_read b || r |> <| can_write := can_write b || w |> <| ev_write := ev_write b || w |>).
Definition bufferevent_disable (s : side) (r w : bool) : M C event unit :=
  on s (fun b => b <| can_read := can_read b && negb r |> <| can_write := can_write b && negb w |> <| ev_write := ev_write b && negb w |>).
Definition bufferevent_setwatermark (s : side) (lo hi : Z) : M C event unit :=
  on s (fun b => b <| read_low := lo |> <| read_high := hi |>).
(** Something added to the output makes the event of writing pending. *)
Definition put (l : bytes) (b : bufferevent) : bufferevent :=
  b <| output := output b ++ l |> <| ev_write := ev_write b || (can_write b && negb (zlen l =? 0)) |>.
Definition bufferevent_write_buffer (s : side) (l : bytes) : M C event unit := on s (put l).

(** ** The end *)

Definition pump_active : Z := -1.

Definition shut_both (c : C) : bool :=
  shut_read (client c) && shut_write (client c) && shut_read (relay c) && shut_write (relay c).

Definition redsocks_drop_client : M C event unit :=
  c ← use;
  emit (Close Client);;
  when (negb (bool_decide (cbs c = No_relay))) (emit (Close Relay));;
  freed ::= true.

Definition redsocks_shutdown (s : side) (h : how) : M C event unit :=
  c ← use;
  let r := bool_decide (h = SHUT_RD) in
  when (negb (r && shut_write (buf s c))) (emit (Shutdown s h));;
  bufferevent_disable s r (negb r);;
  on s (fun b => b <| shut_read := shut_read b || r |> <| shut_write := shut_write b || negb r |>);;
  c ← get;
  when (shut_both c) redsocks_drop_client.

(** Other events than the end of the file are errors. *)
Definition redsocks_event_error (s : side) (eof : bool) : M C event unit :=
  c ← use;
  if eof then
    let antiev := match s with Relay => true | Client => negb (bool_decide (cbs c = No_relay)) end in
    redsocks_shutdown s SHUT_RD;;
    c ← use;
    when ((state c =? pump_active) && antiev && (zlen (output (buf (other s) c)) =? 0)) (redsocks_shutdown (other s) SHUT_WR)
  else redsocks_drop_client.

(** ** Talking to the proxy *)

Definition redsocks_read_expected (comparator : Z -> Z -> bool) (expected : Z) : M C event (option bytes) :=
  c ← use;
  let l := input (relay c) in
  if comparator (zlen l) expected then
    on Relay (fun b => b <| input := drop (Z.to_nat expected) l |>);;
    let data := take (Z.to_nat expected) l in
    assert (zlen data =? expected);;
    mret (Some data)
  else redsocks_drop_client;; mret None.
Definition sizes_equal (a b : Z) : bool := a =? b.
Definition sizes_greater_equal (a b : Z) : bool := b <=? a.

(** [mkmessage] may be NULL, and may not have memory. *)
Definition redsocks_write_helper_ex (mkmessage : option (option bytes)) (st wm_low wm_high : Z) : M C event unit :=
  _ ← use;
  match mkmessage with
  | Some None => redsocks_drop_client
  | _ =>
      match mkmessage with Some (Some l) => bufferevent_write_buffer Relay l | _ => mret tt end;;
      state ::= st;;
      bufferevent_setwatermark Relay wm_low wm_high;;
      bufferevent_enable Relay true false
  end.
Definition redsocks_write_helper (mkmessage : option (option bytes)) (st wm_only : Z) : M C event unit :=
  redsocks_write_helper_ex mkmessage st wm_only wm_only.

(** ** Relaying *)

Definition REDSOCKS_RELAY_HALFBUFF : Z := 4096.

(** [evbuffer_add_buffer] moves all there is. *)
Definition move (from to : side) : M C event unit :=
  c ← get;
  on from (fun b => b <| input := [] |>);;
  bufferevent_write_buffer to (input (buf from c)).

Definition redsocks_relay_readcb (from : side) : M C event unit :=
  c ← use;
  let to := other from in
  if zlen (output (buf to c)) <? write_high (buf to c) then move from to
  else if can_read (buf from c) then bufferevent_disable from true false
  else mret tt.

Definition redsocks_relay_writecb (to : side) : M C event unit :=
  c ← use;
  let from := other to in
  let from_eof := shut_read (buf from c) in
  if (zlen (input (buf from c)) =? 0) && from_eof then redsocks_shutdown to SHUT_WR
  else if zlen (output (buf to c)) <? write_high (buf to c) then
    move from to;;
    c ← get;
    if negb from_eof && negb (can_read (buf from c)) then bufferevent_enable from true false else mret tt
  else mret tt.

(** The result is true for an error of one of the calls of [bufferevent_enable]. *)
Definition redsocks_start_bufferpump (ok : bool * bool) : M C event bool :=
  _ ← use;
  let marks s := bufferevent_setwatermark s 0 REDSOCKS_RELAY_HALFBUFF;;
    on s (fun b => b <| write_high := REDSOCKS_RELAY_HALFBUFF |>) in
  marks Client;;
  marks Relay;;
  cbs ::= Pumping;;
  c ← get;
  let enable s := bufferevent_enable s (negb (shut_read (buf s c))) (negb (shut_write (buf s c))) in
  if negb ok.1 then mret true
  else
    enable Client;;
    if negb ok.2 then mret true else enable Relay;; mret false.

Definition redsocks_start_relay (ok : bool * bool) : M C event unit :=
  _ ← use;
  state ::= pump_active;;
  error ← redsocks_start_bufferpump ok;
  when error redsocks_drop_client.

(** ** The protocol and the callbacks *)

(** What a call of the protocol finds: memory for a message, and how
    [bufferevent_enable] ends at the beginning of the relay. *)
Record luck := mk_luck { memory : bool; enabled_ok : bool * bool }.

Record relay_subsys := mk_subsys { readcb : luck -> M C event unit; writecb : luck -> M C event unit }.

Section client.
Context (relay_ss : relay_subsys).

(** [red_is_socket_connected_ok] *)
Definition redsocks_relay_connected (ok : bool) (r : luck) : M C event unit :=
  redsocks_touch_client;;
  if negb ok then redsocks_drop_client
  else
    cbs ::= Talking;;
    writecb relay_ss r.

Definition new_buf (r w : bool) : bufferevent := mk_bufferevent [] [] r true w 0 0 0 false false.
(** [red_connect_relay] gives a socket or not. *)
Definition redsocks_connect_relay (ok : bool) : M C event unit :=
  _ ← use;
  if ok then
    emit Connect;;
    relay ::= new_buf false true;;
    cbs ::= Connecting
  else redsocks_drop_client.

(** What libevent calls. *)
Definition call_readcb (s : side) (r : luck) : M C event unit :=
  c ← use;
  match cbs c, s with
  | Talking, Relay => readcb relay_ss r
  | Pumping, _ => redsocks_touch_client;; redsocks_relay_readcb s
  | _, _ => mret tt
  end.
Definition call_writecb (s : side) (connected : bool) (r : luck) : M C event unit :=
  c ← use;
  match cbs c, s with
  | Connecting, Relay => redsocks_relay_connected connected r
  | Talking, Relay => writecb relay_ss r
  | Pumping, _ => redsocks_touch_client;; redsocks_relay_writecb s
  | _, _ => mret tt
  end.

(** ** The environment *)

(** After [redsocks_accept_client] the relay is connected; libevent reads, reaches the end, writes or
    has an error; another part of the program drops the client. *)
Inductive action :=
  | Connect_relay (ok : bool)
  | Read (s : side) (l : bytes) (r : luck)
  | Eof (s : side)
  | Write (s : side) (n : nat) (connected : bool) (r : luck)
  | Error (s : side)
  | Drop.

Definition exec_action (a : action) : M C event unit :=
  match a with
  | Connect_relay ok => redsocks_connect_relay ok
  | Read s l r =>
      emit (Received s l);;
      on s (fun b => b <| input := input b ++ l |>);;
      c ← get;
      when (read_low (buf s c) <=? zlen (input (buf s c))) (call_readcb s r)
  | Eof s =>
      bufferevent_disable s true false;;
      redsocks_event_error s true
  | Write s n connected r =>
      c ← get;
      let l := output (buf s c) in
      emit (Sent s (take n l));;
      on s (fun b => b <| output := drop n l |> <| ev_write := negb (zlen (drop n l) =? 0) |>);;
      when (zlen (drop n l) =? 0) (call_writecb s connected r)
  | Error s => redsocks_event_error s false
  | Drop => redsocks_drop_client
  end.

Definition is_byte (b : Z) : bool := (0 <=? b) && (b <? 256).
(** [bufferevent_readcb] does not read more than the high watermark. *)
Definition room (n : Z) (b : bufferevent) : bool := (read_high b =? 0) || (zlen (input b) + n <=? read_high b).
(** When [late], the end of the file may come with data of its side that was read and
    not given to the other side, which has nothing to write. *)
Context (late : bool).
Definition in_time (s : side) (c : C) : bool :=
  late || negb (bool_decide (cbs c = Pumping)) || (zlen (input (buf s c)) =? 0) || negb (zlen (output (buf (other s) c)) =? 0).
Definition allowed (c : C) (a : action) : bool :=
  negb (freed c) &&
  match a with
  | Connect_relay _ => bool_decide (cbs c = No_relay)
  | Read s l _ => can_read (buf s c) && negb (zlen l =? 0) && room (zlen l) (buf s c) && forallb is_byte l
  | Eof s => can_read (buf s c) && room 1 (buf s c) && in_time s c
  | Write s n _ _ => ev_write (buf s c) && (Z.of_nat n <=? zlen (output (buf s c))) && ((zlen (output (buf s c)) =? 0) || negb (Nat.eqb n 0))
  | Error s => can_read (buf s c) || ev_write (buf s c)
  | Drop => true
  end.
Definition client_system : System C action event := {| enabled := allowed; exec := exec_action |}.

(** After [redsocks_accept_client] and the [init] of the protocol. *)
Definition start (st : Z) (pl : socks5_client) : C := mk_client (new_buf true false) (new_buf false false) No_relay st pl false.
End client.

(** ** What the events say *)

Definition received (s : side) : list event -> bytes :=
  mbind (fun e => match e with Received s' l => if decide (s' = s) then l else [] | _ => [] end).
Definition sent (s : side) : list event -> bytes :=
  mbind (fun e => match e with Sent s' l => if decide (s' = s) then l else [] | _ => [] end).
Definition closes : list event -> list side := mbind (fun e => match e with Close s => [s] | _ => [] end).
Definition connects : list event -> bool := existsb (fun e => match e with Connect => true | _ => false end).
Definition is_shut (s : side) (e : event) : bool := match e with Shutdown s' SHUT_WR => bool_decide (s' = s) | _ => false end.
Definition shut (s : side) : list event -> bool := existsb (is_shut s).

Lemma received_from_app s t1 t2 : received s (t1 ++ t2) = received s t1 ++ received s t2.
Proof. apply bind_app. Qed.
Lemma sent_to_app s t1 t2 : sent s (t1 ++ t2) = sent s t1 ++ sent s t2.
Proof. apply bind_app. Qed.
Lemma closes_app t1 t2 : closes (t1 ++ t2) = closes t1 ++ closes t2.
Proof. apply bind_app. Qed.
Lemma connects_app t1 t2 : connects (t1 ++ t2) = connects t1 || connects t2.
Proof. apply existsb_app. Qed.
Lemma shut_wr_app s t1 t2 : shut s (t1 ++ t2) = shut s t1 || shut s t2.
Proof. apply existsb_app. Qed.
#[local] Hint Rewrite received_from_app sent_to_app closes_app connects_app shut_wr_app : conn.

Lemma is_byte_ok l : forallb is_byte l = true -> bytes_ok l.
Proof. intros H. apply Forall_forall. intros x Hx. rewrite forallb_forall in H. specialize (H x ltac:(by apply list_elem_of_In)). unfold is_byte in H. unfold byte_ok. lia. Qed.
Definition note (tr : list event) (e : event) : list event := tr ++ [e].
Lemma fold_note tr t : foldl note tr t = tr ++ t.
Proof. revert tr. induction t as [|e t IH]; intros tr; cbn; [by rewrite app_nil_r|]. rewrite IH. unfold note. by rewrite <- app_assoc. Qed.

(** ** Updates *)

Lemma buf_set s f c : buf s (set_buf s f c) = f (buf s c).
Proof. by destruct s. Qed.
Lemma buf_set_other s f c : buf (other s) (set_buf s f c) = buf (other s) c.
Proof. by destruct s. Qed.
Lemma buf_back s f c : buf s (set_buf (other s) f c) = buf s c.
Proof. by destruct s. Qed.
#[local] Hint Rewrite buf_set buf_set_other buf_back : sides.
Lemma other_other s : other (other s) = s.
Proof. by destruct s. Qed.
Lemma other_ne s : other s <> s.
Proof. by destruct s. Qed.
Lemma side_dec s s' : s' = s \/ s' = other s.
Proof. destruct s, s'; auto. Qed.
Lemma side_cases s (R : side -> Prop) : R s -> R (other s) -> forall s', R s'.
Proof. by destruct s; intros H1 H2 []. Qed.
Lemma set_buf_buf s f g c : set_buf s f (set_buf s g c) = set_buf s (fun b => f (g b)) c.
Proof. by destruct s. Qed.
Lemma set_buf_ext s f g c : f (buf s c) = g (buf s c) -> set_buf s f c = set_buf s g c.
Proof. destruct s; cbn; intros H; sug; by rewrite H. Qed.
(** All but the buffers. *)
Definition same (c c' : C) : Prop := cbs c' = cbs c /\ state c' = state c /\ payload c' = payload c /\ freed c' = freed c.
Lemma same_set s f c : same c (set_buf s f c).
Proof. by destruct s. Qed.
Lemma same_set_trans s f c c' : same c c' -> same c (set_buf s f c').
Proof. by destruct s. Qed.

Lemma wph_use tr c (Q : C -> list event -> C -> Prop) : freed c = false -> Q c tr c -> wph note use Q tr c.
Proof. intros Hf HQ. unfold use. do 2 hstep. hstep. apply wph_assert; [by rewrite Hf|]. by hstep. Qed.
Lemma wph_touch tr c (Q : unit -> list event -> C -> Prop) : freed c = false -> Q tt tr c -> wph note redsocks_touch_client Q tr c.
Proof. intros Hf HQ. unfold redsocks_touch_client. hstep. apply wph_use; [done|]. by hstep. Qed.

(** ** What a connection is for

    [talk] is said to the proxy, which answers [heard]; then the bytes of a side are
    given to the other one, which is shut down after the last one. *)
Definition exchanged (spoken granted : bytes -> bytes -> Prop) (talk heard : bytes) (tr : list event) : Prop :=
  spoken talk heard /\ (sent Client tr <> [] -> granted talk heard) /\
  (exists rest, talk ++ received Client tr = sent Relay tr ++ rest /\ (shut Relay tr = true -> rest = [])) /\
  (exists rest, received Relay tr = heard ++ sent Client tr ++ rest /\ (shut Client tr = true -> rest = [])).

(** Something will be written to a side, or read from it. *)
Definition waits_to_write s (c : C) : Prop := forall k r, allowed false c (Write s (length (output (buf s c))) k r) = true.
Definition waits_to_read s (c : C) : Prop := forall x r, is_byte x = true -> allowed false c (Read s [x] r) = true.

Definition connection_correct (spoken granted : bytes -> bytes -> Prop) (ss : relay_subsys) (c0 : C) : Prop :=
  let sys := client_system ss false in
  safe (sys := sys) c0 /\
  forall tr c, reach (sys := sys) c0 tr c ->
    (exists talk heard, exchanged spoken granted talk heard tr) /\
    (if freed c then closes tr = (if connects tr then [Client; Relay] else [Client]) else closes tr = []) /\
    (freed c = false -> cbs c = Pumping ->
       (exists s, shut s tr = false) /\
       forall s, shut (other s) tr = true \/ waits_to_write (other s) c \/
         (input (buf s c) = [] /\ output (buf (other s) c) = [] /\ waits_to_read s c)).

(** ** The dialogue with a proxy

    [spoken talk heard]: [talk] is what the protocol says when it heard [heard];
    [granted]: and the proxy has connected; [conv]: what holds of the state, the
    payload and the watermarks meanwhile. *)
Class Dialogue := {
  st0 : Z;
  pl0 : socks5_client;
  spoken : bytes -> bytes -> Prop;
  granted : bytes -> bytes -> Prop;
  conv : Z -> socks5_client -> Z -> Z -> bytes -> bytes -> Prop
}.

Section invariant.
Context `{D : Dialogue}.

(** What the sides were given. *)
Definition delivered : bytes -> bytes -> list event -> Prop := exchanged spoken granted.

Definition ended (tr : list event) : Prop :=
  closes tr = (if connects tr then [Client; Relay] else [Client]) /\ exists talk heard, delivered talk heard tr.

(** Before the relay of the data. *)
Record waiting (talk heard : bytes) (tr : list event) (c : C) : Prop := {
  t_freed : freed c = false;
  t_closes : closes tr = [];
  t_connects : connects tr = negb (bool_decide (cbs c = No_relay));
  t_client : output (client c) = [] /\ shut_write (client c) = false;
  t_from_client : received Client tr = input (client c);
  t_to_client : sent Client tr = [];
  t_relay : shut_write (relay c) = false;
  t_from_relay : received Relay tr = heard ++ input (relay c);
  t_to_relay : talk = sent Relay tr ++ output (relay c);
  t_read : forall s, shut_read (buf s c) = true -> can_read (buf s c) = false;
  t_shut : forall s, shut s tr = false;
  t_bytes : bytes_ok (input (relay c))
}.

(** One direction of the relay: from [b] to [o]. *)
Record half (b o : bufferevent) : Prop := {
  h_marks : read_low b = 0 /\ read_high b = REDSOCKS_RELAY_HALFBUFF /\ write_high o = REDSOCKS_RELAY_HALFBUFF;
  h_read : shut_read b = true -> can_read b = false;
  h_done : shut_write o = true -> shut_read b = true /\ output o = [] /\ ev_write o = false /\ input b = [];
  h_open : shut_write o = false -> can_write o = true /\
    (output o <> [] \/ input b <> [] \/ shut_read b = true -> ev_write o = true) /\
    (shut_read b = true \/ can_read b = true \/ ev_write o = true)
}.

Record pumping (talk heard : bytes) (tr : list event) (c : C) : Prop := {
  p_freed : freed c = false;
  p_cbs : cbs c = Pumping;
  p_state : state c = pump_active;
  p_closes : closes tr = [] /\ connects tr = true;
  p_granted : spoken talk heard /\ granted talk heard;
  p_out : talk ++ received Client tr = sent Relay tr ++ output (relay c) ++ input (client c);
  p_in : received Relay tr = heard ++ sent Client tr ++ output (client c) ++ input (relay c);
  p_half : forall s, half (buf s c) (buf (other s) c);
  p_shut : forall s, shut s tr = shut_write (buf s c)
}.

Definition inv (tr : list event) (c : C) : Prop :=
  if freed c then ended tr
  else exists talk heard,
    match cbs c with
    | No_relay | Connecting =>
        waiting talk heard tr c /\ talk = [] /\ heard = [] /\ state c = st0 /\ payload c = pl0 /\
        (relay c = new_buf false (bool_decide (cbs c = Connecting)))
    | Talking =>
        waiting talk heard tr c /\ conv (state c) (payload c) (read_low (relay c)) (read_high (relay c)) talk heard /\
        zlen (input (relay c)) <= read_high (relay c)
    | Pumping =>
        pumping talk heard tr c /\ exists s, shut_write (buf s c) = false
    end.

Lemma waiting_delivered talk heard tr c : waiting talk heard tr c -> spoken talk heard -> delivered talk heard tr.
Proof.
  intros H Hs. split_and!; [done|by rewrite (t_to_client _ _ _ _ H)| |].
  - exists (output (relay c) ++ received Client tr). rewrite (t_shut _ _ _ _ H), (t_to_relay _ _ _ _ H). by rewrite app_assoc.
  - exists (input (relay c)). rewrite (t_shut _ _ _ _ H), (t_to_client _ _ _ _ H), (t_from_relay _ _ _ _ H). done.
Qed.
Lemma pumping_delivered talk heard tr c : pumping talk heard tr c -> delivered talk heard tr.
Proof.
  intros H. split_and!; [apply H|intros _; apply H|exists (output (relay c) ++ input (client c))|exists (output (client c) ++ input (relay c))].
  - split; [apply H|]. rewrite (p_shut _ _ _ _ H). intros Hs%(h_done _ _ (p_half _ _ _ _ H Client)). destruct Hs as (_ & H1 & _ & H2).
    cbn [buf other] in *. by rewrite H1, H2.
  - split; [apply H|]. rewrite (p_shut _ _ _ _ H). intros Hs%(h_done _ _ (p_half _ _ _ _ H Relay)). destruct Hs as (_ & H1 & _ & H2).
    cbn [buf other] in *. by rewrite H1, H2.
Qed.

Implicit Types Q : unit -> list event -> C -> Prop.
Lemma wph_drop talk heard tr c Q : freed c = false -> closes tr = [] -> connects tr = negb (bool_decide (cbs c = No_relay)) ->
  delivered talk heard tr -> (forall tr' c', inv tr' c' -> Q tt tr' c') -> wph note redsocks_drop_client Q tr c.
Proof.
  intros Hf Hcl Hco (D1 & D2 & D3 & D4) HQ. unfold redsocks_drop_client. hstep. apply wph_use; [done|]. do 2 hstep. hstep.
  assert (Hend : forall t, (forall s, received s t = [] /\ sent s t = [] /\ shut s t = false) -> connects t = false ->
     closes t = (if connects tr then [Client; Relay] else [Client]) -> inv (tr ++ t) (c <| freed := true |>)).
  { intros t Ht H1 H2. change (ended (tr ++ t)). unfold ended. autorewrite with conn. rewrite Hcl, H1, orb_false_r. split; [exact H2|].
    exists talk, heard. unfold delivered, exchanged. autorewrite with conn. destruct (Ht Client) as (-> & -> & ->), (Ht Relay) as (-> & -> & ->).
    by rewrite !app_nil_r, !orb_false_r. }
  hstep; unfold note.
  - do 2 hstep. apply HQ. unfold note. rewrite <- app_assoc. apply Hend; [by intros []|done|]. by rewrite Hco, H.
  - hstep. apply HQ. apply Hend; [by intros []|done|]. by rewrite Hco, H.
Qed.
(** *** The relay *)

Definition source_same (b b' : bufferevent) : Prop :=
  input b' = input b /\ can_read b' = can_read b /\ shut_read b' = shut_read b /\ read_low b' = read_low b /\ read_high b' = read_high b.
Definition sink_same (o o' : bufferevent) : Prop :=
  output o' = output o /\ can_write o' = can_write o /\ ev_write o' = ev_write o /\ shut_write o' = shut_write o /\ write_high o' = write_high o.
Lemma half_same b o b' o' : half b o -> source_same b b' -> sink_same o o' -> half b' o'.
Proof.
  intros [H1 H2 H3 H4] (B1 & B2 & B3 & B4 & B5) (O1 & O2 & O3 & O4 & O5).
  split; rewrite ?B1, ?B2, ?B3, ?B4, ?B5, ?O1, ?O2, ?O3, ?O4, ?O5; done.
Qed.

(** What a step says that concerns only the direction from [s]. *)
Record says s (l m : bytes) (w : bool) (t : list event) : Prop := {
  y_received : received s t = l;
  y_sent : sent (other s) t = m;
  y_back : received (other s) t = [] /\ sent s t = [];
  y_shut : shut (other s) t = w /\ shut s t = false;
  y_quiet : closes t = [] /\ connects t = false
}.
(** While the direction from [s] is served. *)
Record serving s (talk heard : bytes) (tr : list event) (c : C) : Prop := {
  s_freed : freed c = false;
  s_cbs : cbs c = Pumping;
  s_state : state c = pump_active;
  s_closes : closes tr = [] /\ connects tr = true;
  s_granted : spoken talk heard /\ granted talk heard;
  s_out : talk ++ received Client tr = sent Relay tr ++ output (relay c) ++ input (client c);
  s_in : received Relay tr = heard ++ sent Client tr ++ output (client c) ++ input (relay c);
  s_shut : forall s', shut s' tr = shut_write (buf s' c);
  s_marks : read_low (buf s c) = 0 /\ read_high (buf s c) = REDSOCKS_RELAY_HALFBUFF /\ write_high (buf (other s) c) = REDSOCKS_RELAY_HALFBUFF;
  s_read : shut_read (buf s c) = true -> can_read (buf s c) = false;
  s_other : half (buf (other s) c) (buf s c)
}.
Lemma pumping_serving s talk heard tr c : pumping talk heard tr c -> serving s talk heard tr c.
Proof.
  intros [H1 H2 H3 H4 H5 H6 H7 H8 H9]. split; try done; try apply (H8 s). generalize (H8 (other s)). by rewrite other_other.
Qed.
Lemma serving_step s l m w talk heard tr t c c' : serving s talk heard tr c -> same c c' -> says s l m w t ->
  shut_write (buf (other s) c) = false ->
  (let b := buf s c in let o := buf (other s) c in let b' := buf s c' in let o' := buf (other s) c' in
   source_same o o' /\ sink_same b b' /\
   (read_low b' = 0 /\ read_high b' = REDSOCKS_RELAY_HALFBUFF /\ write_high o' = REDSOCKS_RELAY_HALFBUFF) /\
   (shut_read b' = true -> can_read b' = false) /\ w = shut_write o' /\
   m ++ output o' ++ input b' = output o ++ input b ++ l) -> serving s talk heard (tr ++ t) c'.
Proof.
  intros [H1 H2 H3 [H4 H5] H6 H7 H8 H10 _ _ H9] (S1 & S2 & S3 & S4) [Y1 Y2 [Y3 Y4] [Y5 Y6] [Y7 Y8]] Ho (F1 & F2 & F3 & F4 & F5 & F6).
  split; try congruence; try done.
  - autorewrite with conn. by rewrite H4, H5, Y7, Y8.
  - autorewrite with conn. destruct s; cbn [buf other] in *.
    + by rewrite Y1, Y2, app_assoc, H7, <- !app_assoc, <- F6.
    + destruct F1 as (-> & _), F2 as (-> & _). by rewrite Y3, Y4, !app_nil_r.
  - autorewrite with conn. destruct s; cbn [buf other] in *.
    + destruct F1 as (-> & _), F2 as (-> & _). by rewrite Y3, Y4, !app_nil_r.
    + by rewrite Y1, Y2, H8, <- !app_assoc, <- F6.
  - apply (side_cases s); autorewrite with conn; [|by rewrite Y5, H10, Ho, F5].
    destruct F2 as (_ & _ & _ & -> & _). by rewrite Y6, H10, orb_false_r.
  - exact (half_same _ _ _ _ H9 F1 F2).
Qed.
Lemma serving_pumping s talk heard tr c : serving s talk heard tr c -> half (buf s c) (buf (other s) c) -> pumping talk heard tr c.
Proof.
  intros [H1 H2 H3 H4 H5 H6 H7 H8 H9 H10 HH] Hh. split; try done. apply (side_cases s); [done|by rewrite other_other].
Qed.
Lemma pumping_step s l m w talk heard tr t c c' : serving s talk heard tr c -> same c c' -> says s l m w t ->
  shut_write (buf (other s) c) = false ->
  (let b := buf s c in let o := buf (other s) c in let b' := buf s c' in let o' := buf (other s) c' in
   source_same o o' /\ sink_same b b' /\ half b' o' /\ w = shut_write o' /\
   m ++ output o' ++ input b' = output o ++ input b ++ l) -> pumping talk heard (tr ++ t) c'.
Proof.
  intros H Hs Hy Ho (F1 & F2 & F3 & F4 & F5). eapply serving_pumping; [|exact F3]. eapply serving_step; try done. by split_and!; try apply F3.
Qed.
Lemma pumping_inv talk heard tr c s : pumping talk heard tr c -> shut_write (buf s c) = false -> inv tr c.
Proof.
  intros H Hs. unfold inv. rewrite (p_freed _ _ _ _ H), (p_cbs _ _ _ _ H). exists talk, heard. split; [done|by exists s].
Qed.
Lemma pumping_drop talk heard tr c Q : pumping talk heard tr c -> (forall tr' c', inv tr' c' -> Q tt tr' c') ->
  wph note redsocks_drop_client Q tr c.
Proof.
  intros H HQ. eapply wph_drop; [apply H|apply H| |by eapply pumping_delivered|done].
  rewrite (p_cbs _ _ _ _ H). apply (p_closes _ _ _ _ H).
Qed.

(** A side is shut down after all was written. *)
Lemma wph_shut_write s talk heard tr c Q : serving s talk heard tr c -> shut_write (buf (other s) c) = false -> shut_read (buf s c) = true -> input (buf s c) = [] -> output (buf (other s) c) = [] ->
  (forall tr' c', inv tr' c' -> Q tt tr' c') -> wph note (redsocks_shutdown (other s) SHUT_WR) Q tr c.
Proof.
  intros H Ho Hr Hi Hw HQ. unfold redsocks_shutdown, bufferevent_disable, on. hstep. apply wph_use; [apply H|]. cbn [bool_decide].
  rewrite (bool_decide_false (SHUT_WR = SHUT_RD)) by done. cbn [andb negb when]. do 2 hstep. do 5 hstep. hstep. unfold note.
  match goal with |- wph _ _ _ _ ?x => set (c' := x) end.
  assert (Hs : buf s c' = buf s c) by (subst c'; by destruct s).
  assert (H' : pumping talk heard (tr ++ [Shutdown (other s) SHUT_WR]) c').
  { eapply (pumping_step s [] [] true); [exact H| |split; try by destruct s|done|]. { by subst c'; repeat apply same_set_trans. }
    cbv zeta. rewrite Hs.
    subst c'. rewrite !buf_set. sug. rewrite andb_true_r, !andb_false_r, orb_false_r, orb_true_r. split_and!; try done.
    - split; sug; [apply H|apply H|done|done].
    - by rewrite Hi, Hw. }
  hstep; [by eapply pumping_drop|]. apply HQ. apply (pumping_inv _ _ _ _ s H').
  pose proof (h_done _ _ (p_half _ _ _ _ H' (other s))) as Hd. rewrite other_other in Hd.
  destruct (shut_write (buf s c')) eqn:E; [|done]. exfalso. destruct Hd as (Hd & _); [done|].
  assert (Hall : forall s', shut_read (buf s' c') = true /\ shut_write (buf s' c') = true).
  { apply (side_cases s); split; try done; [by rewrite Hs|]. subst c'. rewrite !buf_set. sug. by rewrite orb_true_r. }
  unfold shut_both in *. destruct (Hall Client) as [A1 A2], (Hall Relay) as [A3 A4]. cbn [buf] in *. by rewrite A1, A2, A3, A4 in *.
Qed.
Lemma half_reads b o : half b o -> can_read b = true -> shut_write o = false.
Proof.
  intros [_ H1 H2 _] Hr. destruct (shut_write o); [|done]. destruct H2 as [H2 _]; [done|]. rewrite H1 in Hr by done. done.
Qed.
Lemma half_writes b o : half b o -> ev_write o = true -> shut_write o = false.
Proof. intros [_ _ H _] Hw. destruct (shut_write o); [|done]. destruct H as (_ & _ & H & _); [done|]. congruence. Qed.
Lemma zlen_not_nil {A} (l : list A) : l <> [] -> (zlen l =? 0) = false.
Proof. intros H. destruct l; [done|]. rewrite zlen_cons. pose proof (zlen_nonneg l). lia. Qed.

Lemma wph_pump_read ss s l r talk heard tr c Q : pumping talk heard tr c -> can_read (buf s c) = true -> l <> [] ->
  (forall tr' c', inv tr' c' -> Q tt tr' c') -> wph note (exec_action ss (Read s l r)) Q tr c.
Proof.
  intros H Hr Hl HQ. pose proof (p_half _ _ _ _ H s) as Hh. pose proof (half_reads _ _ Hh Hr) as Ho.
  destruct (h_marks _ _ Hh) as (M1 & M2 & M3). destruct (h_open _ _ Hh Ho) as (O1 & O2 & O3).
  cbn [exec_action]. unfold on. do 5 hstep. hstep. rewrite buf_set. sug.
  hstep; [|exfalso; rewrite M1 in *; pose proof (zlen_nonneg (input (buf s c) ++ l)); lia].
  assert (Hfin : forall c', same c c' ->
    (let b := buf s c in let o := buf (other s) c in let b' := buf s c' in let o' := buf (other s) c' in
     source_same o o' /\ sink_same b b' /\ half b' o' /\ false = shut_write o' /\ [] ++ output o' ++ input b' = output o ++ input b ++ l) ->
    Q tt (tr ++ [Received s l]) c').
  { intros c' Hc Hx. apply HQ. pose proof Hx as (_ & _ & _ & Hw & _). eapply (pumping_inv _ _ _ _ (other s)); [|by symmetry].
    eapply (pumping_step s l [] false); try done; [by apply pumping_serving|]. split; try by destruct s. cbn. by rewrite decide_True, app_nil_r. }
  unfold call_readcb. set (c1 := set_buf s _ c). assert (S1 : same c c1) by apply same_set. pose proof S1 as (Sc & Ss & _ & Sf).
  hstep. apply wph_use; [rewrite Sf; apply H|]. rewrite Sc, (p_cbs _ _ _ _ H). hstep. apply wph_touch; [rewrite Sf; apply H|].
  unfold redsocks_relay_readcb, move, bufferevent_write_buffer, bufferevent_disable, on. hstep. apply wph_use; [rewrite Sf; apply H|].
  assert (B1 : buf s c1 = (buf s c) <| input := input (buf s c) ++ l |>) by (subst c1; by rewrite buf_set).
  assert (B2 : buf (other s) c1 = buf (other s) c) by apply buf_set_other. rewrite B1, B2.
  hstep; [|hstep].
  - do 5 hstep. unfold note. apply Hfin; [by repeat apply same_set_trans|]. cbv zeta. autorewrite with sides. rewrite B1, B2. unfold put. sug. rewrite O1.
    replace (zlen (input (buf s c) ++ l) =? 0) with false by (symmetry; apply zlen_not_nil; by intros [_ ?]%app_nil).
    cbn [negb andb]. rewrite orb_true_r. split_and!; try done; [|by rewrite app_nil_r].
    split; sug; [done|apply Hh|by rewrite Ho|intros _; by split_and!; auto].
  - hstep. unfold note. apply Hfin; [by repeat apply same_set_trans|]. cbv zeta. rewrite buf_set, buf_set_other, B1, B2. sug.
    rewrite andb_false_r, !andb_true_r. split_and!; try done. assert (Hne : output (buf (other s) c) <> []) by (intros E; rewrite E, M3 in *; done).
    split; sug; [done|done|by rewrite Ho|]. intros _. split_and!; auto.
  - exfalso. sua. congruence.
Qed.
(** The output is empty: what was read meanwhile is moved, or the end is passed on. *)
Lemma wph_pump_writecb ss s k r talk heard tr c Q : serving s talk heard tr c -> shut_write (buf (other s) c) = false -> can_write (buf (other s) c) = true ->
  output (buf (other s) c) = [] -> (forall tr' c', inv tr' c' -> Q tt tr' c') ->
  wph note (call_writecb ss (other s) k r) Q tr c.
Proof.
  intros H Ho O1 He HQ. destruct (s_marks _ _ _ _ _ H) as (M1 & M2 & M3).
  unfold call_writecb. hstep. apply wph_use; [apply H|]. rewrite (s_cbs _ _ _ _ _ H). hstep. apply wph_touch; [apply H|].
  unfold redsocks_relay_writecb, move, bufferevent_write_buffer, bufferevent_enable, on. hstep. apply wph_use; [apply H|].
  rewrite other_other. cbv zeta.
  hstep.
  { apply andb_true_iff in H0 as [H1 H2]. eapply wph_shut_write; try done. apply zlen_zero. lia. }
  hstep; [|exfalso; rewrite He, M3 in *; done]. do 6 hstep. hstep. autorewrite with sides. sug.
  assert (Hfin : forall c', same c c' ->
    (let b := buf s c in let o := buf (other s) c in let b' := buf s c' in let o' := buf (other s) c' in
     source_same o o' /\ sink_same b b' /\ half b' o' /\ false = shut_write o' /\ [] ++ output o' ++ input b' = output o ++ input b ++ []) ->
    Q tt tr c').
  { intros c' Hc Hx. apply HQ. rewrite <- (app_nil_r tr). pose proof Hx as (_ & _ & _ & Hw & _).
    eapply (pumping_inv _ _ _ _ (other s)); [|by symmetry]. by eapply (pumping_step s [] [] false). }
  assert (Hev : input (buf s c) <> [] -> (zlen (input (buf s c)) =? 0) = false) by apply zlen_not_nil.
  hstep; hstep; apply Hfin; try (by repeat apply same_set_trans); cbv zeta; autorewrite with sides; unfold put; sug;
    rewrite He, O1, ?andb_true_r, ?orb_false_r, ?orb_true_r; cbn [andb app].
  - split_and!; try done. split; sug; [done| |by rewrite Ho|].
    + intros E. by rewrite E in *.
    + intros _. split_and!; [done| |auto]. intros [Hx|[Hx|Hx]]; [|done|by rewrite Hx in *]. rewrite Hev by done. apply orb_true_r.
  - split_and!; try done. split; sug; [done|apply H|by rewrite Ho|].
    intros _. split_and!; [done| |].
    + intros [Hx|[Hx|Hx]]; [|done|]; (rewrite Hev; [apply orb_true_r|]); [done|]. intros E. by rewrite Hx, E in *.
    + autorewrite with sides in *. sua. destruct (shut_read (buf s c)); [by left|right]. destruct (can_read (buf s c)); [by left|done].
Qed.
Lemma wph_pump_write ss s n k r talk heard tr c Q : pumping talk heard tr c -> ev_write (buf (other s) c) = true ->
  (n <= length (output (buf (other s) c)))%nat -> (forall tr' c', inv tr' c' -> Q tt tr' c') ->
  wph note (exec_action ss (Write (other s) n k r)) Q tr c.
Proof.
  intros H Hw Hn HQ. pose proof (p_half _ _ _ _ H s) as Hh. pose proof (half_writes _ _ Hh Hw) as Ho.
  destruct (h_open _ _ Hh Ho) as (O1 & O2 & O3). cbn [exec_action]. unfold on. do 2 hstep. cbv zeta. do 3 hstep. hstep. unfold note.
  match goal with |- wph _ _ _ _ ?x => set (c' := x) end.
  set (l := output (buf (other s) c)) in *.
  assert (B1 : buf s c' = buf s c) by (subst c'; by autorewrite with sides).
  assert (B2 : buf (other s) c' = (buf (other s) c) <| output := drop n l |> <| ev_write := negb (zlen (drop n l) =? 0) |>)
    by (subst c'; by rewrite buf_set).
  assert (Hy : says s [] (take n l) false [Sent (other s) (take n l)]).
  { split; try by destruct s. cbn. by rewrite decide_True, app_nil_r. }
  assert (Hfl : take n l ++ drop n l ++ input (buf s c) = l ++ input (buf s c) ++ []) by (by rewrite app_assoc, take_drop, app_nil_r).
  hstep.
  - assert (Hd : drop n l = []) by (apply zlen_zero; lia). eapply (wph_pump_writecb ss s); [|by rewrite B2|by rewrite B2|rewrite B2; exact Hd|exact HQ].
    eapply (serving_step s [] (take n l) false); [by apply pumping_serving|by apply same_set|done|done|].
    cbv zeta. rewrite B1, B2. sug. split_and!; try done; apply Hh.
  - apply HQ. apply (pumping_inv talk heard _ _ (other s)); [|by rewrite B2].
    eapply (pumping_step s [] (take n l) false); [by apply pumping_serving|by apply same_set|done|done|].
    cbv zeta. rewrite B1, B2. sug. rewrite H0. split_and!; try done.
    split; sug; [apply Hh|apply Hh|by rewrite Ho|]. intros _. by split_and!; auto.
Qed.
(** The end of one side, while the other one is not shut down. *)
Lemma wph_shut_read s tr c Q : freed c = false -> shut_write (buf (other s) c) = false -> can_read (buf s c) = false ->
  (forall t, t = [] \/ t = [Shutdown s SHUT_RD] -> Q tt (tr ++ t) (set_buf s (fun b => b <| shut_read := true |>) c)) ->
  wph note (redsocks_shutdown s SHUT_RD) Q tr c.
Proof.
  intros Hf Ho Hr HQ. unfold redsocks_shutdown. hstep. apply wph_use; [done|].
  rewrite (bool_decide_true (SHUT_RD = SHUT_RD)) by done. cbn [andb negb].
  assert (Hend : forall tr' t, tr' = tr ++ t -> t = [] \/ t = [Shutdown s SHUT_RD] ->
    wph note (bufferevent_disable s true false;; on s (fun b => b <| shut_read := shut_read b || true |> <| shut_write := shut_write b || false |>);;
      c ← get; when (shut_both c) redsocks_drop_client) Q tr' c).
  { intros tr' t -> Ht. unfold bufferevent_disable, on. do 5 hstep. hstep. rewrite set_buf_buf.
    rewrite (set_buf_ext s _ (fun b => b <| shut_read := true |>)).
    2: { sug. by rewrite Hr, !andb_true_r, orb_true_r, orb_false_r. }
    hstep; [|by apply HQ]. exfalso. unfold shut_both in *. destruct s; cbn [buf other set_buf] in *; sua; rewrite Ho, ?andb_false_r in *; done. }
  hstep. hstep.
  - hstep. eapply Hend; [done|by right].
  - eapply (Hend tr []); [by rewrite app_nil_r|by left].
Qed.
Definition antiev (s : side) (c : C) : bool := match s with Relay => true | Client => negb (bool_decide (cbs c = No_relay)) end.
Lemma wph_eof ss s tr c Q : freed c = false -> shut_write (buf (other s) c) = false ->
  (forall t, t = [] \/ t = [Shutdown s SHUT_RD] ->
     let c' := set_buf s (fun b => b <| can_read := false |> <| shut_read := true |>) c in
     if (state c =? pump_active) && antiev s c && (zlen (output (buf (other s) c)) =? 0)
     then wph note (redsocks_shutdown (other s) SHUT_WR) Q (tr ++ t) c' else Q tt (tr ++ t) c') ->
  wph note (exec_action ss (Eof s)) Q tr c.
Proof.
  intros Hf Ho HQ. cbn [exec_action]. unfold bufferevent_disable, on. hstep. hstep.
  rewrite (set_buf_ext s _ (fun b => b <| can_read := false |>)) by (sug; by rewrite andb_false_r, !andb_true_r).
  set (c1 := set_buf s _ c). unfold redsocks_event_error. hstep. apply wph_use; [by destruct s|]. hstep.
  apply wph_shut_read; [by destruct s|subst c1; by rewrite buf_set_other|subst c1; by rewrite buf_set|].
  intros t Ht. subst c1. rewrite set_buf_buf. specialize (HQ t Ht). cbv zeta in HQ. set (c' := set_buf s _ c) in *.
  hstep. apply wph_use; [by destruct s|].
  assert (E1 : state c' = state c) by (by destruct s). assert (E2 : buf (other s) c' = buf (other s) c) by apply buf_set_other. rewrite E1, E2.
  assert (E3 : (match s with Relay => true | Client => negb (bool_decide (cbs (set_buf s (fun b => b <| can_read := false |>) c) = No_relay)) end) = antiev s c)
    by (by destruct s). rewrite E3. destruct (_ && _ && _); cbn [when]; [done|by hstep].
Qed.
Lemma wph_pump_eof ss s talk heard tr c Q : pumping talk heard tr c -> can_read (buf s c) = true ->
  (input (buf s c) = [] \/ output (buf (other s) c) <> []) ->
  (forall tr' c', inv tr' c' -> Q tt tr' c') -> wph note (exec_action ss (Eof s)) Q tr c.
Proof.
  intros H Hr Hin HQ. pose proof (p_half _ _ _ _ H s) as Hh. pose proof (half_reads _ _ Hh Hr) as Ho.
  apply wph_eof; [apply H|done|]. intros t Ht. cbv zeta. set (c' := set_buf s _ c).
  rewrite (p_state _ _ _ _ H), Z.eqb_refl. replace (antiev s c) with true by (unfold antiev; by rewrite (p_cbs _ _ _ _ H); destruct s). cbn [andb].
  assert (B1 : buf s c' = (buf s c) <| can_read := false |> <| shut_read := true |>) by apply buf_set.
  assert (B2 : buf (other s) c' = buf (other s) c) by apply buf_set_other.
  assert (Hs : serving s talk heard (tr ++ t) c').
  { eapply (serving_step s [] [] false); [by apply pumping_serving|apply same_set| |done|].
    { destruct Ht as [-> | ->]; split; by destruct s. }
    cbv zeta. rewrite B1, B2. sug. split_and!; try done; try apply Hh. by rewrite app_nil_r. }
  destruct (zlen (output (buf (other s) c)) =? 0) eqn:E.
  - assert (Hoe : output (buf (other s) c) = []) by (apply zlen_zero; lia). destruct Hin as [Hin|]; [|done].
    eapply wph_shut_write; [exact Hs|by rewrite B2|by rewrite B1|by rewrite B1|by rewrite B2|done].
  - apply HQ. apply (pumping_inv talk heard _ _ (other s)); [|by rewrite B2]. apply (serving_pumping _ _ _ _ _ Hs). rewrite B1, B2.
    destruct (h_open _ _ Hh Ho) as (O1 & O2 & O3). split; sug; [apply Hh|done|by rewrite Ho|]. intros _. split_and!; [done| |by left].
    intros _. apply O2. left. intros Hx. by rewrite Hx in E.
Qed.
(** *** Before the relay *)

Lemma waiting_bound talk heard tr c : waiting talk heard tr c -> forall s, shut_write (buf s c) = false.
Proof. intros H []; apply H. Qed.
Lemma wph_wait_drop talk heard tr c Q : waiting talk heard tr c -> spoken talk heard -> (forall tr' c', inv tr' c' -> Q tt tr' c') ->
  wph note redsocks_drop_client Q tr c.
Proof. intros H Hs HQ. eapply wph_drop; [apply H|apply H|apply H|by eapply waiting_delivered|done]. Qed.

Lemma wph_any_drop talk heard tr c Q : waiting talk heard tr c -> (exists talk0 heard0, delivered talk0 heard0 tr) ->
  (forall tr' c', inv tr' c' -> Q tt tr' c') -> wph note redsocks_drop_client Q tr c.
Proof. intros H (talk0 & heard0 & Hd) HQ. eapply wph_drop; [apply H|apply H|apply H|exact Hd|done]. Qed.

(** Nothing is said, and only the buffer of [s] changes. *)
Definition quiet (t : list event) : Prop :=
  (forall s, received s t = [] /\ sent s t = [] /\ shut s t = false) /\ closes t = [] /\ connects t = false.
Lemma waiting_set s f talk heard tr t c : waiting talk heard tr c -> quiet t ->
  (let b := buf s c in let b' := f b in
   input b' = input b /\ output b' = output b /\ shut_write b' = shut_write b /\ (shut_read b' = true -> can_read b' = false)) ->
  waiting talk heard (tr ++ t) (set_buf s f c).
Proof.
  intros [H1 H2 H3 H4 H5 H6 H7 H8 H9 H10 H11 H12] (T1 & T2 & T3) (F1 & F2 & F3 & F4).
  destruct (T1 Client) as (R1 & R2 & R3), (T1 Relay) as (R4 & R5 & R6).
  split; autorewrite with conn; rewrite ?T2, ?T3, ?R1, ?R2, ?R4, ?R5, ?app_nil_r, ?orb_false_r; try (destruct s; cbn [set_buf buf] in *; sug; intuition congruence).
  - intros s0. destruct (side_dec s s0) as [-> | ->]; [by rewrite buf_set|rewrite buf_set_other; apply H10].
  - intros []; autorewrite with conn; by rewrite ?R3, ?R6, H11.
Qed.

Lemma inv_talking talk heard tr c : waiting talk heard tr c -> cbs c = Talking ->
  conv (state c) (payload c) (read_low (relay c)) (read_high (relay c)) talk heard ->
  zlen (input (relay c)) <= read_high (relay c) -> inv tr c.
Proof. intros H Hc H1 H2. unfold inv. rewrite (t_freed _ _ _ _ H), Hc. by exists talk, heard. Qed.

(** A message, or none, and the next state. *)
Lemma wph_write_helper mk st lo hi talk heard tr c Q : waiting talk heard tr c -> cbs c = Talking ->
  (exists talk0 heard0, delivered talk0 heard0 tr) -> shut_read (relay c) = false -> zlen (input (relay c)) <= hi ->
  conv st (payload c) lo hi (talk ++ match mk with Some (Some l) => l | _ => [] end) heard ->
  (forall tr' c', inv tr' c' -> Q tt tr' c') -> wph note (redsocks_write_helper_ex mk st lo hi) Q tr c.
Proof.
  intros H Hc Hd Hr Hi Hv HQ. unfold redsocks_write_helper_ex. hstep. apply wph_use; [apply H|].
  set (l := match mk with Some (Some l) => l | _ => [] end) in *.
  assert (Hend : forall f, (let b := f (relay c) in output b = output (relay c) ++ l /\ input b = input (relay c) /\ shut_write b = false /\ shut_read b = false) ->
    wph note (state ::= st;; bufferevent_setwatermark Relay lo hi;; bufferevent_enable Relay true false) Q tr (set_buf Relay f c)).
  { intros f (F1 & F2 & F3 & F4). unfold bufferevent_setwatermark, bufferevent_enable, on. do 4 hstep. hstep. apply HQ.
    destruct H as [H1 H2 H3 H4 H5 H6 H7 H8 H9 H10 H11 H12]. eapply (inv_talking (talk ++ l) heard); [|exact Hc|exact Hv|].
    2: { change (zlen (input (f (relay c))) <= hi). by rewrite F2. }
    split; try done.
    - change (received Relay tr = heard ++ input (f (relay c))). by rewrite F2.
    - change (talk ++ l = sent Relay tr ++ output (f (relay c))). by rewrite F1, H9, <- app_assoc.
    - intros []; [apply (H10 Client)|]. change (shut_read (f (relay c)) = true -> can_read (f (relay c)) || true = false). by rewrite F4.
    - change (bytes_ok (input (f (relay c)))). by rewrite F2. }
  destruct mk as [[m|]|].
  - unfold bufferevent_write_buffer, on. hstep. hstep. apply Hend. unfold put. split_and!; try done. apply H.
  - by eapply wph_any_drop.
  - hstep. hstep. assert (Hid : set_buf Relay (fun b => b) c = c) by (by destruct c). rewrite <- Hid. apply Hend. split_and!; try done; [by rewrite app_nil_r|apply H].
Qed.
Lemma wph_read_expected cmp n talk heard tr c (Q : option bytes -> list event -> C -> Prop) : waiting talk heard tr c ->
  cmp (zlen (input (relay c))) n = true -> 0 <= n <= zlen (input (relay c)) ->
  (forall c', waiting talk (heard ++ take (Z.to_nat n) (input (relay c))) tr c' -> same c c' ->
     relay c' = (relay c) <| input := drop (Z.to_nat n) (input (relay c)) |> -> Q (Some (take (Z.to_nat n) (input (relay c)))) tr c') ->
  wph note (redsocks_read_expected cmp n) Q tr c.
Proof.
  intros H Hcmp Hn HQ. unfold redsocks_read_expected, on. hstep. apply wph_use; [apply H|]. cbv zeta. rewrite Hcmp. do 2 hstep. hstep.
  apply wph_assert; [apply Z.eqb_eq; unfold zlen in *; rewrite length_take; lia|]. hstep. apply HQ; [|done|done].
  destruct H as [H1 H2 H3 H4 H5 H6 H7 H8 H9 H10 H11 H12]. split; try done.
  - change (received Relay tr = (heard ++ take (Z.to_nat n) (input (relay c))) ++ drop (Z.to_nat n) (input (relay c))).
    by rewrite <- app_assoc, take_drop.
  - intros []; [apply (H10 Client)|apply (H10 Relay)].
  - by apply Forall_drop.
Qed.
(** A bufferevent at the beginning of the relay. *)
Definition ready (b : bufferevent) : bufferevent :=
  mk_bufferevent (input b) (output b) (can_read b || negb (shut_read b)) (can_write b || negb (shut_write b)) (ev_write b || negb (shut_write b))
    0 REDSOCKS_RELAY_HALFBUFF REDSOCKS_RELAY_HALFBUFF (shut_read b) (shut_write b).
Lemma half_ready b o : (shut_read b = true -> can_read b = false) -> shut_write o = false -> half (ready b) (ready o).
Proof.
  intros Hb Ho. split; cbn; rewrite ?Ho; [done| |done|].
  - intros Hr. by rewrite Hb, Hr.
  - intros _. rewrite !orb_true_r. split_and!; auto.
Qed.
Lemma wph_start_relay ok talk heard tr c Q : waiting talk heard tr c -> cbs c = Talking -> spoken talk heard -> granted talk heard ->
  (forall tr' c', inv tr' c' -> Q tt tr' c') -> wph note (redsocks_start_relay ok) Q tr c.
Proof.
  intros H Hc Hs Hg HQ. pose proof (waiting_delivered _ _ _ _ H Hs) as Hd. destruct H as [H1 H2 H3 H4 H5 H6 H7 H8 H9 H10 H11 H12].
  rewrite Hc in H3. unfold redsocks_start_relay, redsocks_start_bufferpump, bufferevent_setwatermark, bufferevent_enable, on.
  assert (Hdrop : forall c', freed c' = false -> cbs c' = Pumping -> wph note (when true redsocks_drop_client) Q tr c').
  { intros c' Hf' Hc'. cbn [when]. apply (wph_drop talk heard); try done. by rewrite Hc'. }
  hstep. apply wph_use; [done|]. do 2 hstep. hstep. hstep. apply wph_use; [done|]. do 13 hstep. hstep.
  { by apply Hdrop. }
  do 2 hstep. hstep; [hstep; by apply Hdrop|]. do 2 hstep. hstep. cbn [when]. hstep. apply HQ.
  match goal with |- inv _ ?x => set (c' := x) end. apply (pumping_inv talk heard _ _ Client); [|apply H4]. destruct H4 as [H4 H4'].
  assert (B : forall s, buf s c' = ready (buf s c)) by (by intros []).
  split; try done.
  - rewrite H9, H5, <- app_assoc. done.
  - change (received Relay tr = heard ++ sent Client tr ++ output (client c) ++ input (relay c)). by rewrite H8, H6, H4.
  - intros s. rewrite !B. apply half_ready; [apply H10|by destruct s].
  - intros s. rewrite B, H11. by destruct s.
Qed.
(** ** What a protocol promises *)

Class RelayProtocol (ss : relay_subsys) : Prop := {
  spoken_nil : spoken [] [];
  st0_inactive : st0 <> pump_active;
  conv_inactive st pl lo hi talk heard : conv st pl lo hi talk heard -> st <> pump_active;
  conv_spoken st pl lo hi talk heard : conv st pl lo hi talk heard -> spoken talk heard;
  conv_high st pl lo hi talk heard : conv st pl lo hi talk heard -> 0 < hi;
  (** The proxy is connected. *)
  greets r tr c : waiting [] [] tr c -> cbs c = Talking -> state c = st0 -> payload c = pl0 -> relay c = new_buf false false ->
    wph note (writecb ss r) (fun _ => inv) tr c;
  (** Something came, or all was written. *)
  reads r talk heard tr c : waiting talk heard tr c -> cbs c = Talking ->
    conv (state c) (payload c) (read_low (relay c)) (read_high (relay c)) talk heard ->
    zlen (input (relay c)) <= read_high (relay c) -> read_low (relay c) <= zlen (input (relay c)) -> shut_read (relay c) = false ->
    wph note (readcb ss r) (fun _ => inv) tr c;
  writes r talk heard tr c : waiting talk heard tr c -> cbs c = Talking ->
    conv (state c) (payload c) (read_low (relay c)) (read_high (relay c)) talk heard ->
    zlen (input (relay c)) <= read_high (relay c) ->
    wph note (writecb ss r) (fun _ => inv) tr c
}.

Lemma pumping_waits s talk heard tr c : pumping talk heard tr c ->
  shut_write (buf (other s) c) = true \/ waits_to_write (other s) c \/
  (input (buf s c) = [] /\ output (buf (other s) c) = [] /\ waits_to_read s c).
Proof.
  intros H. pose proof (p_half _ _ _ _ H s) as Hh. destruct (shut_write (buf (other s) c)) eqn:Ho; [by left|right].
  destruct (h_open _ _ Hh Ho) as (O1 & O2 & O3). destruct (h_marks _ _ Hh) as (M1 & M2 & _).
  assert (Hw : ev_write (buf (other s) c) = true -> waits_to_write (other s) c).
  { intros He k r. unfold allowed. rewrite (p_freed _ _ _ _ H), He. cbn [negb andb]. apply andb_true_iff. split.
    - unfold zlen. apply Z.leb_refl.
    - destruct (output (buf (other s) c)); [done|apply orb_true_r]. }
  destruct (ev_write (buf (other s) c)) eqn:He; [left; auto|right]. assert (Hno : forall X : Prop, (X -> false = true) -> ~ X) by (intros X HX x; by specialize (HX x)).
  apply Hno in O2. destruct (decide (input (buf s c) = [])) as [Hi|]; [|tauto]. destruct (decide (output (buf (other s) c) = [])) as [Hou|]; [|tauto].
  split_and!; [done..|]. intros x r Hx. unfold allowed. rewrite (p_freed _ _ _ _ H). destruct O3 as [O3|[O3|O3]]; [tauto| |done].
  rewrite O3. cbn. unfold room. rewrite Hi, M2, Hx. done.
Qed.
Section steps.
Context (ss : relay_subsys) `{!RelayProtocol ss}.

(** The phases before the relay. *)
Definition phase (talk heard : bytes) (c : C) : Prop :=
  match cbs c with
  | No_relay | Connecting => talk = [] /\ heard = [] /\ state c = st0 /\ payload c = pl0 /\
      relay c = new_buf false (bool_decide (cbs c = Connecting))
  | Talking => conv (state c) (payload c) (read_low (relay c)) (read_high (relay c)) talk heard /\ zlen (input (relay c)) <= read_high (relay c)
  | Pumping => False
  end.
Lemma phase_inv talk heard tr c : waiting talk heard tr c -> phase talk heard c -> inv tr c.
Proof.
  intros H Hp. unfold inv, phase in *. rewrite (t_freed _ _ _ _ H). exists talk, heard. destruct (cbs c); [tauto|tauto|tauto|done].
Qed.
Lemma inv_cases tr c : freed c = false -> inv tr c ->
  exists talk heard, (waiting talk heard tr c /\ phase talk heard c) \/ pumping talk heard tr c.
Proof.
  intros Hf. unfold inv, phase. rewrite Hf. intros (talk & heard & H). exists talk, heard. destruct (cbs c); [left|left|left|right]; tauto.
Qed.
Lemma phase_spoken talk heard c : phase talk heard c -> spoken talk heard.
Proof using All.
  unfold phase. destruct (cbs c); [intros (-> & -> & _); apply spoken_nil|intros (-> & -> & _); apply spoken_nil|intros [H _]|done]. by eapply conv_spoken.
Qed.
Lemma phase_inactive talk heard c : phase talk heard c -> state c <> pump_active.
Proof using All.
  unfold phase. destruct (cbs c); [intros (_ & _ & -> & _); apply st0_inactive|intros (_ & _ & -> & _); apply st0_inactive|intros [H _]|done].
  by eapply conv_inactive.
Qed.

Lemma wph_wait_eof s talk heard tr c : waiting talk heard tr c -> phase talk heard c -> can_read (buf s c) = true ->
  wph note (exec_action ss (Eof s)) (fun _ => inv) tr c.
Proof using All.
  intros H Hp Hr. apply wph_eof; [apply H|by eapply waiting_bound|]. intros t Ht. cbv zeta.
  apply phase_inactive in Hp as Ha. replace (state c =? pump_active) with false by lia. cbn [andb].
  apply (phase_inv talk heard).
  - apply waiting_set; [done| |done]. destruct Ht as [-> | ->]; split; [by intros []|done|by intros []|done].
  - unfold phase in *. destruct s; [exact Hp|]. cbn [buf set_buf] in *. sug. destruct (cbs c); try done.
    + destruct Hp as (_ & _ & _ & _ & Hp). by rewrite Hp in Hr.
    + destruct Hp as (_ & _ & _ & _ & Hp). by rewrite Hp in Hr.
Qed.
Lemma wph_wait_read s l r talk heard tr c : waiting talk heard tr c -> phase talk heard c -> can_read (buf s c) = true ->
  room (zlen l) (buf s c) = true -> bytes_ok l -> wph note (exec_action ss (Read s l r)) (fun _ => inv) tr c.
Proof using All.
  intros H Hp Hr Hroom Hby. cbn [exec_action]. unfold on. do 5 hstep. hstep. unfold note. set (c1 := set_buf s _ c).
  assert (Hw : waiting talk heard (tr ++ [Received s l]) c1).
  { destruct H as [H1 H2 H3 H4 H5 H6 H7 H8 H9 H10 H11 H12]. split; autorewrite with conn; try (by destruct s; rewrite ?app_nil_r).
    - rewrite H3. subst c1. destruct s; apply orb_false_r.
    - destruct s; cbn; rewrite ?app_nil_r, H5; done.
    - destruct s; cbn; rewrite ?app_nil_r, H8; [done|]. by rewrite <- app_assoc.
    - intros s0. destruct (side_dec s s0) as [-> | ->]; subst c1; [rewrite buf_set; apply H10|rewrite buf_set_other; apply H10].
    - intros s0. autorewrite with conn. by rewrite H11.
    - destruct s; [done|]. by apply Forall_app. }
  destruct s.
  - assert (Hi : inv (tr ++ [Received Client l]) c1) by (by apply (phase_inv talk heard)).
    hstep; [|done]. unfold call_readcb. hstep. apply wph_use; [apply Hw|]. change (cbs c1) with (cbs c). unfold phase in Hp.
    destruct (cbs c); try done; by hstep.
  - cbn [buf] in *. unfold phase in Hp. destruct (cbs c) eqn:Ec; [destruct Hp as (_ & _ & _ & _ & Hp); by rewrite Hp in Hr..| |done].
    destruct Hp as [Hv Hb]. pose proof (conv_high _ _ _ _ _ _ Hv) as Hh.
    assert (Hb1 : zlen (input (relay c1)) <= read_high (relay c1)).
    { change (zlen (input (relay c) ++ l) <= read_high (relay c)). unfold room in Hroom.
      apply orb_true_iff in Hroom. rewrite Z.eqb_eq, Z.leb_le in Hroom. rewrite zlen_app. lia. }
    hstep.
    + unfold call_readcb. hstep. apply wph_use; [apply Hw|]. change (cbs c1) with (cbs c). rewrite Ec. eapply reads; try done.
      * apply Z.leb_le. exact H0.
      * pose proof (t_read _ _ _ _ H Relay) as Hs. cbn [buf] in Hs. change (shut_read (relay c) = false). destruct (shut_read (relay c)); [|done].
        rewrite Hs in Hr by done. done.
    + by apply (inv_talking talk heard).
Qed.
Lemma wph_wait_write s n k r talk heard tr c : waiting talk heard tr c -> phase talk heard c -> ev_write (buf s c) = true ->
  wph note (exec_action ss (Write s n k r)) (fun _ => inv) tr c.
Proof using All.
  intros H Hp He. cbn [exec_action]. unfold on. do 2 hstep. cbv zeta. do 3 hstep. hstep. unfold note. set (c1 := set_buf s _ c).
  assert (Hw : waiting talk heard (tr ++ [Sent s (take n (output (buf s c)))]) c1).
  { destruct H as [H1 H2 H3 H4 H5 H6 H7 H8 H9 H10 H11 H12]. split; autorewrite with conn; try (by destruct s; rewrite ?app_nil_r).
    - rewrite H3. subst c1. destruct s; apply orb_false_r.
    - destruct s; [|done]. split; [|apply H4]. cbn [buf set_buf] in *. subst c1. sug. by rewrite (proj1 H4), drop_nil.
    - destruct s; cbn [buf] in *; cbn; rewrite ?app_nil_r, H6; [by rewrite (proj1 H4), take_nil|done].
    - destruct s; cbn [buf] in *; cbn; rewrite ?app_nil_r, H9; [done|].
      rewrite decide_True by done. sug. by rewrite <- app_assoc, take_drop.
    - intros s0. destruct (side_dec s s0) as [-> | ->]; subst c1; [rewrite buf_set; apply H10|rewrite buf_set_other; apply H10].
    - intros s0. autorewrite with conn. by rewrite H11. }
  destruct s.
  - assert (Hi : inv (tr ++ [Sent Client (take n (output (buf Client c)))]) c1) by (by apply (phase_inv talk heard)).
    hstep; [|done]. unfold call_writecb. hstep. apply wph_use; [apply Hw|]. change (cbs c1) with (cbs c). unfold phase in Hp.
    destruct (cbs c); try done; by hstep.
  - cbn [buf] in *. unfold phase in Hp. destruct (cbs c) eqn:Ec; [destruct Hp as (_ & _ & _ & _ & Hp); by rewrite Hp in He| | |done].
    + destruct Hp as (-> & -> & Hst & Hpl & Hb). replace (zlen (drop n (output (relay c))) =? 0) with true.
      2: { rewrite Hb. cbn. by rewrite drop_nil. }
      cbn [when]. unfold call_writecb. hstep. apply wph_use; [apply Hw|]. change (cbs c1) with (cbs c). rewrite Ec.
      unfold redsocks_relay_connected. hstep. apply wph_touch; [apply Hw|]. hstep.
      * eapply (wph_wait_drop [] []); [done|apply spoken_nil|done].
      * do 2 hstep. apply greets; try done.
        -- destruct Hw as [H1 H2 H3 H4 H5 H6 H7 H8 H9 H10 H11 H12]. split; try done. rewrite H3. change (cbs c1) with (cbs c). by rewrite Ec.
        -- subst c1. cbn [buf]. assert (Ho : output (relay c) = []) by (by rewrite Hb). rewrite Ho, drop_nil.
           transitivity ((relay c) <| output := [] |> <| ev_write := false |>); [done|by rewrite Hb].
    + destruct Hp as [Hv Hb]. hstep.
      * unfold call_writecb. hstep. apply wph_use; [apply Hw|]. change (cbs c1) with (cbs c). rewrite Ec. by eapply writes.
      * by apply (inv_talking talk heard).
Qed.
Lemma wph_connect ok tr c : freed c = false -> inv tr c -> cbs c = No_relay -> wph note (exec_action ss (Connect_relay ok)) (fun _ => inv) tr c.
Proof using All.
  intros Hf Hi Hc. apply inv_cases in Hi as (talk & heard & [[H Hp]|H]); [|by rewrite (p_cbs _ _ _ _ H) in Hc|done].
  unfold phase in Hp. rewrite Hc in Hp. destruct Hp as (-> & -> & Hst & Hpl & Hb). cbn [exec_action]. unfold redsocks_connect_relay. hstep.
  apply wph_use; [done|]. destruct ok; [|eapply (wph_wait_drop [] []); [done|apply spoken_nil|done]].
  do 4 hstep. hstep. unfold note. apply (phase_inv [] []); [|by unfold phase].
  destruct H as [H1 H2 H3 H4 H5 H6 H7 H8 H9 H10 H11 H12]. rewrite Hb in H8, H9. split; autorewrite with conn; try done.
  - by rewrite H2.
  - rewrite H3, Hc. done.
  - cbn. by rewrite app_nil_r, H5.
  - cbn. by rewrite app_nil_r, H6.
  - cbn. by rewrite app_nil_r, H8.
  - change (sent Relay [Connect]) with (@nil Z). rewrite app_nil_r. exact H9.
  - intros []; [apply (H10 Client)|done].
  - intros s. autorewrite with conn. by rewrite H11.
  - constructor.
Qed.
Lemma wph_drop_inv tr c : freed c = false -> inv tr c -> wph note redsocks_drop_client (fun _ => inv) tr c.
Proof using All.
  intros Hf Hi. apply inv_cases in Hi as (talk & heard & [[H Hp]|H]); [|by eapply pumping_drop|done].
  eapply wph_wait_drop; [done|by eapply phase_spoken|done].
Qed.
Lemma client_step tr c a : inv tr c -> allowed false c a = true -> wph note (exec_action ss a) (fun _ => inv) tr c.
Proof using All.
  intros Hi (Hf & Ha)%andb_true_iff. apply negb_true_iff in Hf. pose proof (inv_cases _ _ Hf Hi) as (talk & heard & Hc).
  destruct a as [ok|s l r|s|s n k r|s|]; rewrite ?andb_true_iff, ?orb_true_iff in Ha.
  - apply wph_connect; [done|done|]. by apply bool_decide_eq_true in Ha.
  - destruct Ha as (((Hr & Hl) & Hroom) & Hby). destruct Hc as [[H Hp]|H]; [by eapply wph_wait_read; [..|apply is_byte_ok]|].
    eapply wph_pump_read; try done. intros ->. done.
  - destruct Ha as ((Hr & _) & Ht). destruct Hc as [[H Hp]|H]; [by eapply wph_wait_eof|]. eapply wph_pump_eof; try done.
    unfold in_time in Ht. rewrite (p_cbs _ _ _ _ H), bool_decide_true in Ht by done. cbn [negb orb] in Ht. apply orb_true_iff in Ht as [Ht|Ht].
    + left. apply zlen_zero. lia.
    + right. intros E. by rewrite E in Ht.
  - destruct Ha as ((Hw & Hn) & _). destruct Hc as [[H Hp]|H]; [by eapply wph_wait_write|].
    rewrite <- (other_other s) in *. eapply wph_pump_write; try done. rewrite other_other in *. unfold zlen in Hn. lia.
  - cbn [exec_action]. unfold redsocks_event_error. hstep. apply wph_use; [done|]. by apply wph_drop_inv.
  - by apply wph_drop_inv.
Qed.
Lemma inv_start : inv [] (start st0 pl0).
Proof using All.
  apply (phase_inv [] []); [|done]. split; try done; try (by intros []). constructor.
Qed.
Lemma client_reach tr c : reach (sys := client_system ss false) (start st0 pl0) tr c -> inv tr c.
Proof using All.
  intros Hr. rewrite <- (app_nil_l tr), <- fold_note. eapply (monitor_reach (sys := client_system ss false) note [] inv); [|exact inv_start|exact Hr].
  intros h c' a Hi Ha. by apply client_step.
Qed.
Lemma client_safe : safe (sys := client_system ss false) (start st0 pl0).
Proof using All.
  eapply (monitor_safe (sys := client_system ss false) note [] inv); [|exact inv_start]. intros h c' a Hi Ha. by apply client_step.
Qed.
Lemma protocol_correct : connection_correct spoken granted ss (start st0 pl0).
Proof using All.
  split; [apply client_safe|]. intros tr c Hr%client_reach. destruct (freed c) eqn:Hf.
  - unfold inv in Hr. rewrite Hf in Hr. destruct Hr as [Hc Hd]. by split_and!.
  - pose proof (inv_cases _ _ Hf Hr) as (talk & heard & [[H Hp]|H]); split_and!.
    + exists talk, heard. eapply waiting_delivered; [done|by eapply phase_spoken].
    + apply H.
    + intros _ Hc. unfold phase in Hp. by rewrite Hc in Hp.
    + exists talk, heard. by eapply pumping_delivered.
    + apply H.
    + intros _ Hc. unfold inv in Hr. rewrite Hf, Hc in Hr. destruct Hr as (talk' & heard' & H' & s & Hs).
      split; [exists s; by rewrite (p_shut _ _ _ _ H)|]. intros s'. rewrite (p_shut _ _ _ _ H). by eapply pumping_waits.
Qed.
End steps.
End invariant.

End Conn.
