(* ===== verification/RedSocks.v ===== *)
(** SOCKS5 and SOCKS4 in redsocks: [socks5.c] and [socks4.c], the protocols with which
    a connection of [RedClient.v] asks the proxy. *)

From S2P Require Import Prelude System SocksClient RedClient.
Import RedClient.Conn.
Open Scope list_scope.

(** ** SOCKS5 *)

Module Socks5.

Definition socks5_new : Z := 0.
Definition socks5_method_sent : Z := 1.
Definition socks5_auth_sent : Z := 2.
Definition socks5_request_sent : Z := 3.
Definition socks5_skip_domain : Z := 4.
Definition socks5_skip_address : Z := 5.

Definition socks5_ver : Z := 5.
Definition socks5_auth_none : Z := 0.
Definition socks5_auth_password : Z := 2.
Definition socks5_auth_invalid : Z := 255.
Definition socks5_password_ver : Z := 1.
Definition socks5_password_passed : Z := 0.
Definition socks5_addrtype_ipv4 : Z := 1.
Definition socks5_addrtype_domain : Z := 3.
Definition socks5_addrtype_ipv6 : Z := 4.
Definition socks5_status_succeeded : Z := 0.
Definition socks5_cmd_connect : Z := 1.

Definition socks5_is_valid_cred (login password : option bytes) : bool :=
  match login, password with
  | Some l, Some p => (zlen l <=? 255) && (zlen p <=? 255)
  | _, _ => false
  end.
(** The login and the password that are kept. *)
Definition socks5_instance_init (login password : option bytes) : option bytes * option bytes :=
  match login, password with
  | None, None => (None, None)
  | _, _ =>
      let deauth := match login, password with
        | Some _, Some _ => negb (socks5_is_valid_cred login password)
        | _, _ => true
        end in
      if deauth then (None, None) else (login, password)
  end.

(** [destaddr], as the bytes of its two fields in network order. *)
Record sockaddr_in := mk_sockaddr { sin_addr : bytes; sin_port : bytes }.

(** *** The dialogue

    With authentication or not, and with the messages for the methods, the password
    and the request. *)
Section dialogue.
Context (auth : bool) (hello password request : bytes).

(** The proxy was asked to connect. *)
Inductive socks5_asked : bytes -> bytes -> Prop :=
  | asked_freely : socks5_asked (hello ++ request) [5; 0]
  | asked_authenticated : auth = true -> socks5_asked (hello ++ password ++ request) [5; 2; 1; 0].
(** What follows the header of an answer: an address and a port. *)
Inductive address : Z -> bytes -> Prop :=
  | address_ipv4 l : zlen l = 6 -> address 1 l
  | address_ipv6 l : zlen l = 18 -> address 4 l
  | address_domain n l : zlen l = n + 2 -> address 3 (n :: l).
Inductive socks5_connected : bytes -> bytes -> Prop :=
  connected_intro talk heard reserved t l : socks5_asked talk heard -> address t l ->
    socks5_connected talk (heard ++ [5; 0; reserved; t] ++ l).
(** What is said when so much was heard. *)
Inductive socks5_says : bytes -> bytes -> Prop :=
  | says_nothing : socks5_says [] []
  | says_hello : socks5_says hello []
  | says_password : auth = true -> socks5_says (hello ++ password) [5; 2]
  | says_request talk heard answer : socks5_asked talk heard -> socks5_says talk (heard ++ answer).
End dialogue.

Section socks5.
Context (login password : option bytes) (destaddr : sockaddr_in).

Definition socks5_client_init : socks5_client :=
  mk_socks5 (match login, password with Some _, Some _ => true | _, _ => false end) 0.

Definition socks5_mkmethods_plain (do_password : bool) : bytes :=
  socks5_ver :: (1 + if do_password then 1 else 0) :: socks5_auth_none :: (if do_password then [socks5_auth_password] else []).
Definition socks5_mkpassword_plain (login password : bytes) : bytes :=
  socks5_password_ver :: u8 (zlen login) :: login ++ u8 (zlen password) :: password.
Definition socks5_mkcommand_plain (socks5_cmd : Z) (destaddr : sockaddr_in) : bytes :=
  [socks5_ver; socks5_cmd; 0; socks5_addrtype_ipv4] ++ sin_addr destaddr ++ sin_port destaddr.

(** A message that [mkevbuffer] has memory for, or not. *)
Definition mkevbuffer (r : luck) (l : bytes) : option (option bytes) := Some (if memory r then Some l else None).
Definition socks5_mkconnect : bytes := socks5_mkcommand_plain socks5_cmd_connect destaddr.
Definition socks5_mkpassword : bytes :=
  match login, password with Some l, Some p => socks5_mkpassword_plain l p | _, _ => [] end.

Local Abbreviation C := redsocks_client.

Definition socks5_write_cb (r : luck) : M C event unit :=
  redsocks_touch_client;;
  c ← get;
  if state c =? socks5_new then
    redsocks_write_helper (mkevbuffer r (socks5_mkmethods_plain (do_password (payload c)))) socks5_method_sent 2
  else mret tt.

(** NULL is [None]. *)
Definition socks5_is_known_auth_method (ver method : Z) (do_password : bool) : bool :=
  if negb (ver =? socks5_ver) then false
  else if method =? socks5_auth_invalid then false
  else if negb (method =? socks5_auth_none) && negb ((method =? socks5_auth_password) && do_password) then false
  else true.

Definition socks5_read_auth_methods (r : luck) : M C event unit :=
  d ← redsocks_read_expected sizes_equal 2;
  match d with
  | None => mret tt
  | Some d =>
      ver ← must (d !! 0%nat);
      method ← must (d !! 1%nat);
      c ← get;
      if negb (socks5_is_known_auth_method ver method (do_password (payload c))) then redsocks_drop_client
      else if method =? socks5_auth_none then redsocks_write_helper (mkevbuffer r socks5_mkconnect) socks5_request_sent 4
      else if method =? socks5_auth_password then
        assert (match login, password with Some _, Some _ => true | _, _ => false end);;
        redsocks_write_helper (mkevbuffer r socks5_mkpassword) socks5_auth_sent 2
      else mret tt
  end.

Definition socks5_read_auth_reply (r : luck) : M C event unit :=
  d ← redsocks_read_expected sizes_equal 2;
  match d with
  | None => mret tt
  | Some d =>
      ver ← must (d !! 0%nat);
      status ← must (d !! 1%nat);
      if negb (ver =? socks5_password_ver) then redsocks_drop_client
      else if status =? socks5_password_passed then redsocks_write_helper (mkevbuffer r socks5_mkconnect) socks5_request_sent 4
      else redsocks_drop_client
  end.

Definition set_to_skip (n : Z) : M C event unit := modify (upd payload (fun p => mk_socks5 (do_password p) n)).

Definition socks5_read_reply (r : luck) : M C event unit :=
  d ← redsocks_read_expected sizes_greater_equal 4;
  match d with
  | None => mret tt
  | Some d =>
      ver ← must (d !! 0%nat);
      status ← must (d !! 1%nat);
      addrtype ← must (d !! 3%nat);
      if negb (ver =? socks5_ver) then redsocks_drop_client
      else if status =? socks5_status_succeeded then
        if addrtype =? socks5_addrtype_ipv4 then
          set_to_skip 6;;
          redsocks_write_helper None socks5_skip_address 6
        else if addrtype =? socks5_addrtype_ipv6 then
          set_to_skip 18;;
          redsocks_write_helper None socks5_skip_address 18
        else if addrtype =? socks5_addrtype_domain then redsocks_write_helper None socks5_skip_domain 1
        else redsocks_drop_client
      else redsocks_drop_client
  end.

Definition socks5_read_cb (r : luck) : M C event unit :=
  redsocks_touch_client;;
  c ← get;
  if state c =? socks5_method_sent then socks5_read_auth_methods r
  else if state c =? socks5_auth_sent then socks5_read_auth_reply r
  else if state c =? socks5_request_sent then socks5_read_reply r
  else if state c =? socks5_skip_domain then
    d ← redsocks_read_expected sizes_greater_equal 1;
    match d with
    | None => mret tt
    | Some d =>
        size ← must (d !! 0%nat);
        set_to_skip (size + 2);;
        redsocks_write_helper None socks5_skip_address (size + 2)
    end
  else if state c =? socks5_skip_address then
    d ← redsocks_read_expected sizes_greater_equal (to_skip (payload c));
    match d with None => mret tt | Some _ => redsocks_start_relay (enabled_ok r) end
  else redsocks_drop_client.

Definition socks5_subsys : relay_subsys := mk_subsys socks5_read_cb socks5_write_cb.

(** *** The invariant of the dialogue *)

Definition authenticates : bool := do_password socks5_client_init.
Local Abbreviation hello := (socks5_mkmethods_plain authenticates).
Local Abbreviation asked := (socks5_asked authenticates hello socks5_mkpassword socks5_mkconnect).
Local Abbreviation connected := (socks5_connected authenticates hello socks5_mkpassword socks5_mkconnect).
Local Abbreviation says5 := (socks5_says authenticates hello socks5_mkpassword socks5_mkconnect).

Inductive conv5 : Z -> socks5_client -> Z -> Z -> bytes -> bytes -> Prop :=
  | conv_method_sent n : conv5 socks5_method_sent (mk_socks5 authenticates n) 2 2 hello []
  | conv_auth_sent pl : authenticates = true -> conv5 socks5_auth_sent pl 2 2 (hello ++ socks5_mkpassword) [5; 2]
  | conv_request_sent pl talk heard : asked talk heard -> conv5 socks5_request_sent pl 4 4 talk heard
  | conv_skip_domain pl talk heard x : asked talk heard -> conv5 socks5_skip_domain pl 1 1 talk (heard ++ [5; 0; x; 3])
  | conv_skip_address dp n talk heard x t l : asked talk heard -> 0 < n -> (forall a, zlen a = n -> address t (l ++ a)) ->
      conv5 socks5_skip_address (mk_socks5 dp n) n n talk (heard ++ [5; 0; x; t] ++ l).

#[export] Instance socks5_dialogue : Dialogue :=
  { st0 := socks5_new; pl0 := socks5_client_init; spoken := says5; granted := connected; conv := conv5 }.

Implicit Types Q : unit -> list event -> C -> Prop.

Lemma zlen2 (l : bytes) : zlen l = 2 -> exists a b, l = [a; b].
Proof. destruct l as [|a [|b [|x l]]]; unfold zlen; cbn; try lia. by exists a, b. Qed.
Lemma zlen4 (l : bytes) : zlen l = 4 -> exists a b c d, l = [a; b; c; d].
Proof. destruct l as [|a [|b [|c [|d [|x l]]]]]; unfold zlen; cbn; try lia. by exists a, b, c, d. Qed.

(** The watermarks let in just what is expected. *)
Lemma wph_read_all cmp n talk heard tr c (Q : option bytes -> list event -> C -> Prop) : waiting talk heard tr c ->
  cmp n n = true -> zlen (input (relay c)) = n ->
  (forall c', waiting talk (heard ++ input (relay c)) tr c' -> same c c' -> relay c' = (relay c) <| input := [] |> ->
     Q (Some (input (relay c))) tr c') ->
  wph note (redsocks_read_expected cmp n) Q tr c.
Proof.
  intros H Hc Hn HQ. pose proof (zlen_nonneg (input (relay c))). apply (wph_read_expected cmp n talk heard); [done|by rewrite Hn|lia|].
  assert (Ht : take (Z.to_nat n) (input (relay c)) = input (relay c)) by (apply take_ge; unfold zlen in Hn; lia).
  assert (Hd : drop (Z.to_nat n) (input (relay c)) = []) by (apply drop_ge; unfold zlen in Hn; lia).
  rewrite Ht, Hd. exact HQ.
Qed.
Lemma wph_message l r st wm talk heard tr c Q : waiting talk heard tr c -> cbs c = Talking -> (exists talk0 heard0, delivered talk0 heard0 tr) ->
  shut_read (relay c) = false -> input (relay c) = [] -> 0 < wm -> conv5 st (payload c) wm wm (talk ++ l) heard ->
  (forall tr' c', inv tr' c' -> Q tt tr' c') -> wph note (redsocks_write_helper (mkevbuffer r l) st wm) Q tr c.
Proof.
  intros H Hc Hs Hr Hi Hw Hv HQ. unfold redsocks_write_helper, mkevbuffer.
  destruct (memory r); [eapply wph_write_helper; try done; rewrite Hi; unfold zlen; cbn; lia|].
  unfold redsocks_write_helper_ex. hstep. apply wph_use; [apply H|]. by eapply wph_any_drop.
Qed.
Lemma wph_next st wm talk heard tr c Q : waiting talk heard tr c -> cbs c = Talking -> (exists talk0 heard0, delivered talk0 heard0 tr) ->
  shut_read (relay c) = false -> input (relay c) = [] -> 0 < wm -> conv5 st (payload c) wm wm talk heard ->
  (forall tr' c', inv tr' c' -> Q tt tr' c') -> wph note (redsocks_write_helper None st wm) Q tr c.
Proof.
  intros H Hc Hs Hr Hi Hw Hv HQ. eapply wph_write_helper; try done; [rewrite Hi; unfold zlen; cbn; lia|]. by rewrite app_nil_r.
Qed.

Lemma conv5_says st pl lo hi talk heard : conv5 st pl lo hi talk heard -> says5 talk heard.
Proof.
  destruct 1 as [n|pl Ha|pl talk heard Ha|pl talk heard x Ha|dp n talk heard x t l Ha _ _]; try by constructor.
  rewrite <- (app_nil_r heard). by constructor.
Qed.

(** Everything that came is read; the events are still those of [delivered]. *)
Lemma wph_reads cmp n pl talk heard tr c (Q : option bytes -> list event -> C -> Prop) : waiting talk heard tr c -> cbs c = Talking ->
  shut_read (relay c) = false -> zlen (input (relay c)) = n -> cmp n n = true -> says5 talk heard -> payload c = pl ->
  (forall c', waiting talk (heard ++ input (relay c)) tr c' -> cbs c' = Talking -> shut_read (relay c') = false -> input (relay c') = [] ->
     payload c' = pl -> (exists talk0 heard0, delivered talk0 heard0 tr) -> wph note redsocks_drop_client (fun _ => inv) tr c' ->
     Q (Some (input (relay c))) tr c') ->
  wph note (redsocks_read_expected cmp n) Q tr c.
Proof.
  intros H Hc Hr Hn Hcmp Hs Hpl HQ. assert (Hd : exists talk0 heard0, delivered talk0 heard0 tr) by (exists talk, heard; by eapply waiting_delivered).
  eapply wph_read_all; [done|done|done|]. intros c' H' (S1 & S2 & S3 & S4) Hrel.
  apply HQ; [done|congruence|by rewrite Hrel|by rewrite Hrel|congruence|done|by eapply wph_any_drop].
Qed.
Lemma auth_known ver method dp : socks5_is_known_auth_method ver method dp = true -> ver = 5 /\ (method = 0 \/ method = 2 /\ dp = true).
Proof.
  unfold socks5_is_known_auth_method, socks5_ver, socks5_auth_invalid, socks5_auth_none, socks5_auth_password.
  destruct (Z.eqb_spec ver 5), (Z.eqb_spec method 255), (Z.eqb_spec method 0), (Z.eqb_spec method 2), dp; cbn; intros; try done; auto.
Qed.

Lemma reads_methods r n tr c : waiting hello [] tr c -> cbs c = Talking -> shut_read (relay c) = false ->
  zlen (input (relay c)) = 2 -> payload c = mk_socks5 authenticates n -> wph note (socks5_read_auth_methods r) (fun _ => inv) tr c.
Proof.
  intros H Hc Hr Hi Hpl. unfold socks5_read_auth_methods. hstep.
  eapply wph_reads; [done..|constructor|done|]. intros c' H' Hc' Hr' Hi' Hpl' Hd Hdrop.
  apply zlen2 in Hi as (ver & method & Hi). rewrite Hi in *. cbn [app] in H'. do 2 (hstep; hstep; [done|]). do 2 hstep.
  rewrite Hpl'. cbn [do_password]. hstep; [done|]. apply negb_false_iff, auth_known in H0 as (-> & Hm). hstep; [|hstep].
  - assert (method = 0) as -> by (by apply Z.eqb_eq). eapply (wph_message socks5_mkconnect); try done. rewrite Hpl'. do 2 constructor.
  - destruct Hm as [->|[-> Ha]]; [done|]. hstep. hstep; [|].
    + unfold authenticates, socks5_client_init in Ha. done.
    + eapply (wph_message socks5_mkpassword); try done. by constructor.
  - hstep. destruct Hm as [->|[-> _]]; done.
Qed.
Lemma reads_auth r tr c : waiting (hello ++ socks5_mkpassword) [5; 2] tr c -> cbs c = Talking -> shut_read (relay c) = false ->
  zlen (input (relay c)) = 2 -> authenticates = true -> wph note (socks5_read_auth_reply r) (fun _ => inv) tr c.
Proof.
  intros H Hc Hr Hi Ha. unfold socks5_read_auth_reply. hstep.
  eapply wph_reads; [done..|by constructor|done|]. intros c' H' Hc' Hr' Hi' Hpl' Hd Hdrop.
  apply zlen2 in Hi as (ver & status & Hi). rewrite Hi in *. cbn [app] in H'. do 2 (hstep; hstep; [done|]). hstep; [done|]. hstep; [|done].
  assert (ver = 1) as -> by (unfold socks5_password_ver in *; lia). assert (status = 0) as -> by (by apply Z.eqb_eq).
  eapply (wph_message socks5_mkconnect); try done. rewrite <- app_assoc. by do 2 constructor.
Qed.
Lemma asked_says talk heard : asked talk heard -> says5 talk heard.
Proof. intros H. rewrite <- (app_nil_r heard). by constructor. Qed.
Lemma skip_state x t n l dp talk heard : asked talk heard -> 0 < n -> (forall a, zlen a = n -> address t (l ++ a)) ->
  conv5 socks5_skip_address (mk_socks5 dp n) n n talk (heard ++ [5; 0; x; t] ++ l).
Proof. by constructor. Qed.
Lemma waiting_payload f talk heard tr c : waiting talk heard tr c -> waiting talk heard tr (upd payload f c).
Proof. by intros [H1 H2 H3 H4 H5 H6 H7 H8 H9 H10 H11 H12]; split. Qed.
Lemma reads_reply r talk heard tr c : waiting talk heard tr c -> cbs c = Talking -> shut_read (relay c) = false ->
  zlen (input (relay c)) = 4 -> asked talk heard -> wph note (socks5_read_reply r) (fun _ => inv) tr c.
Proof.
  intros H Hc Hr Hi Ha. unfold socks5_read_reply. hstep.
  eapply wph_reads; [done..|by apply asked_says|done|]. intros c' H' Hc' Hr' Hi' Hpl' Hd Hdrop.
  apply zlen4 in Hi as (ver & status & x & t & Hi). rewrite Hi in *. do 3 (hstep; hstep; [done|]). hstep; [done|]. hstep; [|done].
  assert (ver = 5) as -> by (unfold socks5_ver in *; lia). assert (status = 0) as -> by (by apply Z.eqb_eq).
  assert (Hskip : forall n, 0 < n -> (forall a, zlen a = n -> address t a) ->
     wph note (set_to_skip n;; redsocks_write_helper None socks5_skip_address n) (fun _ => inv) tr c').
  { intros n Hn Hadr. unfold set_to_skip. do 2 hstep. eapply wph_next; try done.
    - apply waiting_payload, H'.
    - rewrite <- (app_nil_r (heard ++ [5; 0; x; t])), <- app_assoc. by apply skip_state. }
  hstep; [|hstep; [|hstep; [|done]]].
  - assert (t = 1) as -> by (by apply Z.eqb_eq). apply Hskip; [done|]. by constructor.
  - assert (t = 4) as -> by (by apply Z.eqb_eq). apply Hskip; [done|]. by constructor.
  - assert (t = 3) as -> by (by apply Z.eqb_eq). eapply wph_next; try done. by constructor.
Qed.

#[export] Instance socks5_protocol : RelayProtocol socks5_subsys.
Proof.
  split.
  - constructor.
  - done.
  - destruct 1; done.
  - apply conv5_says.
  - destruct 1; done.
  - intros r tr c H Hc Hst Hpl Hrel. cbn [writecb socks5_subsys]. unfold socks5_write_cb. hstep. apply wph_touch; [apply H|]. do 2 hstep.
    rewrite Hst. cbn. rewrite Hpl. eapply (wph_message hello); rewrite ?Hrel; try done.
    + exists [], []. eapply waiting_delivered; [done|constructor].
    + rewrite Hpl. constructor.
  - intros r talk heard tr c H Hc Hv Hb Hl Hr. cbn [readcb socks5_subsys]. unfold socks5_read_cb. hstep. apply wph_touch; [apply H|]. do 2 hstep.
    remember (state c) as st eqn:Est. remember (payload c) as pl eqn:Epl. remember (read_low (relay c)) as lo. remember (read_high (relay c)) as hi.
    destruct Hv as [n|pl Ha|pl talk heard Ha|pl talk heard x Ha|dp n talk heard x t l Ha Hn Hadr]; 
      cbn [Z.eqb Pos.eqb socks5_method_sent socks5_auth_sent socks5_request_sent socks5_skip_domain socks5_skip_address].
    + eapply reads_methods; try done. lia.
    + apply reads_auth; try done. lia.
    + eapply reads_reply; try done. lia.
    + hstep. eapply wph_reads; [done..|lia|done|by constructor|done|]. intros c' H' Hc' Hr' Hi' Hpl' Hd Hdrop.
      assert (Hi : zlen (input (relay c)) = 1) by lia. pose proof (t_bytes _ _ _ _ H) as Hby.
      destruct (input (relay c)) as [|n [|]]; [done| |unfold zlen in Hi; cbn in Hi; lia]. apply Forall_inv in Hby. unfold byte_ok in Hby.
      hstep. hstep; [done|]. unfold set_to_skip. do 2 hstep. rewrite <- app_assoc in H'.
      eapply wph_next; [by apply waiting_payload|done..|lia| |done]. apply (skip_state x 3 (n + 2) [n]); [done|lia|]. by constructor.
    + hstep. cbn [to_skip]. eapply wph_reads; [done..|lia|unfold sizes_greater_equal; lia|by constructor|done|].
      intros c' H' Hc' Hr' Hi' Hpl' Hd Hdrop. rewrite <- !app_assoc in H'. eapply wph_start_relay; try done; [by constructor|].
      constructor; [done|]. apply Hadr. lia.
  - intros r talk heard tr c H Hc Hv Hb. cbn [writecb socks5_subsys]. unfold socks5_write_cb. hstep. apply wph_touch; [apply H|]. do 2 hstep.
    replace (state c =? socks5_new) with false by (by destruct Hv). hstep. by eapply inv_talking.
Qed.
End socks5.

(** *** The messages are those of the reference dialogue *)

Lemma init_valid login0 password0 : match socks5_instance_init login0 password0 with
  | (Some l, Some p) => zlen l <= 255 /\ zlen p <= 255 | (None, None) => True | _ => False end.
Proof.
  destruct login0 as [l|], password0 as [p|]; cbn; try done.
  destruct (Z.leb_spec (zlen l) 255), (Z.leb_spec (zlen p) 255); cbn; try done; lia.
Qed.
Lemma request_message d : bytes_ok (sin_addr d) /\ zlen (sin_addr d) = 4 -> bytes_ok (sin_port d) /\ zlen (sin_port d) = 2 ->
  socks5_mkconnect d = Socks.request (Socks.IPv4 (le_val (sin_addr d)) (le_val (sin_port d))).
Proof.
  intros [Ha La] [Hp Lp]. unfold Socks.request, Socks.request_address.
  replace 4%nat with (length (sin_addr d)) by (unfold zlen in La; lia). replace 2%nat with (length (sin_port d)) by (unfold zlen in Lp; lia).
  by rewrite !le_bytes_val.
Qed.
Lemma password_message l p : zlen l <= 255 -> zlen p <= 255 -> socks5_mkpassword_plain l p = Socks.password_message (Socks.mk_auth 2 l p).
Proof.
  intros Hl Hp. unfold socks5_mkpassword_plain, Socks.password_message. cbn. pose proof (zlen_nonneg l). pose proof (zlen_nonneg p).
  unfold u8. rewrite !Z.mod_small by lia. done.
Qed.


(** *** Sessions *)

Definition good_luck : luck := mk_luck true (true, true).
Definition localhost : sockaddr_in := mk_sockaddr [127; 0; 0; 1] [0; 80].
(** A proxy without authentication, until the relay begins. *)
Definition handshake : list action :=
  [Connect_relay true; Write Relay 0 true good_luck; Write Relay 3 true good_luck; Read Relay [5; 0] good_luck; Write Relay 10 true good_luck;
   Read Relay [5; 0; 0; 1] good_luck; Read Relay [9; 9; 9; 9; 0; 80] good_luck].
Definition session : list action :=
  handshake ++ [Write Relay 0 true good_luck; Write Client 0 true good_luck; Read Client [1; 2] good_luck; Write Relay 1 true good_luck;
    Read Relay [7] good_luck; Write Client 1 true good_luck].
Definition as_run (login password : option bytes) (late : bool) (acts : list action) : option (redsocks_client * list event) :=
  run (sys := client_system (socks5_subsys login password localhost) late) acts (start socks5_new (socks5_client_init login password)).
Lemma as_run_reach login password late acts c tr : as_run login password late acts = Some (c, tr) ->
  reach (sys := client_system (socks5_subsys login password localhost) late) (start socks5_new (socks5_client_init login password)) tr c.
Proof. apply run_reach. Qed.


(** *** Two flaws *)

(** The environment without errors and without a reason to drop the client. *)
Definition patient (ss : relay_subsys) : System redsocks_client action event := {|
  enabled c a := allowed false c a && match a with Error _ | Drop => false | _ => true end;
  exec := exec_action ss
|}.
Definition forgotten (c : redsocks_client) : Prop :=
  freed c = false /\ cbs c = Talking /\ state c = socks5_method_sent /\ can_read (relay c) = false /\
  shut_write (client c) = false /\ shut_write (relay c) = false.
Lemma forgotten_buf s f c : forgotten c ->
  (let b' := f (buf s c) in shut_write b' = false /\ (s = Relay -> can_read b' = false)) -> forgotten (set_buf s f c).
Proof. intros (Hf & Hc & Hst & Hr & Hw1 & Hw2) [H1 H2]. destruct s; by split_and!; try apply H2. Qed.
Lemma forgotten_callbacks login password d s k r tr c : forgotten c ->
  wph note (call_writecb (socks5_subsys login password d) s k r) (fun _ _ => forgotten) tr c /\
  (s = Client -> wph note (call_readcb (socks5_subsys login password d) s r) (fun _ _ => forgotten) tr c).
Proof.
  intros H. pose proof H as (Hf & Hc & Hst & _). unfold call_writecb, call_readcb. split; [|intros ->]; hstep; (apply wph_use; [done|]); rewrite Hc.
  - destruct s; [by hstep|]. cbn [writecb socks5_subsys]. unfold socks5_write_cb. hstep. apply wph_touch; [done|]. do 2 hstep. rewrite Hst. change (socks5_method_sent =? socks5_new) with false. cbn iota. by hstep.
  - by hstep.
Qed.
Lemma forgotten_step login password d tr c a : forgotten c -> allowed false c a && match a with Error _ | Drop => false | _ => true end = true ->
  wph note (exec_action (socks5_subsys login password d) a) (fun _ _ => forgotten) tr c.
Proof.
  intros H [Ha Hn]%andb_true_iff. pose proof H as (Hf & Hc & Hst & Hr & Hw1 & Hw2). unfold allowed in Ha. rewrite Hf in Ha. cbn [negb andb] in Ha.
  destruct a as [ok|s l r|s|s n k r|s|]; try done.
  - by rewrite Hc in Ha.
  - destruct s; [|cbn [buf] in Ha; by rewrite Hr in Ha]. cbn [exec_action]. unfold on. do 5 hstep. hstep.
    assert (H1 : forgotten (set_buf Client (fun b => b <| input := input b ++ l |>) c)) by (by apply forgotten_buf).
    hstep; [by apply (proj2 (forgotten_callbacks login password d Client true r _ _ H1))|done].
  - assert (Hs : shut_write (buf (other s) c) = false) by (by destruct s). apply wph_eof; [done|done|]. intros t _. cbv zeta.
    replace (state c =? pump_active) with false by (by rewrite Hst). cbn [andb]. apply forgotten_buf; [done|]. by destruct s.
  - cbn [exec_action]. unfold on. do 2 hstep. cbv zeta. do 3 hstep. hstep. set (c1 := set_buf s _ c).
    assert (H1 : forgotten c1) by (apply forgotten_buf; [done|by destruct s]). hstep; [by apply (proj1 (forgotten_callbacks login password d s k r _ _ H1))|done].
Qed.

(** C15: two flaws of the connection.  When the client closes its side just as the relay
    begins, what it sent before is not given to the proxy, which is shut down for
    writing: its output is empty because nothing was moved yet.  And a proxy that
    closes the connection before it answered is not noticed: unless there is an error
    or the client is dropped for another reason, it is neither relayed nor dropped,
    whatever it does, even when it closes its side. *)
Theorem relay_flaws :
  let ss := socks5_subsys None None localhost in
  let c0 := start socks5_new (socks5_client_init None None) in
  (exists tr c, reach (sys := client_system ss true) c0 tr c /\
     received Client tr = [1; 2; 3] /\ sent Relay tr = [5; 1; 0] ++ [5; 1; 0; 1; 127; 0; 0; 1; 0; 80] /\ shut Relay tr = true) /\
  (exists tr c, reach (sys := client_system ss false) c0 tr c /\
     received Relay tr = [] /\ shut_read (relay c) = true /\ forall tr' c', reach (sys := patient ss) c tr' c' -> freed c' = false /\ cbs c' = Talking).
Proof.
  split.
  - assert (H : (fun x => (received Client x.2, sent Relay x.2, shut Relay x.2)) <$> as_run None None true ([Read Client [1; 2; 3] good_luck] ++ handshake ++ [Eof Client]) =
      Some ([1; 2; 3], [5; 1; 0] ++ [5; 1; 0; 1; 127; 0; 0; 1; 0; 80], true)) by by vm_compute.
    apply fmap_Some in H as ([c tr] & Hrun & [= H1 H2 H3]). exists tr, c. split; [exact (as_run_reach _ _ _ _ _ _ Hrun)|done].
  - assert (H : (fun x => (received Relay x.2, shut_read (relay x.1), (freed x.1, cbs x.1, state x.1, can_read (relay x.1), shut_write (client x.1), shut_write (relay x.1)))) <$>
      as_run None None false (take 3 handshake ++ [Eof Relay]) = Some ([], true, (false, Talking, socks5_method_sent, false, false, false))) by by vm_compute.
    apply fmap_Some in H as ([c tr] & Hrun & [= H0 H1 H2 H3 H4 H5 H6 H7]). exists tr, c. split_and!; [exact (as_run_reach _ _ _ _ _ _ Hrun)|done|done|]. intros tr' c' Hr.
    assert (Hfo : forgotten c') by (eapply (reach_inv (sys := patient _) (fun _ => forgotten)); [|by split_and!|exact Hr]; intros; by apply (forgotten_step _ _ _ [])).
    split; apply Hfo.
Qed.
End Socks5.

(** ** SOCKS4 *)

Module Socks4.
Import Socks5.

Definition socks4_new : Z := 0.
Definition socks4_request_sent : Z := 1.
Definition socks4_reply_came : Z := 2.
Definition socks4_ver : Z := 4.
Definition socks4_cmd_connect : Z := 1.
Definition socks4_status_ok : Z := 90.

Section socks4.
Context (login : option bytes) (destaddr : sockaddr_in).
Local Abbreviation C := redsocks_client.

(** The memory of [calloc] ends the login. *)
Definition socks4_mkconnect : bytes :=
  let username := match login with Some l => l | None => [] end in
  [socks4_ver; socks4_cmd_connect] ++ sin_port destaddr ++ sin_addr destaddr ++ username ++ [0].

Definition socks4_read_cb (r : luck) : M C event unit :=
  c ← use;
  assert (socks4_request_sent <=? state c);;
  redsocks_touch_client;;
  if state c =? socks4_request_sent then
    d ← redsocks_read_expected sizes_greater_equal 8;
    match d with
    | None => mret tt
    | Some d =>
        ver ← must (d !! 0%nat);
        status ← must (d !! 1%nat);
        state ::= socks4_reply_came;;
        if negb (ver =? 0) then redsocks_drop_client
        else if status =? socks4_status_ok then redsocks_start_relay (enabled_ok r)
        else redsocks_drop_client
    end
  else mret tt.

Definition socks4_write_cb (r : luck) : M C event unit :=
  redsocks_touch_client;;
  c ← get;
  if state c =? socks4_new then redsocks_write_helper (mkevbuffer r socks4_mkconnect) socks4_request_sent 8
  else if socks4_request_sent <=? state c then bufferevent_disable Relay false true
  else mret tt.

Definition socks4_subsys : relay_subsys := mk_subsys socks4_read_cb socks4_write_cb.
Definition socks4_client_init : Z := socks4_new.
End socks4.

(** *** The dialogue: a request and an answer of eight bytes *)

Inductive socks4_says (request : bytes) : bytes -> bytes -> Prop :=
  | says4_nothing : socks4_says request [] []
  | says4_request answer : socks4_says request request answer.
Inductive socks4_connected (request : bytes) : bytes -> bytes -> Prop :=
  connected4 l : zlen l = 6 -> socks4_connected request request ([0; socks4_status_ok] ++ l).

Section instance.
Context (login : option bytes) (destaddr : sockaddr_in) (pl : socks5_client).
Local Abbreviation request := (socks4_mkconnect login destaddr).
Local Abbreviation C := redsocks_client.

Inductive conv4 : Z -> socks5_client -> Z -> Z -> bytes -> bytes -> Prop :=
  conv4_request_sent pl : conv4 socks4_request_sent pl 8 8 request [].
#[export] Instance socks4_dialogue : Dialogue :=
  { st0 := socks4_new; pl0 := pl; spoken := socks4_says request; granted := socks4_connected request; conv := conv4 }.

Lemma zlen8 (l : bytes) : zlen l = 8 -> exists a b m, l = a :: b :: m /\ zlen m = 6.
Proof. destruct l as [|a [|b m]]; rewrite ?zlen_cons; [done|done|]. exists a, b, m. split; [done|lia]. Qed.
Lemma waiting_state z talk heard tr c : waiting talk heard tr c -> waiting talk heard tr (c <| state := z |>).
Proof. by intros [H1 H2 H3 H4 H5 H6 H7 H8 H9 H10 H11 H12]; split. Qed.

#[export] Instance socks4_protocol : RelayProtocol (socks4_subsys login destaddr).
Proof.
  split.
  - constructor.
  - done.
  - by destruct 1.
  - destruct 1. constructor.
  - by destruct 1.
  - intros r tr c H Hc Hst Hpl Hrel. cbn [writecb socks4_subsys]. unfold socks4_write_cb. hstep. apply wph_touch; [apply H|]. do 2 hstep.
    rewrite Hst. change (st0 =? socks4_new) with true. cbn iota. unfold redsocks_write_helper, mkevbuffer.
    assert (Hd : exists talk0 heard0, delivered talk0 heard0 tr) by (exists [], []; eapply waiting_delivered; [done|constructor]).
    destruct (memory r).
    + by eapply wph_write_helper; rewrite ?Hrel.
    + unfold redsocks_write_helper_ex. hstep. apply wph_use; [apply H|]. by eapply wph_any_drop.
  - intros r talk heard tr c H Hc Hv Hb Hl Hr. cbn [readcb socks4_subsys]. unfold socks4_read_cb. hstep. apply wph_use; [apply H|].
    remember (state c) as st. remember (payload c) as pl'. remember (read_low (relay c)) as lo. remember (read_high (relay c)) as hi.
    destruct Hv. hstep. hstep; [done|]. hstep. apply wph_touch; [apply H|]. cbn [Z.eqb Pos.eqb socks4_request_sent].
    assert (Hd : exists talk0 heard0, delivered talk0 heard0 tr) by (exists request, []; eapply waiting_delivered; [done|constructor]).
    hstep. apply (wph_read_all sizes_greater_equal 8 request []); [done|done|lia|]. intros c' H' (S1 & S2 & S3 & S4) Hrel.
    assert (Hi : zlen (input (relay c)) = 8) by lia. apply zlen8 in Hi as (ver & status & m & Hi & Hm). rewrite Hi in *. cbn [app] in H'.
    hstep. hstep; [done|]. hstep. hstep; [done|]. do 2 hstep. apply (waiting_state socks4_reply_came) in H'.
    assert (Hdrop : wph note redsocks_drop_client (fun _ => inv) tr (c' <| state := socks4_reply_came |>)) by (by eapply wph_any_drop).
    hstep; [done|]. hstep; [|done]. assert (ver = 0) as -> by lia. assert (status = 90) as -> by (by apply Z.eqb_eq).
    eapply wph_start_relay; [done|change (cbs c' = Talking); congruence|constructor|by constructor|done].
  - intros r talk heard tr c H Hc Hv Hb. cbn [writecb socks4_subsys]. unfold socks4_write_cb. hstep. apply wph_touch; [apply H|]. do 2 hstep.
    replace (state c =? socks4_new) with false by (by destruct Hv). replace (socks4_request_sent <=? state c) with true by (by destruct Hv).
    unfold bufferevent_disable, on. hstep. rewrite <- (app_nil_r tr). eapply inv_talking; [|done|exact Hv|done].
    apply waiting_set; [done| |]; [by split_and!; [intros []| |]|]. cbn. split_and!; try done. rewrite andb_true_r. apply (t_read _ _ _ _ H Relay).
Qed.
End instance.

End Socks4.

