(* ===== verification/BTime.v ===== *)
(** Time: [system/BTime.h] and the overflow tests of [misc/overflow.h].

    Times are 64-bit signed milliseconds; an operation that would overflow is
    undefined in C and has no result here.  The answers of the two clocks are
    arguments. *)

From S2P Require Import Prelude.

Definition INT64_MIN : Z := - 2 ^ 63.
Definition INT64_MAX : Z := 2 ^ 63 - 1.

(** A result of signed 64-bit arithmetic: undefined when it does not fit. *)
Definition fits_int64 (x : Z) : bool := (INT64_MIN <=? x) && (x <=? INT64_MAX).
Definition int64 (x : Z) : option Z := if fits_int64 x then Some x else None.

Lemma fits_int64_spec x : fits_int64 x = true <-> INT64_MIN <= x <= INT64_MAX.
Proof. unfold fits_int64. rewrite andb_true_iff, !Z.leb_le. done. Qed.
Lemma int64_Some x : INT64_MIN <= x <= INT64_MAX -> int64 x = Some x.
Proof. intros H. unfold int64. by rewrite (proj2 (fits_int64_spec x) H). Qed.

(** ** misc/overflow.h *)

Section overflow.
Variables MIN MAX : Z.

(** [DEFINE_UNSIGNED_OVERFLOW]; the difference is an unsigned one. *)
Definition add_unsigned_overflows (a b : Z) : bool := (MAX - a) mod (MAX + 1) <? b.

(** [DEFINE_SIGNED_OVERFLOW] *)
Definition add_signed_overflows (a b : Z) : Z :=
  if xorb (a <? 0) (b <? 0) then 0
  else if a <? 0 then - (if a <? MIN - b then 1 else 0)
  else if MAX - b <? a then 1 else 0.

(** The difference that is computed fits as well. *)
Definition signed_overflows_diff (a b : Z) : option Z :=
  if xorb (a <? 0) (b <? 0) then None else Some (if a <? 0 then MIN - b else MAX - b).

Lemma add_unsigned_overflows_spec a b : 0 <= a <= MAX -> 0 <= b <= MAX ->
  add_unsigned_overflows a b = (MAX <? a + b).
Proof.
  intros Ha Hb. unfold add_unsigned_overflows. rewrite Z.mod_small by lia.
  apply eq_bool_prop_intro. rewrite !Is_true_true, !Z.ltb_lt. lia.
Qed.

Lemma add_signed_overflows_spec a b : MIN < 0 <= MAX -> MIN <= a <= MAX -> MIN <= b <= MAX ->
  add_signed_overflows a b = (if MAX <? a + b then 1 else if a + b <? MIN then -1 else 0).
Proof.
  intros Hm Ha Hb. unfold add_signed_overflows.
  repeat match goal with |- context [?x <? ?y] => destruct (Z.ltb_spec x y) end; cbn; lia.
Qed.
Lemma signed_overflows_diff_ok a b d : MIN < 0 <= MAX -> MIN <= a <= MAX -> MIN <= b <= MAX ->
  signed_overflows_diff a b = Some d -> MIN <= d <= MAX.
Proof.
  intros Hm Ha Hb. unfold signed_overflows_diff.
  repeat match goal with |- context [?x <? ?y] => destruct (Z.ltb_spec x y) end; cbn; [|done..|];
    intros [= <-]; lia.
Qed.
End overflow.

Definition add_int64_overflows : Z -> Z -> Z := add_signed_overflows INT64_MIN INT64_MAX.

(** ** BTime.h *)

Record BTime_global := mk_btime { start_time : Z; use_gettimeofday : bool }.

(** A [timespec] counts nanoseconds, a [timeval] microseconds. *)
Definition timespec_ms (ts : Z * Z) : option Z :=
  s ← int64 (ts.1 * 1000); int64 (s + ts.2 ÷ 1000000).
Definition timeval_ms (tv : Z * Z) : option Z :=
  s ← int64 (tv.1 * 1000); int64 (s + tv.2 ÷ 1000).

(** [ts] is the answer of [clock_gettime], [None] when it fails. *)
Definition BTime_Init (ts : option (Z * Z)) (tv : Z * Z) : option BTime_global :=
  match ts with
  | None => t ← timeval_ms tv; Some (mk_btime t true)
  | Some ts => t ← timespec_ms ts; Some (mk_btime t false)
  end.

Definition btime_gettime (g : BTime_global) (ts tv : Z * Z) : option Z :=
  if use_gettimeofday g then timeval_ms tv
  else t ← timespec_ms ts; int64 (t - start_time g).

Definition btime_add (t1 t2 : Z) : option Z :=
  let overflows := add_int64_overflows t1 t2 in
  if negb (overflows =? 0) then
    if 0 <? overflows then Some INT64_MAX else Some INT64_MIN
  else int64 (t1 + t2).

Definition btime_getpast : Z := INT64_MIN.

(** A time of the monotonic clock; seconds stay below 2^50. *)
Definition timespec_ok (ts : Z * Z) : Prop := 0 <= ts.1 < 2 ^ 50 /\ 0 <= ts.2 < 1000000000.
Definition timespec_le (a b : Z * Z) : Prop := a.1 < b.1 \/ (a.1 = b.1 /\ a.2 <= b.2).

Lemma timespec_ms_ok ts : timespec_ok ts ->
  timespec_ms ts = Some (ts.1 * 1000 + ts.2 / 1000000) /\
  0 <= ts.1 * 1000 + ts.2 / 1000000 < 2 ^ 61.
Proof.
  intros [H1 H2]. unfold timespec_ms. rewrite Z.quot_div_nonneg by lia.
  assert (0 <= ts.2 / 1000000 < 1000) by (Z.to_euclidean_division_equations; lia).
  rewrite int64_Some by (unfold INT64_MIN, INT64_MAX; lia). cbn.
  rewrite int64_Some by (unfold INT64_MIN, INT64_MAX; lia). split; [done|lia].
Qed.

(** The monotonic clock gives non-negative times that do not decrease. *)
Lemma btime_gettime_mono ts0 tv0 ts1 ts2 tv1 tv2 :
  timespec_ok ts0 -> timespec_ok ts1 -> timespec_ok ts2 ->
  timespec_le ts0 ts1 -> timespec_le ts1 ts2 ->
  exists g t1 t2, BTime_Init (Some ts0) tv0 = Some g /\
    btime_gettime g ts1 tv1 = Some t1 /\ btime_gettime g ts2 tv2 = Some t2 /\ 0 <= t1 <= t2.
Proof.
  intros H0 H1 H2 H01 H12. pose proof (timespec_ms_ok _ H0) as [E0 ?].
  pose proof (timespec_ms_ok _ H1) as [E1 ?]. pose proof (timespec_ms_ok _ H2) as [E2 ?].
  unfold BTime_Init. rewrite E0. cbn. eexists _, _, _. split; [done|]. unfold btime_gettime.
  cbn [use_gettimeofday start_time]. rewrite E1, E2. cbn.
  rewrite !int64_Some by (unfold INT64_MIN, INT64_MAX; lia).
  split_and!; [done|done|..]; unfold timespec_ok, timespec_le in *;
    Z.to_euclidean_division_equations; lia.
Qed.

(** Sums saturate: the wake-up time of a long timeout is the end of time and
    not a time in the past. *)
Lemma btime_add_saturates t1 t2 :
  INT64_MIN <= t1 <= INT64_MAX -> INT64_MIN <= t2 <= INT64_MAX ->
  btime_add t1 t2 = Some (Z.max INT64_MIN (Z.min INT64_MAX (t1 + t2))).
Proof.
  intros H1 H2. unfold btime_add, add_int64_overflows.
  rewrite add_signed_overflows_spec by (done || (unfold INT64_MIN, INT64_MAX; lia)).
  destruct (Z.ltb_spec INT64_MAX (t1 + t2)); cbn; [f_equal; unfold INT64_MIN, INT64_MAX in *; lia|].
  destruct (Z.ltb_spec (t1 + t2) INT64_MIN); cbn; [f_equal; unfold INT64_MIN, INT64_MAX in *; lia|].
  rewrite int64_Some by lia. f_equal. lia.
Qed.
