(* ===== verification/ReactorTimers.v ===== *)
(** The timers of the reactor: the timer part of [system/BReactor_badvpn.c].

    Timers are identified by the address of their [BSmallTimer], which for a
    heavy [BTimer] is also the address of its first member.  The running
    timers are in a tree sorted by expiration time and address, which is any
    tree [T] with the laws of [OrdTree]; the expired ones wait in a list for
    their handlers.  The clock is an argument of the operations that read it. *)

From S2P Require Import Prelude System OrdTree CArith BTime.

Definition TIMER_STATE_INACTIVE : Z := 1.
Definition TIMER_STATE_RUNNING : Z := 2.
Definition TIMER_STATE_EXPIRED : Z := 3.
Definition BTIMER_SET_ABSOLUTE : Z := 1.
Definition BTIMER_SET_RELATIVE : Z := 2.

Record BSmallTimer := mk_tm { handler : Z; is_small : bool; state : Z; absTime : Z }.
#[export] Instance eta_tm : Eta BSmallTimer := fun t =>
  mk_tm (handler t) (is_small t) (state t) (absTime t).

(** The members of a [BTimer] after its base. *)
Record BTimer := mk_btm { user : Z; msTime : Z }.

Record Timers (T : Type -> Type) := mk_tms {
  timers_tree : T Z;
  timers_expired_list : list Z;
  timers : gmap Z BSmallTimer;  (* the timer objects *)
  heavy : gmap Z BTimer         (* the heavy timers among them *)
}.
Arguments mk_tms {T}. Arguments timers_tree {T}. Arguments timers_expired_list {T}.
Arguments timers {T}. Arguments heavy {T}.
#[export] Instance eta_tms T : Eta (Timers T) := fun m =>
  mk_tms (timers_tree m) (timers_expired_list m) (timers m) (heavy m).

(** The call of a timer's handler. *)
Inductive timer_event :=
  | SmallHandler (timer handler : Z)
  | HeavyHandler (timer handler user : Z).

Section operations.
Context {T : Type -> Type} `{!OrdTree T}.
Local Abbreviation M := (M (Timers T) timer_event).
Implicit Types m : Timers T.

Definition time_of m (o : Z) : Z := default 0 (absTime <$> timers m !! o).
(** The value [compare_timers] compares. *)
Definition key m (o : Z) : Z * Z := (time_of m o, o).
Definition compare_timers m (t1 t2 : Z) : Z := compare_pair (key m t1) (key m t2).

Definition get_timer (o : Z) : M BSmallTimer := ts ← gets timers; must (ts !! o).
Definition on_timer (o : Z) (f : BSmallTimer -> BSmallTimer) : M unit :=
  t ← get_timer o;
  modify (upd timers <[o := f t]>).
Definition set_state (s : Z) : BSmallTimer -> BSmallTimer := upd state (fun _ => s).
Definition set_absTime (time : Z) : BSmallTimer -> BSmallTimer := upd absTime (fun _ => time).

(** [BReactor__TimersTree_GetFirst], [_Insert] and [_Remove]. *)
Definition tree_first : M (option Z) := gets (fun m => ot_first (timers_tree m)).
Definition tree_insert (o : Z) : M bool :=
  m ← get;
  r ← must (ot_insert compare_pair (key m) o (timers_tree m));
  timers_tree ::= r.2;;
  mret r.1.
Definition tree_remove (o : Z) : M unit :=
  m ← get;
  t ← must (ot_remove o (timers_tree m));
  timers_tree ::= t.

(** [LinkedList1_Append] and [LinkedList1_Remove] on the expired list. *)
Definition expired_append (o : Z) : M unit := modify (upd timers_expired_list (fun l => l ++ [o])).
Definition expired_remove (o : Z) : M unit :=
  l ← gets timers_expired_list;
  assert (bool_decide (o ∈ l));;
  modify (upd timers_expired_list (filter (fun j => j <> o))).

Definition assert_timer (o : Z) : M unit :=
  t ← get_timer o;
  assert ((state t =? TIMER_STATE_INACTIVE) || (state t =? TIMER_STATE_RUNNING) ||
          (state t =? TIMER_STATE_EXPIRED)).

(** The steps the two loops share: a running timer expires. *)
Definition expire (timer : Z) : M unit :=
  tree_remove timer;;
  expired_append timer;;
  on_timer timer (set_state TIMER_STATE_EXPIRED).

(** The loop of [move_expired_timers]; every round takes a timer from the tree,
    so that [fuel] rounds are enough for a tree of fewer timers. *)
Fixpoint move_expired_loop (fuel : nat) (now : Z) (moved : bool) : M bool :=
  match fuel with
  | O => ub
  | S fuel =>
      first ← tree_first;
      match first with
      | None => mret moved
      | Some timer =>
          t ← get_timer timer;
          assert (state t =? TIMER_STATE_RUNNING);;
          if now <? absTime t then mret moved else
          expire timer;;
          move_expired_loop fuel now true
      end
  end.
Definition move_expired_timers (now : Z) : M bool :=
  m ← get;
  move_expired_loop (S (length (ot_elems (timers_tree m)))) now false.

Fixpoint move_first_loop (fuel : nat) (first_time : Z) : M unit :=
  match fuel with
  | O => ub
  | S fuel =>
      first ← tree_first;
      match first with
      | None => mret tt
      | Some timer =>
          t ← get_timer timer;
          assert (state t =? TIMER_STATE_RUNNING);;
          assert (first_time <=? absTime t);;
          if first_time <? absTime t then mret tt else
          expire timer;;
          move_first_loop fuel first_time
      end
  end.
Definition move_first_timers : M unit :=
  m ← get;
  first ← tree_first;
  first_timer ← must first;
  t ← get_timer first_timer;
  assert (state t =? TIMER_STATE_RUNNING);;
  expire first_timer;;
  move_first_loop (S (length (ot_elems (timers_tree m)))) (absTime t).

Definition BSmallTimer_Init (o handler : Z) : M unit :=
  modify (upd timers <[o := mk_tm handler true TIMER_STATE_INACTIVE 0]>).
Definition BSmallTimer_IsRunning (o : Z) : M bool :=
  assert_timer o;;
  t ← get_timer o;
  mret (negb (state t =? TIMER_STATE_INACTIVE)).
Definition BTimer_Init (o msTime handler user : Z) : M unit :=
  modify (upd timers <[o := mk_tm handler false TIMER_STATE_INACTIVE 0]>);;
  modify (upd heavy <[o := mk_btm user msTime]>).
Definition BTimer_IsRunning : Z -> M bool := BSmallTimer_IsRunning.

Definition BReactor_RemoveSmallTimer (o : Z) : M unit :=
  assert_timer o;;
  t ← get_timer o;
  if state t =? TIMER_STATE_INACTIVE then mret tt else
  (if state t =? TIMER_STATE_EXPIRED then expired_remove o else tree_remove o);;
  on_timer o (set_state TIMER_STATE_INACTIVE).

(** [now] is what [btime_gettime] returns. *)
Definition BReactor_SetSmallTimer (o mode time now : Z) : M unit :=
  assert_timer o;;
  assert ((mode =? BTIMER_SET_ABSOLUTE) || (mode =? BTIMER_SET_RELATIVE));;
  BReactor_RemoveSmallTimer o;;
  time ← (if mode =? BTIMER_SET_RELATIVE then must (btime_add now time) else mret time);
  on_timer o (set_absTime time);;
  on_timer o (set_state TIMER_STATE_RUNNING);;
  res ← tree_insert o;
  assert res.

Definition get_heavy (o : Z) : M BTimer := hs ← gets heavy; must (hs !! o).
Definition BReactor_SetTimer (o now : Z) : M unit :=
  bt ← get_heavy o;
  BReactor_SetSmallTimer o BTIMER_SET_RELATIVE (msTime bt) now.
Definition BReactor_SetTimerAfter (o after now : Z) : M unit :=
  BReactor_SetSmallTimer o BTIMER_SET_RELATIVE after now.
Definition BReactor_SetTimerAbsolute (o time now : Z) : M unit :=
  BReactor_SetSmallTimer o BTIMER_SET_ABSOLUTE time now.
Definition BReactor_RemoveTimer (o : Z) : M unit := BReactor_RemoveSmallTimer o.

(** The timer branch of [BReactor_Exec]; [true] when a handler was called. *)
Definition dispatch_timer : M bool :=
  l ← gets timers_expired_list;
  match head l with
  | None => mret false
  | Some timer =>
      t ← get_timer timer;
      assert (state t =? TIMER_STATE_EXPIRED);;
      expired_remove timer;;
      on_timer timer (set_state TIMER_STATE_INACTIVE);;
      (if is_small t then emit (SmallHandler timer (handler t))
       else bt ← get_heavy timer; emit (HeavyHandler timer (handler t) (user bt)));;
      mret true
  end.

(** A timer object goes away; its user has stopped it before. *)
Definition timer_release (o : Z) : M unit :=
  modify (upd timers (delete o));; modify (upd heavy (delete o)).
Definition timer_idle m (o : Z) : bool :=
  match timers m !! o with Some t => state t =? TIMER_STATE_INACTIVE | None => false end.
End operations.

(** * The invariant *)

Section invariant.
Context {T : Type -> Type} `{!OrdTree T}.
Implicit Types m : Timers T.

(** The state of a timer says where it is. *)
Record timer_ok m (o : Z) (t : BSmallTimer) : Prop := {
  to_state : state t = TIMER_STATE_INACTIVE \/ state t = TIMER_STATE_RUNNING \/ state t = TIMER_STATE_EXPIRED;
  to_running : o ∈ ot_elems (timers_tree m) <-> state t = TIMER_STATE_RUNNING;
  to_expired : o ∈ timers_expired_list m <-> state t = TIMER_STATE_EXPIRED;
  to_time : INT64_MIN <= absTime t <= INT64_MAX;
  to_heavy : is_small t = false -> is_Some (heavy m !! o)
}.

(** [clock] is the present time: no timer expires before its time. *)
Record timers_inv (clock : Z) m : Prop := {
  ti_tree : ot_wf (timers_tree m);
  ti_sorted : sorted compare_pair (key m) (ot_elems (timers_tree m));
  ti_timers : forall o t, timers m !! o = Some t -> timer_ok m o t;
  ti_dom : forall o, o ∈ ot_elems (timers_tree m) \/ o ∈ timers_expired_list m -> is_Some (timers m !! o);
  ti_expired : sorted compare_pair (key m) (timers_expired_list m);
  ti_due : forall o, o ∈ timers_expired_list m -> time_of m o <= clock
}.

(** The timers [l1] leave the front of the tree for the expired list. *)
Record moves m (l1 l2 : list Z) (m' : Timers T) : Prop := {
  mv_before : ot_elems (timers_tree m) = l1 ++ l2;
  mv_after : ot_elems (timers_tree m') = l2;
  mv_expired : timers_expired_list m' = timers_expired_list m ++ l1;
  mv_time : forall o, time_of m' o = time_of m o
}.
End invariant.

Definition timers_init {T : Type -> Type} `{!OrdTree T} : Timers T := mk_tms ot_empty [] ∅ ∅.

Section laws.
Context {T : Type -> Type} `{!OrdTree T} `{!OrdTreeLaws T}.
Implicit Types m : Timers T.

Lemma timers_inv_init clock : timers_inv (T:=T) clock timers_init.
Proof.
  constructor; cbn; rewrite ?ot_empty_elems.
  - apply ot_empty_wf.
  - constructor.
  - done.
  - intros o [H|H]; by apply elem_of_nil in H.
  - constructor.
  - intros o H; by apply elem_of_nil in H.
Qed.

Lemma timers_inv_clock clock clock' m : timers_inv clock m -> clock <= clock' -> timers_inv clock' m.
Proof. intros [] ?. constructor; try done. intros o Ho. specialize (ti_due0 o Ho). lia. Qed.

Lemma timer_time_of m o t : timers m !! o = Some t -> time_of m o = absTime t.
Proof. intros H. unfold time_of. by rewrite H. Qed.

Lemma timers_sorted_key m m' l :
  (forall o, o ∈ l -> time_of m' o = time_of m o) ->
  sorted compare_pair (key m) l -> sorted compare_pair (key m') l.
Proof. intros H. apply sorted_ext. intros a b Ha Hb. unfold before, key. by rewrite !H. Qed.

Lemma before_time m a b : before compare_pair (key m) a b -> time_of m a <= time_of m b.
Proof. unfold before. intros H%compare_pair_lt. cbn in H. lia. Qed.

(** One timer changes, and with it only its own place. *)
Lemma inv_change clock m m' o t' :
  timers_inv clock m -> timers m' = <[o := t']> (timers m) ->
  (forall x, is_Some (heavy m !! x) -> is_Some (heavy m' !! x)) ->
  ot_wf (timers_tree m') ->
  sorted compare_pair (key m') (ot_elems (timers_tree m')) ->
  sorted compare_pair (key m') (timers_expired_list m') ->
  (forall x, x <> o -> x ∈ ot_elems (timers_tree m') <-> x ∈ ot_elems (timers_tree m)) ->
  (forall x, x <> o -> x ∈ timers_expired_list m' <-> x ∈ timers_expired_list m) ->
  timer_ok m' o t' -> (o ∈ timers_expired_list m' -> absTime t' <= clock) ->
  timers_inv clock m'.
Proof.
  intros [Hw Hs Ht Hd He Hdue] Heq Hh Hw' Hs' He' Htree Hexp Hok Hclock.
  assert (Hother : forall x, x <> o -> timers m' !! x = timers m !! x)
    by (intros; by rewrite Heq, lookup_insert_ne by done).
  constructor; [done|done| | |done|].
  - intros x t. destruct (decide (x = o)) as [->|Hne].
    + rewrite Heq, lookup_insert_eq. by intros [= <-].
    + rewrite Hother by done. intros Hx. destruct (Ht x t Hx).
      constructor; rewrite ?Htree, ?Hexp by done; auto.
  - intros x Hx. destruct (decide (x = o)) as [->|Hne]; [rewrite Heq, lookup_insert_eq; eauto|].
    rewrite Hother by done. apply Hd. by rewrite <- Htree, <- Hexp.
  - intros x Hx. unfold time_of. destruct (decide (x = o)) as [->|Hne].
    + rewrite Heq, lookup_insert_eq. cbn. auto.
    + rewrite Hother by done. apply Hdue. by apply Hexp.
Qed.

(** Where a timer is, by its state. *)
Lemma timer_lists clock m o t : timers_inv clock m -> timers m !! o = Some t ->
  (state t = TIMER_STATE_RUNNING <-> o ∈ ot_elems (timers_tree m)) /\
  (state t = TIMER_STATE_EXPIRED <-> o ∈ timers_expired_list m).
Proof. intros Hi Ht. destruct (ti_timers _ _ Hi _ _ Ht). tauto. Qed.

Lemma tree_timer clock m o : timers_inv clock m -> o ∈ ot_elems (timers_tree m) ->
  exists t, timers m !! o = Some t /\ state t = TIMER_STATE_RUNNING /\ INT64_MIN <= absTime t <= INT64_MAX.
Proof.
  intros Hi Ho. destruct (ti_dom _ _ Hi o) as [t Ht]; [auto|]. exists t.
  destruct (ti_timers _ _ Hi _ _ Ht). tauto.
Qed.

Lemma wp_get_timer o t m (P : BSmallTimer -> Timers T -> list timer_event -> Prop) :
  timers m !! o = Some t -> P t m [] -> wp (get_timer o) P m.
Proof. intros. unfold get_timer. by mgo. Qed.
Lemma wp_on_timer o f t m (P : unit -> Timers T -> list timer_event -> Prop) :
  timers m !! o = Some t -> P tt (upd timers <[o := f t]> m) [] -> wp (on_timer o f) P m.
Proof. intros. unfold on_timer. mstep. eapply wp_get_timer; [done|]. by mgo. Qed.

Lemma wp_assert_timer clock o t m (P : unit -> Timers T -> list timer_event -> Prop) :
  timers_inv clock m -> timers m !! o = Some t -> P tt m [] -> wp (assert_timer o) P m.
Proof.
  intros Hi Ht HP. unfold assert_timer. mstep. eapply wp_get_timer; [done|]. mstep; [|done].
  destruct (to_state _ _ _ (ti_timers _ _ Hi _ _ Ht)) as [->|[->| ->]]; done.
Qed.

Lemma wp_expire o t l m (P : unit -> Timers T -> list timer_event -> Prop) :
  ot_wf (timers_tree m) -> ot_elems (timers_tree m) = o :: l -> timers m !! o = Some t ->
  (forall tr, ot_wf tr -> ot_elems tr = l ->
     P tt (mk_tms tr (timers_expired_list m ++ [o]) (<[o := set_state TIMER_STATE_EXPIRED t]> (timers m)) (heavy m)) []) ->
  wp (expire o) P m.
Proof.
  intros Hw He Ht HP. unfold expire, tree_remove, expired_append.
  destruct (ot_remove_in o (timers_tree m) [] l) as (tr & Hr & Hw' & He'); [done|done|set_solver|].
  mgo. eapply wp_on_timer; [exact Ht|]. by apply HP.
Qed.

(** One round of the loops keeps the invariant. *)
Lemma expire_inv clock m o t l tr :
  timers_inv clock m -> sorted compare_pair (key m) (timers_expired_list m ++ ot_elems (timers_tree m)) ->
  ot_elems (timers_tree m) = o :: l -> timers m !! o = Some t -> absTime t <= clock ->
  ot_wf tr -> ot_elems tr = l ->
  let m' := mk_tms tr (timers_expired_list m ++ [o])
              (<[o := set_state TIMER_STATE_EXPIRED t]> (timers m)) (heavy m) in
  timers_inv clock m' /\ moves m [o] l m' /\
  sorted compare_pair (key m') (timers_expired_list m' ++ ot_elems (timers_tree m')).
Proof.
  intros Hi Hs He Ht Hc Hw Hl m'.
  assert (Hkey : forall x, time_of m' x = time_of m x).
  { intros x. unfold time_of, m'. cbn. destruct (decide (x = o)) as [->|];
      [by rewrite lookup_insert_eq, Ht|by rewrite lookup_insert_ne]. }
  assert (Hs' : sorted compare_pair (key m') (timers_expired_list m' ++ ot_elems (timers_tree m'))).
  { apply (timers_sorted_key m); [by intros; apply Hkey|]. cbn. rewrite Hl, <- app_assoc.
    change ([o] ++ l) with (o :: l). by rewrite <- He. }
  split_and!; [|constructor; cbn; rewrite ?He; done|done].
  pose proof (sorted_NoDup _ _ _ Hs) as Hnd. rewrite He in Hnd.
  apply NoDup_app in Hnd as (_ & Hdis & [Ho _]%NoDup_cons).
  pose proof Hs' as (Hs1 & Hs2 & _)%sorted_app.
  apply (inv_change clock m m' o (set_state TIMER_STATE_EXPIRED t)); try done; cbn; rewrite ?Hl.
  - intros x Hx. rewrite He, elem_of_cons. naive_solver.
  - intros x Hx. rewrite elem_of_app, list_elem_of_singleton. naive_solver.
  - destruct (ti_timers _ _ Hi _ _ Ht). constructor; cbn; [auto| | |done|done].
    + rewrite Hl. split; [done|]. intros [=].
    + rewrite elem_of_app, list_elem_of_singleton. naive_solver.
Qed.
(** ** The loops *)

Lemma moves_nil m : moves m [] (ot_elems (timers_tree m)) m.
Proof. constructor; rewrite ?app_nil_r; done. Qed.
Lemma moves_cons m o l m1 l1 l2 m' : moves m [o] l m1 -> moves m1 l1 l2 m' -> moves m (o :: l1) l2 m'.
Proof.
  intros [B1 A1 E1 T1] [B2 A2 E2 T2]. constructor; [|done| |].
  - by rewrite B1, <- A1, B2.
  - by rewrite E2, E1, <- app_assoc.
  - intros x. by rewrite T2, T1.
Qed.

(** What both loops end with: the timers up to [bound] have expired. *)
Definition expired_up_to (bound clock : Z) m (l1 : list Z) (m' : Timers T) : Prop :=
  exists l2, moves m l1 l2 m' /\ timers_inv clock m' /\
    (forall o, o ∈ l1 -> time_of m o <= bound) /\ (forall o, o ∈ l2 -> bound < time_of m o).

Lemma expired_up_to_cons bound clock m o l m1 l1 m' :
  moves m [o] l m1 -> time_of m o <= bound -> expired_up_to bound clock m1 l1 m' ->
  expired_up_to bound clock m (o :: l1) m'.
Proof.
  intros Hm Ho (l2 & Hm' & Hi & H1 & H2). exists l2. split_and!; [by eapply moves_cons|done| |].
  - intros x [->|Hx]%elem_of_cons; [done|]. rewrite <- (mv_time _ _ _ _ Hm). auto.
  - intros x Hx. rewrite <- (mv_time _ _ _ _ Hm). auto.
Qed.
(** The loop stops at the first timer in the future. *)
Lemma expired_up_to_nil bound clock m :
  timers_inv clock m ->
  match head (ot_elems (timers_tree m)) with Some o => bound < time_of m o | None => True end ->
  expired_up_to bound clock m [] m.
Proof.
  intros Hi Hh. eexists. split_and!; [apply moves_nil|done|by intros ? ?%elem_of_nil|].
  pose proof (ti_sorted _ _ Hi) as Hs. destruct (ot_elems (timers_tree m)) as [|a l]; [by intros ? ?%elem_of_nil|].
  cbn in Hh. apply StronglySorted_inv in Hs as [_ Hs]. rewrite Forall_forall in Hs.
  intros o [->|Ho]%elem_of_cons; [done|]. pose proof (before_time _ _ _ (Hs _ Ho)). lia.
Qed.

Lemma wp_move_expired_loop fuel now moved m (P : bool -> Timers T -> list timer_event -> Prop) :
  (length (ot_elems (timers_tree m)) < fuel)%nat -> timers_inv now m ->
  sorted compare_pair (key m) (timers_expired_list m ++ ot_elems (timers_tree m)) ->
  (forall l1 m', expired_up_to now now m l1 m' -> P (moved || negb (bool_decide (l1 = []))) m' []) ->
  wp (move_expired_loop fuel now moved) P m.
Proof.
  revert moved m P. induction fuel as [|fuel IH]; intros moved m P Hf Hi Hs HP; [lia|].
  cbn [move_expired_loop]. unfold tree_first. mgo. rewrite ot_first_spec.
  assert (Hstop : expired_up_to now now m [] m -> P moved m []).
  { intros He. specialize (HP _ _ He). by rewrite bool_decide_true, orb_false_r in HP. }
  destruct (ot_elems (timers_tree m)) as [|o l] eqn:He; cbn [head].
  { mgo. apply Hstop, expired_up_to_nil; [done|]. by rewrite He. }
  destruct (tree_timer _ _ o Hi) as (t & Ht & Hst & Hr); [rewrite He; left|].
  mstep. eapply wp_get_timer; [done|]. mgo. mstep; b2p.
  { mgo. apply Hstop, expired_up_to_nil; [done|]. rewrite He. cbn. by rewrite (timer_time_of _ _ _ Ht). }
  mstep. eapply wp_expire; [apply Hi|done|done|]. intros tr Hw Hl.
  rewrite <- He in Hs.
  destruct (expire_inv now m o t l tr Hi Hs He Ht) as (Hi' & Hm & Hs'); [lia|done|done|].
  apply IH; [cbn in *; rewrite Hl; lia|done|done|]. intros l1 m' Hup.
  specialize (HP (o :: l1) m'). rewrite orb_true_l. rewrite bool_decide_false, orb_true_r in HP by done.
  apply HP. eapply expired_up_to_cons; [done| |done].
  rewrite (timer_time_of _ _ _ Ht). lia.
Qed.

Lemma wp_move_expired now m (P : bool -> Timers T -> list timer_event -> Prop) :
  timers_inv now m -> timers_expired_list m = [] ->
  (forall l1 m', expired_up_to now now m l1 m' -> P (negb (bool_decide (l1 = []))) m' []) ->
  wp (move_expired_timers now) P m.
Proof.
  intros Hi He HP. unfold move_expired_timers. mstep. mstep.
  apply wp_move_expired_loop; [lia|done| |exact HP]. rewrite He. apply Hi.
Qed.

Lemma wp_move_first_loop fuel first clock m (P : unit -> Timers T -> list timer_event -> Prop) :
  (length (ot_elems (timers_tree m)) < fuel)%nat -> timers_inv clock m -> first <= clock ->
  sorted compare_pair (key m) (timers_expired_list m ++ ot_elems (timers_tree m)) ->
  (forall o, o ∈ ot_elems (timers_tree m) -> first <= time_of m o) ->
  (forall l1 m', expired_up_to first clock m l1 m' -> P tt m' []) ->
  wp (move_first_loop fuel first) P m.
Proof.
  revert m P. induction fuel as [|fuel IH]; intros m P Hf Hi Hfc Hs Hmin HP; [lia|].
  cbn [move_first_loop]. unfold tree_first. mgo. rewrite ot_first_spec.
  destruct (ot_elems (timers_tree m)) as [|o l] eqn:He; cbn [head].
  { mgo. eapply HP, expired_up_to_nil; [done|]. by rewrite He. }
  destruct (tree_timer _ _ o Hi) as (t & Ht & Hst & Hr); [rewrite He; left|].
  assert (Hge : first <= absTime t) by (rewrite <- (timer_time_of _ _ _ Ht); apply Hmin; left).
  mstep. eapply wp_get_timer; [done|]. mgo. mstep; b2p.
  { mgo. eapply HP, expired_up_to_nil; [done|]. rewrite He. cbn. by rewrite (timer_time_of _ _ _ Ht). }
  mstep. eapply wp_expire; [apply Hi|done|done|]. intros tr Hw Hl.
  rewrite <- He in Hs.
  destruct (expire_inv clock m o t l tr Hi Hs He Ht) as (Hi' & Hm & Hs'); [lia|done|done|].
  apply IH; [cbn in *; rewrite Hl; lia|done|done|done| |].
  - cbn. rewrite Hl. intros x Hx. rewrite (mv_time _ _ _ _ Hm). apply Hmin. by right.
  - intros l1 m' Hup. apply (HP (o :: l1) m'). eapply expired_up_to_cons; [done| |done].
    rewrite (timer_time_of _ _ _ Ht). lia.
Qed.

(** [first] is the time of the first timer, which has come. *)
Lemma wp_move_first o l clock m (P : unit -> Timers T -> list timer_event -> Prop) :
  timers_inv clock m -> timers_expired_list m = [] ->
  ot_elems (timers_tree m) = o :: l -> time_of m o <= clock ->
  (forall l1 m', expired_up_to (time_of m o) clock m (o :: l1) m' -> P tt m' []) ->
  wp move_first_timers P m.
Proof.
  intros Hi Hx He Hc HP. unfold move_first_timers, tree_first.
  destruct (tree_timer _ _ o Hi) as (t & Ht & Hst & Hr); [rewrite He; left|].
  mgo. rewrite ot_first_spec, He. mgo.
  eapply wp_get_timer; [done|]. mgo.
  eapply wp_expire; [apply Hi|done|done|]. intros tr Hw Hl.
  rewrite (timer_time_of _ _ _ Ht) in Hc.
  assert (Hs : sorted compare_pair (key m) (timers_expired_list m ++ ot_elems (timers_tree m)))
    by (rewrite Hx; apply Hi).
  destruct (expire_inv clock m o t l tr Hi Hs He Ht) as (Hi' & Hm & Hs'); [lia|done|done|].
  apply wp_move_first_loop with (clock := clock); [cbn in *; rewrite Hl; lia|done|done|done| |].
  - cbn. rewrite Hl. intros x Hin. rewrite (mv_time _ _ _ _ Hm), <- (timer_time_of _ _ _ Ht).
    pose proof (ti_sorted _ _ Hi) as Hso. rewrite He in Hso.
    apply StronglySorted_inv in Hso as [_ Hso]. rewrite Forall_forall in Hso. by apply before_time, Hso.
  - intros l1 m' Hup. apply (HP l1 m'). rewrite (timer_time_of _ _ _ Ht).
    eapply expired_up_to_cons; [done| |done]. rewrite (timer_time_of _ _ _ Ht). lia.
Qed.
(** ** The operations *)

(** Timer [o], now [t'], is taken off the lists. *)
Definition off_lists (o : Z) (t' : BSmallTimer) m (m' : Timers T) : Prop :=
  timers m' = <[o := t']> (timers m) /\ heavy m' = heavy m /\ ot_wf (timers_tree m') /\
  ot_elems (timers_tree m') = filter (fun j => j <> o) (ot_elems (timers_tree m)) /\
  timers_expired_list m' = filter (fun j => j <> o) (timers_expired_list m).

Lemma off_lists_inv clock o t m m' :
  timers_inv clock m -> timers m !! o = Some t ->
  off_lists o (set_state TIMER_STATE_INACTIVE t) m m' -> timers_inv clock m'.
Proof.
  intros Hi Ht (Hts & Hh & Hw & He & Hx). destruct (ti_timers _ _ Hi _ _ Ht).
  assert (Hkey : forall x, time_of m' x = time_of m x).
  { intros x. unfold time_of. rewrite Hts. destruct (decide (x = o)) as [->|];
      [by rewrite lookup_insert_eq, Ht|by rewrite lookup_insert_ne]. }
  apply (inv_change clock m m' o (set_state TIMER_STATE_INACTIVE t)); try done.
  - by rewrite Hh.
  - rewrite He. apply (timers_sorted_key m); [auto|]. apply sorted_filter, Hi.
  - rewrite Hx. apply (timers_sorted_key m); [auto|]. apply sorted_filter, Hi.
  - intros x Hne. rewrite He, list_elem_of_filter. tauto.
  - intros x Hne. rewrite Hx, list_elem_of_filter. tauto.
  - constructor; rewrite ?He, ?Hx, ?Hh, ?list_elem_of_filter; cbn; [auto| | |done|done].
    + split; [by intros []|intros [=]].
    + split; [by intros []|intros [=]].
  - rewrite Hx, list_elem_of_filter. by intros [].
Qed.

Lemma wp_remove_timer clock o t m (P : unit -> Timers T -> list timer_event -> Prop) :
  timers_inv clock m -> timers m !! o = Some t ->
  (forall m', off_lists o (set_state TIMER_STATE_INACTIVE t) m m' -> P tt m' []) ->
  wp (BReactor_RemoveSmallTimer o) P m.
Proof.
  intros Hi Ht HP. unfold BReactor_RemoveSmallTimer, expired_remove, tree_remove.
  destruct (ti_timers _ _ Hi _ _ Ht) as [Hst Hrun Hexp _ _].
  mstep. eapply wp_assert_timer; [done|done|]. mstep. eapply wp_get_timer; [done|].
  pose proof (sorted_NoDup _ _ _ (ti_sorted _ _ Hi)) as Hnd.
  destruct Hst as [E|[E|E]]; rewrite E in *; cbn.
  - mgo. apply HP. split_and!; [|done|apply Hi|..].
    + rewrite insert_id; [done|]. rewrite Ht. destruct t; cbn in *. by rewrite E.
    + rewrite filter_ne_notin; [done|]. intros [=]%Hrun.
    + rewrite filter_ne_notin; [done|]. intros [=]%Hexp.
  - assert (Hin : o ∈ ot_elems (timers_tree m)) by by apply Hrun.
    apply list_elem_of_split in Hin as (l1 & l2 & Hl). rewrite Hl in Hnd.
    destruct (ot_remove_in o (timers_tree m) l1 l2) as (tr & Hr & Hw & He); [apply Hi|done| |].
    { apply NoDup_app in Hnd as (_ & Hd & _). intros Hin. apply (Hd o Hin). left. }
    mgo. eapply wp_on_timer; [done|]. apply HP. split_and!; [done|done|done| |]; sug.
    + by rewrite He, Hl, filter_ne_middle.
    + rewrite filter_ne_notin; [done|]. intros [=]%Hexp.
  - mgo. mstep; [by apply bool_decide_eq_true, Hexp|]. mgo. eapply wp_on_timer; [done|].
    apply HP. split_and!; [done|done|apply Hi| |done]. sug.
    rewrite filter_ne_notin; [done|]. intros [=]%Hrun.
Qed.

(** When a timer set at [now] expires. *)
Definition due_time (mode time now : Z) : Z :=
  if mode =? BTIMER_SET_RELATIVE then Z.max INT64_MIN (Z.min INT64_MAX (now + time)) else time.

Record timer_set (o mode time now : Z) (t : BSmallTimer) m (m' : Timers T) : Prop := {
  ts_timer : timers m' = <[o := mk_tm (handler t) (is_small t) TIMER_STATE_RUNNING (due_time mode time now)]> (timers m);
  ts_heavy : heavy m' = heavy m;
  ts_tree : ot_elems (timers_tree m') = insert_sorted compare_pair (key m') o (filter (fun j => j <> o) (ot_elems (timers_tree m)));
  ts_expired : timers_expired_list m' = filter (fun j => j <> o) (timers_expired_list m)
}.

Lemma wp_set_timer clock o mode time now t m (P : unit -> Timers T -> list timer_event -> Prop) :
  timers_inv clock m -> timers m !! o = Some t ->
  mode = BTIMER_SET_ABSOLUTE \/ mode = BTIMER_SET_RELATIVE ->
  INT64_MIN <= time <= INT64_MAX -> INT64_MIN <= now <= INT64_MAX ->
  (forall m', timers_inv clock m' -> timer_set o mode time now t m m' -> P tt m' []) ->
  wp (BReactor_SetSmallTimer o mode time now) P m.
Proof.
  intros Hi Ht Hmode Htime Hnow HP. unfold BReactor_SetSmallTimer.
  mstep. eapply wp_assert_timer; [done|done|].
  mstep. mstep; [by destruct Hmode as [-> | ->]|].
  mstep. eapply wp_remove_timer; [done|done|]. intros m1 Hoff.
  pose proof (off_lists_inv _ _ _ _ _ Hi Ht Hoff) as Hi1. destruct Hoff as (Hts & Hh & Hw & He & Hx).
  mstep. eapply wp_mono with (Q := fun when m' tr => when = due_time mode time now /\ m' = m1 /\ tr = []).
  { unfold due_time. destruct (mode =? BTIMER_SET_RELATIVE) eqn:Em; [|by mgo].
    eapply wp_must; [|done]. by apply btime_add_saturates. }
  intros when m2 tr (-> & -> & ->). cbn [app]. set (when := due_time mode time now).
  mstep. eapply wp_on_timer; [by rewrite Hts, lookup_insert_eq|].
  mstep. eapply wp_on_timer; [sug; by rewrite lookup_insert_eq|].
  set (t' := set_state TIMER_STATE_RUNNING _). set (m3 := upd timers _ (upd timers _ m1)).
  assert (Ht3 : timers m3 = <[o := t']> (timers m)).
  { unfold m3. sug. by rewrite Hts, !insert_insert_eq. }
  assert (Hother : forall x, x <> o -> time_of m3 x = time_of m1 x).
  { intros x Hne. unfold time_of. by rewrite Ht3, Hts, !lookup_insert_ne. }
  assert (Hnin : o ∉ ot_elems (timers_tree m1)) by (rewrite He, list_elem_of_filter; by intros []).
  assert (Hninx : o ∉ timers_expired_list m1) by (rewrite Hx, list_elem_of_filter; by intros []).
  assert (Hs3 : sorted compare_pair (key m3) (ot_elems (timers_tree m3))).
  { apply (timers_sorted_key m1); [|apply Hi1]. intros x Hin. apply Hother. by intros ->. }
  assert (Hf : find_equal compare_pair (key m3) (key m3 o) (ot_elems (timers_tree m3)) = None).
  { apply find_equal_None, Forall_forall. intros x Hin Heq.
    apply compare_pair_eq in Heq. injection Heq as _ ->. done. }
  destruct (ot_insert_new compare_pair (key m3) o (timers_tree m3)) as (tr & Hins & Hwtr & Hel);
    [exact Hw|done|done|].
  mstep. unfold tree_insert. mgo. apply HP.
  all: set (m4 := upd timers_tree _ m3).
  - apply (inv_change clock m1 m4 o t'); unfold m4; sug; rewrite ?Hel.
    + done.
    + by rewrite Hts, !insert_insert_eq.
    + done.
    + done.
    + apply (timers_sorted_key m3); [done|]. by apply (insert_sorted_sorted compare_pair (key m3)).
    + apply (timers_sorted_key m1); [|apply Hi1]. intros x Hin. apply Hother. by intros ->.
    + intros x Hne. rewrite insert_sorted_elem. naive_solver.
    + done.
    + destruct (ti_timers _ _ Hi _ _ Ht) as [_ _ _ _ Hhv].
      constructor; sug; [auto| | | |by change (heavy m3) with (heavy m1); rewrite Hh].
      * rewrite Hel, insert_sorted_elem. tauto.
      * split; [done|intros [=]].
      * change (absTime t') with (due_time mode time now). unfold due_time.
        case_match; unfold INT64_MIN, INT64_MAX in *; lia.
    + done.
  - constructor; unfold m4; sug; [|done| |done].
    + rewrite Ht3. by destruct t.
    + by rewrite Hel, <- He.
Qed.

(** The call a timer makes when it is dispatched. *)
Definition handler_call (o : Z) (t : BSmallTimer) m : option timer_event :=
  if is_small t then Some (SmallHandler o (handler t))
  else bt ← heavy m !! o; Some (HeavyHandler o (handler t) (user bt)).

Lemma wp_dispatch_timer clock m (P : bool -> Timers T -> list timer_event -> Prop) :
  timers_inv clock m ->
  match timers_expired_list m with
  | [] => P false m []
  | o :: l => forall t e m', timers m !! o = Some t -> handler_call o t m = Some e ->
      off_lists o (set_state TIMER_STATE_INACTIVE t) m m' -> P true m' [e]
  end ->
  wp dispatch_timer P m.
Proof.
  intros Hi HP. unfold dispatch_timer, expired_remove, get_heavy. mgo.
  destruct (timers_expired_list m) as [|o l] eqn:Hx; cbn [head]; [by mgo|].
  destruct (ti_dom _ _ Hi o) as [t Ht]; [right; rewrite Hx; left|].
  destruct (ti_timers _ _ Hi _ _ Ht) as [_ Hrun Hexp _ Hhv]. rewrite Hx in Hexp.
  assert (Hst : state t = TIMER_STATE_EXPIRED) by (apply Hexp; left).
  mgo. eapply wp_get_timer; [done|]. rewrite Hst. mgo.
  rewrite Hx. mstep; [apply bool_decide_eq_true; left|]. mgo. eapply wp_on_timer; [done|].
  set (m' := upd timers _ _).
  assert (Hoff : off_lists o (set_state TIMER_STATE_INACTIVE t) m m').
  { split_and!; [done|done|apply Hi| |done]. unfold m'. sug.
    rewrite filter_ne_notin; [done|]. intros Hin%Hrun. rewrite Hst in Hin. done. }
  mstep. specialize (HP t). unfold handler_call in HP. mstep; destruct (is_small t); try done.
  - mgo. by apply (HP _ _ Ht eq_refl).
  - destruct (Hhv eq_refl) as [bt Hbt]. rewrite Hbt in HP. mgo. by apply (HP _ _ Ht eq_refl).
Qed.

Lemma timer_init_inv clock o t h m :
  timers_inv clock m -> timers m !! o = None -> state t = TIMER_STATE_INACTIVE -> absTime t = 0 ->
  (forall x, is_Some (heavy m !! x) -> is_Some (h !! x)) -> (is_small t = false -> is_Some (h !! o)) ->
  timers_inv clock (m <| timers := <[o := t]> (timers m) |> <| heavy := h |>).
Proof.
  intros Hi Ho Hst Ht0 Hh Hho.
  assert (Hout : ~ (o ∈ ot_elems (timers_tree m) \/ o ∈ timers_expired_list m)).
  { intros Hin%(ti_dom _ _ Hi). destruct Hin. congruence. }
  assert (Hkey : forall l, (forall x, x ∈ l -> x <> o) -> sorted compare_pair (key m) l ->
    sorted compare_pair (key (m <| timers := <[o := t]> (timers m) |> <| heavy := h |>)) l).
  { intros l Hl. apply timers_sorted_key. intros x Hx%Hl. unfold time_of. sug. by rewrite lookup_insert_ne. }
  eapply (inv_change clock m _ o t); sug; try done.
  - apply Hi.
  - apply Hkey; [|apply Hi]. intros x Hx ->. tauto.
  - apply Hkey; [|apply Hi]. intros x Hx ->. tauto.
  - constructor; sug; [auto| | | |done].
    + rewrite Hst. split; [tauto|intros [=]].
    + rewrite Hst. split; [tauto|intros [=]].
    + rewrite Ht0. unfold INT64_MIN, INT64_MAX. lia.
  - tauto.
Qed.

Lemma timer_release_inv clock o h m :
  timers_inv clock m -> timer_idle m o = true -> (forall x, x <> o -> h !! x = heavy m !! x) ->
  timers_inv clock (m <| timers := delete o (timers m) |> <| heavy := h |>).
Proof.
  intros Hi Hid Hh. unfold timer_idle in Hid. destruct (timers m !! o) as [t|] eqn:Ht; [|done]. b2p.
  destruct (ti_timers _ _ Hi _ _ Ht) as [_ Hrun Hexp _ _]. rewrite Hid in Hrun, Hexp.
  assert (Hout : forall x, x ∈ ot_elems (timers_tree m) \/ x ∈ timers_expired_list m -> x <> o).
  { intros x [Hx|Hx] ->; [apply Hrun in Hx|apply Hexp in Hx]; done. }
  set (m' := upd heavy _ _).
  assert (Hlook : forall x, x <> o -> timers m' !! x = timers m !! x).
  { intros x Hx. unfold m'. sug. by rewrite lookup_delete_ne. }
  assert (Hkey : forall x, x <> o -> time_of m' x = time_of m x).
  { intros x Hx. unfold time_of. by rewrite Hlook. }
  destruct Hi as [Hw Hs Hts Hd He Hdue]. constructor; [done| | | | |].
  - apply (timers_sorted_key m); [|done]. intros x Hx. apply Hkey, Hout. by left.
  - intros x t' Hx. assert (Hne : x <> o) by (intros ->; unfold m' in Hx; sua; by rewrite lookup_delete_eq in Hx).
    rewrite Hlook in Hx by done. destruct (Hts _ _ Hx). constructor; try done.
    unfold m'. sug. by rewrite Hh.
  - intros x Hx. rewrite Hlook by by apply Hout. by apply Hd.
  - apply (timers_sorted_key m); [|done]. intros x Hx. apply Hkey, Hout. by right.
  - intros x Hx. rewrite Hkey by (by apply Hout; right). by apply Hdue.
Qed.
End laws.
