(* ===== verification/ReactorFds.v ===== *)
(** The file descriptors of the reactor: the [epoll] part of
    [system/BReactor_badvpn.c].

    Descriptors are identified by the address of their [BFileDescriptor].  The
    [epoll] object of the kernel is any [Epoll]: what [epoll_ctl(2)] documents
    of its interest list.  A pointer to an entry of [epoll_results] is its
    index; writing through it clears the pointer that the entry holds. *)

From S2P Require Import Prelude System.

Definition BREACTOR_READ : Z := Z.shiftl 1 0.
Definition BREACTOR_WRITE : Z := Z.shiftl 1 1.
Definition BREACTOR_ERROR : Z := Z.shiftl 1 2.
Definition BREACTOR_HUP : Z := Z.shiftl 1 3.
Definition BSYSTEM_MAX_RESULTS : Z := 64.

(** [sys/epoll.h] *)
Definition EPOLLIN : Z := 1.
Definition EPOLLOUT : Z := 4.
Definition EPOLLERR : Z := 8.
Definition EPOLLHUP : Z := 16.

(** The kernel's object: [epoll_ctl fd events data], [None] when it fails, and
    the interest list. *)
Class Epoll (K : Type) := {
  epoll_created : K;
  epoll_ctl_add (fd events data : Z) (k : K) : option K;
  epoll_ctl_mod (fd events data : Z) (k : K) : option K;
  epoll_ctl_del (fd : Z) (k : K) : option K;
  interest : K -> gmap Z (Z * Z)
}.
Class EpollLaws (K : Type) `{Epoll K} : Prop := {
  epoll_created_empty : interest (epoll_created (K:=K)) = ∅;
  epoll_add_ok (fd ev d : Z) (k k' : K) : epoll_ctl_add fd ev d k = Some k' ->
    interest k !! fd = None /\ interest k' = <[fd := (ev, d)]> (interest k);
  epoll_mod_ok (fd ev d : Z) (k : K) : is_Some (interest k !! fd) ->
    exists k', epoll_ctl_mod fd ev d k = Some k' /\ interest k' = <[fd := (ev, d)]> (interest k);
  epoll_del_ok (fd : Z) (k : K) : is_Some (interest k !! fd) ->
    exists k', epoll_ctl_del fd k = Some k' /\ interest k' = delete fd (interest k)
}.

Record BFileDescriptor := mk_fd {
  fd : Z;
  handler : Z;
  user : Z;
  active : bool;
  waitEvents : Z;
  epoll_returned_ptr : option Z  (* index in epoll_results *)
}.
#[export] Instance eta_fd : Eta BFileDescriptor := fun f =>
  mk_fd (fd f) (handler f) (user f) (active f) (waitEvents f) (epoll_returned_ptr f).

Record epoll_event := mk_ev { data_ptr : option Z; events : Z }.
#[export] Instance eta_ev : Eta epoll_event := fun e => mk_ev (data_ptr e) (events e).

Record Descriptors (K : Type) := mk_fds {
  efd : K;
  epoll_results : list epoll_event;
  epoll_results_num : Z;
  epoll_results_pos : Z;
  fds : gmap Z BFileDescriptor   (* the descriptor objects *)
}.
Arguments mk_fds {K}. Arguments efd {K}. Arguments epoll_results {K}.
Arguments epoll_results_num {K}. Arguments epoll_results_pos {K}. Arguments fds {K}.
#[export] Instance eta_fds K : Eta (Descriptors K) := fun m =>
  mk_fds (efd m) (epoll_results m) (epoll_results_num m) (epoll_results_pos m) (fds m).

(** The call of the handler of descriptor [o]. *)
Inductive fd_event := FdHandler (o handler user events : Z).

Section operations.
Context {K : Type} `{!Epoll K}.
Local Abbreviation M := (M (Descriptors K) fd_event).
Implicit Types m : Descriptors K.

Definition get_fd (o : Z) : M BFileDescriptor := f ← gets fds; must (f !! o).
Definition set_fd (o : Z) (f : BFileDescriptor) : M unit := modify (upd fds <[o := f]>).

(** The events to ask [epoll] for. *)
Definition epoll_events (events : Z) : Z :=
  let eevents := 0 in
  let eevents := if negb (Z.land events BREACTOR_READ =? 0) then Z.lor eevents EPOLLIN else eevents in
  if negb (Z.land events BREACTOR_WRITE =? 0) then Z.lor eevents EPOLLOUT else eevents.

Definition BFileDescriptor_Init (o fd handler user : Z) : M unit :=
  set_fd o (mk_fd fd handler user false 0 None).

Definition BReactor_AddFileDescriptor (o : Z) : M bool :=
  bs ← get_fd o;
  assert (negb (active bs));;
  k ← gets efd;
  match epoll_ctl_add (fd bs) 0 o k with
  | None => mret false
  | Some k =>
      efd ::= k;;
      set_fd o (bs <| epoll_returned_ptr := None |> <| active := true |> <| waitEvents := 0 |>);;
      mret true
  end.

(** [*ptr = NULL] through a pointer into the results. *)
Definition clear_result (i : Z) : M unit :=
  l ← gets epoll_results;
  e ← must (l !! Z.to_nat i);
  modify (upd epoll_results <[Z.to_nat i := e <| data_ptr := None |>]>).

Definition BReactor_RemoveFileDescriptor (o : Z) : M unit :=
  bs ← get_fd o;
  assert (active bs);;
  set_fd o (bs <| active := false |>);;
  k ← gets efd;
  k ← must (epoll_ctl_del (fd bs) k);
  efd ::= k;;
  match epoll_returned_ptr bs with
  | Some i => clear_result i
  | None => mret tt
  end.

Definition BReactor_SetFileDescriptorEvents (o events : Z) : M unit :=
  bs ← get_fd o;
  assert (active bs);;
  assert (Z.land events (Z.lnot (Z.lor BREACTOR_READ BREACTOR_WRITE)) =? 0);;
  if waitEvents bs =? events then mret tt else
  k ← gets efd;
  k ← must (epoll_ctl_mod (fd bs) (epoll_events events) o k);
  efd ::= k;;
  set_fd o (bs <| waitEvents := events |>).

(** The loop of [set_epoll_fd_pointers], from entry [i] on. *)
Fixpoint set_pointers (n : nat) (i : Z) : M unit :=
  match n with
  | O => mret tt
  | S n =>
      l ← gets epoll_results;
      event ← must (l !! Z.to_nat i);
      o ← must (data_ptr event);
      bfd ← get_fd o;
      assert (active bfd);;
      assert (bool_decide (epoll_returned_ptr bfd = None));;
      set_fd o (bfd <| epoll_returned_ptr := Some i |>);;
      set_pointers n (i + 1)
  end.
Definition set_epoll_fd_pointers : M unit :=
  num ← gets epoll_results_num;
  set_pointers (Z.to_nat num) 0.

(** The kernel writes the events it returns to the front of the array. *)
Definition store_results (res : list (Z * Z)) : M unit :=
  modify (upd epoll_results (fun old =>
    map (fun r => mk_ev (Some r.1) r.2) res ++ drop (length res) old)).

(** [epoll_wait] has returned with [res]. *)
Definition take_results (res : list (Z * Z)) : M unit :=
  store_results res;;
  epoll_results_num ::= zlen res;;
  set_epoll_fd_pointers.

(** The events to report for descriptor [bfd]. *)
Definition report_events (bfd : BFileDescriptor) (event : epoll_event) : Z :=
  let has x y := negb (Z.land x y =? 0) in
  let evs := 0 in
  let evs := if has (waitEvents bfd) BREACTOR_READ && has (events event) EPOLLIN
             then Z.lor evs BREACTOR_READ else evs in
  let evs := if has (waitEvents bfd) BREACTOR_WRITE && has (events event) EPOLLOUT
             then Z.lor evs BREACTOR_WRITE else evs in
  let evs := if has (events event) EPOLLERR then Z.lor evs BREACTOR_ERROR else evs in
  if has (events event) EPOLLHUP then Z.lor evs BREACTOR_HUP else evs.

(** The descriptor branch of [BReactor_Exec]; [false] when there is no event
    left. *)
Definition dispatch_fd : M bool :=
  m ← get;
  if epoll_results_pos m <? epoll_results_num m then
    event ← must (epoll_results m !! Z.to_nat (epoll_results_pos m));
    epoll_results_pos ::= epoll_results_pos m + 1;;
    match data_ptr event with
    | None => mret true
    | Some o =>
        bfd ← get_fd o;
        assert (active bfd);;
        assert (bool_decide (epoll_returned_ptr bfd = Some (epoll_results_pos m)));;
        set_fd o (bfd <| epoll_returned_ptr := None |>);;
        let evs := report_events bfd event in
        if evs =? 0 then mret true else
        emit (FdHandler o (handler bfd) (user bfd) evs);;
        mret true
    end
  else mret false.

(** ** What [epoll_wait] may return *)

Definition entry_of (k : K) (o ev : Z) : bool :=
  existsb (fun e => (e.2.2 =? o) && (Z.land ev (Z.lnot (Z.lor e.2.1 (Z.lor EPOLLERR EPOLLHUP))) =? 0))
    (map_to_list (interest k)).
Definition results_ok (k : K) (res : list (Z * Z)) : bool :=
  (zlen res <=? BSYSTEM_MAX_RESULTS) && bool_decide (NoDup res.*1) &&
  forallb (fun r => entry_of k r.1 r.2 && negb (r.2 =? 0)) res.

Definition fd_test m (o : Z) (p : BFileDescriptor -> bool) : bool :=
  match fds m !! o with Some f => p f | None => false end.
End operations.

(** The empty [epoll] object of [BReactor_Init]. *)
Definition fds_init {K : Type} `{!Epoll K} : Descriptors K :=
  mk_fds epoll_created (replicate 64 (mk_ev None 0)) 0 0 ∅.

(** * The invariant *)

Section laws.
Context {K : Type} `{!Epoll K} `{!EpollLaws K}.
Implicit Types m : Descriptors K.

Definition wait_ok (events : Z) : Prop := events = 0 \/ events = 1 \/ events = 2 \/ events = 3.

(** A pointer of an active descriptor is to its own entry, which is waiting to
    be dispatched. *)
Record fd_ok m (o : Z) (f : BFileDescriptor) : Prop := {
  fo_interest : interest (efd m) !! fd f = Some (epoll_events (waitEvents f), o);
  fo_events : wait_ok (waitEvents f);
  fo_returned : forall i, epoll_returned_ptr f = Some i ->
    epoll_results_pos m <= i < epoll_results_num m /\
    exists ev, epoll_results m !! Z.to_nat i = Some (mk_ev (Some o) ev)
}.

Record fds_inv m : Prop := {
  fi_len : zlen (epoll_results m) = BSYSTEM_MAX_RESULTS;
  fi_pos : 0 <= epoll_results_pos m <= epoll_results_num m /\ epoll_results_num m <= BSYSTEM_MAX_RESULTS;
  fi_fds : forall o f, fds m !! o = Some f -> active f = true -> fd_ok m o f;
  fi_results : forall i o ev, epoll_results_pos m <= i < epoll_results_num m ->
    epoll_results m !! Z.to_nat i = Some (mk_ev (Some o) ev) ->
    exists f, fds m !! o = Some f /\ active f = true /\ epoll_returned_ptr f = Some i;
  fi_interest : forall n ev o, interest (efd m) !! n = Some (ev, o) ->
    exists f, fds m !! o = Some f /\ active f = true /\ fd f = n
}.

Lemma fds_inv_init : fds_inv fds_init.
Proof.
  constructor; cbn; [done|unfold BSYSTEM_MAX_RESULTS; lia|done|lia|].
  intros n ev o. rewrite epoll_created_empty. done.
Qed.

Lemma wp_get_fd o f m (P : BFileDescriptor -> Descriptors K -> list fd_event -> Prop) :
  fds m !! o = Some f -> P f m [] -> wp (get_fd o) P m.
Proof. intros. unfold get_fd. by mgo. Qed.

(** Two active descriptors watch different files. *)
Lemma fd_distinct m o f o' f' : fds_inv m ->
  fds m !! o = Some f -> active f = true -> fds m !! o' = Some f' -> active f' = true ->
  o' <> o -> fd f' <> fd f.
Proof.
  intros Hi Hf Ha Hf' Ha' Hne Heq.
  pose proof (fo_interest _ _ _ (fi_fds _ Hi _ _ Hf Ha)) as H1.
  pose proof (fo_interest _ _ _ (fi_fds _ Hi _ _ Hf' Ha')) as H2. rewrite Heq in H2. congruence.
Qed.

Lemma wp_init_fd o n h u m (P : unit -> Descriptors K -> list fd_event -> Prop) :
  fds_inv m -> fd_test m o active = false ->
  (forall m', fds_inv m' -> P tt m' []) -> wp (BFileDescriptor_Init o n h u) P m.
Proof.
  intros [Hl Hp Hf Hr Hn] Ho HP. unfold BFileDescriptor_Init, set_fd. mgo. apply HP.
  assert (Hne : forall x f, fds m !! x = Some f -> active f = true -> x <> o).
  { intros x f Hx Ha ->. unfold fd_test in Ho. rewrite Hx in Ho. congruence. }
  constructor; sug; [done|done| | |].
  - intros x f [[<- <-]|[? Hx]]%lookup_insert_Some Ha; [done|]. by destruct (Hf _ _ Hx Ha).
  - intros i x ev Hi He. destruct (Hr i x ev Hi He) as (f & Hx & Ha & ?). exists f.
    rewrite lookup_insert_ne; [done|]. intros <-. by destruct (Hne _ _ Hx Ha).
  - intros i ev x He. destruct (Hn i ev x He) as (f & Hx & Ha & ?). exists f.
    rewrite lookup_insert_ne; [done|]. intros <-. by destruct (Hne _ _ Hx Ha).
Qed.

Lemma fd_release_inv o m : fds_inv m -> fd_test m o active = false ->
  fds_inv (m <| fds := delete o (fds m) |>).
Proof.
  intros [Hl Hp Hf Hr Hn] Ho.
  assert (Hne : forall x f, fds m !! x = Some f -> active f = true -> delete o (fds m) !! x = Some f).
  { intros x f Hx Ha. rewrite lookup_delete_ne; [done|]. intros <-.
    unfold fd_test in Ho. rewrite Hx in Ho. congruence. }
  constructor; sug; [done|done| | |].
  - intros x f [? Hx]%lookup_delete_Some Ha. by destruct (Hf _ _ Hx Ha).
  - intros i x ev Hi He. destruct (Hr i x ev Hi He) as (f & Hx & Ha & ?). exists f. auto.
  - intros i ev x He. destruct (Hn i ev x He) as (f & Hx & Ha & ?). exists f. auto.
Qed.

Lemma wp_add_fd o f m (P : bool -> Descriptors K -> list fd_event -> Prop) :
  fds_inv m -> fds m !! o = Some f -> active f = false ->
  P false m [] ->
  (forall k f', interest k = <[fd f := (0, o)]> (interest (efd m)) ->
     f' = f <| epoll_returned_ptr := None |> <| active := true |> <| waitEvents := 0 |> ->
     fds_inv (m <| efd := k |> <| fds := <[o := f']> (fds m) |>) ->
     P true (m <| efd := k |> <| fds := <[o := f']> (fds m) |>) []) ->
  wp (BReactor_AddFileDescriptor o) P m.
Proof.
  intros Hi Hf Ha Hfail Hok. unfold BReactor_AddFileDescriptor, set_fd.
  mstep. eapply wp_get_fd; [done|]. mstep. mstep; [by rewrite Ha|]. mgo.
  destruct (epoll_ctl_add (fd f) 0 o (efd m)) as [k|] eqn:Hk; [|by mgo].
  apply epoll_add_ok in Hk as [Hnone Hk]. mgo. eapply Hok; [done|done|].
  destruct Hi as [Hl Hp Hfs Hr Hn].
  assert (Hne : forall x g, fds m !! x = Some g -> active g = true -> x <> o) by congruence.
  constructor; sug; [done|done| | |].
  - intros x g [[<- <-]|[Hx Hg]]%lookup_insert_Some Hag.
    + constructor; sug; [|by left|done]. by rewrite Hk, lookup_insert_eq.
    + destruct (Hfs _ _ Hg Hag) as [H1 H2 H3]. constructor; sug; [|done|done].
      rewrite Hk, lookup_insert_ne; [done|]. congruence.
  - intros i x ev Hin He. destruct (Hr i x ev Hin He) as (g & Hx & Hg & ?). exists g.
    rewrite lookup_insert_ne; [done|]. intros <-. by destruct (Hne _ _ Hx Hg).
  - intros n ev x. rewrite Hk, lookup_insert_Some. intros [[<- [= <- <-]]|[Hx He]].
    + eexists. rewrite lookup_insert_eq. split_and!; [done..].
    + destruct (Hn n ev x He) as (g & Hg & Hag & ?). exists g.
      rewrite lookup_insert_ne; [done|]. intros <-. by destruct (Hne _ _ Hg Hag).
Qed.

(** The entry of a descriptor that is removed. *)
Definition without_result (f : BFileDescriptor) (l : list epoll_event) : list epoll_event :=
  match epoll_returned_ptr f with
  | Some i => alter (upd data_ptr (fun _ => None)) (Z.to_nat i) l
  | None => l
  end.

Lemma remove_inv o f k m :
  fds_inv m -> fds m !! o = Some f -> active f = true -> interest k = delete (fd f) (interest (efd m)) ->
  fds_inv (m <| efd := k |> <| fds := <[o := f <| active := false |>]> (fds m) |>
             <| epoll_results := without_result f (epoll_results m) |>).
Proof.
  intros Hi Hf Ha Hk. pose proof (fd_distinct m o f) as Hdist.
  pose proof Hi as [Hl Hp Hfs Hr Hn]. destruct (Hfs _ _ Hf Ha) as [Hint _ Hret].
  assert (Hlook : forall j x ev, epoll_results_pos m <= j ->
    without_result f (epoll_results m) !! Z.to_nat j = Some (mk_ev (Some x) ev) ->
    epoll_returned_ptr f <> Some j /\ epoll_results m !! Z.to_nat j = Some (mk_ev (Some x) ev)).
  { intros j x ev Hj He. unfold without_result in He.
    destruct (epoll_returned_ptr f) as [i|] eqn:Hi'; [|done].
    destruct (Hret i eq_refl) as [Hir _]. destruct (decide (i = j)) as [->|Hne].
    - exfalso. revert He. rewrite list_lookup_alter_eq. destruct (epoll_results m !! _); cbn; [|done].
      unfold upd. congruence.
    - rewrite list_lookup_alter_ne in He by lia. split; [congruence|done]. }
  constructor; sug; [|done| | |].
  - rewrite <- Hl. unfold without_result, zlen. destruct (epoll_returned_ptr f); [|done].
    by rewrite length_alter.
  - intros x g [[<- <-]|[Hx Hg]]%lookup_insert_Some Hag; [done|].
    destruct (Hfs _ _ Hg Hag) as [H1 H2 H3]. constructor; sug; [|done|].
    + rewrite Hk, lookup_delete_ne; [done|]. apply not_eq_sym. by eapply Hdist.
    + intros i Hi'. destruct (H3 i Hi') as (Hir & ev & He). split; [done|]. exists ev.
      unfold without_result. destruct (epoll_returned_ptr f) as [j|] eqn:Hj; [|done].
      destruct (Hret j eq_refl) as (Hjr & ev' & He'). rewrite list_lookup_alter_ne; [done|].
      intros Hji. rewrite <- Hji in He. congruence.
  - intros i x ev Hir He. destruct (Hlook i x ev) as [Hne He']; [lia|done|].
    destruct (Hr i x ev Hir He') as (g & Hg & Hag & Hgi). exists g.
    rewrite lookup_insert_ne; [done|]. intros <-. congruence.
  - intros n ev x. rewrite Hk, lookup_delete_Some. intros [Hne He].
    destruct (Hn n ev x He) as (g & Hg & Hag & Hgn). exists g.
    rewrite lookup_insert_ne; [done|]. intros <-. congruence.
Qed.

Lemma wp_remove_fd o f m (P : unit -> Descriptors K -> list fd_event -> Prop) :
  fds_inv m -> fds m !! o = Some f -> active f = true ->
  (forall m', fds_inv m' -> fds m' = <[o := f <| active := false |>]> (fds m) ->
     epoll_results m' = without_result f (epoll_results m) ->
     interest (efd m') = delete (fd f) (interest (efd m)) -> P tt m' []) ->
  wp (BReactor_RemoveFileDescriptor o) P m.
Proof.
  intros Hi Hf Ha HP. destruct (fi_fds _ Hi _ _ Hf Ha) as [Hint _ Hret].
  destruct (epoll_del_ok (fd f) (efd m)) as (k & Hdel & Hk); [by eexists|].
  pose proof (remove_inv o f k m Hi Hf Ha Hk) as Hinv.
  unfold BReactor_RemoveFileDescriptor, set_fd, clear_result.
  mstep. eapply wp_get_fd; [done|]. mgo. unfold without_result in *.
  destruct (epoll_returned_ptr f) as [i|] eqn:Hi'.
  - destruct (Hret i eq_refl) as (Hir & ev & He). mgo.
    assert (Heq : <[Z.to_nat i := mk_ev None ev]> (epoll_results m) =
              alter (upd data_ptr (fun _ => None)) (Z.to_nat i) (epoll_results m)).
    { apply list_eq. intros j. destruct (decide (Z.to_nat i = j)) as [<-|].
      - rewrite list_lookup_alter_eq, He, list_lookup_insert_eq; [done|]. by eapply lookup_lt_Some.
      - by rewrite list_lookup_alter_ne, list_lookup_insert_ne. }
    apply HP; sug; rewrite ?Heq; done.
  - mgo. by apply HP.
Qed.

Lemma wp_set_events o f ev m (P : unit -> Descriptors K -> list fd_event -> Prop) :
  fds_inv m -> fds m !! o = Some f -> active f = true -> wait_ok ev ->
  (forall k, interest k = <[fd f := (epoll_events ev, o)]> (interest (efd m)) ->
     let m' := m <| efd := k |> <| fds := <[o := f <| waitEvents := ev |>]> (fds m) |> in
     fds_inv m' -> P tt m' []) ->
  wp (BReactor_SetFileDescriptorEvents o ev) P m.
Proof.
  intros Hi Hf Ha Hev HP. pose proof (fd_distinct m o f) as Hdist.
  destruct (fi_fds _ Hi _ _ Hf Ha) as [Hint Hw Hret].
  assert (Hinv : forall k, interest k = <[fd f := (epoll_events ev, o)]> (interest (efd m)) ->
    fds_inv (m <| efd := k |> <| fds := <[o := f <| waitEvents := ev |>]> (fds m) |>)).
  { intros k Hk. pose proof Hi as [Hl Hp Hfs Hr Hn]. constructor; sug; [done|done| | |].
    - intros x g [[<- <-]|[Hx Hg]]%lookup_insert_Some Hag.
      + constructor; sug; [|done|done]. by rewrite Hk, lookup_insert_eq.
      + destruct (Hfs _ _ Hg Hag) as [H1 H2 H3]. constructor; sug; [|done|done].
        rewrite Hk, lookup_insert_ne; [done|]. apply not_eq_sym. by eapply Hdist.
    - intros i x e Hir He. destruct (Hr i x e Hir He) as (g & Hg & Hag & Hgi).
      destruct (decide (x = o)) as [->|]; [|exists g; by rewrite lookup_insert_ne].
      assert (g = f) as -> by congruence. eexists. by rewrite lookup_insert_eq.
    - intros n e x. rewrite Hk, lookup_insert_Some. intros [[<- [= <- <-]]|[Hne He]].
      + eexists. by rewrite lookup_insert_eq.
      + destruct (Hn n e x He) as (g & Hg & Hag & Hgn).
        exists g. rewrite lookup_insert_ne; [done|]. intros <-. congruence. }
  unfold BReactor_SetFileDescriptorEvents, set_fd.
  mstep. eapply wp_get_fd; [done|]. mgo. mstep; [by destruct Hev as [->|[->|[->| ->]]]|].
  apply wp_if; intros He; b2p.
  - assert (Hsame : m = m <| efd := efd m |> <| fds := <[o := f <| waitEvents := ev |>]> (fds m) |>).
    { rewrite <- He. unfold upd; cbn. rewrite insert_id by (rewrite Hf; by destruct f). by destruct m. }
    mstep. rewrite Hsame. apply HP; [|apply Hinv];
      rewrite <- He; symmetry; by apply insert_id.
  - destruct (epoll_mod_ok (fd f) (epoll_events ev) o (efd m)) as (k & Hmod & Hk); [by eexists|].
    mgo. apply HP; auto.
Qed.

(** ** Taking the results of [epoll_wait] *)

(** The descriptors after their pointers to the results [res], which are from
    entry [i] on, have been set. *)
Definition pointed (res : list (Z * Z)) (i : Z) (F F' : gmap Z BFileDescriptor) : Prop :=
  (forall j r, res !! j = Some r ->
     F' !! r.1 = upd epoll_returned_ptr (fun _ => Some (i + Z.of_nat j)) <$> F !! r.1) /\
  (forall x, x ∉ res.*1 -> F' !! x = F !! x).

Definition stored (res : list (Z * Z)) (i : Z) (l : list epoll_event) : Prop :=
  forall j r, res !! j = Some r -> l !! Z.to_nat (i + Z.of_nat j) = Some (mk_ev (Some r.1) r.2).

Lemma wp_set_pointers res i m (P : unit -> Descriptors K -> list fd_event -> Prop) :
  0 <= i -> stored res i (epoll_results m) -> NoDup res.*1 ->
  (forall r, r ∈ res -> exists f, fds m !! r.1 = Some f /\ active f = true /\ epoll_returned_ptr f = None) ->
  (forall F, pointed res i (fds m) F -> P tt (m <| fds := F |>) []) ->
  wp (set_pointers (length res) i) P m.
Proof.
  revert i m. induction res as [|r res IH]; intros i m Hi Hst Hnd Hfd HP; cbn [length set_pointers].
  - mgo. specialize (HP (fds m)). destruct m. apply HP. split; [done|]. done.
  - cbn in Hnd. apply NoDup_cons in Hnd as [Hr Hnd].
    destruct (Hfd r) as (f & Hf & Ha & Hn); [left|].
    pose proof (Hst 0%nat r eq_refl) as Hr0. rewrite Z.add_0_r in Hr0.
    unfold set_fd. mgo. eapply wp_get_fd; [done|]. mgo.
    apply IH; [lia| |done| |].
    + intros j r' Hj. specialize (Hst (S j) r' Hj). sug. by replace (i + 1 + Z.of_nat j) with (i + Z.of_nat (S j)) by lia.
    + intros r' Hin. sug. rewrite lookup_insert_ne; [apply Hfd; by right|].
      intros Heq. apply Hr. rewrite Heq. apply list_elem_of_fmap. eauto.
    + intros F [HF1 HF2]. specialize (HP F). revert HP. sug. intros HP. apply HP. clear HP. split.
      * intros [|j] r' Hj; cbn in Hj.
        -- injection Hj as <-. rewrite HF2 by done. sug. rewrite lookup_insert_eq, Hf, Z.add_0_r. done.
        -- rewrite (HF1 _ _ Hj). sug. rewrite lookup_insert_ne; [by replace (i + 1 + Z.of_nat j) with (i + Z.of_nat (S j)) by lia|].
           intros Heq. apply Hr. rewrite Heq. apply list_elem_of_fmap. exists r'. split; [done|].
           by eapply list_elem_of_lookup_2.
      * intros x Hx. cbn in Hx. rewrite HF2 by set_solver. sug. rewrite lookup_insert_ne; [done|]. set_solver.
Qed.

(** Entries of the interest list are active descriptors. *)
Lemma entry_active m o ev : fds_inv m -> entry_of (efd m) o ev = true ->
  exists f, fds m !! o = Some f /\ active f = true /\
    Z.land ev (Z.lnot (Z.lor (epoll_events (waitEvents f)) (Z.lor EPOLLERR EPOLLHUP))) = 0.
Proof.
  intros Hi. unfold entry_of. rewrite existsb_exists. intros ([n [e o']] & Hin & Hb). cbn in Hb. b2p. subst.
  apply list_elem_of_In, elem_of_map_to_list in Hin.
  destruct (fi_interest _ Hi _ _ _ Hin) as (f & Hf & Ha & Hn). exists f. split_and!; [done|done|].
  pose proof (fo_interest _ _ _ (fi_fds _ Hi _ _ Hf Ha)) as Hint. rewrite Hn, Hin in Hint. congruence.
Qed.

Lemma stored_results res old : zlen res <= zlen old ->
  stored res 0 (map (fun r => mk_ev (Some r.1) r.2) res ++ drop (length res) old).
Proof.
  intros Hl j r Hj. rewrite Z.add_0_l, Nat2Z.id. rewrite lookup_app_l.
  - change (map ?g res) with (g <$> res). by rewrite list_lookup_fmap, Hj.
  - rewrite length_map. by eapply lookup_lt_Some.
Qed.

Lemma results_inv res m F :
  fds_inv m -> epoll_results_num m = 0 -> epoll_results_pos m = 0 -> results_ok (efd m) res = true ->
  pointed res 0 (fds m) F ->
  fds_inv (m <| epoll_results := map (fun r => mk_ev (Some r.1) r.2) res ++ drop (length res) (epoll_results m) |>
             <| epoll_results_num := zlen res |> <| fds := F |>).
Proof.
  intros Hi Hnum Hpos Hok [HF1 HF2]. unfold results_ok in Hok. b2p.
  match goal with H : forallb _ _ = true |- _ => rename H into Hall end.
  rewrite forallb_forall in Hall. pose proof Hi as [Hl Hp Hfs Hr Hn].
  pose proof (stored_results res (epoll_results m)) as Hst.
  assert (Hold : forall x f, F !! x = Some f -> exists f0, fds m !! x = Some f0 /\
    (f = f0 \/ exists j r, res !! j = Some r /\ r.1 = x /\
               f = f0 <| epoll_returned_ptr := Some (Z.of_nat j) |>)).
  { intros x f Hx. destruct (decide (x ∈ res.*1)) as [Hin|Hnin].
    - apply list_elem_of_fmap in Hin as (r & -> & Hin). apply list_elem_of_lookup in Hin as [j Hj].
      rewrite (HF1 _ _ Hj) in Hx. destruct (fds m !! r.1) as [f0|]; [|done].
      injection Hx as <-. exists f0. split; [done|]. right. by exists j, r.
    - rewrite HF2 in Hx by done. eauto. }
  assert (Hnew : forall x f0, fds m !! x = Some f0 -> exists f, F !! x = Some f /\
    active f = active f0 /\ fd f = fd f0).
  { intros x f0 Hx. destruct (decide (x ∈ res.*1)) as [Hin|Hnin].
    - apply list_elem_of_fmap in Hin as (r & -> & Hin). apply list_elem_of_lookup in Hin as [j Hj].
      rewrite (HF1 _ _ Hj), Hx. by eexists.
    - rewrite HF2 by done. eauto. }
  constructor; sug.
  - rewrite <- Hl. unfold zlen in *. rewrite length_app, length_map, length_drop. lia.
  - rewrite Hpos. pose proof (zlen_nonneg res). lia.
  - intros o f Hf Ha. destruct (Hold _ _ Hf) as (f0 & Hf0 & [->|(j & r & Hj & <- & ->)]).
    + destruct (Hfs _ _ Hf0 Ha) as [G1 G2 G3]. constructor; sug; [done|done|].
      intros i Hi'. destruct (G3 i Hi'). lia.
    + destruct (Hfs _ _ Hf0 Ha) as [G1 G2 G3]. constructor; sug; [done|done|].
      intros i [= <-]. rewrite Hpos. apply lookup_lt_Some in Hj as Hlt. split; [unfold zlen; lia|].
      exists r.2. rewrite <- (Z.add_0_l (Z.of_nat j)). apply Hst; [lia|done].
  - intros i o ev Hir He. rewrite Hpos in Hir.
    destruct (lookup_lt_is_Some_2 res (Z.to_nat i)) as [r Hj]; [unfold zlen in *; lia|].
    pose proof (Hst ltac:(lia) _ _ Hj) as He'. rewrite Z.add_0_l, Nat2Z.id, He in He'. injection He' as -> ->.
    specialize (Hall r). rewrite <- list_elem_of_In in Hall.
    specialize (Hall (list_elem_of_lookup_2 _ _ _ Hj)). b2p.
    destruct (entry_active m r.1 r.2 Hi) as (f & Hf & Ha & _); [done|].
    rewrite (HF1 _ _ Hj), Hf. eexists. split_and!; [done|done|]. sug. f_equal. lia.
  - intros n ev o He. destruct (Hn _ _ _ He) as (f0 & Hf0 & Ha & <-).
    destruct (Hnew _ _ Hf0) as (f & Hf & Ha' & Hfd). exists f. by rewrite Ha'.
Qed.

Lemma results_ok_spec m res : fds_inv m -> results_ok (efd m) res = true ->
  zlen res <= BSYSTEM_MAX_RESULTS /\ NoDup res.*1 /\
  (forall r, r ∈ res -> exists f, fds m !! r.1 = Some f /\ active f = true).
Proof.
  intros Hi Hok. unfold results_ok in Hok. b2p. split_and!; [done|done|]. intros r Hr.
  match goal with H : forallb _ _ = true |- _ => rewrite forallb_forall in H; specialize (H r) end.
  rewrite <- list_elem_of_In in *. match goal with H : _ -> _ |- _ => specialize (H Hr) end. b2p.
  destruct (entry_active m r.1 r.2 Hi) as (f & Hf & Ha & _); eauto.
Qed.

Lemma wp_take_results res m (P : unit -> Descriptors K -> list fd_event -> Prop) :
  fds_inv m -> epoll_results_num m = 0 -> epoll_results_pos m = 0 -> results_ok (efd m) res = true ->
  (forall m' F, pointed res 0 (fds m) F -> fds m' = F -> efd m' = efd m ->
     stored res 0 (epoll_results m') -> epoll_results_num m' = zlen res -> epoll_results_pos m' = 0 ->
     fds_inv m' -> P tt m' []) ->
  wp (take_results res) P m.
Proof.
  intros Hi Hnum Hpos Hok HP. destruct (results_ok_spec _ _ Hi Hok) as (Hlen & Hnd & Hact).
  assert (Hst : stored res 0 (map (fun r => mk_ev (Some r.1) r.2) res ++ drop (length res) (epoll_results m)))
    by (apply stored_results; rewrite (fi_len _ Hi); lia).
  unfold take_results, store_results, set_epoll_fd_pointers. mgo. sug.
  replace (Z.to_nat (zlen res)) with (length res) by (unfold zlen; lia).
  apply wp_set_pointers; [lia|done|done| |].
  - intros r Hr. destruct (Hact r Hr) as (f & Hf & Ha). exists f. split_and!; [done|done|].
    destruct (epoll_returned_ptr f) as [i|] eqn:Hp; [|done].
    destruct (fo_returned _ _ _ (fi_fds _ Hi _ _ Hf Ha) i Hp) as [Hir _]. lia.
  - intros F HF. eapply HP; sug; try done. by apply (results_inv res m F).
Qed.

(** ** Dispatching *)

Lemma dispatch_inv o f ev m :
  fds_inv m -> epoll_results_pos m < epoll_results_num m ->
  epoll_results m !! Z.to_nat (epoll_results_pos m) = Some (mk_ev (Some o) ev) ->
  fds m !! o = Some f -> active f = true -> epoll_returned_ptr f = Some (epoll_results_pos m) ->
  fds_inv (m <| epoll_results_pos := epoll_results_pos m + 1 |>
             <| fds := <[o := f <| epoll_returned_ptr := None |>]> (fds m) |>).
Proof.
  intros Hi Hlt He Hf Ha Hptr. pose proof Hi as [Hl Hp Hfs Hr Hn]. constructor; sug; [done|lia| | |].
  - intros x g [[<- <-]|[Hx Hg]]%lookup_insert_Some Hag.
    + destruct (Hfs _ _ Hf Ha) as [G1 G2 G3]. constructor; sug; done.
    + destruct (Hfs _ _ Hg Hag) as [G1 G2 G3]. constructor; sug; [done|done|].
      intros i Hi'. destruct (G3 i Hi') as (Hir & ev' & He'). split; [|eauto].
      assert (i <> epoll_results_pos m) by (intros ->; rewrite He in He'; congruence). lia.
  - intros i x ev' Hir He'. destruct (Hr i x ev') as (g & Hg & Hag & Hgi); [lia|done|].
    exists g. rewrite lookup_insert_ne; [done|]. intros <-.
    assert (g = f) as -> by congruence. rewrite Hptr in Hgi. injection Hgi. lia.
  - intros n e x Hin. destruct (Hn n e x Hin) as (g & Hg & Hag & Hgn).
    destruct (decide (x = o)) as [->|]; [|exists g; by rewrite lookup_insert_ne].
    assert (g = f) as -> by congruence. eexists. by rewrite lookup_insert_eq.
Qed.
Lemma skip_inv ev m :
  fds_inv m -> epoll_results_pos m < epoll_results_num m ->
  epoll_results m !! Z.to_nat (epoll_results_pos m) = Some (mk_ev None ev) ->
  fds_inv (m <| epoll_results_pos := epoll_results_pos m + 1 |>).
Proof.
  intros [Hl Hp Hfs Hr Hn] Hlt He. constructor; sug; [done|lia| | |done].
  - intros x g Hg Hag. destruct (Hfs _ _ Hg Hag) as [G1 G2 G3]. constructor; sug; [done|done|].
    intros i Hi'. destruct (G3 i Hi') as (Hir & ev' & He'). split; [|eauto].
    assert (i <> epoll_results_pos m) by (intros ->; rewrite He in He'; congruence). lia.
  - intros i x ev' Hir. apply Hr. lia.
Qed.

(** What one round reports, if anything. *)
Definition fd_call (o : Z) (f : BFileDescriptor) (ev : epoll_event) : list fd_event :=
  if report_events f ev =? 0 then [] else [FdHandler o (handler f) (user f) (report_events f ev)].

Definition dispatched m (t : list fd_event) : Prop :=
  exists e, epoll_results m !! Z.to_nat (epoll_results_pos m) = Some e /\
    match data_ptr e with
    | Some o => exists f, fds m !! o = Some f /\ active f = true /\ t = fd_call o f e
    | None => t = []
    end.

Lemma wp_dispatch_fd m (P : bool -> Descriptors K -> list fd_event -> Prop) :
  fds_inv m ->
  (epoll_results_pos m = epoll_results_num m -> P false m []) ->
  (forall m', epoll_results_pos m < epoll_results_num m -> fds_inv m' ->
     epoll_results_pos m' = epoll_results_pos m + 1 -> epoll_results_num m' = epoll_results_num m ->
     forall t, dispatched m t ->
     P true m' t) ->
  wp dispatch_fd P m.
Proof.
  intros Hi Hend Hgo. destruct (fi_pos _ Hi) as [Hp Hmax]. unfold dispatch_fd, set_fd. mgo.
  apply wp_if; intros Hlt; b2p; [|mgo; apply Hend; lia].
  destruct (lookup_lt_is_Some_2 (epoll_results m) (Z.to_nat (epoll_results_pos m))) as [[ptr ev] He].
  { pose proof (fi_len _ Hi). unfold zlen in *. lia. }
  mgo. destruct ptr as [o|]; cbn [data_ptr].
  - destruct (fi_results _ Hi (epoll_results_pos m) o ev) as (f & Hf & Ha & Hptr); [lia|done|].
    pose proof (dispatch_inv o f ev m Hi Hlt He Hf Ha Hptr) as Hinv.
    mstep. eapply wp_get_fd; [done|]. mgo.
    destruct (_ =? 0) eqn:Hz.
    + mgo. apply (Hgo _ Hlt Hinv); [done|done|]. eexists. split; [done|]. exists f.
      unfold fd_call. by rewrite Hz.
    + mgo. apply (Hgo _ Hlt Hinv); [done|done|]. eexists. split; [done|]. exists f.
      unfold fd_call. by rewrite Hz.
  - mgo. apply (Hgo _ Hlt (skip_inv _ _ Hi Hlt He)); [done|done|]. by eexists.
Qed.

(** Only events that are waited for are reported, errors and hang-ups apart. *)
Lemma report_events_subset f ev : wait_ok (waitEvents f) ->
  Z.land (report_events f ev) (Z.lnot (Z.lor (waitEvents f) (Z.lor BREACTOR_ERROR BREACTOR_HUP))) = 0.
Proof.
  unfold report_events, wait_ok. intros H.
  destruct H as [-> |[-> |[-> | ->]]];
    repeat match goal with |- context [negb (Z.land (events ev) ?y =? 0)] =>
      destruct (negb (Z.land (events ev) y =? 0)) end; reflexivity.
Qed.
End laws.
