(* ===== verification/ReactorLimits.v ===== *)
(** The limits of the reactor: [BReactorLimit] of [system/BReactor_badvpn.c].

    A limit counts up to its bound; the counters that are not zero are in a
    list and are set back when the event loop waits. *)

From S2P Require Import Prelude System.

Record BReactorLimit := mk_limit { limit : Z; count : Z }.
#[export] Instance eta_limit : Eta BReactorLimit := fun l => mk_limit (limit l) (count l).

Record Limits := mk_lims {
  active_limits_list : list Z;
  limits : gmap Z BReactorLimit   (* the limit objects *)
}.
#[export] Instance eta_lims : Eta Limits := fun m => mk_lims (active_limits_list m) (limits m).

Section operations.
Local Abbreviation M := (M Limits Empty_set).

Definition get_limit (o : Z) : M BReactorLimit := ls ← gets limits; must (ls !! o).
Definition set_limit (o : Z) (l : BReactorLimit) : M unit := modify (upd limits <[o := l]>).
Definition active_remove (o : Z) : M unit :=
  l ← gets active_limits_list;
  assert (bool_decide (o ∈ l));;
  modify (upd active_limits_list (filter (fun j => j <> o))).
Definition active_append (o : Z) : M unit := modify (upd active_limits_list (fun l => l ++ [o])).

Definition BReactorLimit_Init (o limit : Z) : M unit :=
  assert (0 <? limit);;
  set_limit o (mk_limit limit 0).

Definition BReactorLimit_Free (o : Z) : M unit :=
  l ← get_limit o;
  when (0 <? count l) (active_remove o);;
  modify (upd limits (delete o)).

Definition BReactorLimit_Increment (o : Z) : M bool :=
  l ← get_limit o;
  if limit l <=? count l then mret false else
  assert (count l + 1 <=? INT_MAX);;
  set_limit o (l <| count := count l + 1 |>);;
  when (count l + 1 =? 1) (active_append o);;
  mret true.

Definition BReactorLimit_SetLimit (o limit' : Z) : M unit :=
  l ← get_limit o;
  assert (0 <? limit');;
  set_limit o (l <| limit := limit' |>).

(** The loop at the end of [wait_for_events]; each round takes one limit from
    the list. *)
Fixpoint reset_loop (fuel : nat) : M unit :=
  match fuel with
  | O => ub
  | S fuel =>
      l ← gets active_limits_list;
      match head l with
      | None => mret tt
      | Some o =>
          x ← get_limit o;
          assert (0 <? count x);;
          set_limit o (x <| count := 0 |>);;
          active_remove o;;
          reset_loop fuel
      end
  end.
Definition reset_limits : M unit :=
  l ← gets active_limits_list;
  reset_loop (S (length l)).
End operations.

(** * The invariant *)

Record limits_inv (m : Limits) : Prop := {
  li_nodup : NoDup (active_limits_list m);
  li_limits : forall o l, limits m !! o = Some l ->
    0 < limit l <= INT_MAX /\ 0 <= count l <= INT_MAX /\
    (o ∈ active_limits_list m <-> 0 < count l);
  li_active : forall o, o ∈ active_limits_list m -> is_Some (limits m !! o)
}.

Section laws.
Implicit Types m : Limits.

Lemma limits_inv_init : limits_inv (mk_lims [] ∅).
Proof. constructor; cbn; [constructor|done|by intros ? ?%elem_of_nil]. Qed.

(** One limit changes, and with it only its own place. *)
Lemma limits_change m o l' lst :
  limits_inv m -> NoDup lst -> (forall x, x <> o -> x ∈ lst <-> x ∈ active_limits_list m) ->
  0 < limit l' <= INT_MAX -> 0 <= count l' <= INT_MAX -> (o ∈ lst <-> 0 < count l') ->
  limits_inv (mk_lims lst (<[o := l']> (limits m))).
Proof.
  intros [Hn Hl Ha] Hn' Hlst H1 H2 H3. constructor; cbn; [done| |].
  - intros x l. destruct (decide (x = o)) as [->|Hne].
    + rewrite lookup_insert_eq. by intros [= <-].
    + rewrite lookup_insert_ne, Hlst by done. apply Hl.
  - intros x Hx. destruct (decide (x = o)) as [->|Hne]; [rewrite lookup_insert_eq; eauto|].
    rewrite lookup_insert_ne by done. by apply Ha, Hlst.
Qed.

Lemma wp_get_limit o l m (P : BReactorLimit -> Limits -> list Empty_set -> Prop) :
  limits m !! o = Some l -> P l m [] -> wp (get_limit o) P m.
Proof. intros. unfold get_limit. by mgo. Qed.

Lemma wp_limit_init o n m (P : unit -> Limits -> list Empty_set -> Prop) :
  limits_inv m -> limits m !! o = None -> 0 < n <= INT_MAX ->
  (limits_inv (m <| limits := <[o := mk_limit n 0]> (limits m) |>) ->
   P tt (m <| limits := <[o := mk_limit n 0]> (limits m) |>) []) ->
  wp (BReactorLimit_Init o n) P m.
Proof.
  intros Hi Ho Hn HP. unfold BReactorLimit_Init, set_limit. mgo. apply HP.
  apply limits_change; [done|apply Hi|done|done|cbn; unfold INT_MAX; lia|].
  split; [|cbn; lia]. intros [? ?]%(li_active _ Hi). congruence.
Qed.

Lemma wp_limit_free o l m (P : unit -> Limits -> list Empty_set -> Prop) :
  limits_inv m -> limits m !! o = Some l ->
  (forall m', limits_inv m' -> limits m' = delete o (limits m) -> P tt m' []) ->
  wp (BReactorLimit_Free o) P m.
Proof.
  intros Hi Hl HP. destruct (li_limits _ Hi _ _ Hl) as (_ & Hc & Hact).
  assert (Hinv : limits_inv (mk_lims (filter (fun j => j <> o) (active_limits_list m)) (delete o (limits m)))).
  { destruct Hi as [Hn Hls Ha]. constructor; cbn; [by apply NoDup_filter| |].
    - intros x lx [Hne Hx]%lookup_delete_Some. rewrite list_elem_of_filter.
      destruct (Hls _ _ Hx) as (? & ? & Hxa). split_and!; try done; naive_solver.
    - intros x [Hne Hx]%list_elem_of_filter. rewrite lookup_delete_ne by done. auto. }
  unfold BReactorLimit_Free, active_remove. mstep. eapply wp_get_limit; [done|].
  mstep. apply wp_when; intros Hb; b2p.
  - mgo. mstep; [by apply bool_decide_eq_true, Hact|]. mgo. by apply HP.
  - mgo. apply HP; [|done]. rewrite filter_ne_notin in Hinv; [done|]. rewrite Hact. lia.
Qed.

Lemma wp_limit_increment o l m (P : bool -> Limits -> list Empty_set -> Prop) :
  limits_inv m -> limits m !! o = Some l ->
  (limit l <= count l -> P false m []) ->
  (forall m', count l < limit l -> limits_inv m' ->
     limits m' = <[o := mk_limit (limit l) (count l + 1)]> (limits m) -> P true m' []) ->
  wp (BReactorLimit_Increment o) P m.
Proof.
  intros Hi Hl Hfull Hok. destruct (li_limits _ Hi _ _ Hl) as (Hlim & Hc & Hact).
  unfold BReactorLimit_Increment, set_limit, active_append. mstep. eapply wp_get_limit; [done|].
  apply wp_if; intros Hb; b2p; [mgo; auto|]. mgo. apply wp_when; intros H1; b2p.
  - mgo. apply Hok; [done| |done]. apply limits_change; [done| | |done|unfold upd; cbn [count]; lia|unfold upd; cbn [count]].
    + apply NoDup_app. split_and!; [apply Hi| |apply NoDup_singleton].
      intros x Hx ->%list_elem_of_singleton. apply Hact in Hx. lia.
    + intros x Hx. rewrite elem_of_app, list_elem_of_singleton. naive_solver.
    + rewrite elem_of_app, list_elem_of_singleton. split; [lia|by right].
  - mgo. apply Hok; [done| |done]. apply limits_change; [done|apply Hi|done|done|unfold upd; cbn [count]; lia|unfold upd; cbn [count]].
    rewrite Hact. lia.
Qed.

Lemma wp_limit_set o n l m (P : unit -> Limits -> list Empty_set -> Prop) :
  limits_inv m -> limits m !! o = Some l -> 0 < n <= INT_MAX ->
  (forall m', limits_inv m' -> limits m' = <[o := mk_limit n (count l)]> (limits m) -> P tt m' []) ->
  wp (BReactorLimit_SetLimit o n) P m.
Proof.
  intros Hi Hl Hn HP. destruct (li_limits _ Hi _ _ Hl) as (_ & Hc & Hact).
  unfold BReactorLimit_SetLimit, set_limit. mstep. eapply wp_get_limit; [done|]. mgo. apply HP; [|done].
  by apply limits_change; [|apply Hi|..].
Qed.

(** A wait sets every counter back to zero. *)
Definition zeroed (l : BReactorLimit) : BReactorLimit := l <| count := 0 |>.

Lemma wp_reset_loop fuel m (P : unit -> Limits -> list Empty_set -> Prop) :
  (length (active_limits_list m) < fuel)%nat -> limits_inv m ->
  (forall m', limits_inv m' -> active_limits_list m' = [] -> limits m' = zeroed <$> limits m -> P tt m' []) ->
  wp (reset_loop fuel) P m.
Proof.
  revert m. induction fuel as [|fuel IH]; intros m Hf Hi HP; [lia|].
  cbn [reset_loop]. unfold active_remove, set_limit. mgo.
  destruct (active_limits_list m) as [|o lst] eqn:Hlst; cbn [head].
  - mgo. apply HP; [done|done|]. apply map_eq. intros x. rewrite lookup_fmap.
    destruct (limits m !! x) as [l|] eqn:Hx; [|done]. cbn. f_equal.
    destruct (li_limits _ Hi _ _ Hx) as (_ & Hc & Hact). rewrite Hlst in Hact.
    assert (count l = 0) as Hz.
    { destruct (decide (0 < count l)) as [Hpos|]; [|lia]. apply Hact, elem_of_nil in Hpos. done. }
    destruct l; cbn in *. by subst.
  - destruct (li_active _ Hi o) as [l Hl]; [rewrite Hlst; left|].
    destruct (li_limits _ Hi _ _ Hl) as (Hlim & Hc & Hact). rewrite Hlst in Hact.
    assert (0 < count l) by (apply Hact; left).
    pose proof (li_nodup _ Hi) as Hnd. rewrite Hlst in Hnd. apply NoDup_cons in Hnd as [Ho Hnd].
    mstep. eapply wp_get_limit; [done|]. mgo.
    mstep; [apply bool_decide_eq_true; sug; rewrite Hlst; left|]. mgo. sug.
    rewrite Hlst, filter_cons_False by tauto. rewrite filter_ne_notin by done.
    assert (Hi' : limits_inv (mk_lims lst (<[o := zeroed l]> (limits m)))).
    { apply limits_change; [done|done| |done|unfold zeroed, upd; cbn; lia|cbn].
      - intros x Hx. rewrite Hlst, elem_of_cons. naive_solver.
      - unfold zeroed, upd; cbn. split; [done|lia]. }
    apply IH; [cbn in *; lia|exact Hi'|].
    intros m' Hm' Hnil Heq. apply HP; [done|done|]. rewrite Heq. cbn [limits].
    rewrite fmap_insert. apply map_eq. intros x. destruct (decide (x = o)) as [->|].
    + by rewrite lookup_insert_eq, lookup_fmap, Hl.
    + by rewrite lookup_insert_ne.
Qed.

Lemma wp_reset_limits m (P : unit -> Limits -> list Empty_set -> Prop) :
  limits_inv m ->
  (forall m', limits_inv m' -> active_limits_list m' = [] -> limits m' = zeroed <$> limits m -> P tt m' []) ->
  wp reset_limits P m.
Proof. intros. unfold reset_limits. mgo. apply wp_reset_loop; [lia|done|done]. Qed.
End laws.
