(* ===== verification/Reactor.v ===== *)
(** The event loop: [system/BReactor_badvpn.c] as the program builds it, with
    [epoll].

    The state of the [BReactor] is that of its parts: the pending jobs
    ([BPending.v]), the timers, the descriptors and the limits.  A call of a
    handler ends a round of the loop, so that a round is an action and what
    the handler does are the actions that follow.  The loop inside
    [wait_for_events] stops in [epoll_wait]: [waiting] is the state of its
    variables there, and the return of the call is an action too.  [clock] is
    the time of the last action, for the contract of the environment only. *)

From S2P Require Import Prelude System OrdTree BAVL CArith BTime BPending ReactorTimers ReactorFds ReactorLimits.

Record BReactor (T : Type -> Type) (K : Type) := mk_reactor {
  exiting : bool;
  exit_code : Z;
  pending_jobs : BPendingGroup;
  tms : Timers T;
  fdm : Descriptors K;
  lims : Limits;
  waiting : option (option Z * Z);  (* timeout_abs, now *)
  clock : Z
}.
Arguments mk_reactor {T K}. Arguments exiting {T K}. Arguments exit_code {T K}.
Arguments pending_jobs {T K}. Arguments tms {T K}. Arguments fdm {T K}. Arguments lims {T K}.
Arguments waiting {T K}. Arguments clock {T K}.
#[export] Instance eta_reactor T K : Eta (BReactor T K) := fun m =>
  mk_reactor (exiting m) (exit_code m) (pending_jobs m) (tms m) (fdm m) (lims m) (waiting m) (clock m).

Inductive event :=
  | Job (e : BPending.event)
  | Timer (e : timer_event)
  | Fd (e : fd_event)
  | Waits (timeout : Z)     (* the call of epoll_wait *)
  | Returned (b : bool)     (* what a function of the reactor returns *)
  | Exits (code : Z).       (* BReactor_Exec returns *)

(** How [epoll_wait] returns. *)
Inductive wait_result := Interrupted | WaitError (errno : Z) | Results (l : list (Z * Z)).

Section operations.
Context {T : Type -> Type} `{!OrdTree T} {K : Type} `{!Epoll K}.
Local Abbreviation M := (Prelude.M (BReactor T K) event).
Implicit Types m : BReactor T K.

Definition on_jobs {A} (p : Prelude.M BPendingGroup BPending.event A) : M A := zoom pending_jobs (on_events Job p).
Definition on_timers {A} (p : Prelude.M (Timers T) timer_event A) : M A := zoom tms (on_events Timer p).
Definition on_fds {A} (p : Prelude.M (Descriptors K) fd_event A) : M A := zoom fdm (on_events Fd p).
Definition on_limits {A} (p : Prelude.M Limits Empty_set A) : M A :=
  zoom lims (on_events (fun e : Empty_set => match e with end) p).

(** [created]: [epoll_create] succeeds. *)
Definition BReactor_Init (created : bool) : option (BReactor T K) :=
  if created then
    Some (mk_reactor false 0 BPendingGroup_Init timers_init fds_init (mk_lims [] ∅) None 0)
  else None.

Definition BReactor_Free : M unit :=
  m ← get;
  has ← on_jobs BPendingGroup_HasJobs;
  assert (negb has);;
  first ← on_timers tree_first;
  assert (bool_decide (first = None));;
  assert (bool_decide (timers_expired_list (tms m) = []));;
  assert (bool_decide (active_limits_list (lims m) = []));;
  on_jobs BPendingGroup_Free.

(** [timeout_rel] and [timeout_rel_trunc]. *)
Definition wait_timeout (timeout_abs : option Z) (now : Z) : M (Z * Z) :=
  match timeout_abs with
  | None => mret (0, 0)
  | Some abs =>
      rel ← must (int64 (abs - now));
      mret (rel, if INT_MAX <? rel then INT_MAX else rel)
  end.

(** A round of the loop of [wait_for_events] up to the call. *)
Definition call_epoll_wait (timeout_abs : option Z) (now : Z) : M unit :=
  timeout ← wait_timeout timeout_abs now;
  emit (Waits (match timeout_abs with Some _ => timeout.2 | None => -1 end));;
  waiting ::= Some (timeout_abs, now).

Definition wait_for_events (now : Z) : M unit :=
  m ← get;
  has ← on_jobs BPendingGroup_HasJobs;
  assert (negb has);;
  assert (bool_decide (timers_expired_list (tms m) = []));;
  assert (epoll_results_pos (fdm m) =? epoll_results_num (fdm m));;
  on_fds (epoll_results_num ::= 0);;
  on_fds (epoll_results_pos ::= 0);;
  first_timer ← on_timers tree_first;
  match first_timer with
  | None => call_epoll_wait None 0
  | Some o =>
      t ← on_timers (get_timer o);
      assert (state t =? TIMER_STATE_RUNNING);;
      moved ← on_timers (move_expired_timers now);
      if moved : bool then mret tt else call_epoll_wait (Some (absTime t)) now
  end.

(** After the loop. *)
Definition end_wait : M unit := waiting ::= None;; on_limits reset_limits.

(** The label [try_again]. *)
Definition try_again (timeout_abs : option Z) (now now' : Z) : M unit :=
  match timeout_abs with
  | None => call_epoll_wait None now
  | Some abs =>
      if abs <=? now' then on_timers move_first_timers;; end_wait
      else call_epoll_wait (Some abs) now'
  end.

(** A round of the loop from the return of the call; [now'] is the time that
    is read when it goes on. *)
Definition epoll_wait_returned (res : wait_result) (now' : Z) : M unit :=
  m ← get;
  w ← must (waiting m);
  let '(timeout_abs, now) := w in
  timeout ← wait_timeout timeout_abs now;
  match res with
  | Interrupted => try_again timeout_abs now now'
  | WaitError _ => assert false
  | Results l =>
      let waitres := zlen l in
      assert (negb (waitres =? 0) || bool_decide (is_Some timeout_abs));;
      assert (waitres <=? BSYSTEM_MAX_RESULTS);;
      if negb (waitres =? 0) || (timeout.2 =? timeout.1) then
        (if negb (waitres =? 0) then on_fds (take_results l) else on_timers move_first_timers);;
        end_wait
      else try_again timeout_abs now now'
  end.

(** A round of [BReactor_Exec]. *)
Definition BReactor_Exec (now : Z) : M unit :=
  m ← get;
  if exiting m then emit (Exits (exit_code m)) else
  has ← on_jobs BPendingGroup_HasJobs;
  if has : bool then on_jobs BPendingGroup_ExecuteJob else
  fired ← on_timers dispatch_timer;
  if fired : bool then mret tt else
  ready ← on_fds dispatch_fd;
  if ready : bool then mret tt else
  wait_for_events now.

(** A round of [BReactor_Synchronize]. *)
Definition BReactor_Synchronize (ref : Z) : M unit :=
  m ← get;
  if exiting m then emit (Returned false) else
  has ← on_jobs BPendingGroup_HasJobs;
  assert has;;
  job ← on_jobs BPendingGroup_PeekJob;
  if bool_decide (job = Some ref) then emit (Returned true) else
  on_jobs BPendingGroup_ExecuteJob.

Definition BReactor_Quit (code : Z) : M unit :=
  exiting ::= true;;
  exit_code ::= code.

(** ** The reactor in use *)

Inductive action :=
  | InitTimer (o handler : Z) | InitBTimer (o msTime handler user : Z) | FreeTimer (o : Z)
  | TimerIsRunning (o : Z)
  | SetSmallTimer (o mode time now : Z) | SetTimer (o now : Z)
  | SetTimerAfter (o after now : Z) | SetTimerAbsolute (o time now : Z) | RemoveTimer (o : Z)
  | InitFd (o fd handler user : Z) | FreeFd (o : Z)
  | AddFd (o : Z) | RemoveFd (o : Z) | SetFdEvents (o events : Z)
  | LimitInit (o limit : Z) | LimitFree (o : Z) | LimitIncrement (o : Z) | LimitSet (o limit : Z)
  | JobAction (a : BPending.action)
  | Quit (code : Z)
  | Synchronize (ref : Z)
  | Round (now : Z)
  | WaitReturns (res : wait_result) (now : Z).

Definition exec_action (a : action) : M unit :=
  match a with
  | InitTimer o h => on_timers (BSmallTimer_Init o h)
  | InitBTimer o ms h u => on_timers (BTimer_Init o ms h u)
  | FreeTimer o => on_timers (timer_release o)
  | TimerIsRunning o => b ← on_timers (BSmallTimer_IsRunning o); emit (Returned b)
  | SetSmallTimer o mode time now =>
      clock ::= now;; on_timers (BReactor_SetSmallTimer o mode time now)
  | SetTimer o now => clock ::= now;; on_timers (BReactor_SetTimer o now)
  | SetTimerAfter o after now => clock ::= now;; on_timers (BReactor_SetTimerAfter o after now)
  | SetTimerAbsolute o time now => clock ::= now;; on_timers (BReactor_SetTimerAbsolute o time now)
  | RemoveTimer o => on_timers (BReactor_RemoveTimer o)
  | InitFd o n h u => on_fds (BFileDescriptor_Init o n h u)
  | FreeFd o => on_fds (modify (upd fds (delete o)))
  | AddFd o => b ← on_fds (BReactor_AddFileDescriptor o); emit (Returned b)
  | RemoveFd o => on_fds (BReactor_RemoveFileDescriptor o)
  | SetFdEvents o ev => on_fds (BReactor_SetFileDescriptorEvents o ev)
  | LimitInit o n => on_limits (BReactorLimit_Init o n)
  | LimitFree o => on_limits (BReactorLimit_Free o)
  | LimitIncrement o => b ← on_limits (BReactorLimit_Increment o); emit (Returned b)
  | LimitSet o n => on_limits (BReactorLimit_SetLimit o n)
  | JobAction a => on_jobs (BPending.exec_action a)
  | Quit code => BReactor_Quit code
  | Synchronize ref => BReactor_Synchronize ref
  | Round now => clock ::= now;; BReactor_Exec now
  | WaitReturns res now => clock ::= now;; epoll_wait_returned res now
  end.

(** The clock does not go back, and 64 bits are enough for it. *)
Definition time_ok m (now : Z) : bool := (clock m <=? now) && (now <=? INT64_MAX).
Definition has_timer m (o : Z) : bool := bool_decide (is_Some (timers (tms m) !! o)).
Definition limit_arg (n : Z) : bool := (0 <? n) && (n <=? INT_MAX).

(** A return of [epoll_wait] as documented: a timeout is not early, and only
    there is one when the call was given one; the results are entries of the
    interest list, each once, with the events that were asked for. *)
Definition wait_answer_ok m (timeout_abs : option Z) (since : Z) (res : wait_result) (now : Z) : bool :=
  match res with
  | Interrupted => true
  | WaitError _ => false
  | Results [] =>
      match timeout_abs with
      | Some abs => since + Z.min INT_MAX (abs - since) <=? now
      | None => false
      end
  | Results l => results_ok (efd (fdm m)) l
  end.

Definition call_enabled m (a : action) : bool :=
  match a with
  | InitTimer o _ => negb (has_timer m o)
  | InitBTimer o ms _ _ => negb (has_timer m o) && fits_int64 ms
  | FreeTimer o => timer_idle (tms m) o
  | TimerIsRunning o | RemoveTimer o => has_timer m o
  | SetSmallTimer o mode time now =>
      has_timer m o && ((mode =? BTIMER_SET_ABSOLUTE) || (mode =? BTIMER_SET_RELATIVE)) &&
      fits_int64 time && time_ok m now
  | SetTimer o now =>
      has_timer m o && time_ok m now &&
      match heavy (tms m) !! o with Some bt => fits_int64 (msTime bt) | None => false end
  | SetTimerAfter o time now | SetTimerAbsolute o time now =>
      has_timer m o && fits_int64 time && time_ok m now
  | InitFd o _ _ _ => negb (fd_test (fdm m) o active)
  | FreeFd o | AddFd o => fd_test (fdm m) o (fun f => negb (active f))
  | RemoveFd o => fd_test (fdm m) o active
  | SetFdEvents o ev => fd_test (fdm m) o active && (0 <=? ev) && (ev <? 4)
  | LimitInit o n => bool_decide (limits (lims m) !! o = None) && limit_arg n
  | LimitFree o | LimitIncrement o => bool_decide (is_Some (limits (lims m) !! o))
  | LimitSet o n => bool_decide (is_Some (limits (lims m) !! o)) && limit_arg n
  | JobAction DoExecute => false
  | JobAction a => BPending.action_enabled (pending_jobs m) a
  | Quit _ => true
  | Synchronize _ => exiting m || negb (bool_decide (jobs (pending_jobs m) = []))
  | Round now => time_ok m now
  | WaitReturns _ _ => false
  end.

(** While the loop is in [epoll_wait] only its return is possible. *)
Definition action_enabled m (a : action) : bool :=
  match waiting m with
  | None => call_enabled m a
  | Some (timeout_abs, since) =>
      match a with
      | WaitReturns res now => time_ok m now && wait_answer_ok m timeout_abs since res now
      | _ => false
      end
  end.

#[export] Instance reactor_system : System (BReactor T K) action event :=
  {| enabled := action_enabled; exec := exec_action |}.
End operations.

(** * The invariant *)

Section invariant.
Context {T : Type -> Type} `{!OrdTree T} {K : Type} `{!Epoll K}.
Implicit Types m : BReactor T K.

(** In [epoll_wait] all work is done; the timeout is that of the first timer,
    which is in the future. *)
Definition waiting_ok m (timeout_abs : option Z) (now : Z) : Prop :=
  exiting m = false /\ jobs (pending_jobs m) = [] /\ timers_expired_list (tms m) = [] /\
  epoll_results_pos (fdm m) = 0 /\ epoll_results_num (fdm m) = 0 /\
  match timeout_abs with
  | None => ot_elems (timers_tree (tms m)) = []
  | Some abs => exists o l, ot_elems (timers_tree (tms m)) = o :: l /\
      time_of (tms m) o = abs /\ 0 <= now < abs /\ now <= clock m
  end.

Record reactor_inv m : Prop := {
  ri_jobs : group_inv (pending_jobs m);
  ri_timers : timers_inv (clock m) (tms m);
  ri_fds : fds_inv (fdm m);
  ri_limits : limits_inv (lims m);
  ri_clock : 0 <= clock m <= INT64_MAX;
  ri_waiting : match waiting m with Some (t, now) => waiting_ok m t now | None => True end
}.
End invariant.

Section laws.
Context {T : Type -> Type} `{!OrdTree T} `{!OrdTreeLaws T} {K : Type} `{!Epoll K} `{!EpollLaws K}.
Implicit Types m : BReactor T K.
Local Abbreviation post A := (A -> BReactor T K -> list event -> Prop).

Lemma wp_on_jobs {A} (p : M BPendingGroup BPending.event A) (P : post A) m :
  wp p (fun a s t => P a (m <| pending_jobs := s |>) (Job <$> t)) (pending_jobs m) -> wp (on_jobs p) P m.
Proof. intros. unfold on_jobs. by repeat mstep. Qed.
Lemma wp_on_timers {A} (p : M (Timers T) timer_event A) (P : post A) m :
  wp p (fun a s t => P a (m <| tms := s |>) (Timer <$> t)) (tms m) -> wp (on_timers p) P m.
Proof. intros. unfold on_timers. by repeat mstep. Qed.
Lemma wp_on_fds {A} (p : M (Descriptors K) fd_event A) (P : post A) m :
  wp p (fun a s t => P a (m <| fdm := s |>) (Fd <$> t)) (fdm m) -> wp (on_fds p) P m.
Proof. intros. unfold on_fds. by repeat mstep. Qed.
Lemma wp_on_limits {A} (p : M Limits Empty_set A) (P : post A) m :
  wp p (fun a s _ => P a (m <| lims := s |>) []) (lims m) -> wp (on_limits p) P m.
Proof.
  intros Hp. unfold on_limits. repeat mstep. eapply wp_mono; [exact Hp|]. cbn.
  intros a s [|[] t]. done.
Qed.

Lemma wp_has_jobs l (P : post bool) m :
  jobs (pending_jobs m) = l -> P (match l with [] => false | _ => true end) m [] ->
  wp (on_jobs BPendingGroup_HasJobs) P m.
Proof.
  intros <- HP. apply wp_on_jobs. unfold BPendingGroup_HasJobs. mgo.
  assert (m <| pending_jobs := pending_jobs m |> = m) as -> by by destruct m. done.
Qed.

(** ** Changing one part outside [epoll_wait] *)

Lemma inv_jobs m g : reactor_inv m -> waiting m = None -> group_inv g ->
  reactor_inv (m <| pending_jobs := g |>).
Proof. intros [] Hw Hg. constructor; sug; try done. by rewrite Hw. Qed.
Lemma inv_timers m s : reactor_inv m -> waiting m = None -> timers_inv (clock m) s ->
  reactor_inv (m <| tms := s |>).
Proof. intros [] Hw Hs. constructor; sug; try done. by rewrite Hw. Qed.
Lemma inv_fds m s : reactor_inv m -> waiting m = None -> fds_inv s -> reactor_inv (m <| fdm := s |>).
Proof. intros [] Hw Hs. constructor; sug; try done. by rewrite Hw. Qed.
Lemma inv_lims m s : reactor_inv m -> limits_inv s -> reactor_inv (m <| lims := s |>).
Proof. intros [] Hs. by constructor. Qed.
Lemma inv_clock m now : reactor_inv m -> time_ok m now = true -> reactor_inv (m <| clock := now |>).
Proof.
  intros [Hj Ht Hf Hl Hc Hw] Hn. unfold time_ok in Hn. b2p. constructor; sug; try done; [|lia|].
  - by apply (timers_inv_clock (clock m)).
  - destruct (waiting m) as [[t n]|]; [|done].
    destruct Hw as (? & ? & ? & ? & ? & Ht'). split_and!; try done.
    destruct t; [|done]. destruct Ht' as (o & l & ? & ? & ? & ?). exists o, l. split_and!; try done; sug; lia.
Qed.
Lemma inv_quit m c : reactor_inv m -> waiting m = None ->
  reactor_inv (m <| exiting := true |> <| exit_code := c |>).
Proof. intros [] Hw. constructor; sug; try done. by rewrite Hw. Qed.

Lemma reactor_inv_init m : BReactor_Init (T:=T) (K:=K) true = Some m -> reactor_inv m.
Proof.
  intros [= <-]. constructor; cbn; [apply group_inv_init|apply timers_inv_init|apply fds_inv_init| |done|done].
  apply limits_inv_init.
Qed.

(** ** Waiting *)

Lemma wp_wait_timeout abs now m (P : post (Z * Z)) :
  match abs with Some a => 0 <= now < a /\ a <= INT64_MAX | None => True end ->
  (forall rel, rel = match abs with Some a => a - now | None => 0 end -> P (rel, Z.min INT_MAX rel) m []) ->
  wp (wait_timeout abs now) P m.
Proof.
  intros Ha HP. unfold wait_timeout. destruct abs as [a|]; [|mgo; by apply HP].
  rewrite int64_Some by (unfold INT64_MIN, INT64_MAX in *; lia). mgo.
  specialize (HP _ eq_refl). destruct (Z.ltb_spec INT_MAX (a - now));
    [rewrite Z.min_l in HP by lia|rewrite Z.min_r in HP by lia]; done.
Qed.

(** The timeout of the next call. *)
Definition wait_arg (abs : option Z) (now : Z) : Z :=
  match abs with Some a => Z.min INT_MAX (a - now) | None => -1 end.

Lemma wp_call_epoll_wait abs now m (P : post unit) :
  match abs with Some a => 0 <= now < a /\ a <= INT64_MAX | None => True end ->
  P tt (m <| waiting := Some (abs, now) |>) [Waits (wait_arg abs now)] ->
  wp (call_epoll_wait abs now) P m.
Proof.
  intros Ha HP. unfold call_epoll_wait. mstep. apply wp_wait_timeout; [done|]. intros rel ->.
  mgo. by destruct abs.
Qed.

(** A timer in the tree has a 64-bit time. *)
Lemma tree_time m o : reactor_inv m -> o ∈ ot_elems (timers_tree (tms m)) ->
  INT64_MIN <= time_of (tms m) o <= INT64_MAX.
Proof.
  intros Hi Ho. destruct (tree_timer _ _ _ (ri_timers _ Hi) Ho) as (t & Ht & _ & Hr).
  by rewrite (timer_time_of _ _ _ Ht).
Qed.

(** [wait_for_events] up to the call: the due timers expire, or else there is
    none and the call waits for the first timer. *)
Definition fds_clean m : Descriptors K :=
  (fdm m) <| epoll_results_num := 0 |> <| epoll_results_pos := 0 |>.
Definition waits_for (s : Timers T) (now : Z) : option Z * Z :=
  match head (ot_elems (timers_tree s)) with
  | Some o => (Some (time_of s o), now)
  | None => (None, 0)
  end.

Lemma fds_clean_inv m : fds_inv (fdm m) -> epoll_results_pos (fdm m) = epoll_results_num (fdm m) ->
  fds_inv (fds_clean m).
Proof.
  intros [Hl Hp Hf Hr Hn] Hpos. constructor; unfold fds_clean; sug; [done|unfold BSYSTEM_MAX_RESULTS; lia| |lia|done].
  intros o f Ho Ha. destruct (Hf o f Ho Ha) as [G1 G2 G3]. constructor; sug; [done|done|].
  intros i Hi. destruct (G3 i Hi). lia.
Qed.

Lemma wp_wait_for_events now m (P : post unit) :
  reactor_inv m -> waiting m = None -> exiting m = false -> jobs (pending_jobs m) = [] ->
  timers_expired_list (tms m) = [] -> epoll_results_pos (fdm m) = epoll_results_num (fdm m) ->
  clock m = now ->
  (forall l1 s, expired_up_to now now (tms m) l1 s ->
     let m' := m <| fdm := fds_clean m |> <| tms := s |> in
     let w := waits_for s now in
     (l1 <> [] -> reactor_inv m' -> P tt m' []) /\
     (l1 = [] -> reactor_inv (m' <| waiting := Some w |>) ->
      P tt (m' <| waiting := Some w |>) [Waits (wait_arg w.1 w.2)])) ->
  wp (wait_for_events now) P m.
Proof.
  intros Hi Hw Hex Hj Hx Hpos Hc HP. pose proof (ri_clock _ Hi) as Hclk.
  assert (Hti : timers_inv now (tms m)) by (rewrite <- Hc; apply Hi).
  assert (Hdone : forall l1 s, expired_up_to now now (tms m) l1 s ->
    reactor_inv (m <| fdm := fds_clean m |> <| tms := s |>) /\
    (l1 = [] -> reactor_inv (m <| fdm := fds_clean m |> <| tms := s |> <| waiting := Some (waits_for s now) |>))).
  { intros l1 s (l2 & [B A E Ti] & Hs & _ & H2).
    assert (Hm' : reactor_inv (m <| fdm := fds_clean m |> <| tms := s |>)).
    { apply inv_timers; [|done|by rewrite <- Hc in Hs]. apply inv_fds; [done|done|].
      apply fds_clean_inv; [apply Hi|done]. }
    split; [done|]. intros ->. destruct Hm' as [G1 G2 G3 G4 G5 _]. constructor; try done.
    unfold waits_for. sug. destruct (ot_elems (timers_tree s)) as [|o l] eqn:Ho; cbn [head];
      (split_and!; sug; [done|done| |done|done|]).
    - by rewrite E, Hx. - done.
    - by rewrite E, Hx.
    - exists o, l. split_and!; [done|done|lia| |lia]. rewrite Ti. apply H2. rewrite <- A. left. }
  unfold wait_for_events. mstep. mstep. mstep. eapply wp_has_jobs; [exact Hj|]. mgo.
  apply wp_on_fds. mgo. apply wp_on_fds. mgo.
  apply wp_on_timers. unfold tree_first. mgo. rewrite ot_first_spec.
  lazymatch goal with |- context [ot_elems (timers_tree ?s)] => change s with (tms m) end.
  set (m0 := upd tms _ _).
  assert (Hm0 : m0 = m <| fdm := fds_clean m |>) by by (unfold m0, fds_clean, upd; destruct m).
  destruct (head (ot_elems (timers_tree (tms m)))) as [o|] eqn:Ho.
  - assert (Hin : o ∈ ot_elems (timers_tree (tms m)))
      by (destruct (ot_elems _); [done|injection Ho as ->; left]).
    destruct (tree_timer _ _ _ Hti Hin) as (t & Ht & Hst & Hr).
    mstep. apply wp_on_timers. eapply wp_get_timer; [exact Ht|]. mgo.
    apply wp_on_timers. change (tms (upd tms _ m0)) with (tms m).
    eapply wp_move_expired; [done|done|]. intros l1 s Hup.
    destruct (HP _ _ Hup) as [HPx HPw]. destruct (Hdone _ _ Hup) as [Hinv Hwait].
    set (m1 := upd tms _ _).
    assert (Hm1 : m1 = m <| fdm := fds_clean m |> <| tms := s |>)
      by by (unfold m1, m0, fds_clean, upd; destruct m).
    destruct (decide (l1 = [])) as [->|Hne]; [rewrite bool_decide_true by done|rewrite bool_decide_false by done]; cbn [negb].
    + assert (Hwf : waits_for s now = (Some (absTime t), now)).
      { destruct Hup as (l2 & [B A E Ti] & _). unfold waits_for. cbn in B.
        rewrite A, <- B, Ho, Ti. by rewrite (timer_time_of _ _ _ Ht). }
      rewrite Hwf in *. apply wp_call_epoll_wait; [|rewrite Hm1; by apply HPw, Hwait].
      specialize (Hwait eq_refl). destruct (ri_waiting _ Hwait) as (_ & _ & _ & _ & _ & o' & l & _ & _ & Hlt & _).
      split; [done|lia].
    + mgo. rewrite Hm1. by apply HPx.
  - assert (Hup : expired_up_to now now (tms m) [] (tms m)) by (apply expired_up_to_nil; by rewrite ?Ho).
    destruct (HP _ _ Hup) as [_ HPw]. destruct (Hdone _ _ Hup) as [_ Hwait].
    assert (Hwf : waits_for (tms m) now = (None, 0)) by (unfold waits_for; by rewrite Ho).
    rewrite Hwf in *. apply wp_call_epoll_wait; [done|].
    assert (Hm1 : m0 = m <| fdm := fds_clean m |> <| tms := tms m |>) by by (unfold m0, fds_clean, upd; destruct m).
    rewrite Hm1. by apply HPw, Hwait.
Qed.

(** ** A round of the event loop *)

(** What a round does, in the order of the priorities: it stops, runs the job
    on top, calls the handler of the timer that expired first, reports the
    next descriptor, lets the due timers expire, or waits. *)
Inductive round_result m (now : Z) : list event -> BReactor T K -> Prop :=
  | round_exits :
      exiting m = true -> round_result m now [Exits (exit_code m)] m
  | round_job o l x g :
      exiting m = false -> jobs (pending_jobs m) = o :: l -> objs (pending_jobs m) !! o = Some x ->
      jobs g = l ->
      round_result m now [Job (Ran o (BPending.handler x) (BPending.user x))] (m <| pending_jobs := g |>)
  | round_timer o l t e s :
      exiting m = false -> jobs (pending_jobs m) = [] -> timers_expired_list (tms m) = o :: l ->
      timers (tms m) !! o = Some t -> absTime t <= now ->
      (forall o', o' ∈ l -> compare_timers (tms m) o o' = -1) ->
      handler_call o t (tms m) = Some e ->
      off_lists o (set_state TIMER_STATE_INACTIVE t) (tms m) s ->
      round_result m now [Timer e] (m <| tms := s |>)
  | round_fd t s :
      exiting m = false -> jobs (pending_jobs m) = [] -> timers_expired_list (tms m) = [] ->
      epoll_results_pos (fdm m) < epoll_results_num (fdm m) ->
      dispatched (fdm m) t -> epoll_results_pos s = epoll_results_pos (fdm m) + 1 ->
      round_result m now (Fd <$> t) (m <| fdm := s |>)
  | round_expire l s :
      exiting m = false -> jobs (pending_jobs m) = [] -> timers_expired_list (tms m) = [] ->
      epoll_results_pos (fdm m) = epoll_results_num (fdm m) ->
      expired_up_to now now (tms m) l s -> l <> [] ->
      round_result m now [] (m <| fdm := fds_clean m |> <| tms := s |>)
  | round_waits s w :
      exiting m = false -> jobs (pending_jobs m) = [] -> timers_expired_list (tms m) = [] ->
      epoll_results_pos (fdm m) = epoll_results_num (fdm m) ->
      expired_up_to now now (tms m) [] s -> w = waits_for s now ->
      round_result m now [Waits (wait_arg w.1 w.2)]
        (m <| fdm := fds_clean m |> <| tms := s |> <| waiting := Some w |>).

Lemma execute_job m o l : reactor_inv m -> waiting m = None -> jobs (pending_jobs m) = o :: l ->
  wp (on_jobs BPendingGroup_ExecuteJob) (fun _ m' t => exists x g,
    objs (pending_jobs m) !! o = Some x /\ jobs g = l /\ reactor_inv m' /\
    m' = m <| pending_jobs := g |> /\ t = [Job (Ran o (BPending.handler x) (BPending.user x))]) m.
Proof.
  intros Hi Hw Hj. pose proof (ri_jobs _ Hi) as Hg.
  destruct (gi_jobs _ Hg o) as [x Hx]; [rewrite Hj; left|].
  apply wp_on_jobs. eapply wp_mono; [apply op_Execute; [done|by rewrite Hj]|].
  intros [] g t [Hg' Hs]. cbn in Hs. rewrite Hj, lookup_fmap, Hx in Hs. injection Hs as Habs Ht.
  exists x, g. split_and!; [done| |by apply inv_jobs|done|by subst].
  exact Habs.
Qed.

Lemma wp_round m now : reactor_inv m -> waiting m = None -> clock m = now ->
  wp (BReactor_Exec now) (fun _ m' t => reactor_inv m' /\ round_result m now t m') m.
Proof.
  intros Hi Hw Hc. unfold BReactor_Exec. mgo.
  apply wp_if; intros Hex.
  { mgo. split; [done|]. by apply round_exits. }
  destruct (jobs (pending_jobs m)) as [|j js] eqn:Hj.
  2: { mstep. eapply wp_has_jobs; [exact Hj|]. cbn iota. eapply wp_mono; [by eapply execute_job|].
       cbn. intros _ m' t (x & g & Hx & Hg & Hinv & -> & ->). split; [done|]. by eapply round_job. }
  mstep. eapply wp_has_jobs; [exact Hj|]. cbn iota.
  mstep. apply wp_on_timers. eapply wp_dispatch_timer; [apply Hi|].
  destruct (timers_expired_list (tms m)) as [|o l] eqn:Hx.
  2: { intros t e s Ht He Hoff. mgo.
       assert (Hs : timers_inv (clock m) s) by (eapply off_lists_inv; [apply Hi|done|done]).
       split; [by apply inv_timers|]. eapply round_timer; try done.
       - rewrite <- (timer_time_of _ _ _ Ht), <- Hc. apply (ri_timers _ Hi). rewrite Hx. left.
       - pose proof (ti_expired _ _ (ri_timers _ Hi)) as Hs'. rewrite Hx in Hs'.
         apply StronglySorted_inv in Hs' as [_ Hs']. rewrite Forall_forall in Hs'. exact Hs'. }
  cbn iota. assert (m <| tms := tms m |> = m) as -> by by destruct m.
  mstep. apply wp_on_fds. eapply wp_dispatch_fd; [apply Hi| |].
  - intros Hpos. cbn iota. assert (m <| fdm := fdm m |> = m) as -> by by destruct m.
    apply wp_wait_for_events; try done. intros l1 s Hup. split.
    + intros Hne Hinv. split; [done|]. by eapply round_expire.
    + intros -> Hinv. split; [done|]. by eapply round_waits.
  - intros s Hlt Hs Hps Hns t Hd. mgo. split; [by apply inv_fds|].
    cbn. rewrite app_nil_r. by apply round_fd.
Qed.

(** ** The return of [epoll_wait] *)

(** The limits after a wait. *)
Definition limits_reset (l l' : Limits) : Prop :=
  active_limits_list l' = [] /\ limits l' = zeroed <$> limits l.

(** The loop calls again only when it was interrupted or its timeout had been
    cut off, and the first timer is still in the future. *)
Inductive wait_step m (timeout_abs : option Z) (since : Z) (res : wait_result) (now : Z) :
    list event -> BReactor T K -> Prop :=
  | wait_again since' :
      res = Interrupted \/ (res = Results [] /\ since + INT_MAX <= now) ->
      match timeout_abs with Some abs => since' = now /\ now < abs | None => since' = since end ->
      wait_step m timeout_abs since res now [Waits (wait_arg timeout_abs since')]
        (m <| waiting := Some (timeout_abs, since') |>)
  | wait_ready l s lim :
      res = Results l -> l <> [] -> pointed l 0 (fds (fdm m)) (fds s) ->
      stored l 0 (epoll_results s) -> epoll_results_num s = zlen l -> epoll_results_pos s = 0 ->
      limits_reset (lims m) lim ->
      wait_step m timeout_abs since res now []
        (m <| fdm := s |> <| waiting := None |> <| lims := lim |>)
  | wait_timeout_reached abs l s lim :
      timeout_abs = Some abs -> abs <= now -> res = Interrupted \/ res = Results [] ->
      expired_up_to abs now (tms m) l s -> l <> [] -> limits_reset (lims m) lim ->
      wait_step m timeout_abs since res now []
        (m <| tms := s |> <| waiting := None |> <| lims := lim |>).

Lemma inv_woken m : reactor_inv m -> reactor_inv (m <| waiting := None |>).
Proof. intros []. by constructor. Qed.

Lemma wp_end_wait m (P : post unit) : reactor_inv (m <| waiting := None |>) ->
  (forall lim, limits_reset (lims m) lim -> reactor_inv (m <| waiting := None |> <| lims := lim |>) ->
     P tt (m <| waiting := None |> <| lims := lim |>) []) ->
  wp end_wait P m.
Proof.
  intros Hi HP. unfold end_wait. mgo. apply wp_on_limits. apply wp_reset_limits; [apply Hi|].
  intros lim Hl Hnil Heq. apply HP; [done|]. by apply inv_lims.
Qed.

Lemma wp_move_first_end m abs since (P : post unit) :
  reactor_inv m -> waiting m = Some (Some abs, since) -> abs <= clock m ->
  (forall l s lim, expired_up_to abs (clock m) (tms m) l s -> l <> [] -> limits_reset (lims m) lim ->
     let m' := m <| tms := s |> <| waiting := None |> <| lims := lim |> in
     reactor_inv m' -> P tt m' []) ->
  wp (on_timers move_first_timers;; end_wait) P m.
Proof.
  intros Hi Hw Habs HP. pose proof (ri_waiting _ Hi) as Hwt. rewrite Hw in Hwt.
  destruct Hwt as (_ & _ & Hx & _ & _ & o & l & Ho & Hto & _).
  mstep. apply wp_on_timers. eapply (wp_move_first o l (clock m)); [apply Hi|done|done|lia|].
  intros l1 s Hup. cbn [app fmap list_fmap]. apply wp_end_wait.
  - assert (Hwoken : reactor_inv (m <| waiting := None |>)) by by apply inv_woken.
    apply (inv_timers _ s) in Hwoken; [done|done|]. by destruct Hup as (l2 & _ & Hs & _).
  - intros lim Hlim Hinv. rewrite Hto in Hup. by apply (HP (o :: l1)).
Qed.

Lemma waiting_now m abs since : reactor_inv m -> waiting m = Some (abs, since) ->
  match abs with Some a => 0 <= since < a /\ a <= INT64_MAX | None => True end.
Proof.
  intros Hi Hw. pose proof (ri_waiting _ Hi) as Hwt. rewrite Hw in Hwt. destruct abs as [a|]; [|done].
  destruct Hwt as (_ & _ & _ & _ & _ & o & l & Ho & Hto & Hn & _). split; [lia|].
  rewrite <- Hto. eapply tree_time; [done|]. rewrite Ho. left.
Qed.

(** [try_again]: the timeout has been reached, or the loop calls again. *)
Lemma wp_try_again m abs since res now (P : post unit) :
  reactor_inv m -> waiting m = Some (abs, since) -> clock m = now ->
  res = Interrupted \/ (res = Results [] /\ since + INT_MAX <= now) ->
  (forall m' t, reactor_inv m' -> wait_step m abs since res now t m' -> P tt m' t) ->
  wp (try_again abs since now) P m.
Proof.
  intros Hi Hw Hc Hres HP. pose proof (ri_waiting _ Hi) as Hwt. rewrite Hw in Hwt.
  pose proof (waiting_now _ _ _ Hi Hw) as Hrange. pose proof (ri_clock _ Hi).
  unfold try_again. destruct abs as [a|].
  - apply wp_if; intros Hle; b2p.
    + eapply wp_move_first_end; [done|done|lia|]. intros l s lim Hup Hne Hlim m' Hinv.
      apply HP; [done|]. rewrite Hc in Hup. eapply wait_timeout_reached; naive_solver.
    + apply wp_call_epoll_wait; [lia|]. apply HP; [|by apply (wait_again m (Some a) since res now now)].
      destruct Hi as [G1 G2 G3 G4 G5 _]. constructor; try done. sug.
      destruct Hwt as (? & ? & ? & ? & ? & o & l & ? & ? & ?). split_and!; try done.
      exists o, l. split_and!; try done; sug; lia.
  - apply wp_call_epoll_wait; [done|]. apply HP; [|by apply (wait_again m None since res now since)].
    destruct Hi as [G1 G2 G3 G4 G5 _]. constructor; try done.
Qed.

Lemma wp_wait_returned m abs since res now (P : post unit) :
  reactor_inv m -> waiting m = Some (abs, since) -> clock m = now ->
  wait_answer_ok m abs since res now = true ->
  (forall m' t, reactor_inv m' -> wait_step m abs since res now t m' -> P tt m' t) ->
  wp (epoll_wait_returned res now) P m.
Proof.
  intros Hi Hw Hc Hok HP. pose proof (waiting_now _ _ _ Hi Hw) as Hrange.
  pose proof (ri_waiting _ Hi) as Hwt. rewrite Hw in Hwt.
  unfold epoll_wait_returned. mstep. mstep. mstep. mstep; [exact Hw|]. cbn iota beta zeta. mstep.
  apply wp_wait_timeout; [done|]. intros rel Hrel.
  destruct res as [|e|[|r l]]; [|done|..]; cbn [app].
  - eapply wp_try_again; eauto.
  - destruct abs as [a|]; [|done]. cbn in Hok. b2p. subst rel.
    mgo. change (negb (zlen (@nil (Z * Z)) =? 0)) with false. cbn [orb].
    apply wp_if; intros Hcut; cbn [snd fst] in Hcut; b2p; cbn [app].
    + rewrite Hcut in Hok. eapply wp_move_first_end; [done|done|lia|].
      intros l s lim Hup Hne Hlim m' Hinv. apply HP; [done|]. rewrite Hc in Hup.
      eapply wait_timeout_reached; [done|lia|auto|done|done|done].
    + eapply wp_try_again; [done|done|done| |done]. right. split; [done|lia].
  - destruct Hwt as (Hex & Hj & Hx & Hpos & Hnum & _). cbn in Hok.
    destruct (results_ok_spec _ _ (ri_fds _ Hi) Hok) as (Hlen & _).
    mstep. mstep; [done|]. mstep. mstep; [b2p; exact Hlen|].
    apply wp_if; intros Hb; [|done]. mstep. apply wp_if; intros Hb'; [|done].
    apply wp_on_fds. eapply wp_take_results; [apply Hi|done|done|done|].
    intros s F HF Hs Hk Hst Hsn Hsp Hinv. cbn [app fmap list_fmap]. apply wp_end_wait.
    + change (reactor_inv (m <| waiting := None |> <| fdm := s |>)). apply inv_fds; [by apply inv_woken|done|done].
    + intros lim Hlim Hm'. apply HP; [done|]. subst F. by apply (wait_ready m abs since _ now (r :: l)).
Qed.

(** ** Every action *)

Definition settles {A} (p : M (BReactor T K) event A) m : Prop := wp p (fun _ m' _ => reactor_inv m') m.

Lemma settle_timers {A} (p : M (Timers T) timer_event A) m : reactor_inv m -> waiting m = None ->
  wp p (fun _ s _ => timers_inv (clock m) s) (tms m) -> settles (on_timers p) m.
Proof.
  intros Hi Hw Hp. apply wp_on_timers. eapply wp_mono; [exact Hp|]. intros. by apply inv_timers.
Qed.
Lemma settle_fds {A} (p : M (Descriptors K) fd_event A) m : reactor_inv m -> waiting m = None ->
  wp p (fun _ s _ => fds_inv s) (fdm m) -> settles (on_fds p) m.
Proof.
  intros Hi Hw Hp. apply wp_on_fds. eapply wp_mono; [exact Hp|]. intros. by apply inv_fds.
Qed.
Lemma settle_limits {A} (p : M Limits Empty_set A) m : reactor_inv m ->
  wp p (fun _ s _ => limits_inv s) (lims m) -> settles (on_limits p) m.
Proof.
  intros Hi Hp. apply wp_on_limits. eapply wp_mono; [exact Hp|]. intros. by apply inv_lims.
Qed.
(** The result of a part is returned. *)
Lemma settle_returned (p : M (BReactor T K) event bool) m :
  settles p m -> settles (b ← p; emit (Returned b)) m.
Proof. intros Hp. apply wp_bind. eapply wp_mono; [exact Hp|]. intros b s t Hs. by mgo. Qed.

Lemma step_set_timer m o now (p : M (Timers T) timer_event unit) : reactor_inv m -> waiting m = None ->
  time_ok m now = true -> has_timer m o = true ->
  (forall t, timers (tms m) !! o = Some t -> timers_inv now (tms m) -> INT64_MIN <= now <= INT64_MAX ->
     wp p (fun _ s _ => timers_inv now s) (tms m)) ->
  settles (clock ::= now;; on_timers p) m.
Proof.
  intros Hi Hw Hnow Ho Hp. pose proof (inv_clock _ _ Hi Hnow) as Hi'. pose proof (ri_clock _ Hi).
  unfold has_timer in Ho. unfold time_ok in Hnow. b2p. destruct Ho as [t Ht].
  unfold settles. mstep. mstep. apply settle_timers; [exact Hi'|exact Hw|].
  apply (Hp t); [done|apply Hi'|unfold INT64_MIN, INT64_MAX in *; lia].
Qed.

(** The calls on timers. *)
Definition timer_action (a : action) : bool :=
  match a with
  | InitTimer _ _ | InitBTimer _ _ _ _ | FreeTimer _ | TimerIsRunning _ | SetSmallTimer _ _ _ _
  | SetTimer _ _ | SetTimerAfter _ _ _ | SetTimerAbsolute _ _ _ | RemoveTimer _ => true
  | _ => false
  end.
Lemma step_timers m a : reactor_inv m -> waiting m = None -> timer_action a = true ->
  call_enabled m a = true -> settles (exec_action a) m.
Proof.
  intros Hi Hw Ha Hen. pose proof (ri_timers _ Hi) as Hti.
  destruct a; try done; cbn [exec_action call_enabled] in *.
  - apply settle_timers; [done..|]. unfold BSmallTimer_Init. mgo. unfold has_timer in Hen. b2p.
    apply eq_None_not_Some in Hen. by apply (timer_init_inv _ o _ (heavy (tms m)) _ Hti).
  - unfold has_timer in Hen. b2p. apply settle_timers; [done..|]. unfold BTimer_Init. mgo.
    match goal with H : ~ is_Some _ |- _ => apply eq_None_not_Some in H as Hn end.
    apply (timer_init_inv _ o _ (<[o := mk_btm user msTime]> (heavy (tms m))) _ Hti); try done.
    + intros x Hx. by apply lookup_insert_is_Some'; right.
    + rewrite lookup_insert_eq. eauto.
  - apply settle_timers; [done..|]. unfold timer_release. mgo.
    apply (timer_release_inv _ o (delete o (heavy (tms m))) _ Hti Hen).
    intros x Hx. by rewrite lookup_delete_ne.
  - apply settle_returned, settle_timers; [done..|]. unfold has_timer in Hen. b2p. destruct Hen as [t Ht].
    unfold BSmallTimer_IsRunning. mstep. eapply wp_assert_timer; [done|done|].
    mstep. eapply wp_get_timer; [done|]. by mgo.
  - b2p. apply (step_set_timer m o); [done..|]. intros t Ht Hn Hr. eapply wp_set_timer; try done.
    + match goal with H : _ || _ = true |- _ => apply orb_true_iff in H end. by rewrite !Z.eqb_eq in *.
    + by apply fits_int64_spec.
  - b2p. destruct (heavy (tms m) !! o) as [bt|] eqn:Hbt; [|done].
    apply (step_set_timer m o); [done..|]. intros t Ht Hn Hr. unfold BReactor_SetTimer, get_heavy. mgo.
    eapply wp_set_timer; try done; [by right|by apply fits_int64_spec].
  - b2p. apply (step_set_timer m o); [done..|]. intros t Ht Hn Hr.
    eapply wp_set_timer; try done; [by right|by apply fits_int64_spec].
  - b2p. apply (step_set_timer m o); [done..|]. intros t Ht Hn Hr.
    eapply wp_set_timer; try done; [by left|by apply fits_int64_spec].
  - apply settle_timers; [done..|]. unfold has_timer in Hen. b2p. destruct Hen as [t Ht].
    eapply wp_remove_timer; [done|done|]. intros s Hoff. by eapply off_lists_inv.
Qed.

(** The calls on descriptors. *)
Definition fd_action (a : action) : bool :=
  match a with
  | InitFd _ _ _ _ | FreeFd _ | AddFd _ | RemoveFd _ | SetFdEvents _ _ => true
  | _ => false
  end.
Lemma fd_test_Some (s : Descriptors K) o p : fd_test s o p = true ->
  exists f, fds s !! o = Some f /\ p f = true.
Proof. unfold fd_test. destruct (fds s !! o) as [f|]; [eauto|done]. Qed.

Lemma step_fds m a : reactor_inv m -> waiting m = None -> fd_action a = true ->
  call_enabled m a = true -> settles (exec_action a) m.
Proof.
  intros Hi Hw Ha Hen. pose proof (ri_fds _ Hi) as Hfi.
  destruct a; try done; cbn [exec_action call_enabled] in *.
  - b2p. apply settle_fds; [done..|]. apply wp_init_fd; [done|done|done].
  - apply fd_test_Some in Hen as (f & Hf & Hact). b2p. apply settle_fds; [done..|]. mgo.
    apply fd_release_inv; [done|]. unfold fd_test. by rewrite Hf.
  - apply fd_test_Some in Hen as (f & Hf & Hact). b2p.
    apply settle_returned, settle_fds; [done..|]. by eapply wp_add_fd.
  - apply fd_test_Some in Hen as (f & Hf & Hact).
    apply settle_fds; [done..|]. by eapply wp_remove_fd.
  - b2p. match goal with H : fd_test _ _ _ = true |- _ => apply fd_test_Some in H as (f & Hf & Hact) end.
    apply settle_fds; [done..|]. eapply wp_set_events; [done|done|done| |done]. unfold wait_ok. lia.
Qed.

(** The calls on limits. *)
Definition limit_action (a : action) : bool :=
  match a with LimitInit _ _ | LimitFree _ | LimitIncrement _ | LimitSet _ _ => true | _ => false end.
Lemma limit_arg_spec n : limit_arg n = true -> 0 < n <= INT_MAX.
Proof. unfold limit_arg. intros. b2p. done. Qed.

Lemma step_limits m a : reactor_inv m -> limit_action a = true ->
  call_enabled m a = true -> settles (exec_action a) m.
Proof.
  intros Hi Ha Hen. pose proof (ri_limits _ Hi) as Hli.
  destruct a; try done; cbn [exec_action call_enabled] in *; b2p.
  - apply settle_limits; [done|]. apply wp_limit_init; [done|done|by apply limit_arg_spec|done].
  - destruct Hen as [l Hl]. apply settle_limits; [done|]. by eapply wp_limit_free.
  - destruct Hen as [l Hl]. apply settle_returned, settle_limits; [done|]. by eapply wp_limit_increment.
  - match goal with H : is_Some _ |- _ => destruct H as [l Hl] end.
    apply settle_limits; [done|]. eapply wp_limit_set; [done|done|by apply limit_arg_spec|done].
Qed.

Lemma step_jobs m a : reactor_inv m -> waiting m = None ->
  BPending.action_enabled (pending_jobs m) a = true -> settles (on_jobs (BPending.exec_action a)) m.
Proof.
  intros Hi Hw Hen. apply wp_on_jobs. eapply wp_mono; [apply step_simulates; [apply Hi|done]|].
  intros _ g t [Hg _]. by apply inv_jobs.
Qed.

Lemma step_synchronize m ref : reactor_inv m -> waiting m = None ->
  call_enabled m (Synchronize ref) = true -> settles (BReactor_Synchronize ref) m.
Proof.
  intros Hi Hw Hen. cbn [call_enabled] in Hen. unfold settles, BReactor_Synchronize. mstep. mstep.
  apply wp_if; intros Hex; [by mgo|]. rewrite Hex in Hen. cbn [orb] in Hen. b2p.
  destruct (jobs (pending_jobs m)) as [|j l] eqn:Hj; [done|].
  mstep. eapply wp_has_jobs; [exact Hj|]. mstep. mstep; [done|].
  mstep. apply wp_on_jobs. unfold BPendingGroup_PeekJob. mgo.
  assert (m <| pending_jobs := pending_jobs m |> = m) as -> by by destruct m.
  mstep; [by mgo|]. eapply wp_mono; [by eapply execute_job|]. intros _ m' t (x & g & _ & _ & Hinv & _). exact Hinv.
Qed.

Lemma reactor_step_inv m a : reactor_inv m -> action_enabled m a = true -> settles (exec_action a) m.
Proof.
  intros Hi Hen. unfold action_enabled in Hen. destruct (waiting m) as [[abs since]|] eqn:Hw.
  { destruct a; try done. b2p. cbn [exec_action]. unfold settles. mstep. mstep.
    eapply wp_wait_returned; [by apply inv_clock|exact Hw|done|done|]. done. }
  destruct (timer_action a) eqn:Ht; [by apply step_timers|].
  destruct (fd_action a) eqn:Hf; [by apply step_fds|].
  destruct (limit_action a) eqn:Hl; [by apply step_limits|].
  destruct a; try done; cbn [exec_action].
  - apply step_jobs; [done|done|]. cbn in Hen. by destruct a.
  - unfold settles, BReactor_Quit. mgo. by apply (inv_quit m code).
  - by apply step_synchronize.
  - unfold settles. mstep. mstep. eapply wp_mono; [apply wp_round|]; [by apply inv_clock|done|done|].
    by intros _ m' t [Hm' _].
Qed.

(** ** Everything is released *)

Lemma reactor_free_ok m : reactor_inv m -> waiting m = None -> objs (pending_jobs m) = ∅ ->
  (forall o t, timers (tms m) !! o = Some t -> state t = TIMER_STATE_INACTIVE) ->
  limits (lims m) = ∅ ->
  exists m', BReactor_Free m = Some (tt, m', []).
Proof.
  intros Hi Hw Hobjs Hts Hls.
  assert (Hjobs : jobs (pending_jobs m) = []).
  { destruct (jobs (pending_jobs m)) as [|j l] eqn:Hj; [done|].
    destruct (gi_jobs _ (ri_jobs _ Hi) j) as [x Hx]; [rewrite Hj; left|]. by rewrite Hobjs in Hx. }
  assert (Hnone : forall o, ~ (o ∈ ot_elems (timers_tree (tms m)) \/ o ∈ timers_expired_list (tms m))).
  { intros o Ho. destruct (ti_dom _ _ (ri_timers _ Hi) o Ho) as [t Ht].
    destruct (timer_lists _ _ _ _ (ri_timers _ Hi) Ht) as [H1 H2]. rewrite (Hts _ _ Ht) in H1, H2.
    destruct Ho as [Ho|Ho]; [apply H1 in Ho|apply H2 in Ho]; done. }
  assert (Htree : head (ot_elems (timers_tree (tms m))) = None).
  { destruct (ot_elems _) as [|o l]; [done|]. destruct (Hnone o). left. left. }
  assert (Hexp : timers_expired_list (tms m) = []).
  { destruct (timers_expired_list _) as [|o l]; [done|]. destruct (Hnone o). right. left. }
  assert (Hlim : active_limits_list (lims m) = []).
  { destruct (active_limits_list _) as [|o l] eqn:Ho; [done|].
    destruct (li_active _ (ri_limits _ Hi) o) as [x Hx]; [rewrite Ho; left|]. by rewrite Hls in Hx. }
  assert (Hwp : wp BReactor_Free (fun _ _ t => t = []) m).
  { unfold BReactor_Free. mstep. mstep. mstep. eapply wp_has_jobs; [exact Hjobs|]. mgo.
    apply wp_on_timers. unfold tree_first. mgo. rewrite ot_first_spec, Htree. mgo.
    apply wp_on_jobs. unfold BPendingGroup_Free. mgo. done. }
  apply wp_elim in Hwp as ([] & m' & t & Hm & ->). by exists m'.
Qed.

Lemma reach_reactor_inv m0 tr m : BReactor_Init (T:=T) (K:=K) true = Some m0 -> reach m0 tr m -> reactor_inv m.
Proof.
  intros H0. apply (reach_inv (fun _ => reactor_inv)).
  - intros tr' m' a Hi Ha. by apply reactor_step_inv.
  - by apply reactor_inv_init.
Qed.


(** The events a descriptor's handler is called with. *)
Definition report_ok m (e : event) : Prop :=
  match e with
  | Fd (FdHandler o h u evs) => exists f, fds (fdm m) !! o = Some f /\ active f = true /\
      h = handler f /\ u = ReactorFds.user f /\ evs <> 0 /\
      Z.land evs (Z.lnot (Z.lor (waitEvents f) (Z.lor BREACTOR_ERROR BREACTOR_HUP))) = 0
  | _ => True
  end.

Lemma dispatched_ok m t : reactor_inv m -> dispatched (fdm m) t -> Forall (report_ok m) (Fd <$> t).
Proof.
  intros Hi (e & He & Hd). destruct (data_ptr e) as [o|]; [|by subst].
  destruct Hd as (f & Hf & Ha & ->). unfold fd_call. destruct (report_events f e =? 0) eqn:Hz; [constructor|].
  b2p. constructor; [|constructor]. exists f. split_and!; try done.
  apply report_events_subset, (fi_fds _ (ri_fds _ Hi) o f Hf Ha).
Qed.
Lemma round_reports m now t m' : reactor_inv m -> round_result m now t m' -> Forall (report_ok m) t.
Proof. intros Hi Hr. inversion Hr; subst; try (by repeat constructor). by apply dispatched_ok. Qed.

(** C39: a round of [BReactor_Exec] does exactly one thing, and the first
    that applies: return the exit code, run the job on top of the stack, call
    the handler of the first expired timer, which is due and before all other
    expired ones in time, report the next descriptor that has not been
    removed, with events that are not zero and were asked for (errors and
    hang-ups apart), move the due timers to the expired list, in their order,
    or wait for at most the time to the first timer, when no timer is due. *)
Theorem reactor_round (m0 m : BReactor T K) (tr : list event) (now : Z)
  (Hinit : BReactor_Init true = Some m0) (Hreach : reach m0 tr m)
  (Hwait : waiting m = None) (Hnow : time_ok m now = true) :
  exists m' t, exec (Round now) m = Some (tt, m', t) /\
    round_result (m <| clock := now |>) now t m' /\ Forall (report_ok m) t.
Proof.
  assert (Hi : reactor_inv (m <| clock := now |>)) by by apply inv_clock; [eapply reach_reactor_inv|].
  assert (Hwp : wp (exec (Round now)) (fun _ m' t => round_result (m <| clock := now |>) now t m') m).
  { cbn [exec reactor_system exec_action]. mstep. mstep.
    eapply wp_mono; [by apply wp_round|]. by intros _ m' t []. }
  apply wp_elim in Hwp as ([] & m' & t & Hm & Hr). exists m', t. split_and!; [done|done|].
  exact (round_reports (m <| clock := now |>) now t m' Hi Hr).
Qed.

(** How often [epoll_wait] came back with nothing. *)
Definition is_timeout (a : action) : bool :=
  match a with WaitReturns (Results []) _ => true | _ => false end.
Fixpoint timeouts (acts : list action) : Z :=
  match acts with [] => 0 | a :: acts => (if is_timeout a then 1 else 0) + timeouts acts end.

Lemma exec_wait m abs since res now : reactor_inv m -> waiting m = Some (abs, since) ->
  action_enabled m (WaitReturns res now) = true ->
  exists m' t, exec (WaitReturns res now) m = Some (tt, m', t) /\ reactor_inv m' /\
    wait_step (m <| clock := now |>) abs since res now t m'.
Proof.
  intros Hi Hw Hen. cbn [action_enabled] in Hen. unfold action_enabled in Hen. rewrite Hw in Hen. b2p.
  assert (Hwp : wp (exec (WaitReturns res now)) (fun _ m' t => reactor_inv m' /\
            wait_step (m <| clock := now |>) abs since res now t m') m).
  { cbn [exec reactor_system exec_action]. mstep. mstep.
    eapply wp_wait_returned; [by apply inv_clock|exact Hw|done|done|]. done. }
  apply wp_elim in Hwp as ([] & m' & t & Hm & Hinv & Hs). by exists m', t.
Qed.

(** Once the wait is over the call does not return any more. *)
Lemma timeouts_bound abs since acts : forall m m' t,
  reactor_inv m -> waiting m = Some (Some abs, since) ->
  Forall (fun a => exists res now, a = WaitReturns res now) acts -> run acts m = Some (m', t) ->
  timeouts acts <= 1 + (abs - since) / INT_MAX.
Proof.
  revert since. induction acts as [|a acts IH]; intros since m m' t Hi Hw Hall Hrun; cbn [timeouts].
  { destruct (waiting_now _ _ _ Hi Hw) as [Hr _].
    pose proof (Z.div_pos (abs - since) INT_MAX). unfold INT_MAX in *. lia. }
  apply Forall_cons in Hall as [(res & now & ->) Hall]. cbn [run] in Hrun.
  destruct (waiting_now _ _ _ Hi Hw) as [Hr _].
  assert (0 <= (abs - since) / INT_MAX) by (apply Z.div_pos; unfold INT_MAX; lia).
  destruct (enabled m (WaitReturns res now)) eqn:Hen; [|done].
  assert (Hsince : since <= now).
  { pose proof (ri_waiting _ Hi) as Hwt. rewrite Hw in Hwt.
    destruct Hwt as (_ & _ & _ & _ & _ & o & l & _ & _ & _ & Hle).
    cbn in Hen. unfold action_enabled in Hen. rewrite Hw in Hen. unfold time_ok in Hen. b2p. lia. }
  destruct (exec_wait m _ _ _ _ Hi Hw Hen) as (m1 & t1 & Hx & Hi1 & Hs). rewrite Hx in Hrun.
  destruct (run acts m1) as [[m2 t2]|] eqn:Hrun1; [|done].
  assert (Hended : waiting m1 = None -> timeouts acts = 0).
  { intros Hnone. destruct acts as [|a' acts']; [done|].
    apply Forall_cons in Hall as [(res' & now' & ->) _]. cbn [run] in Hrun1.
    cbn in Hrun1. unfold action_enabled in Hrun1. rewrite Hnone in Hrun1. done. }
  inversion Hs as [since' Hres Hs' | l s lim | a l s lim]; subst.
  - destruct Hs' as [-> Hlt].
    pose proof (IH now (m <| clock := now |> <| waiting := Some (Some abs, now) |>) m2 t2 Hi1 eq_refl Hall Hrun1) as Hb.
    destruct Hres as [->|[-> Hcut]]; cbn [is_timeout].
    + assert ((abs - now) / INT_MAX <= (abs - since) / INT_MAX) by (apply Z.div_le_mono; unfold INT_MAX; lia). lia.
    + assert ((abs - now) / INT_MAX <= (abs - since + (-1) * INT_MAX) / INT_MAX)
        by (apply Z.div_le_mono; unfold INT_MAX in *; lia).
      rewrite Z.div_add in * by (unfold INT_MAX; lia). lia.
  - rewrite Hended by done. destruct (is_timeout _); lia.
  - rewrite Hended by done. destruct (is_timeout _); lia.
Qed.

(** C40: every return of [epoll_wait] continues the wait only when it was
    interrupted or the timeout did not fit an [int], with the first timer
    still in the future; otherwise the wait is over, with results, of which
    each descriptor knows its own, or with exactly the timers of the earliest
    time expired, none of them early, and with all limits reset.  A wait with
    a timeout does not go on for ever: besides interruptions the call comes
    back with nothing at most once more than the largest [int] fits into the
    time to the first timer. *)
Theorem reactor_wait (m0 m : BReactor T K) (tr : list event) (abs : option Z) (since : Z)
  (Hinit : BReactor_Init true = Some m0) (Hreach : reach m0 tr m) (Hw : waiting m = Some (abs, since)) :
  (forall res now, action_enabled m (WaitReturns res now) = true ->
     exists m' t, exec (WaitReturns res now) m = Some (tt, m', t) /\
       wait_step (m <| clock := now |>) abs since res now t m') /\
  (forall a acts m' t, abs = Some a -> Forall (fun x => exists res now, x = WaitReturns res now) acts ->
     run acts m = Some (m', t) -> timeouts acts <= 1 + (a - since) / INT_MAX).
Proof.
  assert (Hi : reactor_inv m) by by eapply reach_reactor_inv. split.
  - intros res now Hen. destruct (exec_wait m abs since res now Hi Hw Hen) as (m' & t & Hx & _ & Hs). eauto.
  - intros a acts m' t -> Hall Hrun. by eapply timeouts_bound.
Qed.
End laws.

(** * Examples *)

(** A concrete [epoll] object: its interest list. *)
#[export] Instance epoll_map : Epoll (gmap Z (Z * Z)) := {
  epoll_created := ∅;
  epoll_ctl_add fd ev d k := match k !! fd with None => Some (<[fd := (ev, d)]> k) | Some _ => None end;
  epoll_ctl_mod fd ev d k := match k !! fd with Some _ => Some (<[fd := (ev, d)]> k) | None => None end;
  epoll_ctl_del fd k := match k !! fd with Some _ => Some (delete fd k) | None => None end;
  interest k := k
}.
#[export] Instance epoll_map_laws : EpollLaws (gmap Z (Z * Z)).
Proof.
  constructor; cbn; [done|..].
  - intros fd ev d k k'. destruct (k !! fd) eqn:Hk; [done|]. by intros [= <-].
  - intros fd ev d k [x ->]. eauto.
  - intros fd k [x Hk]. rewrite Hk. eauto.
Qed.

Abbreviation reactor_example := (BReactor BAVL.tree (gmap Z (Z * Z))).
Definition start_example : reactor_example :=
  mk_reactor false 0 BPendingGroup_Init timers_init fds_init (mk_lims [] ∅) None 0.
Lemma reactor_start_init : BReactor_Init true = Some start_example.
Proof. reflexivity. Qed.

(** Two timers, a descriptor and a limit; the first wait is interrupted and
    then reports the descriptor. *)
Definition acts_wait : list action :=
  [InitTimer 1 100; InitBTimer 2 50 200 7; InitFd 10 3 300 8; AddFd 10; SetFdEvents 10 1;
   SetTimer 2 5; SetSmallTimer 1 BTIMER_SET_RELATIVE 20 5; LimitInit 20 3; LimitIncrement 20;
   Round 5; WaitReturns Interrupted 10].
Definition acts_fire : list action :=
  [WaitReturns (Results [(10, 1)]) 15; Round 15; RemoveFd 10; Round 25].
Definition acts_end : list action :=
  [Round 25; Round 30; WaitReturns (Results []) 55; Round 55; Quit 9; Round 60; FreeTimer 1; FreeTimer 2;
   LimitFree 20].
Definition at_end (acts : list action) : reactor_example :=
  default start_example (fst <$> run acts start_example).
Definition wait_example : reactor_example := at_end acts_wait.
Definition fire_example : reactor_example := at_end (acts_wait ++ acts_fire).
Definition end_example : reactor_example := at_end (acts_wait ++ acts_fire ++ acts_end).

Lemma example_trace :
  snd <$> run (acts_wait ++ acts_fire ++ acts_end) start_example =
  Some [Returned true; Returned true; Waits 20; Waits 15; Fd (FdHandler 10 300 8 1);
        Timer (SmallHandler 1 100); Waits 25; Timer (HeavyHandler 2 200 7); Exits 9].
Proof. vm_compute. reflexivity. Qed.
Lemma at_end_reach acts : is_Some (run acts start_example) -> exists tr, reach start_example tr (at_end acts).
Proof.
  intros [[m t] Hr]. exists t. unfold at_end. rewrite Hr. cbn. by apply (run_reach start_example acts).
Qed.


(** The small timer is due and its handler is called. *)
Lemma reactor_round_witness :
  exists m' t, exec (Round 25) fire_example = Some (tt, m', t) /\
    round_result (fire_example <| clock := 25 |>) 25 t m' /\ Forall (report_ok fire_example) t.
Proof.
  destruct (at_end_reach (acts_wait ++ acts_fire)) as [tr Hr]; [vm_compute; eauto|].
  exact (reactor_round start_example fire_example tr 25 reactor_start_init Hr
    ltac:(vm_compute; reflexivity) ltac:(vm_compute; reflexivity)).
Defined.

(** The wait with 15 milliseconds to go. *)
Lemma reactor_wait_witness :
  (exists m' t, exec (WaitReturns (Results [(10, 1)]) 15) wait_example = Some (tt, m', t) /\
     wait_step (wait_example <| clock := 15 |>) (Some 25) 10 (Results [(10, 1)]) 15 t m') /\
  timeouts [WaitReturns Interrupted 12; WaitReturns (Results []) 25] <= 1 + (25 - 10) / INT_MAX.
Proof.
  destruct (at_end_reach acts_wait) as [tr Hr]; [vm_compute; eauto|].
  destruct (reactor_wait start_example wait_example tr (Some 25) 10 reactor_start_init Hr
    ltac:(vm_compute; reflexivity)) as [Hstep Hbound]. split.
  - apply Hstep. vm_compute. reflexivity.
  - destruct (run [WaitReturns Interrupted 12; WaitReturns (Results []) 25] wait_example) as [[m' t]|] eqn:Hrun;
      [|vm_compute in Hrun; discriminate].
    apply (Hbound 25 _ m' t eq_refl); [|exact Hrun]. repeat constructor; eauto.
Defined.
